(* ===== verification/_CoqProject ===== *)
-Q . S2P
Prelude.v
Pruning.v
Tables.v
Text.v
Utf8.v
Store.v
StoreInv.v
StoreFacts.v
StoreImport.v
StoreAudit.v
Policy.v
Auth.v
AuthFacts.v
Vault.v
VaultFacts.v
Directory.v
DirectoryFacts.v
Framing.v
Cliprdr.v
Route.v
RouteFacts.v
Scanner.v
ScannerFacts.v
Clip.v
ClipInv.v
ClipFacts.v
ClipStaging.v
ClipServe.v
ClipProgress.v
Relay.v
RelayFacts.v
RelaySample.v
ScanService.v
Live.v
Settings.v
App.v
AppFacts.v
Proxy.v
ProxyFacts.v
Web.v
WebFacts.v
ProxySample.v
WebServers.v
Instant.v
ServerList.v
ServerListFacts.v
Admin.v
AdminFacts.v
Migrate.v
Stamp.v
MigrateFacts.v
MigrateLimits.v
Export.v
Access.v
MigrateSample.v
Schema.v
SchemaFacts.v
Xml.v
Saml.v
SamlFacts.v
SamlSample.v
Sso.v
Config.v
ConfigFacts.v
Start.v
Cli.v
CliFacts.v
CliSample.v
Rounds.v
Logfile.v
Https.v
Listener.v
Serving.v
ServingFacts.v
Pages.v
ExportRequest.v
Routes.v
RawRelay.v
Swap.v
HostSetup.v
