(* ===== verification/Prelude.v ===== *)
(** * Verification of the web-access RDP gateway

    web-access is a proxy that lets a browser open Remote Desktop sessions on servers assigned to
    its user. Users sign in with a directory account, a local account or single sign-on; an
    administrator assigns servers; a connection is opened with a single-use ticket over a WebSocket;
    files copied through the RDP clipboard are staged, scanned and only then offered.

    ** The parts and how they interact

    A request passes the guards of [web.rs], which find the user's session in the store and run the
    handler under a gate that an import holds exclusively. Sign-in asks the vault (local accounts),
    the directory client, or the SAML service provider, and then records the session in the store.
    Connecting asks the policy, issues a ticket and registers the WebSocket; [proxy.rs] redeems the
    ticket, relays bytes through the framer, the router and the clipboard machine, and records the
    end. Background checks end connections whose sign-in ended or whose account the directory
    disowns. The scan service keeps the scanner's health. Command-line tools open the same database
    as the service.

    ** Files

    - [Prelude]: results and the state monad with early returns, invariants of computations and
      their automation, bytes, machine integers and their little-endian forms, orders.
    - [Tables], [Text], [Utf8]: tables keyed by row id, text and numbers, and the UTF-8 and
      white-space functions of the standard library.
    - [Store], [StoreInv], [StoreFacts], [StoreImport], [StoreAudit] (src/src/store.rs): the
      database as a record of finite maps, one definition per method; the schema's invariant; ids,
      assignments, SID bindings and sessions; the import of servers; the audit log.
    - [Schema], [SchemaFacts] (store.rs): the database at every version of its schema, and the
      migrations between them.
    - [Policy] (policy.rs), [Auth], [AuthFacts] (auth.rs): what a user may reach; cookies, tickets
      and throttles.
    - [Vault], [VaultFacts] (vault.rs): sealing, local passwords, recovery passphrases and the
      master key, over the classes [Crypto] and [KeyProtector].
    - [Directory], [DirectoryFacts] (directory.rs, and the entry constructor of ldap3): names, SIDs
      and filters; authentication and lookups against the record [Network] of what the controllers
      answer.
    - [Framing], [Cliprdr], [Route], [RouteFacts] (scan/framing.rs, scan/route.rs and the vendored
      PDU readers): cutting the stream into units, and taking the clipboard channel out of it.
    - [Scanner], [ScannerFacts] (scan/scanner.rs): AMSI and scanner programs.
    - [Clip], [ClipInv], [ClipFacts], [ClipStaging], [ClipServe], [ClipProgress] (scan/clip.rs): the
      clipboard machine as a step function, its invariant, what it offers, the staging limit, what
      it writes, and that a fetch ends.
    - [ScanService] (scan/mod.rs), [Live] (live.rs), [Settings] (settings.rs).
    - [App], [AppFacts] (app.rs, proxy.rs, resolve.rs, server.rs): the running proxy, admission, the
      end of a session, orphaned connections and revocation.
    - [Web], [WebFacts], [WebServers] (web.rs): guards and the user's requests. A request that
      leaves the gate takes what others did meanwhile as a function on the running proxy.
    - [Relay], [RelayFacts], [RelaySample], [Proxy], [ProxyFacts], [ProxySample] (proxy.rs, and the
      messages of ironrdp-rdcleanpath): the relay as parts that interleave over bounded channels,
      and setting a session up as a function of what the client, the resolver, the server and other
      requests did ([Visit]).
    - [ServerList], [ServerListFacts], [Admin], [AdminFacts] (admin.rs): the server import format
      and the administrator's requests.
    - [Migrate], [Stamp], [MigrateFacts], [MigrateLimits], [Export], [ExportRequest], [MigrateSample]
      (migrate.rs and the migration part of admin.rs): exports, uploads, the swap and its failures,
      backups, the freeze an export sets as a step relation, the export as one request, and a database
      format to run them on.
    - [Access]: the whole proxy as a step relation, in which requests that hold the gate together
      interleave call by call, for what holds across its parts.
    - [Config], [ConfigFacts] (config.rs), [Start] (app.rs, and the key file of vault.rs): the
      configuration file's checks, and opening the proxy's state with the files that makes.
    - [Cli], [CliFacts], [CliSample] (main.rs): the command line. A tool's state is the opened proxy,
      the data directory, the disk, which remembers the states it went through, and what is typed.
    - [Rounds] (server.rs): a round of each background check.
    - [Serving], [ServingFacts] (server.rs, service.rs): the processes of a machine
      from start to end, command-line tools beside them, the lock of a data directory and a service's
      reports, as a step relation.
    - [Pages] (web.rs, build.rs), [Routes] (web.rs, admin.rs): pages with their tags and
      encodings, the headers of responses; the routing table, and an administrator's request from the
      router's guards to the end of its handler.
    - [RawRelay] (proxy.rs), [Swap] (store.rs): the relay without scanning; replacing the
      database file under an import, and what that cuts off.
    - [HostSetup] (proxy.rs, directory.rs, https.rs, saml.rs, vault.rs, scan/scanner.rs, app.rs,
      admin.rs): the certificates and metadata read at start, over the class [PkiLib]; the key's
      protector, the registered scanners, the host's name and the status page.
    - [Https], [Listener] (https.rs, server.rs, web.rs): the certificate in use and its warnings, the
      log of failed handshakes, and the places of connections under the limit, as a step relation.
    - [Pruning], [Logfile] (logfile.rs, and the backups of migrate.rs): files of which the newest are
      kept, and the daily log.
    - [Instant], [Xml], [Saml], [SamlFacts], [SamlSample] (saml.rs, and the document arena of
      uppsala): times, documents, the checks of a response, and a response to run them on.
    - [Sso] (sso.rs): the single sign-on routes.

    ** What the theorems show

    - The store: every sequence of calls keeps the schema's invariant, an id names one row for ever,
      a bound SID stays bound, a session never changes hands, assignments and imports are exact, a
      retention pass ends; a migration of the schema keeps every row, and a copy, and ends in a
      database with the invariant.
    - Sign-in: who gets a session proved the account's password, or was vouched for by a signed
      assertion about that account; a response is accepted once; a refused sign-in starts nothing.
    - Access: no connection outlives its assignment but until the request that took it away has ended
      it, or where two edits of one user's servers overlap, which can leave one (a finding); a session
      reaches only the server it was admitted to and denials look alike, the list and the
      connections agree, a ticket is used once and opens what it was handed out for, admission is
      exact, signing out and revocation end exactly what they should.
    - Secrets: the master key is never lost, a saved credential comes back to its owner only.
    - Administration: only administrators change anything, whatever route it is, a frozen proxy takes no edit, an import
      file is read as written or every bad line is named.
    - Moving: an export moves everything, a download is the database as the gate saw it, a failed import changes nothing but for files
      the system would not delete, a successful one cuts off what was admitted before or was under way, the swap of the file is all or nothing, an export not delivered leaves
      no freeze, uploads and backups are bounded.
    - Configuration and starting: a file is accepted exactly when it is well formed; opening the
      state again changes nothing, serving starts with nothing left behind, the key's protector stays
      the same, servers and domain controllers are checked against exactly the roots configured.
    - Processes: one serves a data directory at a time and, tools apart, nobody else changes it, one told to stop
      stops and gives its lock back, and a service reports where it is, in order.
    - Requests: every response carries the protecting headers, and a page served is the file embedded, sent again when it changes.
    - Tools: one that fails changes nothing but what opening did, an export's file is replaced whole or not at all even
      if the machine stops, a local account verifies the password that was typed.
    - The listener: the limit on connections holds, a place is kept until the session is established and none is lost, the certificate in use is
      the last that could be read, failed handshakes are all accounted for; a round of checks leaves
      what lives; the log holds the newest days.
    - The stream: the relay passes everything but the clipboard, in order and unchanged but for the
      message that sets its channel up, framing is
      lossless and independent of how the network cuts it, reassembly is the inverse of chunking,
      and units are conserved; without scanning, bytes pass as they are.
    - The clipboard: only scanned bytes are offered and served, nothing else leaves, staging is
      bounded but for sizes whose sum wraps (a finding), and a fetch with a cooperating sender ends
      with a scan for each file.

    ** Bounds and fuel

    Integers are [Z] with their wrap-around written out where the code can reach it ([wrap]); sizes
    of buffers are [Z] or [nat]. The framer's loop takes as many rounds as there are bytes; a
    scanner program is polled at most as often as its deadline has intervals; a retention pass takes
    one batch more than there are old rows; following siblings in a document takes at most as many
    steps as there are nodes, which is the code's own bound, and its depth is at most their number;
    making room for an upload removes one upload each round; a process has five steps of its own to
    take before it serves or ends; a database file is opened at most eleven times. Each is shown to be enough where a
    theorem says that a result is reached.

    ** Parameters

    Cryptography (SHA-256, AES-GCM, Argon2, HMAC), the PDU codecs, the database's file format, zip,
    TOML, the XML parser and signature verifier, PEM and X.509, JSON, base64, deflate and gzip are
    parameters with the
    documented laws the code relies on as fields of classes; clocks, random bytes and what the
    network answered are arguments. Each class has an instance on which the theorems are run.

    ** Not modelled

    Sockets, TLS, threads and timers are input and output; what they carry is an argument of the
    definitions. SQLite's pragmas, HTTP itself, the matching of paths to routes beyond what axum
    documents, JSON bodies, the HTML of single sign-on answers, socket options, what is logged to the
    console and printed by the tools, turning echo off, the service dispatcher, DPAPI, the AMSI
    functions and the registry are calls of a library or of the operating system, and are
    not modelled. *)

From stdpp Require Export base gmap sets list strings fin_maps pretty sorting.
From Stdlib Require Export ZArith Lia.
From Stdlib Require Export Ascii Strings.Byte.

(** ** Results and early returns *)

(** Rust's [Result<A, E>]; the error type comes first so that [result E] is a monad. *)
Inductive result (E A : Type) : Type :=
  | Ok (a : A)
  | Err (e : E).
Arguments Ok {E A} a.
Arguments Err {E A} e.

#[export] Instance result_ret E : MRet (result E) := fun A a => Ok a.
#[export] Instance result_bind E : MBind (result E) :=
  fun A B f r => match r with Ok a => f a | Err e => Err e end.
#[export] Instance result_fmap E : FMap (result E) :=
  fun A B f r => match r with Ok a => Ok (f a) | Err e => Err e end.

(** [Option::ok_or]. *)
Definition ok_or {E A} (e : E) (o : option A) : result E A :=
  match o with Some a => Ok a | None => Err e end.

Definition is_ok {E A} (r : result E A) : bool :=
  match r with Ok _ => true | Err _ => false end.

(** ** State with errors *)

(** A computation over a state [S] that may return early with an error. The state is returned in
    both cases: what an [Err] leaves behind is decided by the code, not by the monad. *)
Definition M (S E A : Type) : Type := S → result E A * S.

#[export] Instance M_ret S E : MRet (M S E) := fun A a s => (Ok a, s).
#[export] Instance M_bind S E : MBind (M S E) :=
  fun A B f m s =>
    match m s with
    | (Ok a, s') => f a s'
    | (Err e, s') => (Err e, s')
    end.
#[export] Instance M_fmap S E : FMap (M S E) :=
  fun A B f m s =>
    match m s with
    | (Ok a, s') => (Ok (f a), s')
    | (Err e, s') => (Err e, s')
    end.

Section state_error.
Context {S E : Type}.
Implicit Types (s : S).

Definition get : M S E S := fun s => (Ok s, s).
Definition gets {A} (f : S → A) : M S E A := fun s => (Ok (f s), s).
Definition put (s' : S) : M S E unit := fun _ => (Ok (), s').
Definition modify (f : S → S) : M S E unit := fun s => (Ok (), f s).
Definition throw {A} (e : E) : M S E A := fun s => (Err e, s).
Definition lift {A} (r : result E A) : M S E A := fun s => (r, s).

(** [Result::map_err]. *)
Definition map_err {E' A} (f : E → E') (m : M S E A) : M S E' A :=
  fun s => match m s with
           | (Ok a, s') => (Ok a, s')
           | (Err e, s') => (Err (f e), s')
           end.

(** A transaction dropped without a commit, which is what an early return does to it, restores
    the state it began with. *)
Definition transaction {A} (m : M S E A) : M S E A :=
  fun s => match m s with
           | (Ok a, s') => (Ok a, s')
           | (Err e, _) => (Err e, s)
           end.

(** Run the body for each element, in order, threading an accumulator. *)
Fixpoint foldM {A B} (f : B → A → M S E B) (b : B) (l : list A) : M S E B :=
  match l with
  | [] => mret b
  | a :: l' => b' ← f b a; foldM f b' l'
  end.

(** [m] keeps [I] whichever way it returns. *)
Definition preserves {A} (I : S → Prop) (m : M S E A) : Prop := ∀ s, I s → I (snd (m s)).

(** [m] changes nothing. *)
Definition reads {A} (m : M S E A) : Prop := ∀ s, snd (m s) = s.
End state_error.

Create HintDb preserves discriminated.
#[export] Hint Constants Opaque : preserves.
#[export] Hint Variables Opaque : preserves.

Section preserves_lemmas.
Context {S E : Type} (I : S → Prop).

Lemma preserves_ret {A} (a : A) : preserves (E:=E) I (mret a).
Proof. by intros s. Qed.

Lemma preserves_throw {A} (e : E) : preserves (A:=A) I (throw e).
Proof. by intros s. Qed.

Lemma preserves_lift {A} (r : result E A) : preserves I (lift r).
Proof. by intros s. Qed.

Lemma preserves_gets {A} (f : S → A) : preserves (E:=E) I (gets f).
Proof. by intros s. Qed.

Lemma preserves_get : preserves (E:=E) I get.
Proof. by intros s. Qed.

Lemma preserves_modify (f : S → S) : (∀ s, I s → I (f s)) → preserves (E:=E) I (modify f).
Proof. intros H s. apply H. Qed.

Lemma preserves_bind {A B} (m : M S E A) (f : A → M S E B) :
  preserves I m → (∀ a, preserves I (f a)) → preserves I (m ≫= f).
Proof.
  intros Hm Hf s Hs. specialize (Hm s Hs). unfold mbind, M_bind.
  destruct (m s) as [[a|e] s']; simpl in *; [by apply Hf|done].
Qed.

Lemma preserves_fmap {A B} (m : M S E A) (f : A → B) :
  preserves I m → preserves I (f <$> m).
Proof.
  intros Hm s Hs. specialize (Hm s Hs). unfold fmap, M_fmap.
  by destruct (m s) as [[a|e] s'].
Qed.

Lemma preserves_transaction {A} (m : M S E A) :
  preserves I m → preserves I (transaction m).
Proof.
  intros Hm s Hs. specialize (Hm s Hs). unfold transaction.
  by destruct (m s) as [[a|e] s'].
Qed.

Lemma preserves_foldM {A B} (f : B → A → M S E B) b l :
  (∀ b a, preserves I (f b a)) → preserves I (foldM f b l).
Proof.
  intros Hf. revert b. induction l as [|a l IH]; intros b; simpl.
  - apply preserves_ret.
  - apply preserves_bind; auto.
Qed.

(** Through the first part of a sequence under an invariant, to a postcondition of the whole. *)
Lemma bind_through {A B} (m : M S E A) (f : A → M S E B) (Q : S → Prop) s :
  preserves I m → I s → (∀ s', I s' → Q s') → (∀ a s', I s' → Q (snd (f a s'))) →
  Q (snd ((m ≫= f) s)).
Proof.
  intros Hm Hs He Hf. specialize (Hm s Hs). unfold mbind, M_bind.
  destruct (m s) as [[a|e] s']; simpl in *; auto.
Qed.
End preserves_lemmas.

#[export] Hint Resolve preserves_ret preserves_throw preserves_lift preserves_gets preserves_get
  preserves_bind preserves_fmap preserves_transaction preserves_foldM : preserves.

(** Discharges the structural part of an invariant-preservation goal: binds, returns, matches. *)
Ltac preserves_step :=
  first
    [ match goal with |- ∀ _, _ => intro end
    | progress eauto with preserves
    | match goal with
      | |- preserves _ (match ?x with _ => _ end) => destruct x eqn:?
      end
    | apply preserves_bind
    | apply preserves_foldM
    | apply preserves_transaction
    | apply preserves_modify ].
Ltac solve_preserves := repeat preserves_step.

(** Splits the cases of a computation's result out of an equation [m s = r]. *)
Ltac inv_M :=
  repeat match goal with
  | H : context [mbind _ _ _] |- _ => unfold mbind, M_bind in H
  | H : context [mret _ _] |- _ => unfold mret, M_ret in H
  | H : (_, _) = (_, _) |- _ => simplify_eq H; clear H; intros; subst
  end.

Section transaction_lemmas.
Context {S E : Type}.

(** Running a sequence step by step. *)
Lemma bind_ok {A B} (m : M S E A) (f : A → M S E B) s a s' :
  m s = (Ok a, s') → (m ≫= f) s = f a s'.
Proof. intros Hm. unfold mbind, M_bind. by rewrite Hm. Qed.

Lemma bind_err {A B} (m : M S E A) (f : A → M S E B) s e s' :
  m s = (Err e, s') → (m ≫= f) s = (Err e, s').
Proof. intros Hm. unfold mbind, M_bind. by rewrite Hm. Qed.

Lemma bind_gets {A B} (g : S → A) (f : A → M S E B) s : (gets g ≫= f) s = f (g s) s.
Proof. done. Qed.

(** What a sequence that succeeded went through. *)
Lemma bind_ok_inv {A B} (m : M S E A) (f : A → M S E B) s b s'' :
  (m ≫= f) s = (Ok b, s'') → ∃ a s', m s = (Ok a, s') ∧ f a s' = (Ok b, s'').
Proof. unfold mbind, M_bind. destruct (m s) as [[a|e] s']; [eauto|done]. Qed.

Lemma transaction_err_eq {A} (m : M S E A) s e s' :
  m s = (Err e, s') → transaction m s = (Err e, s).
Proof. unfold transaction. by intros ->. Qed.

Lemma transaction_err {A} (m : M S E A) s e s' :
  transaction m s = (Err e, s') → s' = s.
Proof. unfold transaction. destruct (m s) as [[a|?] ?]; naive_solver. Qed.

Lemma transaction_ok {A} (m : M S E A) s a s' :
  transaction m s = (Ok a, s') ↔ m s = (Ok a, s').
Proof. unfold transaction. destruct (m s) as [[?|?] ?]; naive_solver. Qed.
End transaction_lemmas.

(** ** Bytes and machine integers *)

Abbreviation bytes := (list byte).

#[export] Instance byte_eq_dec : EqDecision byte := Byte.byte_eq_dec.
#[export] Instance byte_countable : Countable byte :=
  inj_countable Byte.to_N Byte.of_N Byte.of_to_N.

(** The value of a [u8]. *)
Definition u8 (b : byte) : Z := Z.of_N (Byte.to_N b).

(** [x as u8]: the low eight bits. *)
Definition to_u8 (z : Z) : byte :=
  match Byte.of_N (Z.to_N (z mod 256)) with Some b => b | None => Byte.x00 end.

Definition u16_max : Z := 2 ^ 16 - 1.
Definition u32_max : Z := 2 ^ 32 - 1.
Definition u64_max : Z := 2 ^ 64 - 1.
Definition i32_max : Z := 2 ^ 31 - 1.
Definition i64_max : Z := 2 ^ 63 - 1.
Definition i64_min : Z := - 2 ^ 63.

(** Wrap-around of an unsigned [w]-bit result. *)
Definition wrap (w z : Z) : Z := z mod 2 ^ w.

Lemma u8_range b : (0 ≤ u8 b < 256)%Z.
Proof. unfold u8. pose proof (Byte.to_N_bounded b). lia. Qed.

Lemma to_u8_u8 b : to_u8 (u8 b) = b.
Proof.
  unfold to_u8. pose proof (u8_range b). rewrite Z.mod_small by done.
  unfold u8. rewrite N2Z.id. by rewrite Byte.of_to_N.
Qed.

Lemma u8_to_u8 z : (u8 (to_u8 z) = z mod 256)%Z.
Proof.
  unfold to_u8, u8. pose proof (Z.mod_pos_bound z 256 ltac:(lia)).
  destruct (Byte.of_N (Z.to_N (z mod 256))) eqn:E.
  - apply Byte.to_of_N in E. rewrite E. lia.
  - apply Byte.of_N_None_iff in E. lia.
Qed.

Lemma u8_inj a b : u8 a = u8 b → a = b.
Proof. intros H. by rewrite <-(to_u8_u8 a), H, to_u8_u8. Qed.

Lemma wrap_small w z : (0 ≤ z < 2 ^ w)%Z → wrap w z = z.
Proof. intros. unfold wrap. by apply Z.mod_small. Qed.

Lemma wrap_range w z : (0 ≤ w)%Z → (0 ≤ wrap w z < 2 ^ w)%Z.
Proof. intros. unfold wrap. apply Z.mod_pos_bound. apply Z.pow_pos_nonneg; lia. Qed.

(** The length of a buffer as the integer the code compares it with. *)
Definition len {A} (l : list A) : Z := Z.of_nat (length l).

Lemma len_nonneg {A} (l : list A) : (0 ≤ len l)%Z.
Proof. unfold len. lia. Qed.

Lemma len_app {A} (l k : list A) : len (l ++ k) = (len l + len k)%Z.
Proof. unfold len. rewrite length_app. lia. Qed.

(** ** Little-endian integers *)

Section little_endian.
#[local] Open Scope Z_scope.

(** [u64::to_le_bytes] and [u32::to_le_bytes]: the low [n] bytes, least significant first. *)
Fixpoint to_le (n : nat) (z : Z) : bytes :=
  match n with O => [] | S n' => to_u8 z :: to_le n' (Z.shiftr z 8) end.

(** [u32::from_le_bytes]. *)
Fixpoint from_le (b : bytes) : Z :=
  match b with [] => 0 | x :: b' => u8 x + 256 * from_le b' end.

Lemma to_le_length n z : length (to_le n z) = n.
Proof. revert z. induction n as [|n IH]; intros z; simpl; [done|]. by rewrite IH. Qed.

Lemma from_le_range b : 0 ≤ from_le b < 2 ^ (8 * len b).
Proof.
  induction b as [|x b IH]; [done|]. unfold len in *. simpl from_le. simpl length.
  pose proof (u8_range x). rewrite Nat2Z.inj_succ.
  replace (8 * Z.succ (Z.of_nat (length b))) with (8 + 8 * Z.of_nat (length b)) by lia.
  rewrite Z.pow_add_r by lia. lia.
Qed.

Lemma from_to_le n z : from_le (to_le n z) = z mod 2 ^ (8 * Z.of_nat n).
Proof.
  revert z. induction n as [|n IH]; intros z; [by rewrite Z.mod_1_r|]. simpl.
  rewrite IH, u8_to_u8, Z.shiftr_div_pow2 by lia.
  replace (8 * Z.of_nat (S n)) with (8 + 8 * Z.of_nat n) by lia. rewrite Z.pow_add_r by lia.
  change (2 ^ 8) with 256. rewrite Z.rem_mul_r by lia. lia.
Qed.

Lemma to_from_le b : to_le (length b) (from_le b) = b.
Proof.
  induction b as [|x b IH]; simpl; [done|]. pose proof (u8_range x).
  assert (to_u8 (u8 x + 256 * from_le b) = x) as ->.
  { apply u8_inj. rewrite u8_to_u8, Z.mul_comm, Z.mod_add by lia. by apply Z.mod_small. }
  assert (Z.shiftr (u8 x + 256 * from_le b) 8 = from_le b) as ->; [|by rewrite IH].
  rewrite Z.shiftr_div_pow2 by lia. change (2 ^ 8) with 256.
  rewrite Z.mul_comm, Z.div_add by lia. rewrite Z.div_small by done. lia.
Qed.

Lemma from_le_snoc b x : from_le (b ++ [x]) = from_le b + 2 ^ (8 * len b) * u8 x.
Proof.
  induction b as [|y b IH]; [unfold len; simpl; lia|]. simpl from_le. rewrite IH. unfold len. simpl length.
  replace (8 * Z.of_nat (S (length b))) with (8 + 8 * Z.of_nat (length b)) by lia.
  rewrite Z.pow_add_r by lia. lia.
Qed.

(** Making room for a byte and putting it there. *)
Lemma lor_shift8 a x : 0 ≤ x < 256 → Z.lor (Z.shiftl a 8) x = a * 256 + x.
Proof.
  intros Hx. assert (Z.land (Z.shiftl a 8) x = 0) as Hl.
  { apply Z.bits_inj'. intros n Hn. rewrite Z.land_spec, Z.bits_0, Z.shiftl_spec by lia.
    destruct (Z.ltb_spec n 8).
    - by rewrite Z.testbit_neg_r by lia.
    - rewrite <-(Z.mod_small x (2 ^ 8)) by (simpl; lia). rewrite Z.mod_pow2_bits_high by lia.
      apply andb_false_r. }
  rewrite <-Z.lxor_lor, <-Z.add_nocarry_lxor by done. by rewrite Z.shiftl_mul_pow2 by lia.
Qed.

(** Big-endian accumulation reads the bytes in the other order. *)
Lemma foldl_be acc b :
  foldl (fun acc x => Z.lor (Z.shiftl acc 8) (u8 x)) acc b = acc * 2 ^ (8 * len b) + from_le (reverse b).
Proof.
  revert acc. induction b as [|x b IH]; intros acc; [unfold len; simpl; lia|].
  simpl foldl. rewrite IH, lor_shift8 by apply u8_range. rewrite reverse_cons, from_le_snoc.
  unfold len. rewrite length_reverse. simpl length.
  replace (8 * Z.of_nat (S (length b))) with (8 + 8 * Z.of_nat (length b)) by lia.
  rewrite Z.pow_add_r by lia. lia.
Qed.
End little_endian.

(** ** Text *)

(** Rust strings are UTF-8; a [string] here is its sequence of bytes. Only ASCII letters are folded
    by the collations and comparisons the program uses, which is the same on bytes. *)
Definition ascii_lower (c : ascii) : ascii :=
  let n := N_of_ascii c in
  if decide (65 ≤ n ∧ n ≤ 90)%N then ascii_of_N (n + 32) else c.

Definition to_ascii_lowercase (s : string) : string :=
  String.string_of_list_ascii (ascii_lower <$> String.list_ascii_of_string s).

Lemma to_ascii_lowercase_cons c s :
  to_ascii_lowercase (String c s) = String (ascii_lower c) (to_ascii_lowercase s).
Proof. done. Qed.

Lemma ascii_lower_idemp c : ascii_lower (ascii_lower c) = ascii_lower c.
Proof. by destruct c as [[] [] [] [] [] [] [] []]. Qed.

Lemma to_ascii_lowercase_idemp s :
  to_ascii_lowercase (to_ascii_lowercase s) = to_ascii_lowercase s.
Proof.
  induction s as [|c s IH]; [done|].
  by rewrite !to_ascii_lowercase_cons, ascii_lower_idemp, IH.
Qed.

(** ** Lists *)

Section list_lemmas.
Context {A : Type}.
Implicit Types (l : list A).

Lemma omap_nil_iff {B} (f : A → option B) l :
  omap f l = [] ↔ Forall (fun x => f x = None) l.
Proof.
  induction l as [|x l IH]; simpl; [by split|].
  rewrite Forall_cons. destruct (f x); naive_solver.
Qed.

Lemma existsb_false_Forall (p : A → bool) l :
  existsb p l = false ↔ Forall (fun x => p x = false) l.
Proof.
  induction l as [|x l IH]; simpl; [by split|].
  rewrite orb_false_iff, Forall_cons. naive_solver.
Qed.

Lemma existsb_true_iff (p : A → bool) l :
  existsb p l = true ↔ ∃ x, x ∈ l ∧ p x = true.
Proof.
  rewrite existsb_exists. by setoid_rewrite <-list_elem_of_In.
Qed.
End list_lemmas.

(** ** Orders *)

(** [ORDER BY a, b]: by the first key, and by the second among rows the first does not separate. *)
Definition lex {A} (R1 R2 : relation A) : relation A := fun a b => R1 a b ∧ (R1 b a → R2 a b).

(** An order on a key of the rows. *)
Definition on {A B} (f : A → B) (R : relation B) : relation A := fun a b => R (f a) (f b).

(** [NULL] sorts before every value. *)
Definition nulls_first {A} (R : relation A) : relation (option A) := fun a b =>
  match a, b with
  | None, _ => True
  | Some _, None => False
  | Some a, Some b => R a b
  end.

Section orders.
Context {A B : Type}.

#[global] Instance lex_dec (R1 R2 : relation A) `{!RelDecision R1, !RelDecision R2} :
  RelDecision (lex R1 R2).
Proof. intros a b. unfold lex. apply _. Defined.

#[global] Instance lex_trans (R1 R2 : relation A) `{!Transitive R1, !Transitive R2} :
  Transitive (lex R1 R2).
Proof.
  intros a b c [Hab Hab'] [Hbc Hbc']. split; [by etrans|].
  intros Hca. etrans; [apply Hab'|apply Hbc']; by etrans.
Qed.

#[global] Instance lex_total (R1 R2 : relation A) `{!RelDecision R1, !Total R1, !Total R2} :
  Total (lex R1 R2).
Proof.
  intros a b. unfold lex.
  destruct (decide (R1 a b)), (decide (R1 b a)), (total R1 a b), (total R2 a b); tauto.
Qed.

#[global] Instance on_dec (f : A → B) R `{!RelDecision R} : RelDecision (on f R).
Proof. intros a b. unfold on. apply _. Defined.
#[global] Instance on_trans (f : A → B) R `{!Transitive R} : Transitive (on f R).
Proof. intros a b c. unfold on. intros ??. by etrans. Qed.
#[global] Instance on_total (f : A → B) R `{!Total R} : Total (on f R).
Proof. intros a b. unfold on. apply (total R). Qed.

#[global] Instance nulls_first_dec (R : relation A) `{!RelDecision R} :
  RelDecision (nulls_first R).
Proof. intros [a|] [b|]; simpl; apply _. Defined.
#[global] Instance nulls_first_trans (R : relation A) `{!Transitive R} :
  Transitive (nulls_first R).
Proof. intros [a|] [b|] [c|]; simpl; try done. intros ??. by trans b. Qed.
#[global] Instance nulls_first_total (R : relation A) `{!Total R} : Total (nulls_first R).
Proof. intros [a|] [b|]; simpl; auto. Qed.
End orders.

#[export] Instance string_le_dec : RelDecision String.le.
Proof. intros a b. unfold String.le. apply _. Defined.
#[export] Instance Z_le_rel_dec : RelDecision Z.le := Z_le_dec.

(** Text order under SQLite's [NOCASE] collation: the bytes with ASCII upper case folded. *)
Definition nocase_le : relation string := on to_ascii_lowercase String.le.
#[export] Instance nocase_le_dec : RelDecision nocase_le := _.
#[export] Instance nocase_le_trans : Transitive nocase_le := _.
#[export] Instance nocase_le_total : Total nocase_le := _.

(** Equality of text under [NOCASE]. *)
Definition nocase_eq (a b : string) : bool :=
  bool_decide (to_ascii_lowercase a = to_ascii_lowercase b).

(** ** Loops over the state monad *)

Section foldM_lemmas.
Context {S E A B : Type}.
Implicit Types (s : S).

(** A loop that only checks each element. *)
Lemma foldM_check (f : unit → A → M S E unit) (P : A → Prop) (e : A → E) `{!∀ a, Decision (P a)} l s :
  (∀ a, f () a s = if decide (P a) then (Ok (), s) else (Err (e a), s)) →
  foldM f () l s = (Ok (), s) ∧ Forall P l ∨
  ∃ a, a ∈ l ∧ ¬ P a ∧ foldM f () l s = (Err (e a), s).
Proof.
  intros Hf. induction l as [|a l IH]; simpl; [left; by split|].
  unfold mbind, M_bind. rewrite Hf. case_decide as HP.
  - destruct IH as [[IH Hl]|(b & Hb & HPb & IH)].
    + left. split; [done|by constructor].
    + right. exists b. split_and!; [by right|done|done].
  - right. exists a. split_and!; [by left|done|done].
Qed.

Lemma foldM_app (f : B → A → M S E B) b l k s :
  foldM f b (l ++ k) s =
  match foldM f b l s with
  | (Ok b', s') => foldM f b' k s'
  | (Err e, s') => (Err e, s')
  end.
Proof.
  revert b s. induction l as [|a l IH]; intros b s; simpl; [done|].
  unfold mbind, M_bind. destruct (f b a s) as [[b'|e] s']; [apply IH|done].
Qed.

(** A loop each of whose steps succeeds, described by an invariant on what is left. *)
Lemma foldM_ok (f : B → A → M S E B) (Q : list A → B → S → Prop) l b s :
  Q l b s →
  (∀ a l' b s, Q (a :: l') b s → ∃ b' s', f b a s = (Ok b', s') ∧ Q l' b' s') →
  ∃ b' s', foldM f b l s = (Ok b', s') ∧ Q [] b' s'.
Proof.
  intros HQ Hstep. revert b s HQ. induction l as [|a l IH]; intros b s HQ; simpl; [eauto|].
  destruct (Hstep _ _ _ _ HQ) as (b' & s' & Hf & HQ').
  unfold mbind, M_bind. rewrite Hf. by apply IH.
Qed.
End foldM_lemmas.

(** ** Standing logs *)

(** Failures and recoveries in turn, from a standing, and the standing they lead to. *)
Fixpoint alternates (fails restores : string) (failing : bool) (l : list string) : option bool :=
  match l with
  | [] => Some failing
  | a :: l' =>
      if decide (a = if failing then restores else fails)
      then alternates fails restores (negb failing) l' else None
  end.
