(* ===== verification/Pruning.v ===== *)
(** * Files of which the newest are kept

    The backups an import makes (src/src/migrate.rs) and the daily logs (src/src/logfile.rs) are
    named after the time they were made, so the order of their names is their age: both sort the
    names they recognise as their own and delete from the front. A directory is a map from names to
    contents; [stuck] are the files that cannot be deleted. *)

From S2P Require Import Prelude.

Section pruning.
Context {V : Type} (ours : string → bool).
Implicit Types (files : gmap string V) (stuck : string → bool) (keep : nat).

Definition oldest_first files : list string := merge_sort String.le (List.filter ours (elements (dom files))).

Definition keep_newest keep stuck files : gmap string V :=
  let named := oldest_first files in
  let excess := (length named - keep)%nat in
  foldl (fun fs old => if stuck old then fs else delete old fs) files (take excess named).

Lemma elem_of_oldest_first n files : n ∈ oldest_first files ↔ is_Some (files !! n) ∧ ours n = true.
Proof.
  unfold oldest_first. rewrite merge_sort_Permutation, list_elem_of_In, filter_In, <-list_elem_of_In.
  by rewrite elem_of_elements, elem_of_dom.
Qed.

Lemma NoDup_oldest_first files : NoDup (oldest_first files).
Proof. unfold oldest_first. rewrite merge_sort_Permutation. apply NoDup_ListNoDup, List.NoDup_filter, NoDup_ListNoDup, NoDup_elements. Qed.

Lemma sorted_oldest_first files : StronglySorted String.le (oldest_first files).
Proof. exact (StronglySorted_merge_sort String.le _). Qed.

Lemma delete_each stuck l files n :
  foldl (fun fs old => if stuck old then fs else delete old fs) files l !! n =
  if decide (n ∈ l ∧ stuck n = false) then None else files !! n.
Proof.
  revert files. induction l as [|x l IH]; intros files; cbn [foldl].
  { rewrite decide_False; [done|]. by intros [[]%not_elem_of_nil _]. }
  rewrite IH. destruct (decide (n ∈ l ∧ stuck n = false)) as [H|H].
  { rewrite decide_True; [done|]. split; [right|]; tauto. }
  destruct (decide (n = x)) as [->|Hne].
  - destruct (stuck x) eqn:Hx; [by rewrite decide_False by naive_solver|].
    rewrite decide_True by (split; [left|done]). by rewrite lookup_delete_eq.
  - rewrite decide_False by (rewrite elem_of_cons; tauto).
    destruct (stuck x); [done|]. by rewrite lookup_delete_ne.
Qed.

(** The names split into those to delete, older than every one of the others, and the others, of
    which there are at most [keep]. *)
Lemma oldest_first_split keep files :
  let named := oldest_first files in
  let old := take (length named - keep) named in
  let new := drop (length named - keep) named in
  (∀ n, n ∈ named ↔ n ∈ old ∨ n ∈ new) ∧ (∀ n, n ∈ old → n ∉ new) ∧ (∀ n k, n ∈ old → k ∈ new → String.le n k) ∧
  (length new ≤ keep)%nat.
Proof.
  intros named old new. subst old new. split_and!.
  - intros n. by rewrite <-elem_of_app, take_drop.
  - intros n Hn. pose proof (NoDup_oldest_first files) as H. fold named in H.
    rewrite <-(take_drop (length named - keep) named) in H. apply NoDup_app in H as (_ & H & _). by apply H.
  - intros n k Hn Hk. pose proof (sorted_oldest_first files) as H. fold named in H.
    rewrite <-(take_drop (length named - keep) named) in H. apply StronglySorted_app in H as (H & _). by apply H.
  - rewrite length_drop. lia.
Qed.

(** A file is gone exactly when it is ours, is not among the newest [keep] and can be deleted. *)
Lemma keep_newest_lookup keep stuck files n :
  keep_newest keep stuck files !! n =
  if decide (n ∈ take (length (oldest_first files) - keep) (oldest_first files) ∧ stuck n = false) then None else files !! n.
Proof. apply delete_each. Qed.

Lemma keep_newest_left keep stuck files :
  (∀ n, stuck n = false) →
  oldest_first (keep_newest keep stuck files) ≡ₚ drop (length (oldest_first files) - keep) (oldest_first files).
Proof.
  intros Hst. destruct (oldest_first_split keep files) as (Hs & Hdis & _).
  apply NoDup_Permutation; [apply NoDup_oldest_first| |].
  { eapply sublist_NoDup; [apply (NoDup_oldest_first files)|apply sublist_drop]. }
  intros n. rewrite elem_of_oldest_first, keep_newest_lookup, Hst.
  specialize (Hs n). specialize (Hdis n). rewrite elem_of_oldest_first in Hs.
  case_decide as Hd; [|naive_solver]. split; [by intros [[? [=]] _]|]. intros Hn. by destruct (Hdis (proj1 Hd)).
Qed.

Lemma keep_newest_others keep stuck files n : ours n = false → keep_newest keep stuck files !! n = files !! n.
Proof.
  intros Hn. rewrite keep_newest_lookup. case_decide as H; [|done]. destruct H as [H _].
  assert (n ∈ oldest_first files) as Hin by (apply (oldest_first_split keep files); by left).
  apply elem_of_oldest_first in Hin as [_ Hin]. congruence.
Qed.

(** What is deleted is older than everything of ours that is kept and could have been deleted. *)
Lemma keep_newest_age keep stuck files n k :
  is_Some (files !! n) → keep_newest keep stuck files !! n = None →
  is_Some (keep_newest keep stuck files !! k) → ours k = true → String.le n k ∨ stuck k = true.
Proof.
  intros [v Hn]. rewrite !keep_newest_lookup. case_decide as H; [|by rewrite Hn]. destruct H as [Ho _]. intros _ Hk Hours.
  destruct (stuck k) eqn:Est; [by right|left]. case_decide as Hd; [by destruct Hk|].
  destruct (oldest_first_split keep files) as (Hs & _ & Hle & _). apply Hle; [done|].
  destruct (proj1 (Hs k)) as [?|?]; [by apply elem_of_oldest_first|by destruct Hd|done].
Qed.

(** The newest of all is kept, where any is. *)
Lemma keep_newest_last keep stuck files n :
  (0 < keep)%nat → (∀ k, is_Some (files !! k) → ours k = true → String.le k n) →
  keep_newest keep stuck files !! n = files !! n.
Proof.
  intros Hk Hmax. rewrite keep_newest_lookup. case_decide as H; [|done]. destruct H as [Ho _].
  destruct (oldest_first_split keep files) as (Hs & Hdis & Hle & _). set (named := oldest_first files) in *.
  assert (drop (length named - keep) named ≠ []) as Hne.
  { intros E%(f_equal length). rewrite length_drop in E. simpl in E. assert (0 < length named)%nat; [|lia].
    destruct named; [by apply not_elem_of_nil in Ho|simpl; lia]. }
  destruct (drop (length named - keep) named) as [|k rest] eqn:E; [done|].
  assert (k ∈ k :: rest) as Hin by left. exfalso. apply (Hdis n Ho).
  assert (k = n) as <-; [|done]. apply (anti_symm String.le); [|by apply Hle].
  assert (k ∈ named) as Hkn by (apply Hs; by right). apply elem_of_oldest_first in Hkn as [? ?]. by apply Hmax.
Qed.
End pruning.
