(* ===== verification/Tables.v ===== *)
(** * Tables keyed by row id

    The part of SQL's meaning the store relies on, on tables held as finite maps: reading rows in
    row-id order, the first row of a query, counting, and the row id an [AUTOINCREMENT] insert
    takes. The store's statements (file [Store]) are written with these. *)

From S2P Require Import Prelude.
Local Open Scope Z_scope.

Section rows.
Context {V : Type}.
Implicit Types (m : gmap Z V) (P : Z → V → bool).

Definition row_le (a b : Z * V) : Prop := a.1 ≤ b.1.
#[global] Instance row_le_dec : RelDecision row_le.
Proof. intros a b. unfold row_le. apply _. Defined.
#[global] Instance row_le_trans : Transitive row_le.
Proof. intros a b c. unfold row_le. lia. Qed.
#[global] Instance row_le_total : Total row_le.
Proof. intros a b. unfold row_le. lia. Qed.

(** A full scan: every row, by row id. *)
Definition rows m : list (Z * V) := merge_sort row_le (map_to_list m).

(** [SELECT ... WHERE P ORDER BY id]. *)
Definition select P m : list (Z * V) := List.filter (fun r => P r.1 r.2) (rows m).

(** [query_row(...).optional()]: the first row, if any. *)
Definition select_one P m : option (Z * V) := head (select P m).

(** [SELECT 1 ... ] used as a test. *)
Definition exists_row P m : bool := bool_decide (is_Some (select_one P m)).

(** [SELECT COUNT( * ) ...]. *)
Definition count_rows P m : Z := len (select P m).

Lemma elem_of_rows m k v : (k, v) ∈ rows m ↔ m !! k = Some v.
Proof. unfold rows. by rewrite merge_sort_Permutation, elem_of_map_to_list. Qed.

Lemma NoDup_rows m : NoDup (rows m).*1.
Proof. unfold rows. rewrite merge_sort_Permutation. apply NoDup_fst_map_to_list. Qed.

Lemma rows_sorted m : StronglySorted row_le (rows m).
Proof. apply StronglySorted_merge_sort; apply _. Qed.

Lemma elem_of_select P m k v : (k, v) ∈ select P m ↔ m !! k = Some v ∧ P k v = true.
Proof.
  unfold select. rewrite list_elem_of_In, filter_In, <-list_elem_of_In, elem_of_rows. done.
Qed.

Lemma select_one_Some P m k v :
  select_one P m = Some (k, v) → m !! k = Some v ∧ P k v = true.
Proof.
  unfold select_one. intros Hh. apply elem_of_select.
  destruct (select P m) as [|r l]; simplify_eq/=. by left.
Qed.

Lemma select_one_None P m :
  select_one P m = None ↔ ∀ k v, m !! k = Some v → P k v = false.
Proof.
  unfold select_one. split.
  - intros Hh k v Hk. destruct (P k v) eqn:HP; [|done].
    assert ((k, v) ∈ select P m) as Hin by by apply elem_of_select.
    destruct (select P m); [by apply not_elem_of_nil in Hin|done].
  - intros H. destruct (select P m) as [|[k v] l] eqn:E; [done|].
    assert ((k, v) ∈ select P m) as [Hk HP]%elem_of_select by (rewrite E; left).
    by rewrite (H k v Hk) in HP.
Qed.

Lemma exists_row_true P m :
  exists_row P m = true ↔ ∃ k v, m !! k = Some v ∧ P k v = true.
Proof.
  unfold exists_row. rewrite bool_decide_eq_true. split.
  - intros [[k v] Hs]. exists k, v. by apply select_one_Some.
  - intros (k & v & Hk & HP). destruct (select_one P m) eqn:E; [done|].
    rewrite select_one_None in E. by rewrite (E k v Hk) in HP.
Qed.

Lemma exists_row_false P m :
  exists_row P m = false ↔ ∀ k v, m !! k = Some v → P k v = false.
Proof.
  unfold exists_row. rewrite bool_decide_eq_false, <-select_one_None, eq_None_not_Some. done.
Qed.

(** Row ids strictly increase along a query's result. *)
Definition row_lt (a b : Z * V) : Prop := a.1 < b.1.

Lemma sorted_strict (l : list (Z * V)) :
  StronglySorted row_le l → NoDup l.*1 → StronglySorted row_lt l.
Proof.
  induction 1 as [|r l _ IH Hr]; simpl; [constructor|].
  intros Hnd. inversion_clear Hnd as [|? ? Hr' Hnd']. constructor; [auto|].
  rewrite Forall_forall in Hr |- *. intros x Hx. specialize (Hr x Hx).
  unfold row_le, row_lt in *. assert (r.1 ≠ x.1); [|lia].
  intros Heq. apply Hr'. rewrite Heq. by apply list_elem_of_fmap_2.
Qed.

Lemma filter_sorted (R : relation (Z * V)) p l :
  StronglySorted R l → StronglySorted R (List.filter p l).
Proof.
  induction 1 as [|r l _ IH Hr]; simpl; [constructor|]. destruct (p r); [|done].
  constructor; [done|]. rewrite Forall_forall in Hr |- *. intros x.
  rewrite list_elem_of_In, filter_In, <-list_elem_of_In. intros [Hx _]. by apply Hr.
Qed.

Lemma select_sorted P m : StronglySorted row_lt (select P m).
Proof. apply filter_sorted, sorted_strict; [apply rows_sorted|apply NoDup_rows]. Qed.

(** The first row of an ordered query has the least row id. *)
Lemma select_one_least P m k v k' v' :
  select_one P m = Some (k, v) → m !! k' = Some v' → P k' v' = true → k ≤ k'.
Proof.
  unfold select_one. intros Hh Hk' HP'.
  pose proof (select_sorted P m) as Hs.
  assert ((k', v') ∈ select P m) as Hin by by apply elem_of_select.
  destruct (select P m) as [|r l]; simplify_eq/=.
  apply elem_of_cons in Hin as [[= -> ->]|Hin]; [lia|].
  inversion Hs as [|? ? _ Hall]; subst. rewrite Forall_forall in Hall.
  specialize (Hall (k', v') Hin). unfold row_lt in Hall. simpl in Hall. lia.
Qed.

Lemma count_rows_zero P m :
  count_rows P m = 0 ↔ ∀ k v, m !! k = Some v → P k v = false.
Proof.
  rewrite <-select_one_None. unfold count_rows, select_one, len.
  destruct (select P m); simpl; [done|]. split; [lia|done].
Qed.

Lemma count_rows_nonneg P m : 0 ≤ count_rows P m.
Proof. apply len_nonneg. Qed.
End rows.

(** [AUTOINCREMENT]: one more than the largest id the table ever held, and an error once that is the
    largest [i64]. *)
Definition next_rowid (seq : Z) : option Z := if decide (seq < i64_max) then Some (seq + 1) else None.

(** [COALESCE(x, y)]. *)
Definition coalesce {A} (x : option A) (y : option A) : option A :=
  match x with Some _ => x | None => y end.
