(* ===== verification/Text.v ===== *)
(** * Text the program reads

    [str::parse] for integers, splitting and trimming, as the Rust standard library defines them on
    the ASCII characters the program looks for. *)

From S2P Require Import Prelude.
Local Open Scope Z_scope.

Abbreviation chars := (list ascii).

Definition to_chars (s : string) : chars := String.list_ascii_of_string s.
Definition of_chars (l : chars) : string := String.string_of_list_ascii l.

Lemma of_to_chars s : of_chars (to_chars s) = s.
Proof. apply String.string_of_list_ascii_of_string. Qed.

Lemma to_of_chars l : to_chars (of_chars l) = l.
Proof. apply String.list_ascii_of_string_of_list_ascii. Qed.

Lemma to_chars_app s t : to_chars (s +:+ t) = to_chars s ++ to_chars t.
Proof. induction s as [|c s IH]; simpl; [done|]. unfold to_chars in *. simpl. by rewrite IH. Qed.

Definition digit_of (c : ascii) : option Z :=
  let n := Z.of_N (N_of_ascii c) in
  if decide (48 ≤ n ≤ 57) then Some (n - 48) else None.

(** The value of a run of decimal digits. *)
Fixpoint digits_value (acc : Z) (l : chars) : option Z :=
  match l with
  | [] => Some acc
  | c :: l' => match digit_of c with Some d => digits_value (acc * 10 + d) l' | None => None end
  end.

(** [from_str_radix(_, 10)] into a type with bounds [lo, hi]: an optional sign ([-] only for a signed
    type), at least one digit, nothing else, and the value in range. *)
Definition parse_int (lo hi : Z) (s : string) : option Z :=
  let '(sign, ds) :=
    match to_chars s with
    | "+"%char :: l => (1, l)
    | "-"%char :: l => if decide (lo < 0) then (-1, l) else (1, to_chars s)
    | l => (1, l)
    end in
  match ds with
  | [] => None
  | _ => v ← digits_value 0 ds;
         if decide (lo ≤ sign * v ≤ hi) then Some (sign * v) else None
  end.

Definition parse_i64 : string → option Z := parse_int i64_min i64_max.
Definition parse_u16 : string → option Z := parse_int 0 u16_max.
Definition parse_u32 : string → option Z := parse_int 0 u32_max.
Definition parse_u64 : string → option Z := parse_int 0 u64_max.

(** ** Printing and parsing *)

Lemma digits_value_app acc l k :
  digits_value acc (l ++ k) = digits_value acc l ≫= (fun acc' => digits_value acc' k).
Proof.
  revert acc. induction l as [|c l IH]; intros acc; simpl; [done|].
  destruct (digit_of c); [apply IH|done].
Qed.

Lemma digit_of_pretty (x : N) : (x < 10)%N → digit_of (pretty_N_char x) = Some (Z.of_N x).
Proof.
  intros Hx. destruct (decide (x = 0)%N) as [->|]; [done|].
  assert (x = 1 ∨ x = 2 ∨ x = 3 ∨ x = 4 ∨ x = 5 ∨ x = 6 ∨ x = 7 ∨ x = 8 ∨ x = 9)%N as Hc by lia.
  by repeat destruct Hc as [->|Hc]; subst.
Qed.

(** The digits [pretty] writes have the value they were written for. *)
Lemma digits_value_go (x : N) s acc :
  ∃ k : Z, 1 ≤ k ∧
    digits_value acc (to_chars (pretty_N_go x s)) = digits_value (acc * k + Z.of_N x) (to_chars s).
Proof.
  revert s acc. induction (N.lt_wf_0 x) as [x _ IH]; intros s acc.
  destruct (decide (x = 0)%N) as [->|Hx].
  - exists 1. split; [lia|]. rewrite pretty_N_go_0. f_equal. lia.
  - rewrite pretty_N_go_step by lia.
    assert (x `div` 10 < x)%N as Hlt by (apply N.div_lt; lia).
    destruct (IH _ Hlt (String (pretty_N_char (x `mod` 10)) s) acc) as (k & Hk & ->).
    exists (k * 10). split; [lia|]. unfold to_chars. simpl.
    rewrite digit_of_pretty by (apply N.mod_lt; lia). f_equal.
    pose proof (N.div_mod x 10 ltac:(lia)). lia.
Qed.

Lemma pretty_N_go_nonempty (x : N) s : (0 < x)%N → ∃ c s', pretty_N_go x s = String c s' ∧ is_Some (digit_of c).
Proof.
  revert s. induction (N.lt_wf_0 x) as [x _ IH]; intros s Hx.
  rewrite pretty_N_go_step by lia.
  destruct (decide (x `div` 10 = 0)%N) as [Hd|Hd].
  - rewrite Hd, pretty_N_go_0. eexists _, _. split; [done|].
    rewrite digit_of_pretty; [done|apply N.mod_lt; lia].
  - apply IH; [by apply N.div_lt|]. by apply N.neq_0_lt_0.
Qed.

Lemma digits_value_pretty_pos (p : positive) :
  digits_value 0 (to_chars (pretty p)) = Some (Z.pos p).
Proof.
  change (pretty p) with (pretty (N.pos p)). unfold pretty, pretty_N. rewrite decide_False by done.
  destruct (digits_value_go (N.pos p) "" 0) as (k & _ & ->). done.
Qed.

(** Parsing an integer in range from what printing it wrote. *)
Lemma parse_pretty lo hi (z : Z) : lo ≤ 0 → lo ≤ z ≤ hi → parse_int lo hi (pretty z) = Some z.
Proof.
  intros Hlo Hz. unfold parse_int. destruct z as [|p|p].
  - simpl. rewrite decide_True by lia. done.
  - change (pretty (Z.pos p)) with (pretty p).
    pose proof (digits_value_pretty_pos p) as Hv.
    destruct (pretty_N_go_nonempty (N.pos p) "" ltac:(lia)) as (c & s' & Hs & Hc).
    assert (to_chars (pretty p) = c :: to_chars s') as Hp.
    { change (pretty p) with (pretty (N.pos p)). unfold pretty, pretty_N.
      rewrite decide_False by done. by rewrite Hs. }
    rewrite Hp in Hv |- *.
    assert (match c :: to_chars s' with
            | "+"%char :: l => (1, l)
            | "-"%char :: l => if decide (lo < 0) then (-1, l) else (1, c :: to_chars s')
            | l => (1, l)
            end = (1, c :: to_chars s')) as ->.
    { destruct Hc as [d Hd]. destruct c as [[] [] [] [] [] [] [] []]; done. }
    rewrite Hv. simpl. rewrite decide_True by lia. done.
  - assert (to_chars (pretty (Z.neg p)) = "-"%char :: to_chars (pretty p)) as -> by done.
    rewrite decide_True by lia.
    destruct (to_chars (pretty p)) eqn:E.
    { pose proof (digits_value_pretty_pos p) as Hv. by rewrite E in Hv. }
    rewrite <-E, digits_value_pretty_pos. simpl. rewrite decide_True by lia. done.
Qed.

(** What [pretty] writes for an integer is digits, and a minus sign for a negative one. *)
Definition number_char (c : ascii) : Prop := is_Some (digit_of c) ∨ c = "-"%char.

Lemma digits_value_digits acc l v : digits_value acc l = Some v → Forall (fun c => is_Some (digit_of c)) l.
Proof.
  revert acc. induction l as [|c l IH]; intros acc; simpl; [by constructor|].
  destruct (digit_of c) eqn:Hc; [|done]. intros Hv. constructor; [by rewrite Hc|by eapply IH].
Qed.

Lemma pretty_chars (z : Z) : Forall number_char (to_chars (pretty z)).
Proof.
  assert (∀ p : positive, Forall number_char (to_chars (pretty p))) as Hp.
  { intros p. eapply Forall_impl; [eapply digits_value_digits, digits_value_pretty_pos|by left]. }
  destruct z as [|p|p].
  - constructor; [by left|constructor].
  - apply Hp.
  - change (to_chars (pretty (Z.neg p))) with ("-"%char :: to_chars (pretty p)).
    constructor; [by right|apply Hp].
Qed.

Lemma pretty_nonneg_chars (z : Z) : 0 ≤ z → Forall (fun c => is_Some (digit_of c)) (to_chars (pretty z)).
Proof.
  destruct z as [|p|p]; intros Hz; [|eapply digits_value_digits, digits_value_pretty_pos|lia].
  by repeat constructor.
Qed.

Lemma pretty_no_char (c : ascii) (z : Z) : ¬ number_char c → c ∉ to_chars (pretty z).
Proof. intros Hc Hin. pose proof (pretty_chars z) as H. rewrite Forall_forall in H. eauto. Qed.

Lemma to_chars_inj s t : to_chars s = to_chars t → s = t.
Proof. intros H. by rewrite <-(of_to_chars s), H, of_to_chars. Qed.

(** ** Splitting and trimming *)

(** [str::split] on one character: always at least one piece. *)
Fixpoint split_on (c : ascii) (l : chars) : list chars :=
  match l with
  | [] => [[]]
  | x :: l' =>
      if decide (x = c) then [] :: split_on c l'
      else match split_on c l' with
           | [] => [[x]]
           | p :: ps => (x :: p) :: ps
           end
  end.

(** [str::split_once] on one character. *)
Fixpoint split_once (c : ascii) (l : chars) : option (chars * chars) :=
  match l with
  | [] => None
  | x :: l' =>
      if decide (x = c) then Some ([], l')
      else match split_once c l' with
           | Some (a, b) => Some (x :: a, b)
           | None => None
           end
  end.

(** ASCII white space, as [char::is_whitespace] has it: tab to carriage return, and space. *)
Definition is_space (c : ascii) : bool :=
  let n := N_of_ascii c in bool_decide ((9 ≤ n ∧ n ≤ 13)%N ∨ n = 32%N).

Fixpoint trim_start (l : chars) : chars :=
  match l with
  | [] => []
  | c :: l' => if is_space c then trim_start l' else l
  end.

Definition trim_end (l : chars) : chars := reverse (trim_start (reverse l)).

(** [str::trim]. *)
Definition trim (l : chars) : chars := trim_end (trim_start l).

(** [Iterator::find_map]. *)
Fixpoint find_map {A B} (f : A → option B) (l : list A) : option B :=
  match l with
  | [] => None
  | x :: l' => match f x with Some y => Some y | None => find_map f l' end
  end.

Lemma split_on_app c l k :
  c ∉ l → split_on c (l ++ c :: k) = l :: split_on c k.
Proof.
  induction l as [|x l IH]; simpl; intros Hc; [by rewrite decide_True|].
  rewrite decide_False by set_solver. rewrite IH by set_solver. done.
Qed.

Lemma split_on_none c l : c ∉ l → split_on c l = [l].
Proof.
  induction l as [|x l IH]; simpl; intros Hc; [done|].
  rewrite decide_False by set_solver. by rewrite IH by set_solver.
Qed.

Lemma split_once_app c l k : c ∉ l → split_once c (l ++ c :: k) = Some (l, k).
Proof.
  induction l as [|x l IH]; simpl; intros Hc; [by rewrite decide_True|].
  rewrite decide_False by set_solver. by rewrite IH by set_solver.
Qed.

Lemma trim_start_id l : Forall (fun c => is_space c = false) l → trim_start l = l.
Proof. destruct 1 as [|c l Hc _]; simpl; [done|]. by rewrite Hc. Qed.

Lemma trim_id l : Forall (fun c => is_space c = false) l → trim l = l.
Proof.
  intros Hl. unfold trim, trim_end. rewrite (trim_start_id l) by done.
  rewrite trim_start_id by by rewrite Forall_reverse. apply reverse_involutive.
Qed.

(** Two texts cut at the last occurrence of a character. *)
Lemma app_last_eq {A} (x : A) l1 k1 l2 k2 :
  x ∉ k1 → x ∉ k2 → l1 ++ x :: k1 = l2 ++ x :: k2 → l1 = l2 ∧ k1 = k2.
Proof.
  intros H1 H2. revert l2. induction l1 as [|a l1 IH]; intros [|b l2]; simpl; intros E; simplify_eq;
    [done|set_solver..|]. naive_solver.
Qed.

(** ** Formatting *)

Definition hex_digit (n : Z) : ascii :=
  ascii_of_N (Z.to_N (if decide (n < 10) then 48 + n else 87 + n)).

(** [format!("{b:02x}")]. *)
Definition hex_byte (b : byte) : chars := [hex_digit (u8 b / 16); hex_digit (u8 b mod 16)].

Definition quote : ascii := "034"%char.
Definition backslash : ascii := "092"%char.

(** The characters [{:?}] escapes in text; others are written as they are. *)
Definition escape_debug (c : ascii) : chars :=
  if decide (c = quote ∨ c = backslash) then [backslash; c]
  else if decide (c = "010"%char) then [backslash; "n"%char]
  else if decide (c = "013"%char) then [backslash; "r"%char]
  else if decide (c = "009"%char) then [backslash; "t"%char]
  else if decide (c = "000"%char) then [backslash; "0"%char]
  else
    let n := Z.of_N (N_of_ascii c) in
    if decide (n < 32 ∨ n = 127) then
      [backslash; "u"%char; "{"%char] ++ (if decide (16 ≤ n) then [hex_digit (n / 16)] else [])
        ++ [hex_digit (n mod 16); "}"%char]
    else [c].

Definition debug_string (s : string) : string :=
  of_chars ([quote] ++ (to_chars s ≫= escape_debug) ++ [quote]).

(** ** Cutting text *)

(** What follows the first occurrence of a piece of text, and what comes before it. *)
Fixpoint strip_prefix (pat l : chars) : option chars :=
  match pat, l with
  | [], _ => Some l
  | c :: pat', d :: l' => if decide (c = d) then strip_prefix pat' l' else None
  | _ :: _, [] => None
  end.

Fixpoint split_str_once (pat l : chars) : option (chars * chars) :=
  match strip_prefix pat l with
  | Some r => Some ([], r)
  | None =>
      match l with
      | [] => None
      | c :: l' => (fun ab => (c :: ab.1, ab.2)) <$> split_str_once pat l'
      end
  end.

(** The second piece of [split(pat)], for a nonempty [pat]. *)
Definition split_str_second (pat l : chars) : option chars :=
  ab ← split_str_once pat l;
  Some (match split_str_once pat ab.2 with Some cd => cd.1 | None => ab.2 end).

(** The first piece of a split at the characters a test selects. *)
Fixpoint take_until (p : ascii → bool) (l : chars) : chars :=
  match l with
  | [] => []
  | c :: l' => if p c then [] else c :: take_until p l'
  end.

(** [rsplit(c).next()] and [rsplit_once(c)]. *)
Definition rsplit_once (c : ascii) (l : chars) : option (chars * chars) :=
  match split_once c (reverse l) with
  | Some (a, b) => Some (reverse b, reverse a)
  | None => None
  end.

Definition after_last (c : ascii) (l : chars) : chars :=
  match rsplit_once c l with Some ab => ab.2 | None => l end.

(** [[_].join(sep)]. *)
Fixpoint join (sep : chars) (ls : list chars) : chars :=
  match ls with
  | [] => []
  | [l] => l
  | l :: ls' => l ++ sep ++ join sep ls'
  end.

Definition parse_u8 : string → option Z := parse_int 0 255.

(** [u8::from_str_radix(_, 16)] of one digit. *)
Definition hex_value (c : ascii) : option Z :=
  let n := Z.of_N (N_of_ascii c) in
  if decide (48 ≤ n ≤ 57) then Some (n - 48)
  else if decide (97 ≤ n ≤ 102) then Some (n - 87)
  else if decide (65 ≤ n ≤ 70) then Some (n - 55)
  else None.
