(* ===== verification/Utf8.v ===== *)
(** * Characters of UTF-8 text

    A Rust [str] is the UTF-8 bytes of its characters. Operations that look at characters (counting,
    trimming, testing for control characters) are defined here on the bytes of each character, as
    the Unicode tables of the standard library have them; the lowercase mapping, a table of its own,
    is a class with the part of it the program relies on. *)

From S2P Require Import Prelude Text.
Local Open Scope N_scope.

(** ** Characters *)

(** A byte that continues a character, [10xxxxxx]. *)
Definition continues (c : ascii) : bool := bool_decide (128 ≤ N_of_ascii c ∧ N_of_ascii c < 192).

(** [str::chars]: the bytes of each character. *)
Fixpoint utf8_chars (l : chars) : list chars :=
  match l with
  | [] => []
  | c :: l' =>
      match utf8_chars l' with
      | (d :: p) :: ps => if continues d then (c :: d :: p) :: ps else [c] :: (d :: p) :: ps
      | ps => [c] :: ps
      end
  end.

(** [chars().count()]. *)
Definition char_count (s : string) : nat := length (utf8_chars (to_chars s)).

(** [char::is_whitespace], the White_Space property. *)
Definition is_whitespace (p : chars) : bool :=
  match N_of_ascii <$> p with
  | [n] => bool_decide ((9 ≤ n ∧ n ≤ 13) ∨ n = 32)
  | [194; n] => bool_decide (n = 133 ∨ n = 160)
  | [225; 154; 128] => true
  | [226; 128; n] => bool_decide ((128 ≤ n ∧ n ≤ 138) ∨ n = 168 ∨ n = 169 ∨ n = 175)
  | [226; 129; 159] => true
  | [227; 128; 128] => true
  | _ => false
  end.

(** [char::is_control], the general category Cc. *)
Definition is_control (p : chars) : bool :=
  match N_of_ascii <$> p with
  | [n] => bool_decide (n < 32 ∨ n = 127)
  | [194; n] => bool_decide (128 ≤ n ∧ n < 160)
  | _ => false
  end.

Fixpoint drop_while {A} (p : A → bool) (l : list A) : list A :=
  match l with
  | [] => []
  | x :: l' => if p x then drop_while p l' else l
  end.

(** [str::trim]. *)
Definition str_trim (s : string) : string :=
  of_chars (mjoin (reverse (drop_while is_whitespace (reverse
    (drop_while is_whitespace (utf8_chars (to_chars s))))))).

(** [str::to_lowercase]: on ASCII text it folds the ASCII letters. *)
Definition is_ascii (s : string) : bool := forallb (fun c => bool_decide (N_of_ascii c < 128)) (to_chars s).

Class Unicode := {
  to_lowercase : string → string;
  to_lowercase_ascii : ∀ s, is_ascii s = true → to_lowercase s = to_ascii_lowercase s;
}.

(** Folding the ASCII letters alone is one such mapping. *)
Definition ascii_unicode : Unicode := {|
  to_lowercase := to_ascii_lowercase;
  to_lowercase_ascii := fun _ _ => eq_refl;
|}.

(** ** Facts *)

Lemma utf8_chars_join l : mjoin (utf8_chars l) = l.
Proof.
  induction l as [|c l IH]; [done|]. simpl. revert IH.
  destruct (utf8_chars l) as [|[|d p] ps]; simpl; intros <-; [done|done|].
  by destruct (continues d).
Qed.

Lemma utf8_chars_nil l : utf8_chars l = [] ↔ l = [].
Proof. split; [|by intros ->]. intros E. by rewrite <-(utf8_chars_join l), E. Qed.

(** ASCII text has one character per byte. *)
Lemma utf8_chars_ascii l :
  Forall (fun c => N_of_ascii c < 128) l → utf8_chars l = (fun c => [c]) <$> l.
Proof.
  induction 1 as [|c l Hc Hl IH]; [done|]. simpl. rewrite IH.
  destruct l as [|d l]; [done|]. simpl. apply Forall_cons_1 in Hl as [Hd _].
  unfold continues. by rewrite bool_decide_eq_false_2 by lia.
Qed.

Lemma is_ascii_Forall s : is_ascii s = true ↔ Forall (fun c => N_of_ascii c < 128) (to_chars s).
Proof.
  unfold is_ascii. rewrite forallb_forall, Forall_forall. setoid_rewrite list_elem_of_In.
  by setoid_rewrite bool_decide_eq_true.
Qed.

Lemma char_count_ascii s : is_ascii s = true → char_count s = length (to_chars s).
Proof.
  intros H%is_ascii_Forall. unfold char_count. rewrite utf8_chars_ascii by done. apply length_fmap.
Qed.

(** ** Bytes that are text *)

(** [std::str::from_utf8]: shortest forms, no surrogates, nothing past U+10FFFF. *)
Definition within (lo hi : N) (b : byte) : bool := bool_decide (lo ≤ Byte.to_N b ∧ Byte.to_N b ≤ hi).
Definition cont_byte : byte → bool := within 128 191.

Definition second_of_three (a b : byte) : bool :=
  let n := Byte.to_N a in
  if decide (n = 224) then within 160 191 b
  else if decide (n = 237) then within 128 159 b
  else cont_byte b.

Definition second_of_four (a b : byte) : bool :=
  let n := Byte.to_N a in
  if decide (n = 240) then within 144 191 b
  else if decide (n = 244) then within 128 143 b
  else cont_byte b.

Fixpoint utf8_valid (l : bytes) : bool :=
  match l with
  | [] => true
  | a :: l1 =>
      if within 0 127 a then utf8_valid l1
      else
        match l1 with
        | [] => false
        | b :: l2 =>
            if within 194 223 a then cont_byte b && utf8_valid l2
            else
              match l2 with
              | [] => false
              | c :: l3 =>
                  if within 224 239 a then second_of_three a b && cont_byte c && utf8_valid l3
                  else
                    match l3 with
                    | [] => false
                    | d :: l4 =>
                        within 240 244 a && second_of_four a b && cont_byte c && cont_byte d && utf8_valid l4
                    end
              end
        end
  end.

Definition from_utf8 (b : bytes) : option string :=
  if utf8_valid b then Some (String.string_of_list_byte b) else None.

Lemma utf8_valid_ascii b : Forall (fun x => Byte.to_N x < 128) b → utf8_valid b = true.
Proof.
  induction 1 as [|x l Hx _ IH]; [done|]. simpl. unfold within.
  by rewrite bool_decide_eq_true_2 by lia.
Qed.

(** [String::from_utf8_lossy]: each longest run that could begin a character but does not make one is
    replaced by U+FFFD. *)
Definition replacement : bytes := [xef; xbf; xbd].

Fixpoint lossy (l : bytes) : bytes :=
  match l with
  | [] => []
  | a :: l1 =>
      if within 0 127 a then a :: lossy l1
      else if within 194 223 a then
        match l1 with
        | b :: l2 => if cont_byte b then a :: b :: lossy l2 else replacement ++ lossy l1
        | [] => replacement
        end
      else if within 224 239 a then
        match l1 with
        | b :: l2 =>
            if second_of_three a b then
              match l2 with
              | c :: l3 => if cont_byte c then a :: b :: c :: lossy l3 else replacement ++ lossy l2
              | [] => replacement
              end
            else replacement ++ lossy l1
        | [] => replacement
        end
      else if within 240 244 a then
        match l1 with
        | b :: l2 =>
            if second_of_four a b then
              match l2 with
              | c :: l3 =>
                  if cont_byte c then
                    match l3 with
                    | d :: l4 => if cont_byte d then a :: b :: c :: d :: lossy l4 else replacement ++ lossy l3
                    | [] => replacement
                    end
                  else replacement ++ lossy l2
              | [] => replacement
              end
            else replacement ++ lossy l1
        | [] => replacement
        end
      else replacement ++ lossy l1
  end.

Definition from_utf8_lossy (b : bytes) : string := String.string_of_list_byte (lossy b).

(** Text is not changed. *)
Lemma lossy_valid s : utf8_valid s = true → lossy s = s.
Proof.
  assert (∀ n l, (length l ≤ n)%nat → utf8_valid l = true → lossy l = l) as H; [|by eapply H].
  induction n as [|n IH]; intros [|a l] Hn; try done; [simpl in Hn; lia|]. simpl in Hn |- *.
  destruct (within 0 127 a); [intros Hv; by rewrite (IH l) by (done || lia)|].
  destruct l as [|b l]; [done|]. simpl in Hn.
  destruct (within 194 223 a). { intros [-> Hv]%andb_true_iff. by rewrite (IH l) by (done || lia). }
  destruct l as [|c l]; [done|]. simpl in Hn.
  destruct (within 224 239 a).
  { intros [[-> ->]%andb_true_iff Hv]%andb_true_iff. by rewrite (IH l) by (done || lia). }
  destruct l as [|d l]; [done|]. simpl in Hn.
  intros [[[[-> ->]%andb_true_iff ->]%andb_true_iff ->]%andb_true_iff Hv]%andb_true_iff.
  by rewrite (IH l) by (done || lia).
Qed.
