(* ===== verification/Store.v ===== *)
(** * The database (src/src/store.rs)

    Users, server groups, servers, assignments, saved credentials, sign-in sessions, the session
    log and the audit log, as the tables of the schema at version 6, with one definition per method
    of [Store]. A statement's guard, its constraint checks (unique names, foreign keys) and its
    cascades are written out; [now()] and SQLite's [random()] are arguments ([now], [rnd]). *)

From S2P Require Import Prelude Tables.
Local Open Scope Z_scope.

(** ** Rows and errors *)

(** What SQLite itself can refuse here: the constraints of the schema, a table whose ids are used
    up, a query that had to return a row and did not, a [LIKE] pattern over its length limit, a copy made over a file that exists. *)
Inductive SqlError :=
  | UniqueConstraint
  | ForeignKeyConstraint
  | Full
  | QueryReturnedNoRows
  | LikeTooLong
  | OutputExists.

Inductive StoreError :=
  | Sql (e : SqlError)
  | Io
  | Newer (found supported : Z)
  | NotFound
  | Conflict (message : string)
  | Invalid (message : string).

(** A row of [users]: the columns of the schema, less the id, which is the key. *)
Record UserRec := mkUserRec {
  u_username : string;
  u_display_name : option string;
  u_sid : option string;
  u_is_admin : bool;
  u_sid_mismatch : bool;
  u_created : Z;
  u_last_login : option Z;
  u_local_hash : option string;
  u_incarnation : Z
}.

Record GroupRec := mkGroupRec { g_name : string; g_sort : Z }.

Record ServerRec := mkServerRec {
  s_name : string;
  s_host : string;
  s_port : Z;
  s_group_id : option Z;
  s_domain : option string;
  s_incarnation : Z
}.

Record CredRec := mkCredRec {
  k_username : string;
  k_domain : option string;
  k_nonce : bytes;
  k_secret : bytes;
  k_updated : Z
}.

Record SessionRec := mkSessionRec { n_user_id : Z; n_created : Z; n_expires : Z }.

Record AuditRec := mkAuditRec {
  a_at : Z; a_actor : string; a_action : string; a_detail : string
}.

(** The structures the methods return. *)
Record User := mkUser {
  user_id : Z;
  username : string;
  display_name : option string;
  sid : option string;
  is_admin : bool;
  sid_mismatch : bool;
  created : Z;
  last_login : option Z;
  local : bool;
  incarnation : Z
}.

Record UserRow := mkUserRow { ur_user : User; ur_server_count : Z; ur_saved_count : Z }.

Record Group := mkGroup {
  group_id : Z; group_name : string; group_sort : Z; group_server_count : Z
}.

Record Server := mkServer {
  server_id : Z;
  server_name : string;
  host : string;
  port : Z;
  server_group : option Z;
  domain : option string
}.

Record ServerRow := mkServerRow { sr_server : Server; sr_assigned : Z }.

Record ListedServer := mkListed { listed : Server; listed_group : option string }.

Record StoredCredential := mkCred {
  cred_username : string; cred_domain : option string; cred_nonce : bytes; cred_secret : bytes
}.

Record AuditRow := mkAuditRow {
  audit_id : Z; audit_at : Z; audit_actor : string; audit_action : string; audit_detail : string
}.

Record Counts := mkCounts {
  c_users : Z; c_servers : Z; c_assignments : Z; c_credentials : Z
}.

(** One row of a server import. [None] keeps the column, [Some None] clears it. *)
Record ImportRow := mkImportRow {
  i_name : string;
  i_host : string;
  i_port : option Z;
  i_group : option (option string);
  i_domain : option (option string)
}.

#[export] Instance UserRec_eq : EqDecision UserRec.
Proof. solve_decision. Defined.
#[export] Instance ServerRec_eq : EqDecision ServerRec.
Proof. solve_decision. Defined.
#[export] Instance CredRec_eq : EqDecision CredRec.
Proof. solve_decision. Defined.
#[export] Instance SessionRec_eq : EqDecision SessionRec.
Proof. solve_decision. Defined.

(** ** The database *)

(** Each [AUTOINCREMENT] table carries the largest id it ever held. *)
Record Db := mkDb {
  t_meta : gmap string bytes;
  t_users : gmap Z UserRec;
  users_seq : Z;
  t_groups : gmap Z GroupRec;
  groups_seq : Z;
  t_servers : gmap Z ServerRec;
  servers_seq : Z;
  t_assignments : gset (Z * Z);
  t_credentials : gmap (Z * Z) CredRec;
  t_sessions : gmap bytes SessionRec;
  t_session_log : gmap (Z * Z) Z;
  t_audit : gmap Z AuditRec
}.

(** A database just created. *)
Definition empty_db : Db := mkDb ∅ ∅ 0 ∅ 0 ∅ 0 ∅ ∅ ∅ ∅ ∅.

Definition set_meta f db := mkDb (f (t_meta db)) (t_users db) (users_seq db) (t_groups db)
  (groups_seq db) (t_servers db) (servers_seq db) (t_assignments db) (t_credentials db)
  (t_sessions db) (t_session_log db) (t_audit db).
Definition set_users f db := mkDb (t_meta db) (f (t_users db)) (users_seq db) (t_groups db)
  (groups_seq db) (t_servers db) (servers_seq db) (t_assignments db) (t_credentials db)
  (t_sessions db) (t_session_log db) (t_audit db).
Definition set_groups f db := mkDb (t_meta db) (t_users db) (users_seq db) (f (t_groups db))
  (groups_seq db) (t_servers db) (servers_seq db) (t_assignments db) (t_credentials db)
  (t_sessions db) (t_session_log db) (t_audit db).
Definition set_servers f db := mkDb (t_meta db) (t_users db) (users_seq db) (t_groups db)
  (groups_seq db) (f (t_servers db)) (servers_seq db) (t_assignments db) (t_credentials db)
  (t_sessions db) (t_session_log db) (t_audit db).
Definition set_assigned f db := mkDb (t_meta db) (t_users db) (users_seq db) (t_groups db)
  (groups_seq db) (t_servers db) (servers_seq db) (f (t_assignments db)) (t_credentials db)
  (t_sessions db) (t_session_log db) (t_audit db).
Definition set_credentials f db := mkDb (t_meta db) (t_users db) (users_seq db) (t_groups db)
  (groups_seq db) (t_servers db) (servers_seq db) (t_assignments db) (f (t_credentials db))
  (t_sessions db) (t_session_log db) (t_audit db).
Definition set_sessions f db := mkDb (t_meta db) (t_users db) (users_seq db) (t_groups db)
  (groups_seq db) (t_servers db) (servers_seq db) (t_assignments db) (t_credentials db)
  (f (t_sessions db)) (t_session_log db) (t_audit db).
Definition set_session_log f db := mkDb (t_meta db) (t_users db) (users_seq db) (t_groups db)
  (groups_seq db) (t_servers db) (servers_seq db) (t_assignments db) (t_credentials db)
  (t_sessions db) (f (t_session_log db)) (t_audit db).
Definition set_audit f db := mkDb (t_meta db) (t_users db) (users_seq db) (t_groups db)
  (groups_seq db) (t_servers db) (servers_seq db) (t_assignments db) (t_credentials db)
  (t_sessions db) (t_session_log db) (f (t_audit db)).

(** A row inserted at the next id. *)
Definition add_user id r db := mkDb (t_meta db) (<[id := r]> (t_users db)) id (t_groups db)
  (groups_seq db) (t_servers db) (servers_seq db) (t_assignments db) (t_credentials db)
  (t_sessions db) (t_session_log db) (t_audit db).
Definition add_group id r db := mkDb (t_meta db) (t_users db) (users_seq db)
  (<[id := r]> (t_groups db)) id (t_servers db) (servers_seq db) (t_assignments db)
  (t_credentials db) (t_sessions db) (t_session_log db) (t_audit db).
Definition add_server id r db := mkDb (t_meta db) (t_users db) (users_seq db) (t_groups db)
  (groups_seq db) (<[id := r]> (t_servers db)) id (t_assignments db) (t_credentials db)
  (t_sessions db) (t_session_log db) (t_audit db).

(** A method of the store: the database is behind a mutex, so each runs alone. *)
Abbreviation store A := (M Db StoreError A).

(** ** Statements with constraints *)

Definition username_taken (name : string) (except : option Z) (db : Db) : bool :=
  exists_row (fun i r => bool_decide (u_username r = name) && bool_decide (Some i ≠ except))
    (t_users db).

Definition server_name_taken (name : string) (except : option Z) (db : Db) : bool :=
  exists_row (fun i r => nocase_eq (s_name r) name && bool_decide (Some i ≠ except))
    (t_servers db).

Definition group_name_taken (name : string) (except : option Z) (db : Db) : bool :=
  exists_row (fun i r => nocase_eq (g_name r) name && bool_decide (Some i ≠ except))
    (t_groups db).

Definition group_ok (g : option Z) (db : Db) : bool :=
  match g with None => true | Some g => bool_decide (is_Some (t_groups db !! g)) end.

(** [INSERT INTO users ...]; the trigger [users_incarnation] fills the incarnation in. *)
Definition insert_user (rnd : Z) (name : string) (display sid : option string) (created : Z)
    (hash : option string) : store Z := fun db =>
  if username_taken name None db then (Err (Sql UniqueConstraint), db)
  else match next_rowid (users_seq db) with
       | None => (Err (Sql Full), db)
       | Some id =>
           (Ok id, add_user id (mkUserRec name display sid false false created None hash rnd) db)
       end.

Definition insert_group (name : string) (sort : Z) : store Z := fun db =>
  if group_name_taken name None db then (Err (Sql UniqueConstraint), db)
  else match next_rowid (groups_seq db) with
       | None => (Err (Sql Full), db)
       | Some id => (Ok id, add_group id (mkGroupRec name sort) db)
       end.

(** [INSERT INTO servers ...], with the trigger [servers_incarnation]. *)
Definition insert_server (rnd : Z) (name host : string) (port : Z) (g : option Z)
    (domain : option string) : store Z := fun db =>
  if server_name_taken name None db then (Err (Sql UniqueConstraint), db)
  else if negb (group_ok g db) then (Err (Sql ForeignKeyConstraint), db)
  else match next_rowid (servers_seq db) with
       | None => (Err (Sql Full), db)
       | Some id => (Ok id, add_server id (mkServerRec name host port g domain rnd) db)
       end.

(** [UPDATE users SET ... WHERE id = ?1 AND <p>]; the number of rows changed. *)
Definition update_user (id : Z) (p : UserRec → bool) (f : UserRec → UserRec) : store Z := fun db =>
  match t_users db !! id with
  | Some r =>
      if p r then
        if username_taken (u_username (f r)) (Some id) db then (Err (Sql UniqueConstraint), db)
        else (Ok 1, set_users (<[id := f r]>) db)
      else (Ok 0, db)
  | None => (Ok 0, db)
  end.

Definition update_group (id : Z) (f : GroupRec → GroupRec) : store Z := fun db =>
  match t_groups db !! id with
  | Some r =>
      if group_name_taken (g_name (f r)) (Some id) db then (Err (Sql UniqueConstraint), db)
      else (Ok 1, set_groups (<[id := f r]>) db)
  | None => (Ok 0, db)
  end.

Definition update_server (id : Z) (f : ServerRec → ServerRec) : store Z := fun db =>
  match t_servers db !! id with
  | Some r =>
      if server_name_taken (s_name (f r)) (Some id) db then (Err (Sql UniqueConstraint), db)
      else if negb (group_ok (s_group_id (f r)) db) then (Err (Sql ForeignKeyConstraint), db)
      else (Ok 1, set_servers (<[id := f r]>) db)
  | None => (Ok 0, db)
  end.

(** [DELETE FROM users WHERE id = ?1]: everything that references the row goes with it. *)
Definition delete_user_row (id : Z) (db : Db) : Db :=
  set_users (delete id)
    (set_assigned (filter (fun p => p.1 ≠ id))
      (set_credentials (filter (fun kv => kv.1.1 ≠ id))
        (set_sessions (filter (fun kv => n_user_id kv.2 ≠ id))
          (set_session_log (filter (fun kv => kv.1.1 ≠ id)) db)))).

Definition delete_server_row (id : Z) (db : Db) : Db :=
  set_servers (delete id)
    (set_assigned (filter (fun p => p.2 ≠ id))
      (set_credentials (filter (fun kv => kv.1.2 ≠ id))
        (set_session_log (filter (fun kv => kv.1.2 ≠ id)) db))).

(** [ON DELETE SET NULL] on [servers.group_id]. *)
Definition ungroup (g : Z) (r : ServerRec) : ServerRec :=
  if bool_decide (s_group_id r = Some g)
  then mkServerRec (s_name r) (s_host r) (s_port r) None (s_domain r) (s_incarnation r)
  else r.

Definition delete_group_row (id : Z) (db : Db) : Db :=
  set_groups (delete id) (set_servers (fmap (ungroup id)) db).

(** ** Reading rows *)

(** [user_from] over [USER_COLS]. *)
Definition user_from (id : Z) (r : UserRec) : User :=
  mkUser id (u_username r) (u_display_name r) (u_sid r) (u_is_admin r) (u_sid_mismatch r)
    (u_created r) (u_last_login r) (bool_decide (is_Some (u_local_hash r))) (u_incarnation r).

(** [server_from]: the port column is an [i64] read [as u16]. *)
Definition server_from (id : Z) (r : ServerRec) : Server :=
  mkServer id (s_name r) (s_host r) (wrap 16 (s_port r)) (s_group_id r) (s_domain r).

(** ** meta *)

Definition meta_get (key : string) : store (option bytes) := gets (fun db => t_meta db !! key).

Definition meta_set (key : string) (value : bytes) : store unit :=
  modify (set_meta (<[key := value]>)).

Definition meta_delete (key : string) : store unit := modify (set_meta (delete key)).

Definition b_one : bytes := [Byte.x31].

Definition flag (key : string) : store bool :=
  v ← meta_get key; mret (bool_decide (v = Some b_one)).

Definition set_flag (key : string) (on : bool) : store unit :=
  if on then meta_set key b_one else meta_delete key.

Definition replace_secrets (forget : list string) (set : string * bytes) : store Z :=
  transaction (
    removed ← gets (fun db => Z.of_nat (size (t_credentials db)));
    _ ← modify (set_credentials (fun _ => ∅));
    _ ← foldM (fun _ key => meta_delete key) () forget;
    _ ← meta_set set.1 set.2;
    mret removed).

(** ** users *)

Definition user_by_id (id : Z) : store (option User) :=
  gets (fun db => user_from id <$> t_users db !! id).

Definition user_by_name (name : string) : store (option User) :=
  gets (fun db => (fun ir => user_from ir.1 ir.2) <$>
    select_one (fun _ r => bool_decide (u_username r = name)) (t_users db)).

Definition directory_user_by_sid (sid : string) : store (option User) :=
  gets (fun db => (fun ir => user_from ir.1 ir.2) <$>
    select_one (fun _ r => bool_decide (u_sid r = Some sid) && bool_decide (u_local_hash r = None))
      (t_users db)).

Definition with_username name r := mkUserRec name (u_display_name r) (u_sid r) (u_is_admin r)
  (u_sid_mismatch r) (u_created r) (u_last_login r) (u_local_hash r) (u_incarnation r).

Definition user_rename (id incarnation : Z) (sid new_name : string) : store bool :=
  free ← gets (fun db => negb (username_taken new_name None db));
  n ← update_user id
        (fun r => bool_decide (u_incarnation r = incarnation) && bool_decide (u_sid r = Some sid)
                  && bool_decide (u_local_hash r = None) && free)
        (with_username new_name);
  mret (bool_decide (n = 1)).

Definition users_list : store (list UserRow) :=
  gets (fun db =>
    merge_sort (on (fun x => username (ur_user x)) String.le)
      ((fun ir => mkUserRow (user_from ir.1 ir.2)
          (Z.of_nat (size (filter (fun p => p.1 = ir.1) (t_assignments db))))
          (Z.of_nat (size (filter (fun kv => kv.1.1 = ir.1) (t_credentials db)))))
        <$> rows (t_users db))).

Definition user_create_returning (now rnd : Z) (name : string) (display : option string) :
    store User :=
  exists_ ← gets (username_taken name None);
  if exists_ : bool then throw (Conflict (name +:+ " is already a user"))
  else
    id ← insert_user rnd name display None now None;
    row ← user_by_id id;
    lift (ok_or (Sql QueryReturnedNoRows) row).

Definition user_create (now rnd : Z) (name : string) (display : option string) : store Z :=
  u ← user_create_returning now rnd name display; mret (user_id u).

Definition with_login (now : Z) (sid : string) (display : option string) r := mkUserRec
  (u_username r) (coalesce display (u_display_name r)) (coalesce (u_sid r) (Some sid))
  (u_is_admin r) (u_sid_mismatch r) (u_created r) (Some now) (u_local_hash r) (u_incarnation r).

Definition user_record_login (now : Z) (id incarnation : Z) (sid : string)
    (display : option string) : store bool :=
  n ← update_user id
        (fun r => bool_decide (u_incarnation r = incarnation)
                  && (bool_decide (u_sid r = None) || bool_decide (u_sid r = Some sid)))
        (with_login now sid display);
  mret (bool_decide (n > 0)).

Definition with_local_hash hash r := mkUserRec (u_username r) (u_display_name r) (u_sid r)
  (u_is_admin r) (u_sid_mismatch r) (u_created r) (u_last_login r) (Some hash) (u_incarnation r).

Definition local_account_set (now rnd : Z) (name hash sid : string) : store Z :=
  existing ← gets (fun db =>
    (fun ir => (ir.1, bool_decide (is_Some (u_local_hash ir.2)))) <$>
      select_one (fun _ r => bool_decide (u_username r = name)) (t_users db));
  match existing with
  | Some (_, false) =>
      throw (Conflict (name +:+ " is a directory user; choose another name for the local account"))
  | Some (id, true) =>
      _ ← update_user id (fun _ => true) (with_local_hash hash);
      mret id
  | None => insert_user rnd name (Some (name +:+ " (local)")) (Some sid) now (Some hash)
  end.

Definition local_hash (id : Z) : store (option string) :=
  gets (fun db => t_users db !! id ≫= u_local_hash).

Definition with_mismatch r := mkUserRec (u_username r) (u_display_name r) (u_sid r) (u_is_admin r)
  true (u_created r) (u_last_login r) (u_local_hash r) (u_incarnation r).

Definition user_flag_mismatch (id : Z) : store unit :=
  _ ← update_user id (fun _ => true) with_mismatch; mret ().

Definition with_admin admin r := mkUserRec (u_username r) (u_display_name r) (u_sid r) admin
  (u_sid_mismatch r) (u_created r) (u_last_login r) (u_local_hash r) (u_incarnation r).

(** What an update that changed no row answers. *)
Definition or_not_found (n : Z) : store unit :=
  if bool_decide (n = 0) then throw NotFound else mret ().

Definition user_set_admin (id : Z) (admin : bool) : store unit :=
  n ← update_user id (fun _ => true) (with_admin admin); or_not_found n.

Definition without_sid r := mkUserRec (u_username r) (u_display_name r) None (u_is_admin r) false
  (u_created r) (u_last_login r) (u_local_hash r) (u_incarnation r).

Definition user_clear_sid (id : Z) : store unit :=
  transaction (
    n ← update_user id (fun _ => true) without_sid;
    _ ← or_not_found n;
    _ ← modify (set_credentials (filter (fun kv => kv.1.1 ≠ id)));
    modify (set_sessions (filter (fun kv => n_user_id kv.2 ≠ id)))).

Definition user_delete (id : Z) : store unit := fun db =>
  match t_users db !! id with
  | Some _ => (Ok (), delete_user_row id db)
  | None => (Err NotFound, db)
  end.

Definition directory_users_with_sessions (at_ : Z) : store (list User) :=
  gets (fun db => (fun ir => user_from ir.1 ir.2) <$>
    select (fun i r => bool_decide (u_local_hash r = None)
              && bool_decide (map_Exists (fun _ n => n_user_id n = i ∧ n_expires n > at_)
                                (t_sessions db)))
      (t_users db)).

(** ** groups *)

Definition groups_list : store (list Group) :=
  gets (fun db =>
    merge_sort (lex (on group_sort Z.le) (on group_name nocase_le))
      ((fun ir => mkGroup ir.1 (g_name ir.2) (g_sort ir.2)
          (count_rows (fun _ s => bool_decide (s_group_id s = Some ir.1)) (t_servers db)))
        <$> rows (t_groups db))).

(** [SELECT COALESCE(MAX(sort), -1) + 1 FROM server_groups]. *)
Definition next_sort (db : Db) : Z :=
  match (fun ir => g_sort ir.2) <$> rows (t_groups db) with
  | [] => -1 + 1
  | s :: l => foldr Z.max s l + 1
  end.

Definition group_insert (name : string) : store Z :=
  exists_ ← gets (group_name_taken name None);
  if exists_ : bool then throw (Conflict ("a group named " +:+ name +:+ " exists"))
  else next ← gets next_sort; insert_group name next.

Definition group_create (name : string) : store Z := group_insert name.

Definition group_rename (id : Z) (name : string) : store unit :=
  taken ← gets (group_name_taken name (Some id));
  if taken : bool then throw (Conflict ("a group named " +:+ name +:+ " exists"))
  else n ← update_group id (fun r => mkGroupRec name (g_sort r)); or_not_found n.

Definition group_order (ids : list Z) : store unit :=
  transaction (
    foldM (fun _ ii => _ ← update_group ii.2 (fun r => mkGroupRec (g_name r) (Z.of_nat ii.1));
                       mret ())
      () (imap pair ids)).

Definition group_delete (id : Z) : store unit :=
  used ← gets (fun db => count_rows (fun _ s => bool_decide (s_group_id s = Some id)) (t_servers db));
  if bool_decide (used > 0) then
    throw (Conflict ("the group still holds " +:+ pretty used +:+ " server(s)"))
  else fun db =>
    match t_groups db !! id with
    | Some _ => (Ok (), delete_group_row id db)
    | None => (Err NotFound, db)
    end.

(** ** servers *)

Definition name_free (name : string) (except : option Z) : store unit :=
  taken ← gets (server_name_taken name except);
  if taken : bool then throw (Conflict ("a server named " +:+ name +:+ " exists")) else mret ().

Definition group_exists (g : option Z) : store unit :=
  ok ← gets (group_ok g);
  if ok : bool then mret ()
  else throw (Invalid ("no group with id " +:+ pretty (default 0 g))).

Definition servers_list : store (list ServerRow) :=
  gets (fun db =>
    merge_sort (on (fun x => server_name (sr_server x)) nocase_le)
      ((fun ir => mkServerRow (server_from ir.1 ir.2)
          (Z.of_nat (size (filter (fun p => p.2 = ir.1) (t_assignments db)))))
        <$> rows (t_servers db))).

Definition server_by_id (id : Z) : store (option Server) :=
  gets (fun db => server_from id <$> t_servers db !! id).

Definition server_create (rnd : Z) (name host : string) (port : Z) (g : option Z)
    (domain : option string) : store Z :=
  _ ← name_free name None;
  _ ← group_exists g;
  insert_server rnd name host port g domain.

Definition server_update (id : Z) (name host : string) (port : Z) (g : option Z)
    (domain : option string) : store unit :=
  _ ← name_free name (Some id);
  _ ← group_exists g;
  n ← update_server id (fun r => mkServerRec name host port g domain (s_incarnation r));
  or_not_found n.

Definition server_delete (id : Z) : store unit := fun db =>
  match t_servers db !! id with
  | Some _ => (Ok (), delete_server_row id db)
  | None => (Err NotFound, db)
  end.

(** The group a row names, created when there is none of that name. *)
Definition import_group (g : option (option string)) : store (option Z) :=
  match mjoin g with
  | None => mret None
  | Some name =>
      found ← gets (fun db => fst <$> select_one (fun _ r => nocase_eq (g_name r) name) (t_groups db));
      match found with
      | Some id => mret (Some id)
      | None => id ← group_insert name; mret (Some id)
      end
  end.

Definition import_update (row : ImportRow) (g : option Z) (r : ServerRec) : ServerRec :=
  mkServerRec (s_name r) (i_host row) (default (s_port r) (i_port row))
    (if i_group row is Some _ then g else s_group_id r)
    (if i_domain row is Some _ then mjoin (i_domain row) else s_domain r)
    (s_incarnation r).

(** One row of the import; [acc] counts servers created and updated. *)
Definition import_row (rnd : Z) (acc : Z * Z) (row : ImportRow) : store (Z * Z) :=
  g ← import_group (i_group row);
  existing ← gets (fun db =>
    fst <$> select_one (fun _ r => nocase_eq (s_name r) (i_name row)) (t_servers db));
  match existing with
  | Some id => _ ← update_server id (import_update row g); mret (acc.1, acc.2 + 1)
  | None =>
      _ ← insert_server rnd (i_name row) (i_host row) (default 3389 (i_port row)) g
            (mjoin (i_domain row));
      mret (acc.1 + 1, acc.2)
  end.

(** Each row is paired with the incarnation its insert would be given. *)
Definition servers_import (rows : list (Z * ImportRow)) : store (Z * Z) :=
  transaction (foldM (fun acc rr => import_row rr.1 acc rr.2) (0, 0) rows).

Definition servers_empty : store bool :=
  gets (fun db => bool_decide (size (t_servers db) = 0%nat)).

(** ** assignments *)

(** The authorization predicate. *)
Definition is_assigned (user server : Z) : store bool :=
  gets (fun db => bool_decide ((user, server) ∈ t_assignments db)).

(** A row of the join of [assignments], [servers] and [server_groups], with its sort keys. *)
Definition listed_row (db : Db) (p : Z * Z) : option (option Z * ListedServer) :=
  r ← t_servers db !! p.2;
  let g := s_group_id r ≫= (fun g => t_groups db !! g) in
  Some (g_sort <$> g, mkListed (server_from p.2 r) (g_name <$> g)).

(** [ORDER BY COALESCE(g.sort, 1000000000), g.name, s.name COLLATE NOCASE]. *)
Definition listed_le : relation (option Z * ListedServer) :=
  lex (on (fun x => default 1000000000 x.1) Z.le)
    (lex (on (fun x => listed_group x.2) (nulls_first nocase_le))
      (on (fun x => server_name (listed x.2)) nocase_le)).
#[export] Instance listed_le_dec : RelDecision listed_le := _.
#[export] Instance listed_le_total : Total listed_le := _.
#[export] Instance listed_le_trans : Transitive listed_le := _.

Definition assigned_servers (user : Z) : store (list ListedServer) :=
  gets (fun db =>
    snd <$> merge_sort listed_le
      (omap (listed_row db) (elements (filter (fun p => p.1 = user) (t_assignments db))))).

(** [SELECT server_id FROM assignments WHERE user_id = ?1]. *)
Definition assigned_ids (user : Z) (db : Db) : gset Z :=
  set_map snd (filter (fun p => p.1 = user) (t_assignments db)).

Definition assignment_ids (user : Z) : store (list Z) :=
  gets (fun db => merge_sort Z.le (elements (assigned_ids user db))).

Definition insert_assignment (user server : Z) : store unit := fun db =>
  if bool_decide ((user, server) ∈ t_assignments db) then (Err (Sql UniqueConstraint), db)
  else if bool_decide (is_Some (t_users db !! user) ∧ is_Some (t_servers db !! server))
       then (Ok (), set_assigned (union {[(user, server)]}) db)
       else (Err (Sql ForeignKeyConstraint), db).

Definition delete_assignment (user server : Z) : store unit :=
  _ ← modify (set_assigned (fun s => s ∖ {[(user, server)]}));
  modify (set_credentials (delete (user, server))).

(** The order in which a [HashSet] is walked is not specified; [elements] fixes one. *)
Definition set_assignments (user : Z) (ids : list Z) : store (Z * Z) :=
  transaction (
    user_exists ← gets (fun db => bool_decide (is_Some (t_users db !! user)));
    if negb user_exists then throw NotFound else
    let wanted : gset Z := list_to_set ids in
    _ ← foldM (fun _ id =>
          ok ← gets (fun db => bool_decide (is_Some (t_servers db !! id)));
          if ok : bool then mret () else throw (Invalid ("no server with id " +:+ pretty id)))
        () (elements wanted);
    current ← gets (assigned_ids user);
    added ← foldM (fun n id => _ ← insert_assignment user id; mret (n + 1))
              0 (elements (wanted ∖ current));
    removed ← foldM (fun n id => _ ← delete_assignment user id; mret (n + 1))
                0 (elements (current ∖ wanted));
    mret (added, removed)).

(** [INSERT OR IGNORE ... SELECT]: rows already there are passed over, but a missing user or server
    is still refused, and the statement as a whole changes nothing then. *)
Definition copy_assignments (from to : Z) : store Z := fun db =>
  let new := assigned_ids from db ∖ assigned_ids to db in
  if bool_decide (new = ∅) then (Ok 0, db)
  else if bool_decide (is_Some (t_users db !! to) ∧ set_Forall (fun s => is_Some (t_servers db !! s)) new)
       then (Ok (Z.of_nat (size new)), set_assigned (union (set_map (pair to) new)) db)
       else (Err (Sql ForeignKeyConstraint), db).

(** ** credentials *)

Definition credential_get (user server : Z) : store (option StoredCredential) :=
  gets (fun db =>
    (fun k => mkCred (k_username k) (k_domain k) (k_nonce k) (k_secret k))
      <$> t_credentials db !! (user, server)).

Definition credential_put (now : Z) (user server : Z) (cred : StoredCredential) : store unit :=
  fun db =>
    let row := mkCredRec (cred_username cred) (cred_domain cred) (cred_nonce cred)
                 (cred_secret cred) now in
    if bool_decide (is_Some (t_credentials db !! (user, server))
                    ∨ is_Some (t_users db !! user) ∧ is_Some (t_servers db !! server))
    then (Ok (), set_credentials (<[(user, server) := row]>) db)
    else (Err (Sql ForeignKeyConstraint), db).

Definition credential_delete (user server : Z) : store bool :=
  there ← gets (fun db => bool_decide (is_Some (t_credentials db !! (user, server))));
  _ ← modify (set_credentials (delete (user, server)));
  mret there.

Definition saved_server_ids (user : Z) : store (gset Z) :=
  gets (fun db => set_map snd (filter (fun p => p.1 = user) (dom (t_credentials db)))).

(** ** sessions *)

Definition row_lives (id incarnation : Z) (db : Db) : bool :=
  match t_users db !! id with
  | Some r => bool_decide (u_incarnation r = incarnation)
  | None => false
  end.

Definition server_row_lives (id incarnation : Z) (db : Db) : bool :=
  match t_servers db !! id with
  | Some r => bool_decide (s_incarnation r = incarnation)
  | None => false
  end.

Definition session_create (now : Z) (token_hash : bytes) (user incarnation expires : Z) :
    store bool := fun db =>
  if row_lives user incarnation db then
    match t_sessions db !! token_hash with
    | Some _ => (Err (Sql UniqueConstraint), db)
    | None => (Ok true, set_sessions (<[token_hash := mkSessionRec user now expires]>) db)
    end
  else (Ok false, db).

Definition session_user (token_hash : bytes) (at_ : Z) : store (option User) :=
  gets (fun db =>
    n ← t_sessions db !! token_hash;
    if bool_decide (n_expires n > at_)
    then user_from (n_user_id n) <$> t_users db !! n_user_id n
    else None).

Definition session_expires (token_hash : bytes) : store (option Z) :=
  gets (fun db => n_expires <$> t_sessions db !! token_hash).

Definition session_delete (token_hash : bytes) : store unit :=
  modify (set_sessions (delete token_hash)).

Definition sessions_delete_user (user : Z) : store Z :=
  n ← gets (fun db => Z.of_nat (size (filter (fun kv => n_user_id kv.2 = user) (t_sessions db))));
  _ ← modify (set_sessions (filter (fun kv => n_user_id kv.2 ≠ user)));
  mret n.

Definition sessions_purge (at_ : Z) : store Z :=
  n ← gets (fun db => Z.of_nat (size (filter (fun kv => n_expires kv.2 ≤ at_) (t_sessions db))));
  _ ← modify (set_sessions (filter (fun kv => ¬ n_expires kv.2 ≤ at_)));
  mret n.

(** ** session log *)

Definition incarnations (user server : Z) : store (option (Z * Z)) :=
  gets (fun db =>
    u ← t_users db !! user;
    s ← t_servers db !! server;
    Some (u_incarnation u, s_incarnation s)).

Definition session_ended (user user_incarnation server server_incarnation at_ : Z) : store bool :=
  fun db =>
    if row_lives user user_incarnation db && server_row_lives server server_incarnation db
    then (Ok true, set_session_log (<[(user, server) := at_]>) db)
    else (Ok false, db).

Definition recent_ends (user since : Z) : store (gmap Z Z) :=
  gets (fun db =>
    list_to_map ((fun kv => (kv.1.2, kv.2)) <$>
      map_to_list (filter (fun kv => kv.1.1 = user ∧ kv.2 > since) (t_session_log db)))).

(** ** audit *)

(** [INTEGER PRIMARY KEY]: one more than the largest id present. *)
Definition next_audit_id (db : Db) : Z := foldr Z.max 0 (rows (t_audit db)).*1 + 1.

(** Best effort: never fails the action it records. *)
Definition audit (now : Z) (actor action detail : string) : store unit := fun db =>
  (Ok (), set_audit (<[next_audit_id db := mkAuditRec now actor action detail]>) db).

(** [LIMIT n]: a negative limit is none. *)
Definition limit {A} (n : Z) (l : list A) : list A :=
  if bool_decide (n < 0) then l else take (Z.to_nat n) l.

Definition audit_prune (before batch : Z) : store Z := fun db =>
  let ids := (limit batch (select (fun _ a => bool_decide (a_at a < before)) (t_audit db))).*1 in
  (Ok (len ids), set_audit (filter (fun kv => kv.1 ∉ ids)) db).

(** ** Searching the audit log *)

(** [str::replace] of one character. *)
Definition replace_char (c : ascii) (by_ : list ascii) (s : list ascii) : list ascii :=
  flat_map (fun x => if decide (x = c) then by_ else [x]) s.

Definition c_backslash : ascii := "\"%char.
Definition c_percent : ascii := "%"%char.
Definition c_underscore : ascii := "_"%char.

(** The pattern [audit_search] builds for a text. *)
Definition like_escape (t : list ascii) : list ascii :=
  replace_char c_underscore [c_backslash; c_underscore]
    (replace_char c_percent [c_backslash; c_percent]
      (replace_char c_backslash [c_backslash; c_backslash] t)).

Definition like_pattern (t : list ascii) : list ascii := c_percent :: like_escape t ++ [c_percent].

(** One character of text against one of the pattern, ASCII case folded. *)
Definition like_char (a b : ascii) : bool := bool_decide (ascii_lower a = ascii_lower b).

(** SQL's [text LIKE pattern ESCAPE '\']: [%] any run, [_] any one character, an escaped character
    itself. *)
Fixpoint like (p : list ascii) (s : list ascii) {struct p} : bool :=
  match p with
  | [] => bool_decide (s = [])
  | c :: p' =>
      if decide (c = c_percent) then
        (fix any (s : list ascii) : bool :=
           like p' s || match s with [] => false | _ :: s' => any s' end) s
      else if decide (c = c_backslash) then
        match p', s with
        | c' :: p'', x :: s' => like_char c' x && like p'' s'
        | _, _ => false
        end
      else match s with
           | [] => false
           | x :: s' => (bool_decide (c = c_underscore) || like_char c x) && like p' s'
           end
  end.

(** SQLite's limit on the length of a [LIKE] pattern. *)
Definition like_limit : Z := 50000.

Definition audit_row (ir : Z * AuditRec) : AuditRow :=
  mkAuditRow ir.1 (a_at ir.2) (a_actor ir.2) (a_action ir.2) (a_detail ir.2).

Definition audit_matches (pattern : option (list ascii)) (a : AuditRec) : bool :=
  match pattern with
  | None => true
  | Some p => like p (String.list_ascii_of_string (a_actor a))
              || like p (String.list_ascii_of_string (a_action a))
              || like p (String.list_ascii_of_string (a_detail a))
  end.

Definition below (before : option Z) (id : Z) : bool :=
  match before with None => true | Some b => bool_decide (id < b) end.

(** Entries newest first. A pattern over the limit fails on the first row it is tried on. *)
Definition audit_search (lim : Z) (before : option Z) (text : option string) :
    store (list AuditRow) := fun db =>
  let pattern := (fun t => like_pattern (String.list_ascii_of_string t)) <$>
                   (t ← text; if decide (t = ""%string) then None else Some t) in
  let scanned := reverse (select (fun i _ => below before i) (t_audit db)) in
  if bool_decide (lim ≠ 0 ∧ scanned ≠ [] ∧ like_limit < default 0 (len <$> pattern))
  then (Err (Sql LikeTooLong), db)
  else (Ok (audit_row <$> limit lim (List.filter (fun ir => audit_matches pattern ir.2) scanned)), db).

(** ** Whole-database reads *)

Definition counts : store Counts :=
  gets (fun db => mkCounts (Z.of_nat (size (t_users db))) (Z.of_nat (size (t_servers db)))
                    (Z.of_nat (size (t_assignments db))) (Z.of_nat (size (t_credentials db)))).
