(* ===== verification/StoreInv.v ===== *)
(** * The database invariant (src/src/store.rs)

    What the schema and the methods of [Store] keep true of every database: ids are drawn from a
    counter and bounded by it, user names are unique, server and group names are unique whatever
    their case, and no row refers to a missing one. Every method preserves it. *)

From S2P Require Import Prelude Tables Store.
Local Open Scope Z_scope.

(** ** Conditions on one table *)

Section conditions.
Context {V : Type}.
Implicit Types (m : gmap Z V).

(** Every id present was handed out by the counter. *)
Definition ids_ok (seq : Z) m : Prop :=
  0 ≤ seq ≤ i64_max ∧ ∀ i r, m !! i = Some r → 1 ≤ i ≤ seq.

(** No two rows share a key. *)
Definition unique (key : V → string) m : Prop :=
  ∀ i j r r', m !! i = Some r → m !! j = Some r' → key r = key r' → i = j.

Lemma ids_ok_add seq m id r :
  ids_ok seq m → next_rowid seq = Some id → ids_ok id (<[id := r]> m).
Proof.
  unfold next_rowid. intros [Hseq Hm] Hid. case_decide; simplify_eq.
  split; [lia|]. intros i r' [[<- _]|[_ Hi]]%lookup_insert_Some; [lia|].
  specialize (Hm i r' Hi). lia.
Qed.

Lemma ids_ok_update seq m id r r' :
  ids_ok seq m → m !! id = Some r → ids_ok seq (<[id := r']> m).
Proof.
  intros [Hseq Hm] Hid. split; [done|].
  intros i x [[<- _]|[_ Hi]]%lookup_insert_Some; eauto.
Qed.

Lemma ids_ok_delete seq m id : ids_ok seq m → ids_ok seq (delete id m).
Proof.
  intros [Hseq Hm]. split; [done|]. intros i x [_ Hi]%lookup_delete_Some. eauto.
Qed.

Lemma ids_ok_fmap seq m (f : V → V) : ids_ok seq m → ids_ok seq (f <$> m).
Proof.
  intros [Hseq Hm]. split; [done|]. intros i x Hi.
  apply lookup_fmap_Some in Hi as (y & _ & Hy). eauto.
Qed.

(** The next id is one no row has. *)
Lemma next_rowid_fresh seq m id : ids_ok seq m → next_rowid seq = Some id → m !! id = None.
Proof.
  unfold next_rowid. intros [_ Hm] Hid. case_decide; simplify_eq.
  apply eq_None_not_Some. intros [r Hr]. specialize (Hm _ _ Hr). lia.
Qed.

Lemma unique_insert key m id r :
  unique key m →
  (∀ j r', m !! j = Some r' → key r' = key r → j = id) →
  unique key (<[id := r]> m).
Proof.
  intros Hu Hf i j x y Hi Hj Hk.
  apply lookup_insert_Some in Hi as [[<- <-]|[Hi1 Hi2]];
    apply lookup_insert_Some in Hj as [[<- <-]|[Hj1 Hj2]]; [done| | |by eapply Hu].
  - symmetry. by eapply Hf.
  - by eapply Hf.
Qed.

Lemma unique_delete key m id : unique key m → unique key (delete id m).
Proof. intros Hu i j x y [_ ?]%lookup_delete_Some [_ ?]%lookup_delete_Some. eauto. Qed.

Lemma unique_fmap key m (f : V → V) :
  (∀ r, key (f r) = key r) → unique key m → unique key (f <$> m).
Proof.
  intros Hf Hu i j x y (x' & <- & ?)%lookup_fmap_Some (y' & <- & ?)%lookup_fmap_Some.
  rewrite !Hf. eauto.
Qed.
End conditions.

(** ** The invariant *)

Definition fold_name (s : string) : string := to_ascii_lowercase s.

Record wf_db (db : Db) : Prop := {
  wf_user_ids : ids_ok (users_seq db) (t_users db);
  wf_group_ids : ids_ok (groups_seq db) (t_groups db);
  wf_server_ids : ids_ok (servers_seq db) (t_servers db);
  wf_user_names : unique u_username (t_users db);
  wf_group_names : unique (fun g => fold_name (g_name g)) (t_groups db);
  wf_server_names : unique (fun s => fold_name (s_name s)) (t_servers db);
  wf_server_groups : ∀ i r g, t_servers db !! i = Some r → s_group_id r = Some g →
    is_Some (t_groups db !! g);
  wf_assigned : ∀ u s, (u, s) ∈ t_assignments db →
    is_Some (t_users db !! u) ∧ is_Some (t_servers db !! s);
  wf_credentials : ∀ u s k, t_credentials db !! (u, s) = Some k →
    is_Some (t_users db !! u) ∧ is_Some (t_servers db !! s);
  wf_sessions : ∀ h n, t_sessions db !! h = Some n → is_Some (t_users db !! n_user_id n);
  wf_session_log : ∀ u s e, t_session_log db !! (u, s) = Some e →
    is_Some (t_users db !! u) ∧ is_Some (t_servers db !! s)
}.

Lemma wf_empty : wf_db empty_db.
Proof.
  split; simpl; unfold ids_ok, unique, i64_max; try split; intros; simplify_map_eq; set_solver by lia.
Qed.

(** ** Constraint checks *)

Lemma username_taken_false name except db :
  username_taken name except db = false ↔
  ∀ i r, t_users db !! i = Some r → u_username r = name → except = Some i.
Proof.
  unfold username_taken. rewrite exists_row_false. split; intros H i r Hr.
  - intros Hn. specialize (H i r Hr). rewrite andb_false_iff in H.
    destruct H as [H|H]; [by apply bool_decide_eq_false in H|].
    apply bool_decide_eq_false in H. symmetry. by apply dec_stable.
  - apply andb_false_iff. destruct (decide (u_username r = name)) as [E|E].
    + right. apply bool_decide_eq_false. rewrite (H i r Hr E). tauto.
    + left. by apply bool_decide_eq_false.
Qed.

Lemma nocase_taken_false {V} (key : V → string) name except (m : gmap Z V) :
  exists_row (fun i r => nocase_eq (key r) name && bool_decide (Some i ≠ except)) m = false ↔
  ∀ i r, m !! i = Some r → fold_name (key r) = fold_name name → except = Some i.
Proof.
  rewrite exists_row_false. unfold nocase_eq, fold_name. split; intros H i r Hr.
  - intros Hn. specialize (H i r Hr). rewrite andb_false_iff in H.
    destruct H as [H|H]; [by apply bool_decide_eq_false in H|].
    apply bool_decide_eq_false in H. symmetry. by apply dec_stable.
  - apply andb_false_iff.
    destruct (decide (to_ascii_lowercase (key r) = to_ascii_lowercase name)) as [E|E].
    + right. apply bool_decide_eq_false. rewrite (H i r Hr E). tauto.
    + left. by apply bool_decide_eq_false.
Qed.

Lemma server_name_taken_false name except db :
  server_name_taken name except db = false ↔
  ∀ i r, t_servers db !! i = Some r → fold_name (s_name r) = fold_name name → except = Some i.
Proof. apply (nocase_taken_false s_name). Qed.

Lemma group_name_taken_false name except db :
  group_name_taken name except db = false ↔
  ∀ i r, t_groups db !! i = Some r → fold_name (g_name r) = fold_name name → except = Some i.
Proof. apply (nocase_taken_false g_name). Qed.

Lemma group_ok_true g db :
  group_ok g db = true ↔ ∀ i, g = Some i → is_Some (t_groups db !! i).
Proof.
  destruct g as [i|]; simpl; [|by split]. rewrite bool_decide_eq_true. naive_solver.
Qed.

(** ** Each kind of change preserves the invariant *)

Lemma is_Some_insert {V} (m : gmap Z V) i j r : is_Some (m !! j) → is_Some (<[i := r]> m !! j).
Proof. rewrite lookup_insert_is_Some'. tauto. Qed.

Lemma is_Some_fmap_gmap {V} (f : V → V) (m : gmap Z V) j : is_Some (m !! j) → is_Some ((f <$> m) !! j).
Proof. rewrite lookup_fmap, fmap_is_Some. done. Qed.

Create HintDb wf discriminated.
#[export] Hint Resolve ids_ok_add ids_ok_update ids_ok_delete ids_ok_fmap unique_delete
  is_Some_insert is_Some_fmap_gmap : wf.

(** Opens the invariant of the database before the change and closes the clauses it did not touch. *)
Ltac wf_start Hwf := destruct Hwf; split; simpl; try done; eauto with wf.

(** Forgetting rows that nothing refers to. *)
Lemma wf_forget db db' :
  wf_db db →
  t_users db' = t_users db → users_seq db' = users_seq db →
  t_groups db' = t_groups db → groups_seq db' = groups_seq db →
  t_servers db' = t_servers db → servers_seq db' = servers_seq db →
  t_assignments db' ⊆ t_assignments db → t_credentials db' ⊆ t_credentials db →
  t_sessions db' ⊆ t_sessions db → t_session_log db' ⊆ t_session_log db →
  wf_db db'.
Proof.
  intros [] Hu Hus Hg Hgs Hs Hss Ha Hc Hn Hl.
  split; rewrite ?Hu, ?Hus, ?Hg, ?Hgs, ?Hs, ?Hss; auto.
  - intros u s k Hk. eapply wf_credentials0. by eapply lookup_weaken.
  - intros h n Hh. eapply wf_sessions0. by eapply lookup_weaken.
  - intros u s e He. eapply wf_session_log0. by eapply lookup_weaken.
Qed.

Lemma wf_add_user db id r :
  wf_db db → username_taken (u_username r) None db = false → next_rowid (users_seq db) = Some id →
  wf_db (add_user id r db).
Proof.
  intros Hwf Hfree Hid. rewrite username_taken_false in Hfree. wf_start Hwf.
  - apply unique_insert; [done|]. intros j r' Hj Hk. by specialize (Hfree j r' Hj Hk).
  - intros u s [??]%wf_assigned0. eauto with wf.
  - intros u s k [??]%wf_credentials0. eauto with wf.
  - intros u s e [??]%wf_session_log0. eauto with wf.
Qed.

Lemma wf_add_group db id r :
  wf_db db → group_name_taken (g_name r) None db = false → next_rowid (groups_seq db) = Some id →
  wf_db (add_group id r db).
Proof.
  intros Hwf Hfree Hid. rewrite group_name_taken_false in Hfree. wf_start Hwf.
  apply unique_insert; [done|]. intros j r' Hj Hk. by specialize (Hfree j r' Hj Hk).
Qed.

Lemma wf_add_server db id r :
  wf_db db → server_name_taken (s_name r) None db = false → group_ok (s_group_id r) db = true →
  next_rowid (servers_seq db) = Some id → wf_db (add_server id r db).
Proof.
  intros Hwf Hfree Hg Hid. rewrite server_name_taken_false in Hfree. rewrite group_ok_true in Hg.
  wf_start Hwf.
  - apply unique_insert; [done|]. intros j r' Hj Hk. by specialize (Hfree j r' Hj Hk).
  - intros i x g [[<- <-]|[_ Hi]]%lookup_insert_Some Hx; eauto.
  - intros u s [??]%wf_assigned0. eauto with wf.
  - intros u s k [??]%wf_credentials0. eauto with wf.
  - intros u s e [??]%wf_session_log0. eauto with wf.
Qed.

Lemma wf_set_user db id r r' :
  wf_db db → t_users db !! id = Some r → username_taken (u_username r') (Some id) db = false →
  wf_db (set_users (<[id := r']>) db).
Proof.
  intros Hwf Hid Hfree. rewrite username_taken_false in Hfree. wf_start Hwf.
  - apply unique_insert; [done|]. intros j x Hj Hk. specialize (Hfree j x Hj Hk). by simplify_eq.
  - intros u s [??]%wf_assigned0. eauto with wf.
  - intros u s k [??]%wf_credentials0. eauto with wf.
  - intros u s e [??]%wf_session_log0. eauto with wf.
Qed.

Lemma wf_set_group db id r r' :
  wf_db db → t_groups db !! id = Some r → group_name_taken (g_name r') (Some id) db = false →
  wf_db (set_groups (<[id := r']>) db).
Proof.
  intros Hwf Hid Hfree. rewrite group_name_taken_false in Hfree. wf_start Hwf.
  apply unique_insert; [done|]. intros j x Hj Hk. specialize (Hfree j x Hj Hk). by simplify_eq.
Qed.

Lemma wf_set_server db id r r' :
  wf_db db → t_servers db !! id = Some r →
  server_name_taken (s_name r') (Some id) db = false → group_ok (s_group_id r') db = true →
  wf_db (set_servers (<[id := r']>) db).
Proof.
  intros Hwf Hid Hfree Hg. rewrite server_name_taken_false in Hfree. rewrite group_ok_true in Hg.
  wf_start Hwf.
  - apply unique_insert; [done|]. intros j x Hj Hk. specialize (Hfree j x Hj Hk). by simplify_eq.
  - intros i x g [[<- <-]|[_ Hi]]%lookup_insert_Some Hx; eauto.
  - intros u s [??]%wf_assigned0. eauto with wf.
  - intros u s k [??]%wf_credentials0. eauto with wf.
  - intros u s e [??]%wf_session_log0. eauto with wf.
Qed.

Lemma is_Some_delete {V} (m : gmap Z V) i j : i ≠ j → is_Some (m !! j) → is_Some (delete i m !! j).
Proof. intros. by rewrite lookup_delete_ne. Qed.

Lemma wf_delete_user_row id db : wf_db db → wf_db (delete_user_row id db).
Proof.
  intros Hwf. unfold delete_user_row. wf_start Hwf.
  - intros u s [Hu [??]%wf_assigned0]%elem_of_filter. simpl in Hu.
    split; [|done]. by apply is_Some_delete.
  - intros u s k [[??]%wf_credentials0 Hu]%map_lookup_filter_Some. simpl in Hu.
    split; [|done]. by apply is_Some_delete.
  - intros h n [Hn%wf_sessions0 Hu]%map_lookup_filter_Some. simpl in Hu.
    by apply is_Some_delete.
  - intros u s e [[??]%wf_session_log0 Hu]%map_lookup_filter_Some. simpl in Hu.
    split; [|done]. by apply is_Some_delete.
Qed.

Lemma wf_delete_server_row id db : wf_db db → wf_db (delete_server_row id db).
Proof.
  intros Hwf. unfold delete_server_row. wf_start Hwf.
  - intros i r g [_ Hi]%lookup_delete_Some. eauto.
  - intros u s [Hu [??]%wf_assigned0]%elem_of_filter. simpl in Hu.
    split; [done|]. by apply is_Some_delete.
  - intros u s k [[??]%wf_credentials0 Hu]%map_lookup_filter_Some. simpl in Hu.
    split; [done|]. by apply is_Some_delete.
  - intros u s e [[??]%wf_session_log0 Hu]%map_lookup_filter_Some. simpl in Hu.
    split; [done|]. by apply is_Some_delete.
Qed.

Lemma ungroup_name g r : s_name (ungroup g r) = s_name r.
Proof. unfold ungroup. by case_bool_decide. Qed.

Lemma ungroup_group g r g' : s_group_id (ungroup g r) = Some g' → s_group_id r = Some g' ∧ g' ≠ g.
Proof. unfold ungroup. case_bool_decide; simpl; naive_solver. Qed.

Lemma wf_delete_group_row id db : wf_db db → wf_db (delete_group_row id db).
Proof.
  intros Hwf. unfold delete_group_row. wf_start Hwf.
  - apply unique_fmap; [|done]. intros r. by rewrite ungroup_name.
  - intros i r g (x & <- & Hx)%lookup_fmap_Some [Hg Hne]%ungroup_group.
    apply is_Some_delete; eauto.
  - intros u s [??]%wf_assigned0. eauto with wf.
  - intros u s k [??]%wf_credentials0. eauto with wf.
  - intros u s e [??]%wf_session_log0. eauto with wf.
Qed.

Lemma wf_assign (db : Db) (new : gset (Z * Z)) :
  wf_db db →
  (∀ u s, (u, s) ∈ new → is_Some (t_users db !! u) ∧ is_Some (t_servers db !! s)) →
  wf_db (set_assigned (union new) db).
Proof.
  intros Hwf Hnew. wf_start Hwf. intros u s [?|?]%elem_of_union; eauto.
Qed.

Lemma wf_put_credential db u s k :
  wf_db db → is_Some (t_users db !! u) → is_Some (t_servers db !! s) →
  wf_db (set_credentials (<[(u, s) := k]>) db).
Proof.
  intros Hwf Hu Hs. wf_start Hwf. intros u' s' k' [[[= <- <-] _]|[_ ?]]%lookup_insert_Some; eauto.
Qed.

Lemma wf_put_session db h n :
  wf_db db → is_Some (t_users db !! n_user_id n) → wf_db (set_sessions (<[h := n]>) db).
Proof.
  intros Hwf Hu. wf_start Hwf. intros h' n' [[<- <-]|[_ ?]]%lookup_insert_Some; eauto.
Qed.

Lemma wf_put_log db u s e :
  wf_db db → is_Some (t_users db !! u) → is_Some (t_servers db !! s) →
  wf_db (set_session_log (<[(u, s) := e]>) db).
Proof.
  intros Hwf Hu Hs. wf_start Hwf. intros u' s' k' [[[= <- <-] _]|[_ ?]]%lookup_insert_Some; eauto.
Qed.


(** ** Invariants of the store *)

(** A change that leaves users, groups and servers alone and only forgets rows that refer to them;
    settings and the audit log may change freely. *)
Record forgets (db db' : Db) : Prop := {
  forgets_users : t_users db' = t_users db;
  forgets_users_seq : users_seq db' = users_seq db;
  forgets_groups : t_groups db' = t_groups db;
  forgets_groups_seq : groups_seq db' = groups_seq db;
  forgets_servers : t_servers db' = t_servers db;
  forgets_servers_seq : servers_seq db' = servers_seq db;
  forgets_assignments : t_assignments db' ⊆ t_assignments db;
  forgets_credentials : t_credentials db' ⊆ t_credentials db;
  forgets_sessions : t_sessions db' ⊆ t_sessions db;
  forgets_session_log : t_session_log db' ⊆ t_session_log db
}.

(** What a property of databases has to be closed under for every method to preserve it: the
    changes the statements make, each under the guard that lets it happen. *)
Class StoreInvariant (I : Db → Prop) : Prop := {
  inv_forgets db db' : I db → forgets db db' → I db';
  inv_add_user db id r :
    I db → username_taken (u_username r) None db = false →
    next_rowid (users_seq db) = Some id → I (add_user id r db);
  inv_add_group db id r :
    I db → group_name_taken (g_name r) None db = false →
    next_rowid (groups_seq db) = Some id → I (add_group id r db);
  inv_add_server db id r :
    I db → server_name_taken (s_name r) None db = false → group_ok (s_group_id r) db = true →
    next_rowid (servers_seq db) = Some id → I (add_server id r db);
  inv_set_user db id r r' :
    I db → t_users db !! id = Some r → u_incarnation r' = u_incarnation r →
    username_taken (u_username r') (Some id) db = false → I (set_users (<[id := r']>) db);
  inv_set_group db id r r' :
    I db → t_groups db !! id = Some r →
    group_name_taken (g_name r') (Some id) db = false → I (set_groups (<[id := r']>) db);
  inv_set_server db id r r' :
    I db → t_servers db !! id = Some r → s_incarnation r' = s_incarnation r →
    server_name_taken (s_name r') (Some id) db = false → group_ok (s_group_id r') db = true →
    I (set_servers (<[id := r']>) db);
  inv_delete_user db id : I db → I (delete_user_row id db);
  inv_delete_server db id : I db → I (delete_server_row id db);
  inv_delete_group db id : I db → I (delete_group_row id db);
  inv_assign (db : Db) (new : gset (Z * Z)) :
    I db → (∀ u s, (u, s) ∈ new → is_Some (t_users db !! u) ∧ is_Some (t_servers db !! s)) →
    I (set_assigned (union new) db);
  inv_put_credential db u s k :
    I db → is_Some (t_credentials db !! (u, s))
           ∨ is_Some (t_users db !! u) ∧ is_Some (t_servers db !! s) →
    I (set_credentials (<[(u, s) := k]>) db);
  inv_put_session db h n :
    I db → is_Some (t_users db !! n_user_id n) → I (set_sessions (<[h := n]>) db);
  inv_put_log db u s e :
    I db → is_Some (t_users db !! u) → is_Some (t_servers db !! s) →
    I (set_session_log (<[(u, s) := e]>) db)
}.

#[export] Instance wf_db_invariant : StoreInvariant wf_db.
Proof.
  split; eauto using wf_add_user, wf_add_group, wf_add_server, wf_set_user, wf_set_group,
    wf_set_server, wf_delete_user_row, wf_delete_server_row, wf_delete_group_row, wf_assign,
    wf_put_session, wf_put_log.
  - intros db db' Hwf []. by apply (wf_forget db).
  - intros db u s k Hwf [[k' Hk]|[??]]; [|by apply wf_put_credential].
    destruct (wf_credentials db Hwf _ _ _ Hk). by apply wf_put_credential.
Qed.

Section invariants.
Context (I : Db → Prop) `{!StoreInvariant I}.

(** Changes to one table that only forget rows, or touch none that is referred to. *)
Lemma inv_set_meta f db : I db → I (set_meta f db).
Proof. intros HI. by eapply inv_forgets. Qed.

Lemma inv_set_audit f db : I db → I (set_audit f db).
Proof. intros HI. by eapply inv_forgets. Qed.

Lemma inv_filter_credentials (P : (Z * Z) * CredRec → Prop) `{!∀ x, Decision (P x)} db :
I db → I (set_credentials (filter P) db).
Proof. intros HI. eapply inv_forgets; [done|]. split; try done. apply map_filter_subseteq. Qed.

Lemma inv_delete_credential k db : I db → I (set_credentials (delete k) db).
Proof. intros HI. eapply inv_forgets; [done|]. split; try done. apply delete_subseteq. Qed.

Lemma inv_clear_credentials db : I db → I (set_credentials (fun _ => ∅) db).
Proof. intros HI. eapply inv_forgets; [done|]. split; try done. apply map_empty_subseteq. Qed.

Lemma inv_filter_sessions (P : bytes * SessionRec → Prop) `{!∀ x, Decision (P x)} db :
I db → I (set_sessions (filter P) db).
Proof. intros HI. eapply inv_forgets; [done|]. split; try done. apply map_filter_subseteq. Qed.

Lemma inv_delete_session h db : I db → I (set_sessions (delete h) db).
Proof. intros HI. eapply inv_forgets; [done|]. split; try done. apply delete_subseteq. Qed.

Lemma inv_drop_assignment p db : I db → I (set_assigned (fun s => s ∖ {[p]}) db).
Proof. intros HI. eapply inv_forgets; [done|]. split; try done. simpl. set_solver. Qed.

#[local] Hint Resolve inv_set_meta inv_set_audit inv_filter_credentials inv_delete_credential
inv_clear_credentials inv_filter_sessions inv_delete_session inv_drop_assignment : wf.
#[local] Hint Extern 1 (I (delete_user_row _ _)) => apply inv_delete_user : wf.
#[local] Hint Extern 1 (I (delete_server_row _ _)) => apply inv_delete_server : wf.
#[local] Hint Extern 1 (I (delete_group_row _ _)) => apply inv_delete_group : wf.

(** ** Statements *)

Lemma insert_user_inv rnd name display sid created hash :
preserves I (insert_user rnd name display sid created hash).
Proof.
intros db HI. unfold insert_user. destruct (username_taken _ _ _) eqn:?; [done|].
destruct (next_rowid _) eqn:?; [|done]. by apply inv_add_user.
Qed.

Lemma insert_group_inv name sort : preserves I (insert_group name sort).
Proof.
intros db HI. unfold insert_group. destruct (group_name_taken _ _ _) eqn:?; [done|].
destruct (next_rowid _) eqn:?; [|done]. by apply inv_add_group.
Qed.

Lemma insert_server_inv rnd name host port g domain :
preserves I (insert_server rnd name host port g domain).
Proof.
intros db HI. unfold insert_server. destruct (server_name_taken _ _ _) eqn:?; [done|].
destruct (group_ok _ _) eqn:?; [|done]. destruct (next_rowid _) eqn:?; [|done].
by apply inv_add_server.
Qed.

Lemma update_user_inv id p f :
(∀ r, u_incarnation (f r) = u_incarnation r) → preserves I (update_user id p f).
Proof.
intros Hf.
intros db HI. unfold update_user. destruct (t_users db !! id) eqn:?; [|done].
destruct (p u); [|done]. destruct (username_taken _ _ _) eqn:?; [done|].
by eapply inv_set_user.
Qed.

Lemma update_group_inv id f : preserves I (update_group id f).
Proof.
intros db HI. unfold update_group. destruct (t_groups db !! id) eqn:?; [|done].
destruct (group_name_taken _ _ _) eqn:?; [done|]. by eapply inv_set_group.
Qed.

Lemma update_server_inv id f :
(∀ r, s_incarnation (f r) = s_incarnation r) → preserves I (update_server id f).
Proof.
intros Hf.
intros db HI. unfold update_server. destruct (t_servers db !! id) eqn:?; [|done].
destruct (server_name_taken _ _ _) eqn:?; [done|]. destruct (group_ok _ _) eqn:?; [|done].
by eapply inv_set_server.
Qed.

Lemma insert_assignment_inv u s : preserves I (insert_assignment u s).
Proof.
intros db HI. unfold insert_assignment. case_bool_decide; [done|].
case_bool_decide as Hus; [|done]. apply inv_assign; [done|].
by intros u' s' [= -> ->]%elem_of_singleton.
Qed.

#[local] Hint Resolve insert_user_inv insert_group_inv insert_server_inv update_user_inv
update_group_inv update_server_inv insert_assignment_inv : preserves.

(** A goal about a whole method: its structure, then the changes it makes. *)
Ltac solve_inv := solve_preserves; eauto with wf.

(** ** Methods *)

Lemma meta_set_inv key value : preserves I (meta_set key value).
Proof. unfold meta_set. solve_inv. Qed.
Lemma meta_delete_inv key : preserves I (meta_delete key).
Proof. unfold meta_delete. solve_inv. Qed.
#[local] Hint Resolve meta_set_inv meta_delete_inv : preserves.

Lemma set_flag_inv key on : preserves I (set_flag key on).
Proof. unfold set_flag. solve_inv. Qed.

Lemma replace_secrets_inv forget set : preserves I (replace_secrets forget set).
Proof. unfold replace_secrets. solve_inv. Qed.

Lemma or_not_found_inv n : preserves I (or_not_found n).
Proof. unfold or_not_found. solve_inv. Qed.
#[local] Hint Resolve or_not_found_inv : preserves.

Lemma user_rename_inv id inc sid name : preserves I (user_rename id inc sid name).
Proof. unfold user_rename. solve_inv. Qed.

Lemma user_create_returning_inv now rnd name display :
preserves I (user_create_returning now rnd name display).
Proof. unfold user_create_returning, user_by_id. solve_inv. Qed.
#[local] Hint Resolve user_create_returning_inv : preserves.

Lemma user_create_inv now rnd name display : preserves I (user_create now rnd name display).
Proof. unfold user_create. solve_inv. Qed.

Lemma user_record_login_inv now id inc sid display :
preserves I (user_record_login now id inc sid display).
Proof. unfold user_record_login. solve_inv. Qed.

Lemma local_account_set_inv now rnd name hash sid :
preserves I (local_account_set now rnd name hash sid).
Proof. unfold local_account_set. solve_inv. Qed.

Lemma user_flag_mismatch_inv id : preserves I (user_flag_mismatch id).
Proof. unfold user_flag_mismatch. solve_inv. Qed.

Lemma user_set_admin_inv id admin : preserves I (user_set_admin id admin).
Proof. unfold user_set_admin. solve_inv. Qed.

Lemma user_clear_sid_inv id : preserves I (user_clear_sid id).
Proof. unfold user_clear_sid. solve_inv. Qed.

Lemma user_delete_inv id : preserves I (user_delete id).
Proof. intros db HI. unfold user_delete. destruct (_ !! id); simpl; auto with wf. Qed.

Lemma group_insert_inv name : preserves I (group_insert name).
Proof. unfold group_insert. solve_inv. Qed.
#[local] Hint Resolve group_insert_inv : preserves.

Lemma group_rename_inv id name : preserves I (group_rename id name).
Proof. unfold group_rename. solve_inv. Qed.

Lemma group_order_inv ids : preserves I (group_order ids).
Proof. unfold group_order. solve_inv. Qed.

Lemma delete_group_inv id :
preserves (E:=StoreError) (A:=unit) I (fun db =>
  match t_groups db !! id with
  | Some _ => (Ok (), delete_group_row id db)
  | None => (Err NotFound, db)
  end).
Proof. intros db HI. destruct (_ !! id); simpl; auto with wf. Qed.

Lemma group_delete_inv id : preserves I (group_delete id).
Proof. unfold group_delete. solve_inv. apply delete_group_inv. Qed.

Lemma name_free_inv name except : preserves I (name_free name except).
Proof. unfold name_free. solve_inv. Qed.
Lemma group_exists_inv g : preserves I (group_exists g).
Proof. unfold group_exists. solve_inv. Qed.
#[local] Hint Resolve name_free_inv group_exists_inv : preserves.

Lemma server_create_inv rnd name host port g domain :
preserves I (server_create rnd name host port g domain).
Proof. unfold server_create. solve_inv. Qed.

Lemma server_update_inv id name host port g domain :
preserves I (server_update id name host port g domain).
Proof. unfold server_update. solve_inv. Qed.

Lemma server_delete_inv id : preserves I (server_delete id).
Proof. intros db HI. unfold server_delete. destruct (_ !! id); simpl; auto with wf. Qed.

Lemma import_group_inv g : preserves I (import_group g).
Proof. unfold import_group. solve_inv. Qed.
#[local] Hint Resolve import_group_inv : preserves.

Lemma import_row_inv rnd acc row : preserves I (import_row rnd acc row).
Proof. unfold import_row. solve_inv. Qed.
#[local] Hint Resolve import_row_inv : preserves.

Lemma servers_import_inv rows : preserves I (servers_import rows).
Proof. unfold servers_import. solve_inv. Qed.

Lemma delete_assignment_inv u s : preserves I (delete_assignment u s).
Proof. unfold delete_assignment. solve_inv. Qed.
#[local] Hint Resolve delete_assignment_inv : preserves.

Lemma set_assignments_inv user ids : preserves I (set_assignments user ids).
Proof. unfold set_assignments. solve_inv. Qed.

Lemma copy_assignments_inv from to : preserves I (copy_assignments from to).
Proof.
intros db HI. unfold copy_assignments. case_bool_decide; [done|].
case_bool_decide as Hok; [|done]. destruct Hok as [Hto Hs]. apply inv_assign; [done|].
intros u s (s' & [= -> ->] & Hin)%elem_of_map. split; [done|]. by apply Hs.
Qed.

Lemma credential_put_inv now user server cred : preserves I (credential_put now user server cred).
Proof.
intros db HI. unfold credential_put. case_bool_decide as Hok; [|done].
by apply inv_put_credential.
Qed.

Lemma credential_delete_inv user server : preserves I (credential_delete user server).
Proof. unfold credential_delete. solve_inv. Qed.

Lemma row_lives_Some id inc db : row_lives id inc db = true → is_Some (t_users db !! id).
Proof. unfold row_lives. by destruct (_ !! id). Qed.

Lemma server_row_lives_Some id inc db :
server_row_lives id inc db = true → is_Some (t_servers db !! id).
Proof. unfold server_row_lives. by destruct (_ !! id). Qed.

Lemma session_create_inv now h user inc expires :
preserves I (session_create now h user inc expires).
Proof.
intros db HI. unfold session_create. destruct (row_lives _ _ _) eqn:Hl; [|done].
destruct (_ !! h); [done|]. apply inv_put_session; [done|]. by eapply row_lives_Some.
Qed.

Lemma session_delete_inv h : preserves I (session_delete h).
Proof. unfold session_delete. solve_inv. Qed.

Lemma sessions_delete_user_inv user : preserves I (sessions_delete_user user).
Proof. unfold sessions_delete_user. solve_inv. Qed.

Lemma sessions_purge_inv at_ : preserves I (sessions_purge at_).
Proof. unfold sessions_purge. solve_inv. Qed.

Lemma session_ended_inv u ui s si at_ : preserves I (session_ended u ui s si at_).
Proof.
intros db HI. unfold session_ended. destruct (_ && _) eqn:Hl; [|done].
apply andb_true_iff in Hl as [Hu Hs].
apply inv_put_log; [done|by eapply row_lives_Some|by eapply server_row_lives_Some].
Qed.

Lemma audit_inv now actor action detail : preserves I (audit now actor action detail).
Proof. intros db HI. by apply inv_set_audit. Qed.

Lemma audit_prune_inv before batch : preserves I (audit_prune before batch).
Proof. intros db HI. by apply inv_set_audit. Qed.

End invariants.
