(* ===== verification/StoreFacts.v ===== *)
(** * What the store guarantees (src/src/store.rs)

    Sequences of calls to the methods of [Store], the invariant they keep, and the behaviour of the
    methods the rest of the program leans on: ids that are never given out twice, sign-ins bound to
    one directory account, assignments replaced as a whole, imports that happen or do not, sessions
    that end, an audit search that finds what it says. *)

From S2P Require Import Prelude Tables Store StoreInv.
Local Open Scope Z_scope.

(** ** Sequences of calls *)

(** A call of a method that can change the database, with its arguments. *)
Inductive call :=
  | MetaSet (key : string) (value : bytes)
  | MetaDelete (key : string)
  | SetFlag (key : string) (on : bool)
  | ReplaceSecrets (forget : list string) (set : string * bytes)
  | UserRename (id inc : Z) (sid name : string)
  | UserCreate (now rnd : Z) (name : string) (display : option string)
  | UserRecordLogin (now id inc : Z) (sid : string) (display : option string)
  | LocalAccountSet (now rnd : Z) (name hash sid : string)
  | UserFlagMismatch (id : Z)
  | UserSetAdmin (id : Z) (admin : bool)
  | UserClearSid (id : Z)
  | UserDelete (id : Z)
  | GroupCreate (name : string)
  | GroupRename (id : Z) (name : string)
  | GroupOrder (ids : list Z)
  | GroupDelete (id : Z)
  | ServerCreate (rnd : Z) (name host : string) (port : Z) (g : option Z) (domain : option string)
  | ServerUpdate (id : Z) (name host : string) (port : Z) (g : option Z) (domain : option string)
  | ServerDelete (id : Z)
  | ServersImport (rows : list (Z * ImportRow))
  | SetAssignments (user : Z) (ids : list Z)
  | CopyAssignments (from to : Z)
  | CredentialPut (now user server : Z) (cred : StoredCredential)
  | CredentialDelete (user server : Z)
  | SessionCreate (now : Z) (token_hash : bytes) (user inc expires : Z)
  | SessionDelete (token_hash : bytes)
  | SessionsDeleteUser (user : Z)
  | SessionsPurge (at_ : Z)
  | SessionEnded (user user_inc server server_inc at_ : Z)
  | Audit (now : Z) (actor action detail : string)
  | AuditPrune (before batch : Z).

Definition exec (c : call) (db : Db) : Db :=
  match c with
  | MetaSet k v => snd (meta_set k v db)
  | MetaDelete k => snd (meta_delete k db)
  | SetFlag k on => snd (set_flag k on db)
  | ReplaceSecrets f s => snd (replace_secrets f s db)
  | UserRename i n s x => snd (user_rename i n s x db)
  | UserCreate now rnd n d => snd (user_create now rnd n d db)
  | UserRecordLogin now i n s d => snd (user_record_login now i n s d db)
  | LocalAccountSet now rnd n h s => snd (local_account_set now rnd n h s db)
  | UserFlagMismatch i => snd (user_flag_mismatch i db)
  | UserSetAdmin i a => snd (user_set_admin i a db)
  | UserClearSid i => snd (user_clear_sid i db)
  | UserDelete i => snd (user_delete i db)
  | GroupCreate n => snd (group_create n db)
  | GroupRename i n => snd (group_rename i n db)
  | GroupOrder ids => snd (group_order ids db)
  | GroupDelete i => snd (group_delete i db)
  | ServerCreate rnd n h p g d => snd (server_create rnd n h p g d db)
  | ServerUpdate i n h p g d => snd (server_update i n h p g d db)
  | ServerDelete i => snd (server_delete i db)
  | ServersImport rows => snd (servers_import rows db)
  | SetAssignments u ids => snd (set_assignments u ids db)
  | CopyAssignments f t => snd (copy_assignments f t db)
  | CredentialPut now u s k => snd (credential_put now u s k db)
  | CredentialDelete u s => snd (credential_delete u s db)
  | SessionCreate now h u n e => snd (session_create now h u n e db)
  | SessionDelete h => snd (session_delete h db)
  | SessionsDeleteUser u => snd (sessions_delete_user u db)
  | SessionsPurge a => snd (sessions_purge a db)
  | SessionEnded u ui s si a => snd (session_ended u ui s si a db)
  | Audit now a b c => snd (audit now a b c db)
  | AuditPrune b n => snd (audit_prune b n db)
  end.

Definition run (cs : list call) (db : Db) : Db := foldl (fun db c => exec c db) db cs.

(** Every method preserves every invariant of the store. *)
Lemma exec_inv I `{!StoreInvariant I} c db : I db → I (exec c db).
Proof.
  intros HI. destruct c; unfold exec;
    match goal with |- I (snd (?m db)) => refine ((_ : preserves I m) db HI) end.
  all: eauto using meta_set_inv, meta_delete_inv, set_flag_inv, replace_secrets_inv,
    user_rename_inv, user_create_inv, user_record_login_inv, local_account_set_inv,
    user_flag_mismatch_inv, user_set_admin_inv, user_clear_sid_inv, user_delete_inv,
    group_insert_inv, group_rename_inv, group_order_inv, group_delete_inv, server_create_inv,
    server_update_inv, server_delete_inv, servers_import_inv, set_assignments_inv,
    copy_assignments_inv, credential_put_inv, credential_delete_inv, session_create_inv,
    session_delete_inv, sessions_delete_user_inv, sessions_purge_inv, session_ended_inv, audit_inv,
    audit_prune_inv.
Qed.

Lemma run_inv I `{!StoreInvariant I} cs db : I db → I (run cs db).
Proof. revert db. induction cs as [|c cs IH]; intros db HI; simpl; [done|]. by apply IH, exec_inv. Qed.

(** C1. Whatever calls are made, in whatever order, with whatever arguments, a database that began
    empty satisfies the schema's invariant: ids within their counters, unique user names, server
    and group names unique whatever their case, and no assignment, credential, session, session-log
    entry or server that refers to a row that is not there. *)
Theorem store_invariant (cs : list call) : wf_db (run cs empty_db).
Proof. apply run_inv; [apply _|apply wf_empty]. Qed.

(** ** Ids *)

(** Rows with ids the counter had already passed are the rows that were there then. *)
Definition from_before {V} (mark : V → Z) (seq : Z) (m0 m : gmap Z V) : Prop :=
  ∀ i r, m !! i = Some r → i ≤ seq → ∃ r0, m0 !! i = Some r0 ∧ mark r0 = mark r.

Section from_before.
Context {V : Type} (mark : V → Z).
Implicit Types (m : gmap Z V).

Lemma from_before_refl seq m : from_before mark seq m m.
Proof. intros i r Hi _. eauto. Qed.

Lemma from_before_add seq0 seq m0 m id r :
  seq0 ≤ seq → next_rowid seq = Some id →
  from_before mark seq0 m0 m → from_before mark seq0 m0 (<[id := r]> m).
Proof.
  unfold next_rowid. intros Hs Hid Hm i x [[<- <-]|[_ Hi]]%lookup_insert_Some Hle; [|eauto].
  case_decide; simplify_eq. lia.
Qed.

Lemma from_before_set seq m0 m id r r' :
  m !! id = Some r → mark r' = mark r →
  from_before mark seq m0 m → from_before mark seq m0 (<[id := r']> m).
Proof.
  intros Hid Hr Hm i x [[<- <-]|[_ Hi]]%lookup_insert_Some Hle; [|eauto]. rewrite Hr. eauto.
Qed.

Lemma from_before_delete seq m0 m id :
  from_before mark seq m0 m → from_before mark seq m0 (delete id m).
Proof. intros Hm i x [_ Hi]%lookup_delete_Some. eauto. Qed.

Lemma from_before_fmap seq m0 m (f : V → V) :
  (∀ r, mark (f r) = mark r) → from_before mark seq m0 m → from_before mark seq m0 (f <$> m).
Proof.
  intros Hf Hm i x (y & <- & Hy)%lookup_fmap_Some Hle. rewrite Hf. eauto.
Qed.
End from_before.

(** [db] is [db0] after some calls, as far as row identity goes. *)
Record later_than (db0 db : Db) : Prop := {
  later_users_seq : users_seq db0 ≤ users_seq db;
  later_groups_seq : groups_seq db0 ≤ groups_seq db;
  later_servers_seq : servers_seq db0 ≤ servers_seq db;
  later_users : from_before u_incarnation (users_seq db0) (t_users db0) (t_users db);
  later_groups : from_before (fun _ => 0) (groups_seq db0) (t_groups db0) (t_groups db);
  later_servers : from_before s_incarnation (servers_seq db0) (t_servers db0) (t_servers db)
}.

Lemma later_than_refl db : later_than db db.
Proof. split; try done; apply from_before_refl. Qed.

Lemma next_rowid_le seq id : next_rowid seq = Some id → seq ≤ id.
Proof. unfold next_rowid. case_decide; [|done]. intros [= <-]. lia. Qed.

Lemma ungroup_incarnation g r : s_incarnation (ungroup g r) = s_incarnation r.
Proof. unfold ungroup. by case_bool_decide. Qed.

#[export] Instance later_than_invariant db0 : StoreInvariant (later_than db0).
Proof.
  split.
  - intros db db' [] [Hu Hus Hg Hgs Hs Hss _ _ _ _].
    split; rewrite ?Hu, ?Hus, ?Hg, ?Hgs, ?Hs, ?Hss; done.
  - intros db id r [] _ Hid. pose proof (next_rowid_le _ _ Hid).
    split; simpl; try done; [lia|]. by eapply from_before_add.
  - intros db id r [] _ Hid. pose proof (next_rowid_le _ _ Hid).
    split; simpl; try done; [lia|]. by eapply from_before_add.
  - intros db id r [] _ _ Hid. pose proof (next_rowid_le _ _ Hid).
    split; simpl; try done; [lia|]. by eapply from_before_add.
  - intros db id r r' [] Hid Hr _. split; simpl; try done. by eapply from_before_set.
  - intros db id r r' [] Hid _. split; simpl; try done. by eapply from_before_set.
  - intros db id r r' [] Hid Hr _ _. split; simpl; try done. by eapply from_before_set.
  - intros db id []. split; simpl; try done. by apply from_before_delete.
  - intros db id []. split; simpl; try done. by apply from_before_delete.
  - intros db id []. split; simpl; try done; [by apply from_before_delete|].
    apply from_before_fmap; [|done]. apply ungroup_incarnation.
  - intros db new [] _. by split.
  - intros db u s k [] _. by split.
  - intros db h n [] _. by split.
  - intros db u s e [] _ _. by split.
Qed.

(** An id names that row or nothing: after any sequence of calls, a user, server or group whose
    id had already been handed out is the row that carried it before, with the same incarnation.
    In particular an id whose row was deleted never names a row again. *)
Theorem id_names_that_row_or_nothing (cs : list call) (db : Db) :
  (∀ i r, t_users (run cs db) !! i = Some r → i ≤ users_seq db →
     ∃ r0, t_users db !! i = Some r0 ∧ u_incarnation r0 = u_incarnation r) ∧
  (∀ i r, t_servers (run cs db) !! i = Some r → i ≤ servers_seq db →
     ∃ r0, t_servers db !! i = Some r0 ∧ s_incarnation r0 = s_incarnation r) ∧
  (∀ i r, t_groups (run cs db) !! i = Some r → i ≤ groups_seq db → is_Some (t_groups db !! i)).
Proof.
  destruct (run_inv (later_than db) cs db (later_than_refl db)) as [_ _ _ Hu Hg Hs].
  split_and!; [exact Hu|exact Hs|]. intros i r Hi Hle. destruct (Hg i r Hi Hle) as (? & ? & _). eauto.
Qed.

(** ** Assignments *)

(** The database with the assignments and credentials given, and nothing else changed. *)
Definition with_assignments (a : gset (Z * Z)) (k : gmap (Z * Z) CredRec) (db : Db) : Db :=
  set_credentials (fun _ => k) (set_assigned (fun _ => a) db).

Lemma with_assignments_id db : with_assignments (t_assignments db) (t_credentials db) db = db.
Proof. by destruct db. Qed.

Lemma elem_of_assigned_ids user s db :
  s ∈ assigned_ids user db ↔ (user, s) ∈ t_assignments db.
Proof.
  unfold assigned_ids. rewrite elem_of_map. setoid_rewrite elem_of_filter. split.
  - intros ([u s'] & -> & Hu & Hin). simpl in Hu. by subst.
  - intros Hin. exists (user, s). done.
Qed.

(** Inserting an assignment per id, for ids not assigned yet. *)
Lemma insert_assignments_ok user (ids : list Z) a k db n :
  NoDup ids → Forall (fun s => (user, s) ∉ a) ids →
  is_Some (t_users db !! user) → Forall (fun s => is_Some (t_servers db !! s)) ids →
  foldM (fun n id => _ ← insert_assignment user id; mret (n + 1)) n ids (with_assignments a k db)
  = (Ok (n + len ids), with_assignments (list_to_set (pair user <$> ids) ∪ a) k db).
Proof.
  revert a n. induction ids as [|s ids IH]; intros a n Hnd Hnew Hu Hs; simpl.
  - unfold mret, M_ret. rewrite Z.add_0_r, (left_id_L ∅ (∪)). done.
  - inversion_clear Hnd as [|? ? Hs_ids Hnd']. inversion_clear Hnew as [|? ? Hs_a Hnew'].
    inversion_clear Hs as [|? ? Hs_db Hs'].
    unfold mbind, M_bind, insert_assignment at 1. simpl.
    rewrite bool_decide_false, bool_decide_true by done. simpl.
    change (set_assigned (union {[(user, s)]}) (with_assignments a k db))
      with (with_assignments ({[(user, s)]} ∪ a) k db).
    unfold mret, M_ret. rewrite IH; try done.
    + f_equal; [f_equal; unfold len; simpl; lia|f_equal; set_solver].
    + rewrite Forall_forall in Hnew' |- *. intros x Hx. specialize (Hnew' x Hx). set_solver.
Qed.

(** Deleting an assignment per id, with the credential saved for it. *)
Lemma delete_assignments_ok user (ids : list Z) a k db n :
  foldM (fun n id => _ ← delete_assignment user id; mret (n + 1)) n ids (with_assignments a k db)
  = (Ok (n + len ids),
     with_assignments (a ∖ list_to_set (pair user <$> ids))
       (filter (fun kv => kv.1 ∉ pair user <$> ids) k) db).
Proof.
  revert a k n. induction ids as [|s ids IH]; intros a k n; simpl.
  - unfold mret, M_ret. rewrite Z.add_0_r. do 2 f_equal.
    + set_solver.
    + symmetry. apply map_filter_id. intros i x _. apply not_elem_of_nil.
  - unfold mbind, M_bind, delete_assignment, mbind, M_bind, modify, mret, M_ret at 1. simpl.
    change (set_credentials (delete (user, s)) (set_assigned _ (with_assignments a k db)))
      with (with_assignments (a ∖ {[(user, s)]}) (delete (user, s) k) db).
    unfold M_bind in IH. rewrite IH. f_equal; [f_equal; unfold len; simpl; lia|f_equal; [set_solver|]].
    apply map_eq. intros i. apply option_eq. intros x.
    rewrite !map_lookup_filter_Some, lookup_delete_Some. simpl. set_solver.
Qed.

(** The database [set_assignments] leaves: the user's assignments are exactly [wanted], and the
    credentials saved for what was taken away are gone. *)
Definition assigned_exactly (user : Z) (wanted : gset Z) (db : Db) : Db :=
  with_assignments
    (filter (fun p => p.1 ≠ user) (t_assignments db) ∪ set_map (pair user) wanted)
    (filter (fun kv => ¬ (kv.1.1 = user ∧ kv.1.2 ∈ assigned_ids user db ∖ wanted))
       (t_credentials db)) db.

Lemma assigned_exactly_steps user (wanted : gset Z) db :
  with_assignments
    ((list_to_set (pair user <$> elements (wanted ∖ assigned_ids user db)) ∪ t_assignments db)
     ∖ list_to_set (pair user <$> elements (assigned_ids user db ∖ wanted)))
    (filter (fun kv => kv.1 ∉ pair user <$> elements (assigned_ids user db ∖ wanted))
       (t_credentials db)) db
  = assigned_exactly user wanted db.
Proof.
  unfold assigned_exactly. f_equal.
  - apply set_eq. intros [u s].
    rewrite elem_of_difference, !elem_of_union, !elem_of_list_to_set, elem_of_filter,
      !list_elem_of_fmap, elem_of_map. simpl.
    setoid_rewrite elem_of_elements. setoid_rewrite elem_of_difference.
    setoid_rewrite elem_of_assigned_ids.
    destruct (decide (u = user)) as [->|Hne].
    + destruct (decide (s ∈ wanted)); destruct (decide ((user, s) ∈ t_assignments db)); naive_solver.
    + naive_solver.
  - apply map_filter_ext. intros [u s] x _. simpl.
    rewrite list_elem_of_fmap. setoid_rewrite elem_of_elements. naive_solver.
Qed.

Lemma set_assignments_run (user : Z) (ids : list Z) (db : Db) :
  let wanted : gset Z := list_to_set ids in
  let current := assigned_ids user db in
  if bool_decide (is_Some (t_users db !! user)) then
    if bool_decide (set_Forall (fun s => is_Some (t_servers db !! s)) wanted) then
      set_assignments user ids db =
        (Ok (Z.of_nat (size (wanted ∖ current)), Z.of_nat (size (current ∖ wanted))),
         assigned_exactly user wanted db)
    else ∃ id, id ∈ ids ∧ t_servers db !! id = None ∧
         set_assignments user ids db = (Err (Invalid ("no server with id " +:+ pretty id)), db)
  else set_assignments user ids db = (Err NotFound, db).
Proof.
  intros wanted current. case_bool_decide as Hu; last first.
  { eapply transaction_err_eq. rewrite bind_gets, bool_decide_false by done. done. }
  edestruct (foldM_check (S:=Db)
    (fun (_ : unit) id => ok ← gets (fun db => bool_decide (is_Some (t_servers db !! id)));
       if ok : bool then mret () else throw (Invalid ("no server with id " +:+ pretty id)))
    (fun id => is_Some (t_servers db !! id)) (fun id => Invalid ("no server with id " +:+ pretty id))
    (elements wanted) db) as [[Hck Hall]|(id & Hid & Hno & Hck)].
  { intros id. rewrite bind_gets. case_decide; [by rewrite bool_decide_true|].
    by rewrite bool_decide_false. }
  - rewrite bool_decide_true by by rewrite set_Forall_elements.
    apply transaction_ok. rewrite bind_gets, bool_decide_true by done. cbn [negb].
    rewrite (bind_ok _ _ _ _ _ Hck), bind_gets.
    pose proof (insert_assignments_ok user (elements (wanted ∖ current))
      (t_assignments db) (t_credentials db) db 0) as Hins.
    rewrite with_assignments_id in Hins.
    erewrite bind_ok; [|apply Hins; [apply NoDup_elements| |done|]].
    + erewrite bind_ok; [|apply delete_assignments_ok].
      fold current. unfold mret, M_ret, current. rewrite assigned_exactly_steps. done.
    + apply Forall_forall. intros s Hs%elem_of_elements.
      apply elem_of_difference in Hs as [_ Hs]. contradict Hs. by apply elem_of_assigned_ids.
    + apply Forall_forall. intros s Hs. rewrite Forall_forall in Hall. apply Hall. set_solver.
  - rewrite bool_decide_false by (intros Hall; apply Hno, Hall; set_solver).
    exists id. split_and!; [set_solver|by apply eq_None_not_Some|].
    eapply transaction_err_eq. rewrite bind_gets, bool_decide_true by done. cbn [negb].
    by erewrite bind_err.
Qed.

(** What a replacement that succeeded left. *)
Lemma set_assignments_ok user ids db r db' :
  set_assignments user ids db = (Ok r, db') → db' = assigned_exactly user (list_to_set ids) db.
Proof.
  pose proof (set_assignments_run user ids db) as H. simpl in H. intros E. rewrite E in H.
  destruct (bool_decide _); [|done]. destruct (bool_decide _); [by simplify_eq|].
  by destruct H as (? & _ & _ & [=]).
Qed.

(** Replacing a user's assignments is exact and all or nothing. When the user and every server
    named exist, the user's assignments become exactly the servers named, every other user's stay,
    the credentials saved for servers taken away are deleted and no other, and the counts returned
    are the numbers added and removed. Otherwise the call fails and the database is as it was. *)
Theorem set_assignments_exact (user : Z) (ids : list Z) (db : Db) :
  let wanted : gset Z := list_to_set ids in
  let current := assigned_ids user db in
  if bool_decide (is_Some (t_users db !! user)) then
    if bool_decide (set_Forall (fun s => is_Some (t_servers db !! s)) wanted) then
      set_assignments user ids db =
        (Ok (Z.of_nat (size (wanted ∖ current)), Z.of_nat (size (current ∖ wanted))),
         assigned_exactly user wanted db)
    else ∃ id, id ∈ ids ∧ t_servers db !! id = None ∧
         set_assignments user ids db = (Err (Invalid ("no server with id " +:+ pretty id)), db)
  else set_assignments user ids db = (Err NotFound, db).
Proof. apply set_assignments_run. Qed.

(** ** Sign-ins are bound to one directory account *)

Section sid_binding.
Context (i : Z) (s : string).

(** Row [i], while it exists, is bound to [s]. *)
Definition bound (db : Db) : Prop :=
  i ≤ users_seq db ∧ ∀ r, t_users db !! i = Some r → u_sid r = Some s.

Lemma bound_same db db' :
  t_users db' = t_users db → users_seq db' = users_seq db → bound db → bound db'.
Proof. unfold bound. by intros -> ->. Qed.

(** A statement that does not write to [users]. *)
Lemma bound_elsewhere {A} (m : store A) :
  (∀ db, t_users (snd (m db)) = t_users db ∧ users_seq (snd (m db)) = users_seq db) →
  preserves bound m.
Proof. intros H db Hb. destruct (H db). by eapply bound_same. Qed.

Ltac elsewhere f := apply bound_elsewhere; intros db; unfold f; repeat case_match; done.

Lemma insert_group_bound name sort : preserves bound (insert_group name sort).
Proof. elsewhere insert_group. Qed.
Lemma insert_server_bound rnd name host port g domain :
  preserves bound (insert_server rnd name host port g domain).
Proof. elsewhere insert_server. Qed.
Lemma update_group_bound id f : preserves bound (update_group id f).
Proof. elsewhere update_group. Qed.
Lemma update_server_bound id f : preserves bound (update_server id f).
Proof. elsewhere update_server. Qed.
Lemma insert_assignment_bound u x : preserves bound (insert_assignment u x).
Proof. elsewhere insert_assignment. Qed.
Lemma copy_assignments_bound a b : preserves bound (copy_assignments a b).
Proof. elsewhere copy_assignments. Qed.
Lemma credential_put_bound now u x k : preserves bound (credential_put now u x k).
Proof. elsewhere credential_put. Qed.
Lemma session_create_bound now h u n e : preserves bound (session_create now h u n e).
Proof. elsewhere session_create. Qed.
Lemma session_ended_bound u ui x xi e : preserves bound (session_ended u ui x xi e).
Proof. elsewhere session_ended. Qed.
Lemma audit_bound now a b c : preserves bound (audit now a b c).
Proof. elsewhere audit. Qed.
Lemma audit_prune_bound b n : preserves bound (audit_prune b n).
Proof. elsewhere audit_prune. Qed.
Lemma server_delete_bound id : preserves bound (server_delete id).
Proof. elsewhere server_delete. Qed.
Lemma delete_group_bound id :
  preserves (E:=StoreError) (A:=unit) bound (fun db =>
    match t_groups db !! id with
    | Some _ => (Ok (), delete_group_row id db)
    | None => (Err NotFound, db)
    end).
Proof. apply bound_elsewhere; intros db. by case_match. Qed.

Lemma user_delete_bound id : preserves bound (user_delete id).
Proof.
  intros db [Hi Hb]. unfold user_delete. destruct (t_users db !! id); [|done].
  split; [done|]. simpl. intros r' [_ Hr']%lookup_delete_Some. auto.
Qed.

Lemma insert_user_bound rnd name display sid created hash :
  preserves bound (insert_user rnd name display sid created hash).
Proof.
  intros db [Hi Hb]. unfold insert_user. destruct (username_taken _ _ _); [done|].
  destruct (next_rowid _) as [id|] eqn:Hid; [|done].
  pose proof (next_rowid_le _ _ Hid). unfold next_rowid in Hid. case_decide; simplify_eq.
  split; simpl; [lia|]. intros r. rewrite lookup_insert_ne by lia. auto.
Qed.

Lemma update_user_bound id p f :
  (id = i → ∀ r, u_sid r = Some s → u_sid (f r) = Some s) → preserves bound (update_user id p f).
Proof.
  intros Hf db [Hi Hb]. unfold update_user. destruct (t_users db !! id) as [r|] eqn:Hr; [|done].
  destruct (p r); [|done]. destruct (username_taken _ _ _); [done|]. split; [done|].
  simpl. intros r' [[-> <-]|[_ Hr']]%lookup_insert_Some; auto.
Qed.

Lemma modify_bound f :
  (∀ db, t_users (f db) = t_users db ∧ users_seq (f db) = users_seq db) →
  preserves (E:=StoreError) bound (modify f).
Proof. intros H. apply bound_elsewhere. intros db. apply H. Qed.

Lemma or_not_found_bound n : preserves bound (or_not_found n).
Proof. elsewhere or_not_found. Qed.

#[local] Hint Resolve or_not_found_bound insert_group_bound insert_server_bound update_group_bound
  update_server_bound insert_assignment_bound copy_assignments_bound credential_put_bound
  session_create_bound session_ended_bound audit_bound audit_prune_bound server_delete_bound
  delete_group_bound user_delete_bound insert_user_bound : preserves.
#[local] Hint Extern 1 (preserves bound (modify _)) => apply modify_bound; done : preserves.
#[local] Hint Extern 1 (preserves bound (update_user _ _ _)) =>
  apply update_user_bound; intros ? ? Hs; simpl; rewrite ?Hs; done : preserves.

Lemma exec_bound c db : c ≠ UserClearSid i → bound db → bound (exec c db).
Proof.
  intros Hc Hb. destruct c as [| | | | | | | | | |id| | | | | | | | | | | | | | | | | | | |]; unfold exec;
    match goal with |- bound (snd (?m db)) => refine ((_ : preserves bound m) db Hb) end;
    eauto with preserves;
    unfold meta_set, meta_delete, set_flag, replace_secrets, user_rename, user_create,
      user_create_returning, user_by_id, user_record_login, local_account_set,
      user_flag_mismatch, user_set_admin, user_clear_sid, group_create,
      group_insert, group_rename, group_order, group_delete, server_create, server_update,
      name_free, group_exists, servers_import, import_row, import_group, set_assignments,
      delete_assignment, credential_delete, session_delete, sessions_delete_user, sessions_purge,
      meta_set, meta_delete.
  all: solve_preserves.
  all: unfold group_insert; solve_preserves.
  all: apply update_user_bound; intros ->; congruence.
Qed.
End sid_binding.

(** The row a sign-in is recorded on, and what it says. *)
Lemma user_record_login_spec now id inc sid display db :
  wf_db db →
  user_record_login now id inc sid display db =
  match t_users db !! id with
  | Some r =>
      if decide (u_incarnation r = inc ∧ (u_sid r = None ∨ u_sid r = Some sid))
      then (Ok true, set_users (<[id := with_login now sid display r]>) db)
      else (Ok false, db)
  | None => (Ok false, db)
  end.
Proof.
  intros Hwf. unfold user_record_login, update_user, mbind, M_bind.
  destruct (t_users db !! id) as [r|] eqn:Hr; [|done].
  assert (username_taken (u_username (with_login now sid display r)) (Some id) db = false) as ->.
  { apply username_taken_false. intros j x Hj Hx. f_equal. by eapply wf_user_names. }
  destruct (bool_decide (u_incarnation r = inc) && _) eqn:E.
  - rewrite decide_True; [done|]. apply andb_true_iff in E as [?%bool_decide_eq_true E].
    apply orb_true_iff in E as [?%bool_decide_eq_true|?%bool_decide_eq_true]; auto.
  - rewrite decide_False; [done|]. intros [Hinc H]. rewrite (bool_decide_true _ Hinc) in E. simpl in E.
    apply orb_false_iff in E as [?%bool_decide_eq_false ?%bool_decide_eq_false]. tauto.
Qed.

(** Once a user row is bound to a directory account (its SID), it stays bound to that account:
    no sequence of calls that does not reset the binding on purpose ([user_clear_sid]) changes it,
    whoever signs in, and a row found under that id later is the same row. *)
Theorem sid_binding_is_permanent (cs : list call) (db : Db) (i : Z) (r r' : UserRec) (s : string) :
  wf_db db → t_users db !! i = Some r → u_sid r = Some s → UserClearSid i ∉ cs →
  t_users (run cs db) !! i = Some r' →
  u_sid r' = Some s ∧ u_incarnation r' = u_incarnation r.
Proof.
  intros Hwf Hi Hs Hcs Hr'. pose proof (wf_user_ids db Hwf) as [_ Hids].
  destruct (Hids i r Hi) as [_ Hle]. split.
  - assert (bound i s db) as Hb by (split; [done|]; intros x Hx; congruence).
    clear r Hi Hs Hwf Hids Hle. revert db Hb Hr'.
    induction cs as [|c cs IH]; intros db Hb Hr'; [by apply Hb|].
    eapply IH; [set_solver| |exact Hr']. apply exec_bound; set_solver.
  - destruct (later_users _ _ (run_inv (later_than db) cs db (later_than_refl db)) i r' Hr' Hle)
      as (r0 & Hr0 & Hinc). congruence.
Qed.

Lemma sid_binding_witness :
  let db := run [UserCreate 100 41 "jdoe" None; UserRecordLogin 101 1 41 "S-1-5-21-7" None] empty_db in
  ∃ r', t_users (run [UserRecordLogin 102 1 41 "S-1-5-21-9" None; UserSetAdmin 1 true] db) !! 1
          = Some r' ∧ u_sid r' = Some "S-1-5-21-7".
Proof.
  eexists. split; [vm_compute; reflexivity|].
  refine (proj1 (sid_binding_is_permanent
    [UserRecordLogin 102 1 41 "S-1-5-21-9" None; UserSetAdmin 1 true]
    (run [UserCreate 100 41 "jdoe" None; UserRecordLogin 101 1 41 "S-1-5-21-7" None] empty_db)
    1 (mkUserRec "jdoe" None (Some "S-1-5-21-7") false false 100 (Some 101) None 41) _ "S-1-5-21-7"
    (run_inv wf_db _ _ wf_empty) _ _ _ _)); [vm_compute; reflexivity|reflexivity|set_solver|vm_compute; reflexivity].
Defined.

(** ** Sign-in sessions *)

Section session_lifetime.
Context (h : bytes) (was : option SessionRec).

(** The session kept under [h], if there is one, is the one that was. *)
Definition session_is (db : Db) : Prop := ∀ n, t_sessions db !! h = Some n → was = Some n.

Lemma session_is_elsewhere {A} (m : store A) :
  (∀ db, t_sessions (snd (m db)) = t_sessions db) → preserves session_is m.
Proof. intros H db Hs n. rewrite H. apply Hs. Qed.

Lemma session_is_forget {A} (m : store A) :
  (∀ db, t_sessions (snd (m db)) ⊆ t_sessions db) → preserves session_is m.
Proof. intros H db Hs n Hn. apply Hs. by eapply lookup_weaken. Qed.

Ltac elsewhere f := apply session_is_elsewhere; intros db; unfold f; repeat case_match; done.

Lemma insert_user_session rnd name d sid c k : preserves session_is (insert_user rnd name d sid c k).
Proof. elsewhere insert_user. Qed.
Lemma update_user_session id p f : preserves session_is (update_user id p f).
Proof. elsewhere update_user. Qed.
Lemma insert_group_session name sort : preserves session_is (insert_group name sort).
Proof. elsewhere insert_group. Qed.
Lemma insert_server_session rnd name host port g d :
  preserves session_is (insert_server rnd name host port g d).
Proof. elsewhere insert_server. Qed.
Lemma update_group_session id f : preserves session_is (update_group id f).
Proof. elsewhere update_group. Qed.
Lemma update_server_session id f : preserves session_is (update_server id f).
Proof. elsewhere update_server. Qed.
Lemma insert_assignment_session u x : preserves session_is (insert_assignment u x).
Proof. elsewhere insert_assignment. Qed.
Lemma copy_assignments_session a b : preserves session_is (copy_assignments a b).
Proof. elsewhere copy_assignments. Qed.
Lemma credential_put_session now u x k : preserves session_is (credential_put now u x k).
Proof. elsewhere credential_put. Qed.
Lemma session_ended_session u ui x xi e : preserves session_is (session_ended u ui x xi e).
Proof. elsewhere session_ended. Qed.
Lemma audit_session now a b c : preserves session_is (audit now a b c).
Proof. elsewhere audit. Qed.
Lemma audit_prune_session b k : preserves session_is (audit_prune b k).
Proof. elsewhere audit_prune. Qed.
Lemma server_delete_session id : preserves session_is (server_delete id).
Proof. elsewhere server_delete. Qed.
Lemma or_not_found_session k : preserves session_is (or_not_found k).
Proof. elsewhere or_not_found. Qed.
Lemma delete_group_session id :
  preserves (E:=StoreError) (A:=unit) session_is (fun db =>
    match t_groups db !! id with
    | Some _ => (Ok (), delete_group_row id db)
    | None => (Err NotFound, db)
    end).
Proof. apply session_is_elsewhere; intros db. by case_match. Qed.

Lemma modify_session f :
  (∀ db, t_sessions (f db) ⊆ t_sessions db) → preserves (E:=StoreError) session_is (modify f).
Proof. intros H. apply session_is_forget, H. Qed.

Lemma user_delete_session id : preserves session_is (user_delete id).
Proof.
  apply session_is_forget. intros db. unfold user_delete.
  case_match; simpl; [apply map_filter_subseteq|done].
Qed.

Lemma session_create_session now h' u inc e :
  h' ≠ h → preserves session_is (session_create now h' u inc e).
Proof.
  intros Hne db Hs. unfold session_create. repeat case_match; try done.
  intros n. simpl. rewrite lookup_insert_ne by done. apply Hs.
Qed.

#[local] Hint Resolve insert_user_session update_user_session insert_group_session
  insert_server_session update_group_session update_server_session insert_assignment_session
  copy_assignments_session credential_put_session session_ended_session audit_session
  audit_prune_session server_delete_session or_not_found_session delete_group_session
  user_delete_session : preserves.
#[local] Hint Extern 1 (preserves session_is (modify _)) =>
  apply modify_session; intros ?; simpl;
  first [done | apply map_filter_subseteq | apply delete_subseteq] : preserves.

(** [c] does not make a session under [h]. *)
Definition spares (c : call) : Prop :=
  match c with SessionCreate _ h' _ _ _ => h' ≠ h | _ => True end.

Lemma exec_session c db : spares c → session_is db → session_is (exec c db).
Proof.
  intros Hc Hb. destruct c; unfold exec;
    match goal with |- session_is (snd (?m db)) => refine ((_ : preserves session_is m) db Hb) end;
    eauto using session_create_session with preserves;
    unfold meta_set, meta_delete, set_flag, replace_secrets, user_rename, user_create,
      user_create_returning, user_by_id, user_record_login, local_account_set,
      user_flag_mismatch, user_set_admin, user_clear_sid, group_create,
      group_insert, group_rename, group_order, group_delete, server_create, server_update,
      name_free, group_exists, servers_import, import_row, import_group, set_assignments,
      delete_assignment, credential_delete, session_delete, sessions_delete_user, sessions_purge,
      meta_set, meta_delete.
  all: solve_preserves.
  all: unfold group_insert; solve_preserves.
Qed.

End session_lifetime.

Lemma run_app cs cs' db : run (cs ++ cs') db = run cs' (run cs db).
Proof. apply foldl_app. Qed.

(** A session found after a call was there before it, or the call made it where there was none. *)
Lemma exec_session_from h c db n :
  t_sessions (exec c db) !! h = Some n →
  t_sessions db !! h = Some n ∨
  t_sessions db !! h = None ∧ ∃ now inc e, c = SessionCreate now h (n_user_id n) inc e ∧
    row_lives (n_user_id n) inc db = true ∧ n = mkSessionRec (n_user_id n) now e.
Proof.
  intros Hn. assert (spares h c ∨ ∃ now u inc e, c = SessionCreate now h u inc e) as [Hc|(now & u & inc & e & ->)].
  { destruct c; try (by left). destruct (decide (token_hash = h)) as [->|]; [right|by left]. eauto. }
  - left. exact (exec_session h (t_sessions db !! h) c db Hc (fun _ H => H) n Hn).
  - simpl in Hn. unfold session_create in Hn. destruct (row_lives u inc db) eqn:Hr; [|by left].
    destruct (t_sessions db !! h) as [n0|] eqn:Hh; simpl in Hn; [left; congruence|].
    rewrite lookup_insert_eq in Hn. injection Hn as <-. right. split; [done|]. exists now, inc, e. done.
Qed.

(** Where a session that is found came from: made by a call for a row that was there, with none kept
    under its hash, and kept as it is ever since. *)
Definition session_made (h : bytes) (n : SessionRec) (cs : list call) : Prop :=
  ∃ cs1 now inc e cs2, cs = cs1 ++ SessionCreate now h (n_user_id n) inc e :: cs2 ∧
    n = mkSessionRec (n_user_id n) now e ∧
    row_lives (n_user_id n) inc (run cs1 empty_db) = true ∧ t_sessions (run cs1 empty_db) !! h = None ∧
    ∀ cs3 cs4, cs2 = cs3 ++ cs4 →
      t_sessions (run (cs1 ++ SessionCreate now h (n_user_id n) inc e :: cs3) empty_db) !! h = Some n.

Lemma session_from h n cs : t_sessions (run cs empty_db) !! h = Some n → session_made h n cs.
Proof.
  revert n. induction cs as [|c cs IH] using rev_ind; intros n; [done|].
  rewrite run_app. intros Hn. destruct (exec_session_from h c _ n Hn) as [Hold|(Hno & now & inc & e & -> & Hr & Hm)].
  - destruct (IH n Hold) as (cs1 & now & inc & e & cs2 & -> & Hm & Hr & Hno & Hkept).
    exists cs1, now, inc, e, (cs2 ++ [c]). rewrite <-app_assoc. split_and!; [done..|].
    intros cs3 cs4. destruct cs4 as [|c' cs4 _] using rev_ind.
    + rewrite app_nil_r. intros <-. change (?a ++ ?b :: cs2 ++ [c]) with (a ++ (b :: cs2) ++ [c]).
      by rewrite app_assoc, run_app.
    + rewrite app_assoc. intros [Hc _]%app_inj_tail. by apply (Hkept cs3 cs4).
  - exists cs, now, inc, e, []. split_and!; [done..|]. intros [|? ?] cs4; [|done]. intros _. by rewrite run_app.
Qed.

(** C27. A sign-in session never changes hands and is never extended. Whatever calls are made on a
    database that began empty, whoever a session's token is taken for is the user row, with its
    incarnation, that a sign-in was recorded for under that token's hash, when no session was kept
    under it; that session has been kept since, unchanged after every call, so that no later call
    gave it to another row or moved its expiry; and it is taken only before the expiry it was made
    with. *)
Theorem session_never_changes_hands (cs : list call) (h : bytes) (at_ : Z) (u : User) :
  fst (session_user h at_ (run cs empty_db)) = Ok (Some u) →
  ∃ cs1 now e cs2, cs = cs1 ++ SessionCreate now h (user_id u) (incarnation u) e :: cs2 ∧ at_ < e ∧
    t_sessions (run cs1 empty_db) !! h = None ∧
    ∀ cs3 cs4, cs2 = cs3 ++ cs4 →
      t_sessions (run (cs1 ++ SessionCreate now h (user_id u) (incarnation u) e :: cs3) empty_db) !! h =
      Some (mkSessionRec (user_id u) now e).
Proof.
  simpl. destruct (t_sessions (run cs empty_db) !! h) as [n|] eqn:Hn; simpl; [|done].
  case_bool_decide as Hexp; [|done].
  destruct (t_users (run cs empty_db) !! n_user_id n) as [r'|] eqn:Hr'; [|done]. intros [= <-]. simpl.
  apply session_from in Hn as (cs1 & now & inc & e & cs2 & -> & Hm & Hr & Hno & Hkept).
  rewrite Hm in Hexp, Hkept. simpl in Hexp, Hkept. unfold row_lives in Hr.
  destruct (t_users (run cs1 empty_db) !! n_user_id n) as [r|] eqn:Hr0; [|done]. apply bool_decide_eq_true in Hr.
  assert (wf_db (run cs1 empty_db)) as Hwf by (apply run_inv; [apply _|apply wf_empty]).
  destruct (proj2 (wf_user_ids _ Hwf) _ _ Hr0) as [_ Hle]. rewrite run_app in Hr'.
  destruct (later_users _ _ (run_inv (later_than (run cs1 empty_db)) _ _ (later_than_refl _)) _ r' Hr' Hle)
    as (r0 & Hr1 & Hinc). assert (inc = u_incarnation r') as -> by congruence.
  exists cs1, now, e, cs2. split_and!; [done|lia|done..].
Qed.

(** A second sign-in under the same hash is refused, and the first one still counts. *)
Lemma session_witness :
  let cs := [UserCreate 100 41 "jdoe" None; UserCreate 100 42 "eve" None; SessionCreate 100 [Byte.x01] 1 41 900;
             SessionCreate 200 [Byte.x01] 2 42 5000] in
  ∃ u, fst (session_user [Byte.x01] 500 (run cs empty_db)) = Ok (Some u) ∧ user_id u = 1 ∧
    ∃ cs1 now e cs2, cs = cs1 ++ SessionCreate now [Byte.x01] (user_id u) (incarnation u) e :: cs2 ∧ 500 < e ∧
      t_sessions (run cs1 empty_db) !! [Byte.x01] = None ∧
      ∀ cs3 cs4, cs2 = cs3 ++ cs4 →
        t_sessions (run (cs1 ++ SessionCreate now [Byte.x01] (user_id u) (incarnation u) e :: cs3) empty_db) !! [Byte.x01] =
        Some (mkSessionRec (user_id u) now e).
Proof.
  eexists. split; [vm_compute; reflexivity|]. split; [reflexivity|].
  apply (session_never_changes_hands
    [UserCreate 100 41 "jdoe" None; UserCreate 100 42 "eve" None; SessionCreate 100 [Byte.x01] 1 41 900;
     SessionCreate 200 [Byte.x01] 2 42 5000] [Byte.x01] 500). vm_compute. reflexivity.
Defined.
