(* ===== verification/StoreImport.v ===== *)
(** * Importing servers (src/src/store.rs, [servers_import])

    A bulk import either happens or changes nothing, and what it leaves is what its rows say. *)

From S2P Require Import Prelude Tables Store StoreInv.
Local Open Scope Z_scope.

(** Everything but the server and group tables is as it was. *)
Record same_but_servers (db db' : Db) : Prop := {
  sbs_meta : t_meta db' = t_meta db;
  sbs_users : t_users db' = t_users db;
  sbs_users_seq : users_seq db' = users_seq db;
  sbs_assignments : t_assignments db' = t_assignments db;
  sbs_credentials : t_credentials db' = t_credentials db;
  sbs_sessions : t_sessions db' = t_sessions db;
  sbs_session_log : t_session_log db' = t_session_log db;
  sbs_audit : t_audit db' = t_audit db
}.

#[export] Instance same_but_servers_preorder : PreOrder same_but_servers.
Proof. split; [by split|]. intros a b c [] []. split; congruence. Qed.

(** What the columns a row gives say of a server, given the server it updates, if any. *)
Record row_fits (row : ImportRow) (old : option ServerRec) (r : ServerRec) (db : Db) : Prop := {
  fits_name : fold_name (s_name r) = fold_name (i_name row);
  fits_host : s_host r = i_host row;
  fits_port : s_port r = default (default 3389 (s_port <$> old)) (i_port row);
  fits_group : match i_group row with
    | None => s_group_id r = (old ≫= s_group_id)
    | Some None => s_group_id r = None
    | Some (Some g) => ∃ i gr, s_group_id r = Some i ∧ t_groups db !! i = Some gr ∧
        fold_name (g_name gr) = fold_name g
    end;
  fits_domain : s_domain r = match i_domain row with
    | None => old ≫= s_domain
    | Some d => d
    end
}.

(** A step of the import keeps every server it does not name, and every group. *)
Record imports (names : list string) (db db' : Db) : Prop := {
  imports_same : same_but_servers db db';
  imports_groups : t_groups db ⊆ t_groups db';
  imports_others i r : fold_name (s_name r) ∉ names →
    t_servers db !! i = Some r ↔ t_servers db' !! i = Some r;
  imports_kept i r : t_servers db !! i = Some r →
    ∃ r', t_servers db' !! i = Some r' ∧ s_name r' = s_name r ∧ s_incarnation r' = s_incarnation r
}.

Lemma imports_refl names db : imports names db db.
Proof. split; try done. eauto. Qed.

Lemma imports_trans names1 names2 a b c :
  imports names1 a b → imports names2 b c → imports (names1 ++ names2) a c.
Proof.
  intros [S1 G1 O1 K1] [S2 G2 O2 K2]. split.
  - by etrans.
  - by etrans.
  - intros i r [? ?]%not_elem_of_app. rewrite O1, O2; done.
  - intros i r (r' & H' & ? & ?)%K1. destruct (K2 _ _ H') as (r'' & ? & ? & ?).
    exists r''. split_and!; congruence.
Qed.

Lemma next_rowid_max seq id : next_rowid seq = Some id → seq < id ∧ id ≤ i64_max.
Proof. unfold next_rowid. case_decide; [|done]. intros [= <-]. lia. Qed.

(** The group named by a row is found or made. *)
Lemma import_group_spec g db :
  wf_db db →
  match mjoin g with
  | None => import_group g db = (Ok None, db)
  | Some name =>
      (∃ i gr db', import_group g db = (Ok (Some i), db') ∧ t_groups db' !! i = Some gr ∧
         fold_name (g_name gr) = fold_name name ∧ imports [] db db' ∧
         t_servers db' = t_servers db ∧ servers_seq db' = servers_seq db)
      ∨ (import_group g db = (Err (Sql Full), db) ∧ groups_seq db = i64_max)
  end.
Proof.
  intros Hwf. unfold import_group. destruct (mjoin g) as [name|]; [|done].
  rewrite bind_gets. destruct (select_one _ _) as [[i gr]|] eqn:Hsel; simpl.
  { apply select_one_Some in Hsel as [Hi Hn]. left. exists i, gr, db.
    apply bool_decide_eq_true in Hn. split_and!; try done. apply imports_refl. }
  rewrite select_one_None in Hsel.
  assert (group_name_taken name None db = false) as Hfree.
  { apply group_name_taken_false. intros j r Hj Hf. specialize (Hsel j r Hj).
    by apply bool_decide_eq_false in Hsel. }
  unfold group_insert, mbind, M_bind, gets. rewrite Hfree. unfold insert_group. rewrite Hfree.
  destruct (next_rowid (groups_seq db)) as [id|] eqn:Hid.
  - left. eexists id, _, _. split_and!; try done; simpl.
    + by rewrite lookup_insert_eq.
    + done.
    + split; try done; simpl; [|eauto].
      apply insert_subseteq. by eapply next_rowid_fresh; [apply wf_group_ids|].
  - right. split; [done|]. pose proof (wf_group_ids db Hwf) as [? _].
    unfold next_rowid in Hid. case_decide; [done|]. lia.
Qed.

(** The group column an import leaves on a server is one that exists. *)
Definition group_fits (g : option (option string)) (i : option Z) (db : Db) : Prop :=
  match mjoin g with
  | None => i = None
  | Some name => ∃ j gr, i = Some j ∧ t_groups db !! j = Some gr ∧
      fold_name (g_name gr) = fold_name name
  end.

Lemma group_fits_ok g i db : group_fits g i db → group_ok i db = true.
Proof.
  unfold group_fits. destruct (mjoin g); [|by intros ->].
  intros (j & gr & -> & Hj & _). simpl. rewrite bool_decide_true; [done|eauto].
Qed.

Lemma group_fits_row g i db :
  group_fits g i db →
  match g with
  | None => True
  | Some None => i = None
  | Some (Some name) => ∃ j gr, i = Some j ∧ t_groups db !! j = Some gr ∧
      fold_name (g_name gr) = fold_name name
  end.
Proof. by destruct g as [[name|]|]. Qed.

(** Updating the server a row names. *)
Lemma import_update_spec row g id r db :
  wf_db db → t_servers db !! id = Some r → fold_name (s_name r) = fold_name (i_name row) →
  group_fits (i_group row) g db →
  ∃ db', update_server id (import_update row g) db = (Ok 1, db') ∧
    t_servers db' !! id = Some (import_update row g r) ∧
    row_fits row (Some r) (import_update row g r) db' ∧
    imports [fold_name (i_name row)] db db'.
Proof.
  intros Hwf Hid Hname Hg.
  assert (group_ok (s_group_id (import_update row g r)) db = true) as Hok.
  { simpl. destruct (i_group row) as [o|] eqn:E; simpl; [by eapply group_fits_ok|].
    apply group_ok_true. intros i Hi. by eapply wf_server_groups. }
  assert (server_name_taken (s_name r) (Some id) db = false) as Hfree.
  { apply server_name_taken_false. intros i x Hi Hx. f_equal. by eapply wf_server_names. }
  unfold update_server. rewrite Hid, Hok. simpl. rewrite Hfree. simpl.
  eexists. split; [done|]. simpl. rewrite lookup_insert_eq. split_and!; [done| |].
  - split; simpl; [done|done|by destruct (i_port row)| |].
    + apply group_fits_row in Hg. by destruct (i_group row) as [[name|]|].
    + by destruct (i_domain row) as [[d|]|].
  - split; try done; simpl.
    + intros i x Hx. destruct (decide (i = id)) as [->|Hne].
      * rewrite lookup_insert_eq, Hid. split; intros [= <-]; set_solver.
      * by rewrite lookup_insert_ne.
    + intros i x Hi. destruct (decide (i = id)) as [->|Hne].
      * rewrite lookup_insert_eq. simplify_eq. eauto.
      * rewrite lookup_insert_ne by done. eauto.
Qed.

(** Creating the server a row names. *)
Lemma import_insert_spec rnd row g db :
  wf_db db →
  (∀ i r, t_servers db !! i = Some r → fold_name (s_name r) ≠ fold_name (i_name row)) →
  group_fits (i_group row) g db →
  let m := insert_server rnd (i_name row) (i_host row) (default 3389 (i_port row)) g
             (mjoin (i_domain row)) in
  (∃ id r db', m db = (Ok id, db') ∧ t_servers db' !! id = Some r ∧ row_fits row None r db' ∧
     imports [fold_name (i_name row)] db db')
  ∨ (m db = (Err (Sql Full), db) ∧ servers_seq db = i64_max).
Proof.
  intros Hwf Hnew Hg m. unfold m, insert_server.
  rewrite (proj2 (server_name_taken_false _ None _)) by (intros i r Hi Hn; by destruct (Hnew i r)).
  rewrite (group_fits_ok _ _ _ Hg). simpl.
  destruct (next_rowid (servers_seq db)) as [id|] eqn:Hid; last first.
  { right. split; [done|]. pose proof (wf_server_ids db Hwf) as [? _].
    unfold next_rowid in Hid. case_decide; [done|lia]. }
  pose proof (next_rowid_fresh _ _ _ (wf_server_ids db Hwf) Hid) as Hfresh.
  left. eexists id, _, _. split; [done|]. simpl. rewrite lookup_insert_eq. split_and!; [done| |].
  - split; simpl; [done|done|by destruct (i_port row)| |].
    + apply group_fits_row in Hg as Hg'. unfold group_fits in Hg.
      destruct (i_group row) as [[name|]|]; done.
    + by destruct (i_domain row) as [[d|]|].
  - split; try done; simpl.
    + intros i x Hx. destruct (decide (i = id)) as [->|Hne].
      * rewrite lookup_insert_eq, Hfresh. split; [done|]. intros [= <-]. set_solver.
      * by rewrite lookup_insert_ne.
    + intros i x Hi. rewrite lookup_insert_ne by congruence. eauto.
Qed.

Lemma imports_weaken names db db' : imports [] db db' → imports names db db'.
Proof. intros H. by apply (imports_trans [] names db db' db'); [|apply imports_refl]. Qed.

(** One row: a server updated or created as the row says, or the ids are used up. *)
Lemma import_row_spec rnd acc row db :
  wf_db db →
  (∃ n id r old db', import_row rnd acc row db = (Ok n, db') ∧ n.1 + n.2 = acc.1 + acc.2 + 1 ∧
     t_servers db' !! id = Some r ∧ row_fits row old r db' ∧
     imports [fold_name (i_name row)] db db' ∧
     match old with
     | Some o => t_servers db !! id = Some o ∧ fold_name (s_name o) = fold_name (i_name row)
     | None => ∀ i o, t_servers db !! i = Some o → fold_name (s_name o) ≠ fold_name (i_name row)
     end)
  ∨ (∃ db', import_row rnd acc row db = (Err (Sql Full), db')) ∧
    (groups_seq db = i64_max ∨ servers_seq db = i64_max).
Proof.
  intros Hwf. unfold import_row.
  pose proof (import_group_inv wf_db (i_group row) db Hwf) as Hwf1.
  assert ((∃ g db1, import_group (i_group row) db = (Ok g, db1) ∧ group_fits (i_group row) g db1 ∧
            imports [] db db1 ∧ t_servers db1 = t_servers db ∧ servers_seq db1 = servers_seq db)
          ∨ (import_group (i_group row) db = (Err (Sql Full), db) ∧ groups_seq db = i64_max))
    as [(g & db1 & Hg & Hfits & Himp & Hs & Hseq)|[Hg Hfull]].
  { pose proof (import_group_spec (i_group row) db Hwf) as Hspec. unfold group_fits.
    destruct (mjoin (i_group row)) as [name|].
    - destruct Hspec as [(i & gr & db1 & H1 & H2 & H3 & H4 & H5 & H6)|[]]; [left|by right].
      exists (Some i), db1. split_and!; eauto.
    - left. exists None, db. split_and!; try done. apply imports_refl. }
  2: { right. split; [|by left]. exists db. by erewrite bind_err. }
  rewrite (bind_ok _ _ _ _ _ Hg), bind_gets. rewrite Hg in Hwf1. simpl in Hwf1. rewrite Hs.
  destruct (select_one _ _) as [[id o]|] eqn:Hsel; simpl.
  - apply select_one_Some in Hsel as [Ho Hn%bool_decide_eq_true].
    destruct (import_update_spec row g id o db1) as (db' & Hup & Hid & Hrow & Himp'); try done.
    { by rewrite Hs. }
    left. exists (acc.1, acc.2 + 1), id, (import_update row g o), (Some o), db'.
    rewrite (bind_ok _ _ _ _ _ Hup). split_and!; try done; simpl; [lia|].
    by apply (imports_trans [] _ db db1 db').
  - rewrite select_one_None in Hsel.
    destruct (import_insert_spec rnd row g db1) as [(id & r & db' & Hin & Hid & Hrow & Himp')|[Hin Hfull]];
      [done| |done| |].
    { rewrite Hs. intros i o Ho. by specialize (Hsel i o Ho); apply bool_decide_eq_false in Hsel. }
    + left. exists (acc.1 + 1, acc.2), id, r, None, db'.
      rewrite (bind_ok _ _ _ _ _ Hin). split_and!; try done; simpl; [lia| |].
      * by apply (imports_trans [] _ db db1 db').
      * intros i o Ho. by specialize (Hsel i o Ho); apply bool_decide_eq_false in Hsel.
    + right. split; [|right; congruence]. exists db1. by erewrite bind_err.
Qed.

(** The server that has a name, whatever its case. *)
Definition server_named (name : string) (db : Db) : option ServerRec :=
  snd <$> select_one (fun _ r => nocase_eq (s_name r) name) (t_servers db).

Lemma server_named_Some name db o :
  wf_db db →
  server_named name db = Some o ↔
  ∃ i, t_servers db !! i = Some o ∧ fold_name (s_name o) = fold_name name.
Proof.
  intros Hwf. unfold server_named. rewrite fmap_Some. split.
  - intros ([i r] & [Hi Hn%bool_decide_eq_true]%select_one_Some & ->). by exists i.
  - intros (i & Hi & Hn). destruct (select_one _ _) as [[j r]|] eqn:Hsel.
    + exists (j, r). split; [done|].
      apply select_one_Some in Hsel as [Hj Hr%bool_decide_eq_true].
      assert (i = j) as <-; [|by simplify_eq].
      eapply (wf_server_names db Hwf); eauto. by rewrite Hn.
    + rewrite select_one_None in Hsel. by specialize (Hsel i o Hi); apply bool_decide_eq_false in Hsel.
Qed.

Lemma row_fits_weaken row old r db db' :
  t_groups db ⊆ t_groups db' → row_fits row old r db → row_fits row old r db'.
Proof.
  intros Hg []. split; try done. destruct (i_group row) as [[g|]|]; [|done..].
  destruct fits_group0 as (i & gr & ? & ? & ?). exists i, gr. split_and!; try done.
  by eapply lookup_weaken.
Qed.

Definition row_name (rr : Z * ImportRow) : string := fold_name (i_name rr.2).

Lemma import_loop rows acc db :
  wf_db db → NoDup (row_name <$> rows) →
  (∃ n db', foldM (fun acc rr => import_row rr.1 acc rr.2) acc rows db = (Ok n, db') ∧
     n.1 + n.2 = acc.1 + acc.2 + len rows ∧ imports (row_name <$> rows) db db' ∧
     Forall (fun rr => ∃ id r, t_servers db' !! id = Some r ∧
       row_fits rr.2 (server_named (i_name rr.2) db) r db') rows)
  ∨ ∃ db', foldM (fun acc rr => import_row rr.1 acc rr.2) acc rows db = (Err (Sql Full), db').
Proof.
  revert acc db. induction rows as [|[rnd row] rows IH]; intros acc db Hwf Hnd.
  { left. exists acc, db. split_and!; [done|unfold len; simpl; lia|apply imports_refl|constructor]. }
  rewrite fmap_cons in Hnd. inversion_clear Hnd as [|? ? Hnew Hnd'].
  pose proof (import_row_inv wf_db rnd acc row db Hwf) as Hwf1.
  destruct (import_row_spec rnd acc row db Hwf)
    as [(n1 & id & r & old & db1 & Hrow & Hn1 & Hid & Hfits & Himp & Hold)|[(db1 & Hrow) _]];
    last first.
  { right. exists db1. simpl. by erewrite bind_err. }
  rewrite Hrow in Hwf1. simpl in Hwf1.
  assert (server_named (i_name row) db = old) as Hold'.
  { destruct old as [o|].
    - apply server_named_Some; [done|]. exists id. done.
    - apply eq_None_not_Some. intros [o Ho]. apply server_named_Some in Ho as (i & Hi & Hn); [|done].
      by eapply Hold. }
  simpl. rewrite (bind_ok _ _ _ _ _ Hrow).
  destruct (IH n1 db1 Hwf1 Hnd') as [(n & db' & Hloop & Hn & Himp' & Hall)|(db' & Hloop)]; [left|by right; exists db'].
  exists n, db'. split_and!; [done|unfold len in *; simpl; lia| |].
  { by apply (imports_trans [row_name (rnd, row)] _ db db1 db'). }
  constructor.
  - exists id, r. simpl. rewrite Hold'. split.
    + eapply (imports_others _ _ _ Himp' id r); [|done]. by rewrite (fits_name _ _ _ _ Hfits).
    + eapply row_fits_weaken; [|done]. by apply (imports_groups _ _ _ Himp').
  - rewrite Forall_forall in Hall |- *. intros rr Hrr. destruct (Hall rr Hrr) as (i & x & Hi & Hx).
    exists i, x. split; [done|]. replace (server_named (i_name rr.2) db) with (server_named (i_name rr.2) db1); [done|].
    assert (row_name rr ≠ row_name (rnd, row)) as Hne.
    { intros Heq. apply Hnew. change (row_name (rnd, row) ∈ row_name <$> rows). rewrite <-Heq.
      by apply list_elem_of_fmap_2. }
    apply option_eq. intros o. rewrite !server_named_Some by done.
    unfold row_name in Hne. simpl in Hne.
    split; intros (j & Hj & Hjn); exists j; split; try done;
      (eapply (imports_others _ _ _ Himp j o); [rewrite Hjn; set_solver|done]).
Qed.

(** A server import happens as a whole or not at all. For rows with distinct names on a sound
    database, either every row is carried out: one server per row, with the row's host and, for the
    columns the row gives, its port, group (made if there was none of that name) and domain, the
    others kept from the server of that name or defaulted; every server the rows do not name, every
    id and incarnation, and every other table stay as they were; and the two counts add up to the
    number of rows. Or the ids are used up, and nothing has changed. *)
Theorem servers_import_all_or_nothing (rows : list (Z * ImportRow)) (db : Db) :
  wf_db db → NoDup (row_name <$> rows) →
  (∃ created updated db', servers_import rows db = (Ok (created, updated), db') ∧
     created + updated = len rows ∧ imports (row_name <$> rows) db db' ∧
     Forall (fun rr => ∃ id r, t_servers db' !! id = Some r ∧
       row_fits rr.2 (server_named (i_name rr.2) db) r db') rows)
  ∨ servers_import rows db = (Err (Sql Full), db).
Proof.
  intros Hwf Hnd. unfold servers_import.
  destruct (import_loop rows (0, 0) db Hwf Hnd) as [([c u] & db' & Hl & Hn & Himp & Hall)|(db' & Hl)].
  - left. exists c, u, db'. split_and!; try done. by apply transaction_ok.
  - right. by eapply transaction_err_eq.
Qed.

Lemma servers_import_witness :
  ∃ created updated db',
    servers_import [(7, mkImportRow "web" "10.0.0.1" None (Some (Some "Prod")) None);
                    (8, mkImportRow "DB" "10.0.0.2" (Some 3390) None None)] empty_db
      = (Ok (created, updated), db') ∧ created + updated = 2.
Proof.
  destruct (servers_import_all_or_nothing
    [(7, mkImportRow "web" "10.0.0.1" None (Some (Some "Prod")) None);
     (8, mkImportRow "DB" "10.0.0.2" (Some 3390) None None)] empty_db)
    as [(c & u & db' & H & Hn & _)|H].
  - apply wf_empty.
  - vm_compute. repeat constructor; set_solver.
  - exists c, u, db'. split; [exact H|exact Hn].
  - vm_compute in H. discriminate H.
Defined.
