(* ===== verification/StoreAudit.v ===== *)
(** * The audit log (src/src/store.rs, [audit_search] and [audit_prune])

    The [LIKE] pattern the search builds matches exactly the entries that contain the text, and
    pruning in batches removes exactly what is too old, oldest first. *)

From S2P Require Import Prelude Tables Store.
Local Open Scope Z_scope.

(** ** The search pattern *)

(** [t] occurs in [s], ASCII case ignored. *)
Definition contains_ci (t s : list ascii) : Prop :=
  ∃ pre post, ascii_lower <$> s = pre ++ (ascii_lower <$> t) ++ post.

(** What the three replacements amount to, character by character. *)
Definition escape_char (c : ascii) : list ascii :=
  if decide (c = c_backslash ∨ c = c_percent ∨ c = c_underscore) then [c_backslash; c] else [c].

Lemma like_escape_chars t : like_escape t = flat_map escape_char t.
Proof.
  unfold like_escape, replace_char. induction t as [|c t IH]; [done|].
  simpl. rewrite !flat_map_app, IH. f_equal. unfold escape_char.
  destruct (decide (c = c_backslash)) as [->|]; [done|].
  destruct (decide (c = c_percent)) as [->|]; [done|]. simpl.
  rewrite decide_False by done. simpl.
  destruct (decide (c = c_underscore)) as [->|]; [done|]. simpl.
  by rewrite decide_False by tauto.
Qed.

Lemma like_percent p s :
  like (c_percent :: p) s = true ↔ ∃ s1 s2, s = s1 ++ s2 ∧ like p s2 = true.
Proof.
  induction s as [|x s IH]; simpl in *; rewrite orb_true_iff.
  - split.
    + intros [H|]; [|done]. by exists [], [].
    + intros ([|??] & [|??] & ? & ?); simplify_eq/=. by left.
  - split.
    + intros [H|H]; [by exists [], (x :: s)|].
      apply IH in H as (s1 & s2 & -> & H). by exists (x :: s1), s2.
    + intros ([|y s1] & s2 & Hs & H); simplify_eq/=; [by left|]. right. apply IH. eauto.
Qed.

Lemma like_escaped c p s :
  like (escape_char c ++ p) s = true ↔
  ∃ x s', s = x :: s' ∧ ascii_lower x = ascii_lower c ∧ like p s' = true.
Proof.
  unfold escape_char. case_decide as Hc.
  - simpl. destruct s as [|x s]; simpl.
    + naive_solver.
    + unfold like_char. rewrite andb_true_iff, bool_decide_eq_true. naive_solver.
  - simpl. rewrite !decide_False by tauto. destruct s as [|x s]; simpl; [naive_solver|].
    unfold like_char. rewrite bool_decide_false by tauto. simpl.
    rewrite andb_true_iff, bool_decide_eq_true. naive_solver.
Qed.

Lemma like_literal t p s :
  like (flat_map escape_char t ++ p) s = true ↔
  ∃ s1 s2, s = s1 ++ s2 ∧ ascii_lower <$> s1 = ascii_lower <$> t ∧ like p s2 = true.
Proof.
  revert s. induction t as [|c t IH]; intros s; simpl.
  - split; [by intros; exists [], s|]. intros (s1 & s2 & -> & H1 & H2).
    apply fmap_nil_inv in H1 as ->. done.
  - rewrite <-app_assoc, like_escaped. setoid_rewrite IH. split.
    + intros (x & s' & -> & Hx & s1 & s2 & -> & H1 & H2). exists (x :: s1), s2.
      split_and!; [done|by rewrite !fmap_cons, Hx, H1|done].
    + intros ([|x s1] & s2 & -> & H1 & H2); simplify_eq/=. exists x, (s1 ++ s2). naive_solver.
Qed.

Lemma like_pattern_contains t s : like (like_pattern t) s = true ↔ contains_ci t s.
Proof.
  unfold like_pattern, contains_ci. rewrite like_percent, like_escape_chars.
  setoid_rewrite like_literal. setoid_rewrite like_percent. split.
  - intros (pre & ? & -> & s1 & ? & -> & H1 & post & s3 & -> & H2).
    exists (ascii_lower <$> pre), (ascii_lower <$> (post ++ s3)).
    by rewrite !fmap_app, H1.
  - intros (pre & post & Hs). apply fmap_app_inv in Hs as (s1 & s' & Hpre & Hs' & ->).
    symmetry in Hs'. apply fmap_app_inv in Hs' as (s2 & s3 & Ht & Hpost & ->).
    exists s1, (s2 ++ s3). split; [done|]. exists s2, s3. split_and!; [done|done|].
    exists s3, []. by rewrite app_nil_r.
Qed.

(** ** The search *)

Definition mentions (t : string) (a : AuditRec) : Prop :=
  contains_ci (String.list_ascii_of_string t) (String.list_ascii_of_string (a_actor a)) ∨
  contains_ci (String.list_ascii_of_string t) (String.list_ascii_of_string (a_action a)) ∨
  contains_ci (String.list_ascii_of_string t) (String.list_ascii_of_string (a_detail a)).

Lemma audit_matches_mentions t a :
  audit_matches (Some (like_pattern (String.list_ascii_of_string t))) a = true ↔ mentions t a.
Proof.
  unfold audit_matches, mentions. rewrite !orb_true_iff, !like_pattern_contains. tauto.
Qed.

(** What a page of the search holds: entries before [before] that mention the text, newest first,
    the newest of them, and all of them when there is room. *)
Record search_page (lim : Z) (before : option Z) (P : AuditRec → Prop) (m : gmap Z AuditRec)
    (l : list AuditRow) : Prop := {
  page_sound x : x ∈ l →
    ∃ a, m !! audit_id x = Some a ∧ x = audit_row (audit_id x, a) ∧
      below before (audit_id x) = true ∧ P a;
  page_newest_first : StronglySorted (fun x y => audit_id y < audit_id x) l;
  page_length : len l ≤ lim;
  page_complete i a : m !! i = Some a → below before i = true → P a →
    audit_row (i, a) ∈ l ∨ len l = lim ∧ Forall (fun x => i < audit_id x) l
}.

Lemma StronglySorted_reverse {A} (R : relation A) (l : list A) :
  StronglySorted R l → StronglySorted (flip R) (reverse l).
Proof.
  induction 1 as [|x l _ IH Hx]; [constructor|]. rewrite reverse_cons.
  apply StronglySorted_app_2.
  - intros a b. rewrite elem_of_reverse, list_elem_of_singleton. intros Ha ->.
    rewrite Forall_forall in Hx. unfold flip. by apply Hx.
  - done.
  - repeat constructor.
Qed.

Lemma StronglySorted_take_drop {A} (R : relation A) n (l : list A) :
  StronglySorted R l →
  StronglySorted R (take n l) ∧ ∀ a b, a ∈ take n l → b ∈ drop n l → R a b.
Proof.
  rewrite <-(take_drop n l) at 1. intros Hs. split.
  - by eapply StronglySorted_app_1_l.
  - intros a b Ha Hb. by eapply StronglySorted_app_1_elem_of.
Qed.

Lemma search_page_of (lim : Z) before (p : AuditRec → bool) (P : AuditRec → Prop) (m : gmap Z AuditRec) :
  0 ≤ lim → (∀ a, p a = true ↔ P a) →
  search_page lim before P m
    (audit_row <$> limit lim
       (List.filter (fun ir => p ir.2) (reverse (select (fun i _ => below before i) m)))).
Proof.
  intros Hlim Hp. unfold limit. rewrite bool_decide_false by lia.
  set (full := List.filter _ _).
  assert (∀ i a, (i, a) ∈ full ↔ m !! i = Some a ∧ below before i = true ∧ P a) as Hfull.
  { intros i a. unfold full. rewrite list_elem_of_In, filter_In, <-list_elem_of_In,
      elem_of_reverse, elem_of_select. simpl. rewrite Hp. tauto. }
  assert (StronglySorted (fun x y : Z * AuditRec => y.1 < x.1) full) as Hs.
  { apply filter_sorted. apply (StronglySorted_reverse row_lt), select_sorted. }
  destruct (StronglySorted_take_drop _ (Z.to_nat lim) full Hs) as [Hts Htd].
  split.
  - intros x ([i a] & -> & Hin)%list_elem_of_fmap. simpl. exists a.
    apply elem_of_take in Hin as (? & Hin & _). apply list_elem_of_lookup_2, Hfull in Hin. naive_solver.
  - eapply StronglySorted_fmap; [|exact Hts]. done.
  - unfold len. rewrite length_fmap, length_take. lia.
  - intros i a Hi Hb HP. assert ((i, a) ∈ full) as Hin by by apply Hfull.
    rewrite <-(take_drop (Z.to_nat lim) full) in Hin. apply elem_of_app in Hin as [Hin|Hin].
    + left. by apply list_elem_of_fmap_2.
    + right. split.
      * unfold len. rewrite length_fmap, length_take.
        assert (0 < length (drop (Z.to_nat lim) full))%nat as Hd
          by (destruct (drop _ _); [by apply not_elem_of_nil in Hin|simpl; lia]).
        rewrite length_drop in Hd. lia.
      * apply Forall_fmap, Forall_forall. intros [j b] Hj. by apply (Htd (j, b) (i, a)).
Qed.

(** The audit search finds what it says. For a text within SQLite's pattern limit, the page is
    made of entries older than [before] whose actor, action or detail contains the text, ASCII case
    ignored, whatever wildcards or backslashes the text holds; they come newest first, at most
    [lim] of them, and an entry that matches is left out only when the page is full of newer ones. *)
Theorem audit_search_finds (lim : Z) (before : option Z) (text : string) (db : Db) :
  0 ≤ lim → text ≠ ""%string → len (like_pattern (String.list_ascii_of_string text)) ≤ like_limit →
  ∃ l, audit_search lim before (Some text) db = (Ok l, db) ∧
    search_page lim before (mentions text) (t_audit db) l.
Proof.
  intros Hlim Ht Hlen. unfold audit_search. cbn [mbind option_bind].
  rewrite decide_False by done. cbn [fmap option_fmap option_map default from_option].
  rewrite bool_decide_false by (unfold id; lia). eexists. split; [done|].
  apply search_page_of; [done|]. intros a. apply audit_matches_mentions.
Qed.

Lemma audit_search_witness :
  ∃ l, audit_search 10 None (Some "50%_Off"%string)
         (set_audit (fun _ => <[1 := mkAuditRec 5 "amy" "x" "sale 50%_OFF now"]> (<[2 := mkAuditRec 6 "bob" "y" "sale 500xoff"]> ∅)) empty_db)
       = (Ok l, set_audit (fun _ => <[1 := mkAuditRec 5 "amy" "x" "sale 50%_OFF now"]> (<[2 := mkAuditRec 6 "bob" "y" "sale 500xoff"]> ∅)) empty_db)
       ∧ len l ≤ 10.
Proof.
  edestruct (audit_search_finds 10 None "50%_Off"%string
    (set_audit (fun _ => <[1 := mkAuditRec 5 "amy" "x" "sale 50%_OFF now"]> (<[2 := mkAuditRec 6 "bob" "y" "sale 500xoff"]> ∅)) empty_db))
    as (l & Hl & Hp); [lia|discriminate|vm_compute; discriminate|].
  exists l. split; [exact Hl|exact (page_length _ _ _ _ _ Hp)].
Defined.

Example audit_search_example :
  fst (audit_search 10 None (Some "50%_Off"%string)
    (set_audit (fun _ => <[1 := mkAuditRec 5 "amy" "x" "sale 50%_OFF now"]> (<[2 := mkAuditRec 6 "bob" "y" "sale 500xoff"]> ∅)) empty_db))
  = Ok [mkAuditRow 1 5 "amy" "x" "sale 50%_OFF now"].
Proof. vm_compute. reflexivity. Qed.

(** ** Retention *)

(** Entries written before [before]. *)
Definition old_entries (before : Z) (db : Db) : gmap Z AuditRec :=
  filter (fun kv => a_at kv.2 < before) (t_audit db).

(** The ids one batch removes. *)
Definition pruned_ids (before batch : Z) (db : Db) : list Z :=
  (limit batch (select (fun _ a => bool_decide (a_at a < before)) (t_audit db))).*1.

Lemma elem_of_pruned before batch db i :
  i ∈ pruned_ids before batch db → is_Some (old_entries before db !! i).
Proof.
  unfold pruned_ids, limit. intros ([j a] & -> & Hin)%list_elem_of_fmap.
  assert ((j, a) ∈ select (fun _ a => bool_decide (a_at a < before)) (t_audit db)) as Hs.
  { case_bool_decide; [done|]. apply elem_of_take in Hin as (? & Hin & _).
    by eapply list_elem_of_lookup_2. }
  apply elem_of_select in Hs as [Hj Ha%bool_decide_eq_true].
  exists a. unfold old_entries. by apply map_lookup_filter_Some.
Qed.

(** One batch of retention removes only entries that are too old, at most [batch] of them, the
    oldest ids first, and says how many; when it says fewer than [batch], no entry that is too old
    is left. *)
Lemma audit_prune_oldest_first (before batch : Z) (db : Db) :
  0 ≤ batch →
  ∃ n db', audit_prune before batch db = (Ok n, db') ∧ 0 ≤ n ≤ batch ∧
    n = Z.of_nat (length (pruned_ids before batch db)) ∧
    (∀ i, t_audit db' !! i = if decide (i ∈ pruned_ids before batch db) then None
                             else t_audit db !! i) ∧
    (∀ i a, i ∈ pruned_ids before batch db → t_audit db !! i = Some a → a_at a < before) ∧
    (∀ i j a, i ∈ pruned_ids before batch db → t_audit db' !! j = Some a → a_at a < before → i < j) ∧
    (n < batch → old_entries before db' = ∅).
Proof.
  intros Hb. set (ids := pruned_ids before batch db).
  set (P := fun (_ : Z) (a : AuditRec) => bool_decide (a_at a < before)).
  assert (ids = (take (Z.to_nat batch) (select P (t_audit db))).*1) as Hids.
  { unfold ids, pruned_ids, limit. by rewrite bool_decide_false by lia. }
  exists (len ids), (set_audit (filter (fun kv => kv.1 ∉ ids)) db).
  assert (∀ i, t_audit (set_audit (filter (fun kv => kv.1 ∉ ids)) db) !! i
               = if decide (i ∈ ids) then None else t_audit db !! i) as Hlook.
  { intros i. simpl. apply option_eq. intros a. rewrite map_lookup_filter_Some. simpl.
    case_decide; naive_solver. }
  destruct (StronglySorted_take_drop _ (Z.to_nat batch) _ (select_sorted P (t_audit db))) as [_ Htd].
  assert (∀ j a, t_audit db !! j = Some a → a_at a < before → j ∉ ids →
            (j, a) ∈ drop (Z.to_nat batch) (select P (t_audit db))) as Hrest.
  { intros j a Hj Ha Hn. assert ((j, a) ∈ select P (t_audit db)) as Hin.
    { apply elem_of_select. split; [done|]. by apply bool_decide_eq_true. }
    rewrite <-(take_drop (Z.to_nat batch) (select P _)) in Hin.
    apply elem_of_app in Hin as [Hin|Hin]; [|done].
    destruct Hn. rewrite Hids. by apply (list_elem_of_fmap_2 fst _ (j, a)). }
  split_and!; try done.
  - apply len_nonneg.
  - rewrite Hids. unfold len. rewrite length_fmap, length_take. lia.
  - intros i a Hi Ha. destruct (elem_of_pruned before batch db i Hi) as [a' Ha'].
    apply map_lookup_filter_Some in Ha' as [??]. by simplify_eq.
  - intros i j a Hi Hj Ha. rewrite Hlook in Hj. case_decide as Hji; [done|].
    rewrite Hids in Hi. apply list_elem_of_fmap in Hi as ([i' b] & -> & Hi').
    apply (Htd (i', b) (j, a)); [done|]. by apply Hrest.
  - intros Hn. apply map_empty. intros i. unfold old_entries.
    apply map_lookup_filter_None. right. intros a Hi Ha. rewrite Hlook in Hi.
    case_decide as Hii; [done|]. specialize (Hrest i a Hi Ha Hii).
    rewrite Hids in Hn. unfold len in Hn. rewrite length_fmap, length_take in Hn.
    rewrite drop_ge in Hrest by lia. by apply not_elem_of_nil in Hrest.
Qed.

(** [prune_audit] (src/src/server.rs): batches of [AUDIT_PRUNE_BATCH] until one comes back short.
    Between two batches the gate is free: [others k] is whatever other requests did there. *)
Definition AUDIT_PRUNE_BATCH : Z := 1000.

Fixpoint prune_loop (fuel : nat) (others : nat → Db → Db) (before : Z) (k : nat) (removed : Z)
    (db : Db) : option (Z * Db) :=
  match fuel with
  | O => None
  | S fuel =>
      match audit_prune before AUDIT_PRUNE_BATCH db with
      | (Err _, db') => Some (removed, db')
      | (Ok n, db') =>
          if bool_decide (n < AUDIT_PRUNE_BATCH) then Some (removed + n, db')
          else prune_loop fuel others before (S k) (removed + n) (others k db')
      end
  end.

Definition prune_audit (fuel : nat) (others : nat → Db → Db) (now audit_days : Z) (db : Db) :
    option (Z * Db) :=
  prune_loop fuel others (now - audit_days * 86400) 0 0 db.

Lemma prune_shrinks before db n db' :
  audit_prune before AUDIT_PRUNE_BATCH db = (Ok n, db') → AUDIT_PRUNE_BATCH ≤ n →
  (size (old_entries before db') < size (old_entries before db))%nat.
Proof.
  intros Hp Hn.
  destruct (audit_prune_oldest_first before AUDIT_PRUNE_BATCH db ltac:(done))
    as (n' & db'' & Hp' & _ & Hlen & Hlook & _). rewrite Hp in Hp'. simplify_eq.
  apply map_subset_size. apply map_subset_alt. split.
  - apply map_subseteq_spec. intros j a [Hj Ha]%map_lookup_filter_Some.
    apply map_lookup_filter_Some. split; [|done]. rewrite Hlook in Hj. by case_decide.
  - destruct (pruned_ids before AUDIT_PRUNE_BATCH db) as [|i l] eqn:E.
    { simpl in Hn. unfold AUDIT_PRUNE_BATCH in Hn. lia. }
    exists i. assert (i ∈ pruned_ids before AUDIT_PRUNE_BATCH db) as Hi by (rewrite E; left).
    split; [|by apply elem_of_pruned in Hi].
    unfold old_entries. apply map_lookup_filter_None. left. rewrite Hlook, decide_True; [done|left].
Qed.

(** A retention pass ends, and leaves nothing that is too old. Whatever other requests do
    between its batches, as long as they write no entry dated before the limit, the pass returns
    after at most as many batches as there were entries too old, plus one, and then no entry older
    than [audit_days] days is left; left alone, it removes no entry that is not too old. *)
Theorem retention_ends_and_completes (others : nat → Db → Db) (now audit_days : Z) (db : Db)
    (fuel : nat) :
  let before := now - audit_days * 86400 in
  (∀ k db, old_entries before (others k db) ⊆ old_entries before db) →
  (size (old_entries before db) < fuel)%nat →
  ∃ removed db', prune_audit fuel others now audit_days db = Some (removed, db') ∧
    old_entries before db' = ∅ ∧
    ((∀ k db, others k db = db) → ∀ i a, t_audit db !! i = Some a → before ≤ a_at a →
      t_audit db' !! i = Some a).
Proof.
  intros before Hothers Hfuel. unfold prune_audit. fold before.
  generalize 0%nat, 0. revert db Hfuel. induction fuel as [|fuel IH]; intros db Hfuel k removed; [lia|].
  destruct (audit_prune_oldest_first before AUDIT_PRUNE_BATCH db ltac:(done))
    as (n & db' & Hp & _ & _ & Hlook & Hold & _ & Hdone).
  assert (∀ i a, t_audit db !! i = Some a → before ≤ a_at a → t_audit db' !! i = Some a) as Hkeep.
  { intros i a Hi Ha. rewrite Hlook. case_decide as Hin; [|done]. specialize (Hold i a Hin Hi). lia. }
  cbn [prune_loop]. rewrite Hp. case_bool_decide as Hn.
  - exists (removed + n), db'. auto.
  - pose proof (prune_shrinks _ _ _ _ Hp ltac:(lia)) as Hlt.
    pose proof (map_subseteq_size _ _ (Hothers k db')) as Hle.
    destruct (IH (others k db') ltac:(lia) (S k) (removed + n)) as (rm & db'' & Hl & Hd & Hk).
    exists rm, db''. split_and!; [done|done|]. intros Hid i a Hi Ha. apply Hk; [done| |done].
    rewrite Hid. auto.
Qed.

Lemma retention_witness :
  ∃ removed db', prune_audit 3 (fun _ db => db) 1000000 1
      (set_audit (fun _ => <[1 := mkAuditRec 5 "a" "b" "c"]>
        (<[2 := mkAuditRec 999999 "a" "b" "c"]> ∅)) empty_db) = Some (removed, db')
    ∧ old_entries (1000000 - 1 * 86400) db' = ∅.
Proof.
  destruct (retention_ends_and_completes (fun _ db => db) 1000000 1
    (set_audit (fun _ => <[1 := mkAuditRec 5 "a" "b" "c"]>
      (<[2 := mkAuditRec 999999 "a" "b" "c"]> ∅)) empty_db) 3) as (rm & db' & H & Ho & _).
  - intros. reflexivity.
  - vm_compute. lia.
  - exists rm, db'. split; [exact H|exact Ho].
Defined.
