(* ===== verification/Policy.v ===== *)
(** * Authorization (src/src/policy.rs)

    A user reaches exactly the servers assigned to them: the list a user sees and the connections
    they can open are decided by the same rows. *)

From S2P Require Import Prelude Tables Text Store StoreInv.
Local Open Scope Z_scope.

Inductive Denied := NoSuchTarget | NotPermitted.

Inductive PolicyError :=
  | PDenied (d : Denied)
  | PStore (e : StoreError).

(** The client names a server by its id, never by an address. *)
Definition resolve (user : Z) (target_id : string) : M Db PolicyError Server :=
  id ← lift (ok_or (PDenied NoSuchTarget) (parse_i64 target_id));
  found ← map_err PStore (server_by_id id);
  server ← lift (ok_or (PDenied NoSuchTarget) found);
  assigned ← map_err PStore (is_assigned user (server_id server));
  if assigned : bool then mret server else throw (PDenied NotPermitted).

Definition permitted (user : Z) : M Db PolicyError (list ListedServer) :=
  map_err PStore (assigned_servers user).

(** ** What [resolve] decides *)

Lemma resolve_Ok user tid db sv db' :
  resolve user tid db = (Ok sv, db') ↔
  db' = db ∧ ∃ id r, parse_i64 tid = Some id ∧ t_servers db !! id = Some r ∧
    (user, id) ∈ t_assignments db ∧ sv = server_from id r.
Proof.
  unfold resolve, map_err, is_assigned, server_by_id, lift, gets, mbind, M_bind, mret, M_ret, ok_or.
  destruct (parse_i64 tid) as [id|] eqn:Hp; simpl; [|naive_solver].
  destruct (t_servers db !! id) as [r|] eqn:Hr; simpl; [|naive_solver].
  case_bool_decide; simpl; naive_solver.
Qed.

(** ** The list *)

(** The rows of the user's list, before they are sorted. *)
Definition listed_rows (user : Z) (db : Db) : list (option Z * ListedServer) :=
  omap (listed_row db) (elements (filter (fun p => p.1 = user) (t_assignments db))).

Lemma elem_of_listed_rows user db x :
  x ∈ listed_rows user db ↔
  ∃ id, (user, id) ∈ t_assignments db ∧ listed_row db (user, id) = Some x.
Proof.
  unfold listed_rows. rewrite list_elem_of_omap. setoid_rewrite elem_of_elements.
  setoid_rewrite elem_of_filter. split.
  - intros ([u id] & [Hu Hin] & Hx). simpl in Hu. subst. eauto.
  - intros (id & Hin & Hx). by exists (user, id).
Qed.

Lemma listed_row_Some db p x :
  listed_row db p = Some x → ∃ r, t_servers db !! p.2 = Some r ∧ listed x.2 = server_from p.2 r.
Proof.
  unfold listed_row. destruct (t_servers db !! p.2) as [r|] eqn:Hr; [|done].
  simpl. intros [= <-]. eauto.
Qed.

(** A server is on the list exactly when it exists and is assigned to the user. *)
Lemma elem_of_listed user db sv :
  sv ∈ (fun x => listed x.2) <$> listed_rows user db ↔
  ∃ id r, t_servers db !! id = Some r ∧ (user, id) ∈ t_assignments db ∧ sv = server_from id r.
Proof.
  rewrite list_elem_of_fmap. setoid_rewrite elem_of_listed_rows. split.
  - intros (x & -> & id & Hin & Hx). destruct (listed_row_Some _ _ _ Hx) as (r & Hr & Hl).
    simpl in *. eauto.
  - intros (id & r & Hr & Hin & ->). destruct (listed_row db (user, id)) as [x|] eqn:Hx.
    + exists x. split; [|eauto]. destruct (listed_row_Some _ _ _ Hx) as (r' & Hr' & Hl).
      simpl in *. by simplify_eq.
    + unfold listed_row in Hx. simpl in Hx. by rewrite Hr in Hx.
Qed.

Lemma NoDup_listed user db : NoDup ((fun x => server_id (listed x.2)) <$> listed_rows user db).
Proof.
  unfold listed_rows. set (l := elements _).
  assert (NoDup l ∧ ∀ p, p ∈ l → p.1 = user) as [Hnd Hu].
  { unfold l. split; [apply NoDup_elements|]. intros p Hp%elem_of_elements.
    by apply elem_of_filter in Hp as [? _]. }
  clearbody l. induction Hnd as [|[u id] l Hnew Hnd IH]; simpl; [constructor|].
  assert (∀ p, p ∈ l → p.1 = user) as Hu' by (intros p Hp; apply Hu; by right).
  specialize (IH Hu'). destruct (listed_row db (u, id)) as [x|] eqn:Hx; [|done].
  simpl. constructor; [|done].
  intros (y & Heq & Hy)%list_elem_of_fmap.
  apply list_elem_of_omap in Hy as ([u' id'] & Hin & Hy).
  apply listed_row_Some in Hx as (r & _ & Hl). apply listed_row_Some in Hy as (r' & _ & Hl').
  simpl in *. rewrite Hl, Hl' in Heq. simpl in Heq. subst.
  assert (u = user) as -> by by apply (Hu (u, id')); left.
  assert (u' = user) as -> by by apply (Hu' (u', id')). done.
Qed.

(** The list and the connections cannot disagree. On a sound database, a user's list has each
    server once, in the administrator's order; a server is on it exactly when opening a connection
    by its id succeeds and yields that server, and any target text that succeeds names a server on
    the list. *)
Theorem list_and_connections_agree (user : Z) (db : Db) :
  wf_db db →
  ∃ l, permitted user db = (Ok l, db) ∧
    NoDup (server_id <$> (listed <$> l)) ∧
    (∃ k, l = snd <$> k ∧ Sorted listed_le k) ∧
    (∀ sv, sv ∈ listed <$> l ↔ resolve user (pretty (server_id sv)) db = (Ok sv, db)) ∧
    (∀ tid sv db', resolve user tid db = (Ok sv, db') → sv ∈ listed <$> l).
Proof.
  intros Hwf. set (k := merge_sort listed_le (listed_rows user db)).
  exists (snd <$> k). split; [done|].
  assert (k ≡ₚ listed_rows user db) as Hk by apply merge_sort_Permutation.
  assert (Sorted listed_le k) as Hsorted by apply Sorted_merge_sort, _.
  clearbody k.
  assert (∀ sv, sv ∈ listed <$> (snd <$> k) ↔
    ∃ id r, t_servers db !! id = Some r ∧ (user, id) ∈ t_assignments db ∧ sv = server_from id r)
    as Hin.
  { intros sv. rewrite <-list_fmap_compose. rewrite Hk. apply elem_of_listed. }
  split_and!.
  - rewrite <-!list_fmap_compose. rewrite Hk. apply NoDup_listed.
  - by exists k.
  - intros sv. rewrite Hin, resolve_Ok. split.
    + intros (id & r & Hr & Ha & ->). split; [done|]. exists id, r. split_and!; try done.
      apply parse_pretty; [unfold i64_min; lia|]. simpl.
      pose proof (wf_server_ids db Hwf) as [Hseq Hids]. specialize (Hids id r Hr).
      unfold i64_min. lia.
    + intros (_ & id & r & _ & Hr & Ha & ->). eauto.
  - intros tid sv db'. rewrite Hin, resolve_Ok. intros (_ & id & r & _ & Hr & Ha & ->). eauto.
Qed.

Definition policy_db : Db :=
  set_assigned (union {[(1, 1)]})
    (add_server 1 (mkServerRec "web" "10.0.0.1" 3389 None None 5)
      (add_user 1 (mkUserRec "amy" None None false false 0 None None 4) empty_db)).

Lemma policy_db_wf : wf_db policy_db.
Proof.
  apply wf_assign; [apply wf_add_server; [apply wf_add_user; [apply wf_empty|..]|..]|];
    try (vm_compute; reflexivity).
  intros u s [= -> ->]%elem_of_singleton. split; eexists; vm_compute; reflexivity.
Qed.

Lemma list_and_connections_witness :
  ∃ l, permitted 1 policy_db = (Ok l, policy_db) ∧ NoDup (server_id <$> (listed <$> l)).
Proof.
  destruct (list_and_connections_agree 1 policy_db policy_db_wf) as (l & Hl & Hnd & _).
  exists l. split; [exact Hl|exact Hnd].
Defined.

Example resolve_example :
  fst (resolve 1 "1" policy_db) = Ok (mkServer 1 "web" "10.0.0.1" 3389 None None) ∧
  fst (resolve 2 "1" policy_db) = Err (PDenied NotPermitted) ∧
  fst (resolve 1 "2" policy_db) = Err (PDenied NoSuchTarget) ∧
  fst (resolve 1 "10.0.0.1" policy_db) = Err (PDenied NoSuchTarget).
Proof. vm_compute. done. Qed.
