(* ===== verification/Auth.v ===== *)
(** * Sessions, tickets and throttles (src/src/auth.rs)

    The session cookie, the single-use connect ticket and the budget of failed sign-ins. The maps
    are behind a mutex, so each operation runs alone; an [Instant] is a count of nanoseconds on the
    monotonic clock, and random tokens are arguments. *)

From S2P Require Import Prelude Text.
Local Open Scope Z_scope.

(** ** Tokens and cookies *)

Definition second : Z := 1000000000.
Definition TICKET_TTL : Z := 60 * second.
Definition COOKIE : string := "wa_session".

(** 256 bits from the operating system, hex encoded; [random] is what it gave. *)
Definition random_token (random : bytes) : string := of_chars (random ≫= hex_byte).

Section token_hash.
(** SHA-256, from the [ring] crate. *)
Context (sha256 : bytes → bytes).

(** What the database keeps instead of the token. *)
Definition token_hash (token : string) : bytes := sha256 (String.list_byte_of_string token).
End token_hash.

Definition session_cookie (token : string) (max_age_secs : Z) (secure : bool) : string :=
  COOKIE +:+ "=" +:+ token +:+ "; Path=/; Max-Age=" +:+ pretty max_age_secs
    +:+ "; HttpOnly; SameSite=Strict" +:+ (if secure then "; Secure" else "").

Definition clear_cookie (secure : bool) : string :=
  COOKIE +:+ "=; Path=/; Max-Age=0; HttpOnly; SameSite=Strict" +:+ (if secure then "; Secure" else "").

(** The value of one cookie from a [Cookie] header. *)
Definition cookie_value (header name : string) : option string :=
  find_map (fun pair =>
      match split_once "="%char (trim pair) with
      | Some (k, v) => if decide (k = to_chars name ∧ v ≠ []) then Some (of_chars v) else None
      | None => None
      end)
    (split_on ";"%char (to_chars header)).

(** ** Connect tickets *)

Record Ticket := mkTicket { ticket_user : Z; ticket_server : Z }.

#[export] Instance Ticket_eq : EqDecision Ticket.
Proof. solve_decision. Defined.

Record Issued := mkIssued { i_ticket : Ticket; i_minted : Z }.

Abbreviation Tickets := (gmap string Issued).

(** [Instant::saturating_duration_since]: the clock is never seen to run backwards. *)
Definition since (at_ t : Z) : Z := Z.max 0 (at_ - t).

(** [Tickets::issue], with the token drawn and the time. *)
Definition issue (now : Z) (token : string) (user server : Z) (issued : Tickets) : Tickets :=
  <[token := mkIssued (mkTicket user server) now]>
    (filter (fun kv => since now (i_minted kv.2) < TICKET_TTL) issued).

(** [Tickets::redeem_at]: the entry goes whether or not it is still valid. *)
Definition redeem_at (token : string) (at_ : Z) (issued : Tickets) : option Ticket * Tickets :=
  match issued !! token with
  | None => (None, issued)
  | Some e =>
      ((if decide (since at_ (i_minted e) < TICKET_TTL) then Some (i_ticket e) else None),
       delete token issued)
  end.

Definition clear_tickets (_ : Tickets) : Tickets := ∅.

(** ** Throttles *)

Definition THROTTLE_FAILURES : nat := 5.
Definition THROTTLE_WINDOW : Z := 5 * 60 * second.

Record Throttle := mkThrottle { failures : gmap string (list Z); th_limit : nat }.

Definition throttle_new (limit : nat) : Throttle := mkThrottle ∅ limit.
Definition throttle_default : Throttle := throttle_new THROTTLE_FAILURES.

Definition recent (at_ t : Z) : bool := bool_decide (since at_ t < THROTTLE_WINDOW).

(** [map.retain(|_, v| v.last().is_some_and(..))]. *)
Definition retain_recent (at_ : Z) (m : gmap string (list Z)) : gmap string (list Z) :=
  filter (fun kv => match last kv.2 with Some t => recent at_ t | None => false end = true) m.

Definition blocked_at (key : string) (at_ : Z) (th : Throttle) : bool * Throttle :=
  match failures th !! key with
  | None => (false, th)
  | Some times =>
      let times := List.filter (recent at_) times in
      (negb (bool_decide (th_limit th = 0%nat)) && bool_decide (th_limit th ≤ length times)%nat,
       mkThrottle (<[key := times]> (failures th)) (th_limit th))
  end.

(** Counts an attempt before it is made; false, and nothing counted, when the budget is spent. *)
Definition take_at (key : string) (at_ : Z) (th : Throttle) : bool * Throttle :=
  if bool_decide (th_limit th = 0%nat) then (true, th)
  else
    let m := retain_recent at_ (failures th) in
    let times := List.filter (recent at_) (default [] (m !! key)) in
    if bool_decide (th_limit th ≤ length times)%nat
    then (false, mkThrottle (<[key := times]> m) (th_limit th))
    else (true, mkThrottle (<[key := times ++ [at_]]> m) (th_limit th)).

(** [Vec::pop]. *)
Definition pop {A} (l : list A) : list A := take (length l - 1) l.

Definition refund (key : string) (th : Throttle) : Throttle :=
  match failures th !! key with
  | None => th
  | Some times =>
      mkThrottle (if decide (pop times = []) then delete key (failures th)
                  else <[key := pop times]> (failures th)) (th_limit th)
  end.

Definition fail_at (key : string) (at_ : Z) (th : Throttle) : Throttle :=
  let m := retain_recent at_ (failures th) in
  mkThrottle (<[key := default [] (m !! key) ++ [at_]]> m) (th_limit th).

Definition clear_throttle (key : string) (th : Throttle) : Throttle :=
  mkThrottle (delete key (failures th)) (th_limit th).
