(* ===== verification/AuthFacts.v ===== *)
(** * What tickets, throttles and cookies guarantee (src/src/auth.rs)

    A ticket is redeemed exactly when its last issue is recent and untouched; a throttle, which
    forgets what it no longer needs, answers as one that remembers every attempt, and so never
    admits more than its limit within a window; the cookie set at sign-in is the one read back. *)

From S2P Require Import Prelude Text Auth.
Local Open Scope Z_scope.

(** ** Tickets *)

Inductive ticket_op :=
  | TIssue (now : Z) (token : string) (user server : Z)
  | TRedeem (token : string) (at_ : Z)
  | TClear.

Definition ticket_exec (i : Tickets) (o : ticket_op) : Tickets :=
  match o with
  | TIssue now tok u s => issue now tok u s i
  | TRedeem tok at_ => snd (redeem_at tok at_ i)
  | TClear => clear_tickets i
  end.

Definition ticket_run (ops : list ticket_op) : Tickets := foldl ticket_exec ∅ ops.

(** The operation neither issues nor spends this token. *)
Definition spares (token : string) (o : ticket_op) : Prop :=
  match o with
  | TIssue _ tok _ _ => tok ≠ token
  | TRedeem tok _ => tok ≠ token
  | TClear => False
  end.

Definition issued_before (at_ : Z) (o : ticket_op) : Prop :=
  match o with TIssue now _ _ _ => now ≤ at_ | _ => True end.

Lemma redeem_at_snd tok at_ i : snd (redeem_at tok at_ i) = delete tok i.
Proof.
  unfold redeem_at. destruct (i !! tok) eqn:E; simpl; [done|]. symmetry. by apply delete_id.
Qed.

Lemma redeem_at_fst tok at_ i t :
  fst (redeem_at tok at_ i) = Some t ↔
  ∃ e, i !! tok = Some e ∧ i_ticket e = t ∧ since at_ (i_minted e) < TICKET_TTL.
Proof.
  unfold redeem_at. destruct (i !! tok) as [e|]; simpl; [case_decide|]; naive_solver.
Qed.

(** An entry is the mark of an issue nothing has touched since. *)
Lemma ticket_run_lookup ops tok e :
  ticket_run ops !! tok = Some e →
  ∃ pre mid, ops = pre ++ TIssue (i_minted e) tok (ticket_user (i_ticket e))
                               (ticket_server (i_ticket e)) :: mid ∧ Forall (spares tok) mid.
Proof.
  induction ops as [|o ops IH] using rev_ind; [unfold ticket_run; simpl; by rewrite lookup_empty|].
  unfold ticket_run. rewrite foldl_snoc. fold (ticket_run ops). intros He.
  assert (spares tok o → ticket_run ops !! tok = Some e →
    ∃ pre mid, ops ++ [o] = pre ++ TIssue (i_minted e) tok (ticket_user (i_ticket e))
      (ticket_server (i_ticket e)) :: mid ∧ Forall (spares tok) mid) as Hold.
  { intros Ho (pre & mid & -> & Hmid)%IH. exists pre, (mid ++ [o]).
    rewrite <-app_assoc. split; [done|]. apply Forall_app. by rewrite Forall_singleton. }
  destruct o as [now tok' u s|tok' at_|]; simpl in He.
  - unfold issue in He. apply lookup_insert_Some in He as [[-> <-]|[Hne He]].
    + exists ops, []. by split; [|constructor].
    + apply map_lookup_filter_Some in He as [He _]. by apply Hold.
  - rewrite redeem_at_snd in He. apply lookup_delete_Some in He as [Hne He]. by apply Hold.
  - unfold clear_tickets in He. by rewrite lookup_empty in He.
Qed.

Lemma ticket_run_spares tok e at_ mid i :
  i !! tok = Some e → since at_ (i_minted e) < TICKET_TTL →
  Forall (spares tok) mid → Forall (issued_before at_) mid →
  foldl ticket_exec i mid !! tok = Some e.
Proof.
  intros Hi Ht. revert i Hi. induction mid as [|o mid IH]; intros i Hi Hs Hb; simpl; [done|].
  inversion_clear Hs as [|? ? Ho Hs']. inversion_clear Hb as [|? ? Hb' Hbs]. apply IH; try done.
  destruct o as [now tok' u s|tok' a|]; simpl in *; [| |done].
  - unfold issue. rewrite lookup_insert_ne by done. apply map_lookup_filter_Some.
    split; [done|]. simpl. unfold since in *. lia.
  - rewrite redeem_at_snd. by rewrite lookup_delete_ne.
Qed.

(** C26. A ticket is good for exactly one connection: after any sequence of issues, redemptions and
    clears, redeeming a token yields a ticket if and only if that token was issued for that user
    and server less than the ticket lifetime ago, and nothing since has redeemed it, reissued it or
    cleared the table. *)
Theorem ticket_single_use (ops : list ticket_op) (token : string) (at_ : Z) (t : Ticket) :
  Forall (issued_before at_) ops →
  fst (redeem_at token at_ (ticket_run ops)) = Some t ↔
  ∃ pre mid now, ops = pre ++ TIssue now token (ticket_user t) (ticket_server t) :: mid ∧
    Forall (spares token) mid ∧ since at_ now < TICKET_TTL.
Proof.
  intros Hb. rewrite redeem_at_fst. split.
  - intros (e & (pre & mid & Hops & Hmid)%ticket_run_lookup & <- & Ht). eauto 10.
  - intros (pre & mid & now & -> & Hmid & Ht).
    apply Forall_app in Hb as [_ [_ Hb]%Forall_cons].
    exists (mkIssued t now). split_and!; [|done|done].
    unfold ticket_run. rewrite foldl_app. simpl. apply ticket_run_spares with at_; try done.
    unfold issue. rewrite lookup_insert. destruct t. by rewrite decide_True.
Qed.

Definition ticket_trace : list ticket_op :=
  [TIssue 0 "a" 1 2; TRedeem "b" 5; TIssue (30 * second) "c" 1 3].

Example ticket_single_use_witness :
  fst (redeem_at "a" (59 * second) (ticket_run ticket_trace)) = Some (mkTicket 1 2).
Proof.
  apply ticket_single_use.
  - repeat constructor; simpl; unfold second; lia.
  - exists [], [TRedeem "b" 5; TIssue (30 * second) "c" 1 3], 0.
    split; [done|]. split; [repeat constructor; done|]. unfold since, TICKET_TTL, second. lia.
Defined.

(** ** Throttles *)

Inductive throttle_op :=
  | Take (key : string) (at_ : Z)
  | Blocked (key : string) (at_ : Z)
  | Refund (key : string)
  | Fail_ (key : string) (at_ : Z)
  | ClearKey (key : string).

Definition throttle_exec (o : throttle_op) (th : Throttle) : option bool * Throttle :=
  match o with
  | Take k t => let '(b, th) := take_at k t th in (Some b, th)
  | Blocked k t => let '(b, th) := blocked_at k t th in (Some b, th)
  | Refund k => (None, refund k th)
  | Fail_ k t => (None, fail_at k t th)
  | ClearKey k => (None, clear_throttle k th)
  end.

(** The abstract throttle: every counted attempt of a key, oldest first, none forgotten. *)
Abbreviation history := (string → list Z).

Definition count_recent (at_ : Z) (l : list Z) : nat := length (List.filter (recent at_) l).

Definition set_key (k : string) (l : list Z) (h : history) : history :=
  fun x => if decide (x = k) then l else h x.

Definition history_exec (limit : nat) (o : throttle_op) (h : history) : option bool * history :=
  match o with
  | Take k t =>
      if bool_decide (limit = 0%nat) then (Some true, h)
      else if bool_decide (count_recent t (h k) < limit)%nat
           then (Some true, set_key k (h k ++ [t]) h)
           else (Some false, h)
  | Blocked k t => (Some (bool_decide (0 < limit ≤ count_recent t (h k))%nat), h)
  | Refund k => (None, set_key k (pop (h k)) h)
  | Fail_ k t => (None, set_key k (h k ++ [t]) h)
  | ClearKey k => (None, set_key k [] h)
  end.

(** The answers a sequence of operations gets, and what is left. *)
Fixpoint outcomes {S O A} (step : O → S → A * S) (ops : list O) (s : S) : list A * S :=
  match ops with
  | [] => ([], s)
  | o :: ops' =>
      let '(a, s') := step o s in let '(l, s'') := outcomes step ops' s' in (a :: l, s'')
  end.

Definition op_time (o : throttle_op) : option Z :=
  match o with Take _ t | Blocked _ t | Fail_ _ t => Some t | _ => None end.

(** The clock does not run backwards along the sequence. *)
Fixpoint clock_ok (now : Z) (ops : list throttle_op) : Prop :=
  match ops with
  | [] => True
  | o :: ops' =>
      match op_time o with
      | Some t => now ≤ t ∧ clock_ok t ops'
      | None => clock_ok now ops'
      end
  end.

(** *** Lists of times *)

Definition times_ok (now : Z) (l : list Z) : Prop := StronglySorted Z.le l ∧ Forall (fun x => x ≤ now) l.

(** Two lists of times no later question can tell apart. *)
Definition agree (now : Z) (l h : list Z) : Prop :=
  times_ok now l ∧ times_ok now h ∧
  ∀ t, now ≤ t → List.filter (recent t) l = List.filter (recent t) h.

Lemma recent_up t x y : x ≤ y → recent t x = true → recent t y = true.
Proof. unfold recent, since. rewrite !bool_decide_eq_true. lia. Qed.

Lemma recent_later t t' x : t ≤ t' → recent t' x = true → recent t x = true.
Proof. unfold recent, since. rewrite !bool_decide_eq_true. lia. Qed.

Lemma not_recent_later t t' x : t ≤ t' → recent t x = false → recent t' x = false.
Proof. unfold recent, since. rewrite !bool_decide_eq_false. lia. Qed.

Lemma filter_filter_sub {A} (p q : A → bool) l :
  (∀ x, p x = true → q x = true) → List.filter p (List.filter q l) = List.filter p l.
Proof.
  intros Hpq. induction l as [|x l IH]; simpl; [done|].
  destruct (q x) eqn:Hq; simpl; [by rewrite IH|].
  destruct (p x) eqn:Hp; [|done]. by rewrite (Hpq x Hp) in Hq.
Qed.

Lemma pop_snoc {A} (l : list A) x : pop (l ++ [x]) = l.
Proof. unfold pop. rewrite length_app. simpl. by rewrite Nat.add_sub, take_app_length. Qed.

Lemma sorted_snoc l x : StronglySorted Z.le (l ++ [x]) → StronglySorted Z.le l ∧ Forall (fun y => y ≤ x) l.
Proof.
  induction l as [|y l IH]; simpl; [repeat constructor|].
  inversion 1 as [|? ? Hs Hall]; subst. destruct (IH Hs) as [? ?].
  apply Forall_app in Hall as [? [Hx _]%Forall_cons]. by split; constructor.
Qed.

Lemma sorted_snoc_2 l x : StronglySorted Z.le l → Forall (fun y => y ≤ x) l → StronglySorted Z.le (l ++ [x]).
Proof.
  induction 1 as [|y l Hs IH Hall]; simpl; [repeat constructor|].
  intros [Hy Hl]%Forall_cons. constructor; [by apply IH|]. apply Forall_app. by repeat constructor.
Qed.

(** With the times in order, what is recent ends the list: when the last is not, nothing is, and
    popping pops it. *)
Lemma filter_recent_nil t l x :
  Forall (fun y => y ≤ x) l → recent t x = false → List.filter (recent t) l = [].
Proof.
  intros Hx Hr. induction Hx as [|y l Hy _ IH]; simpl; [done|].
  destruct (recent t y) eqn:Hry; [|done]. by rewrite (recent_up t y x Hy Hry) in Hr.
Qed.

Lemma filter_pop t l :
  StronglySorted Z.le l → List.filter (recent t) (pop l) = pop (List.filter (recent t) l).
Proof.
  destruct l as [|x l _] using rev_ind; [done|]. intros [_ Hx]%sorted_snoc.
  rewrite pop_snoc, List.filter_app. simpl. destruct (recent t x) eqn:Hr; [by rewrite pop_snoc|].
  by rewrite app_nil_r, (filter_recent_nil t l x).
Qed.

Lemma times_ok_mono now t l : now ≤ t → times_ok now l → times_ok t l.
Proof. intros Ht [Hs Hb]. split; [done|]. eapply Forall_impl; [done|]. simpl. lia. Qed.

Lemma times_ok_pop now l : times_ok now l → times_ok now (pop l).
Proof.
  destruct l as [|x l _] using rev_ind; [done|]. rewrite pop_snoc.
  intros [[Hs _]%sorted_snoc [Hb _]%Forall_app]. by split.
Qed.

Lemma times_ok_filter now p l : times_ok now l → times_ok now (List.filter p l).
Proof.
  intros [Hs Hb]. split.
  - clear Hb. induction Hs as [|x l _ IH Hall]; simpl; [constructor|]. destruct (p x); [|done].
    constructor; [done|]. rewrite Forall_forall in Hall |- *. intros y.
    rewrite list_elem_of_In, filter_In, <-list_elem_of_In. intros [Hy _]. by apply Hall.
  - rewrite Forall_forall in Hb |- *. intros y.
    rewrite list_elem_of_In, filter_In, <-list_elem_of_In. intros [Hy _]. by apply Hb.
Qed.

Lemma times_ok_snoc now l : times_ok now l → times_ok now (l ++ [now]).
Proof.
  intros [Hs Hb]. split; [by apply sorted_snoc_2|]. apply Forall_app. split; [done|].
  by apply Forall_singleton.
Qed.

Lemma agree_nil now : agree now [] [].
Proof. by repeat split; constructor. Qed.

Lemma agree_mono now t l h : now ≤ t → agree now l h → agree t l h.
Proof.
  intros Ht (Hl & Hh & He). split_and!; [by eapply times_ok_mono..|]. intros u Hu. apply He. lia.
Qed.

Lemma agree_filter t l h : agree t l h → agree t (List.filter (recent t) l) h.
Proof.
  intros (Hl & Hh & He). split_and!; [by apply times_ok_filter|done|]. intros u Hu.
  rewrite filter_filter_sub by (intros x; by apply recent_later). by apply He.
Qed.

Lemma agree_snoc t l h : agree t l h → agree t (l ++ [t]) (h ++ [t]).
Proof.
  intros (Hl & Hh & He). split_and!; [by apply times_ok_snoc..|]. intros u Hu.
  by rewrite !List.filter_app, He.
Qed.

Lemma agree_pop now l h : agree now l h → agree now (pop l) (pop h).
Proof.
  intros (Hl & Hh & He). split_and!; [by apply times_ok_pop..|]. intros u Hu.
  rewrite !filter_pop by apply Hl || apply Hh. by rewrite He.
Qed.

(** Dropping a key whose last attempt has aged out. *)
Lemma agree_retain t m k h :
  agree t (default [] (m !! k)) h → agree t (default [] (retain_recent t m !! k)) h.
Proof.
  unfold retain_recent. intros Ha. rewrite map_lookup_filter.
  destruct (m !! k) as [l|]; simpl in *; [|done].
  destruct (last l) as [x|] eqn:Hlast.
  2: { apply last_None in Hlast as ->. done. }
  case_guard as Hx; simpl; [done|]. destruct Ha as (Hl & Hh & He).
  split_and!; [by split; constructor|done|]. intros u Hu. rewrite <-He by done.
  apply last_Some in Hlast as [l' ->]. destruct Hl as [[_ Hall]%sorted_snoc _].
  assert (recent u x = false) as Hu'.
  { apply (not_recent_later t); [done|]. by destruct (recent t x). }
  rewrite List.filter_app, (filter_recent_nil u l' x) by done. simpl. by rewrite Hu'.
Qed.

(** *** The implementation and the history *)

Definition refines (now : Z) (limit : nat) (th : Throttle) (h : history) : Prop :=
  th_limit th = limit ∧ ∀ k, agree now (default [] (failures th !! k)) (h k).

Lemma refines_update now t limit th h k l hl m :
  now ≤ t → refines now limit th h →
  (∀ k', agree t (default [] (m !! k')) (h k')) → agree t l hl →
  refines t limit (mkThrottle (<[k := l]> m) limit) (set_key k hl h).
Proof.
  intros Ht [Hlim Hr] Hm Hl. split; [done|]. intros k'. unfold set_key. simpl.
  rewrite lookup_insert. destruct (decide (k = k')) as [<-|Hne].
  - by rewrite decide_True.
  - rewrite decide_False by congruence. apply Hm.
Qed.

Lemma refines_mono now t limit th h : now ≤ t → refines now limit th h → refines t limit th h.
Proof. intros Ht [Hlim Hr]. split; [done|]. intros k. by eapply agree_mono. Qed.

Lemma set_key_id k h x : set_key k (h k) h x = h x.
Proof. unfold set_key. by case_decide; subst. Qed.

Lemma refines_same now limit th h h' :
  (∀ k, h k = h' k) → refines now limit th h → refines now limit th h'.
Proof. intros He [Hlim Hr]. split; [done|]. intros k. by rewrite <-He. Qed.

(** One operation: the same answer, and states that still agree. *)
Lemma throttle_step now limit o th h :
  (match op_time o with Some t => now ≤ t | None => True end) →
  refines now limit th h →
  fst (throttle_exec o th) = fst (history_exec limit o h) ∧
  refines (default now (op_time o)) limit (snd (throttle_exec o th)) (snd (history_exec limit o h)).
Proof.
  intros Ht Href. pose proof Href as [Hlim Hr].
  destruct o as [k t|k t|k|k t|k]; simpl in *.
  - apply (refines_mono now t) in Href as Ht'; [|done]. destruct Ht' as [_ Hrt].
    unfold take_at. rewrite Hlim. case_bool_decide; [by split; [|eapply refines_mono]|].
    pose proof (fun k' => agree_retain t (failures th) k' _ (Hrt k')) as Hm.
    pose proof (agree_filter _ _ _ (Hm k)) as Hf.
    assert (length (List.filter (recent t) (default [] (retain_recent t (failures th) !! k)))
            = count_recent t (h k)) as Hc.
    { destruct (Hm k) as (_ & _ & He). unfold count_recent. by rewrite He. }
    rewrite Hc. do 2 case_bool_decide; try lia; simpl.
    + split; [done|]. apply refines_same with (set_key k (h k) h); [apply set_key_id|].
      by eapply refines_update.
    + split; [done|]. eapply refines_update; [done..|]. by apply agree_snoc.
  - pose proof (agree_mono now t _ _ Ht (Hr k)) as Hk. unfold blocked_at.
    assert (length (List.filter (recent t) (default [] (failures th !! k))) = count_recent t (h k)) as Hc.
    { destruct Hk as (_ & _ & He). unfold count_recent. by rewrite He. }
    destruct (failures th !! k) as [l|] eqn:Hl; simpl in *.
    + rewrite Hc, Hlim. split; [f_equal; do 3 case_bool_decide; simpl; try done; lia|].
      apply refines_same with (set_key k (h k) h); [apply set_key_id|].
      eapply refines_update; [done..| |by apply agree_filter]. intros k'. by eapply agree_mono.
    + split; [|by eapply refines_mono]. f_equal. case_bool_decide; [lia|done].
  - split; [done|]. pose proof (agree_pop _ _ _ (Hr k)) as Hp. unfold refund.
    destruct (failures th !! k) as [l|] eqn:Hl; simpl in *.
    + split; [done|]. intros k'. simpl. unfold set_key. destruct (decide (k' = k)) as [->|Hne].
      * case_decide as Hnil; [rewrite lookup_delete|rewrite lookup_insert];
          rewrite decide_True by done; simpl; [by rewrite <-Hnil|done].
      * case_decide; [rewrite lookup_delete_ne by done|rewrite lookup_insert_ne by done]; apply Hr.
    + split; [done|]. intros k'. unfold set_key. case_decide; [|apply Hr]. subst. by rewrite Hl.
  - split; [done|]. unfold fail_at. rewrite Hlim. apply (refines_mono now t) in Href as [_ Hrt]; [|done].
    pose proof (fun k' => agree_retain t (failures th) k' _ (Hrt k')) as Hm.
    eapply refines_update; [done|by split|done|]. by apply agree_snoc.
  - split; [done|]. split; [done|]. intros k'. unfold clear_throttle, set_key. simpl.
    destruct (decide (k' = k)) as [->|Hne].
    + rewrite lookup_delete, decide_True by done. apply agree_nil.
    + rewrite lookup_delete_ne by done. apply Hr.
Qed.

Lemma throttle_outcomes now limit ops th h :
  clock_ok now ops → refines now limit th h →
  fst (outcomes throttle_exec ops th) = fst (outcomes (history_exec limit) ops h).
Proof.
  revert now th h. induction ops as [|o ops IH]; intros now th h Hc Hr; simpl; [done|].
  assert (match op_time o with Some t => now ≤ t | None => True end ∧
          clock_ok (default now (op_time o)) ops) as [Ht Hc'] by (simpl in Hc; by destruct (op_time o)).
  destruct (throttle_step now limit o th h Ht Hr) as [Ha Hr'].
  destruct (throttle_exec o th) as [a th'], (history_exec limit o h) as [a' h']. simpl in *. subst a'.
  specialize (IH _ _ _ Hc' Hr').
  destruct (outcomes throttle_exec ops th'), (outcomes (history_exec limit) ops h'). simpl in *.
  by subst.
Qed.

Lemma refines_new now limit : refines now limit (throttle_new limit) (fun _ => []).
Proof. split; [done|]. intros k. unfold throttle_new. simpl. rewrite lookup_empty. apply agree_nil. Qed.

(** C34. Forgetting changes nothing: as long as the clock does not run backwards, a throttle, which
    drops attempts that have aged out and keys with none left, gives every caller the answer a
    throttle that kept the whole history would give, whatever attempts, failures, refunds and
    clears came before, for every key and limit. *)
Theorem throttle_refines_history (start : Z) (limit : nat) (ops : list throttle_op) :
  clock_ok start ops →
  fst (outcomes throttle_exec ops (throttle_new limit)) =
  fst (outcomes (history_exec limit) ops (fun _ => [])).
Proof. intros Hc. by eapply throttle_outcomes, refines_new. Qed.

Definition throttle_trace : list throttle_op :=
  [Fail_ "ann" 0; Take "ann" second; Take "bob" (2 * second); Take "ann" (3 * second);
   Refund "ann"; Take "ann" (4 * second); Blocked "ann" THROTTLE_WINDOW; Take "ann" (THROTTLE_WINDOW + 4)].

Example throttle_refines_history_witness :
  fst (outcomes throttle_exec throttle_trace (throttle_new 2)) =
  [None; Some true; Some true; Some false; None; Some true; Some false; Some true].
Proof.
  rewrite (throttle_refines_history 0).
  - vm_compute. reflexivity.
  - vm_compute. repeat split; congruence.
Defined.

(** The times at which [Take] of this key was let through. *)
Fixpoint admitted (key : string) (ops : list throttle_op) (answers : list (option bool)) : list Z :=
  match ops, answers with
  | Take k t :: ops', Some true :: answers' =>
      if decide (k = key) then t :: admitted key ops' answers' else admitted key ops' answers'
  | _ :: ops', _ :: answers' => admitted key ops' answers'
  | _, _ => []
  end.

Definition in_window (w t : Z) : bool := bool_decide (w ≤ t < w + THROTTLE_WINDOW).

(** Nothing gives attempts of this key back. *)
Definition no_refund (key : string) (o : throttle_op) : Prop :=
  match o with Refund k | ClearKey k => k ≠ key | _ => True end.

Lemma sublist_filter_length {A} (p : A → bool) (l k : list A) :
  l `sublist_of` k → (length (List.filter p l) ≤ length (List.filter p k))%nat.
Proof. induction 1 as [|x l k _ IH|x l k _ IH]; simpl; [done| |]; destruct (p x); simpl; lia. Qed.

Lemma filter_length_le {A} (p q : A → bool) (l : list A) :
  Forall (fun x => p x = true → q x = true) l →
  (length (List.filter p l) ≤ length (List.filter q l))%nat.
Proof.
  induction 1 as [|x l Hx _ IH]; simpl; [done|].
  destruct (p x); simpl; [rewrite Hx by done; simpl; lia|destruct (q x); simpl; lia].
Qed.

(** Admitting one more attempt keeps every window within the limit. *)
Lemma window_snoc limit t adm w :
  Forall (fun x => x ≤ t) adm → (count_recent t adm < limit)%nat →
  (∀ w, (length (List.filter (in_window w) adm) ≤ limit)%nat) →
  (length (List.filter (in_window w) (adm ++ [t])) ≤ limit)%nat.
Proof.
  intros Hle Hc Hw. rewrite List.filter_app, length_app. simpl.
  destruct (in_window w t) eqn:Ht; simpl; [|specialize (Hw w); lia].
  unfold count_recent in Hc.
  assert (length (List.filter (in_window w) adm) ≤ length (List.filter (recent t) adm))%nat; [|lia].
  apply filter_length_le. eapply Forall_impl; [done|]. intros x Hx. simpl.
  unfold in_window, recent, since in *. rewrite !bool_decide_eq_true in *. lia.
Qed.

Lemma history_budget key limit ops now h adm w :
  (0 < limit)%nat → clock_ok now ops → Forall (no_refund key) ops →
  Forall (fun x => x ≤ now) adm → adm `sublist_of` h key →
  (∀ w, (length (List.filter (in_window w) adm) ≤ limit)%nat) →
  (length (List.filter (in_window w)
    (adm ++ admitted key ops (fst (outcomes (history_exec limit) ops h)))) ≤ limit)%nat.
Proof.
  intros Hlim. revert now h adm. induction ops as [|o ops IH]; intros now h adm Hc Hn Hle Hsub Hw.
  { simpl. by rewrite app_nil_r. }
  apply Forall_cons in Hn as [Ho Hn].
  assert (∀ t, now ≤ t → Forall (fun x => x ≤ t) adm) as Hle'.
  { intros t Ht. eapply Forall_impl; [done|]. simpl. lia. }
  assert (∀ h' a, adm `sublist_of` h' key → clock_ok (default now (op_time o)) ops →
    now ≤ default now (op_time o) → history_exec limit o h = (a, h') →
    admitted key (o :: ops) (a :: fst (outcomes (history_exec limit) ops h')) =
      admitted key ops (fst (outcomes (history_exec limit) ops h')) →
    (length (List.filter (in_window w)
      (adm ++ admitted key (o :: ops) (fst (outcomes (history_exec limit) (o :: ops) h)))) ≤ limit)%nat)
    as Hskip.
  { intros h' a Hs Hc' Ht He Ha. simpl outcomes. rewrite He.
    specialize (IH _ h' adm Hc' Hn (Hle' _ Ht) Hs Hw).
    destruct (outcomes (history_exec limit) ops h') as [l h'']. simpl fst in *. by rewrite Ha. }
  assert (∀ k l, k ≠ key → adm `sublist_of` set_key k l h key) as Hother.
  { intros k l Hk. unfold set_key. by rewrite decide_False. }
  destruct o as [k t|k t|k|k t|k]; simpl in Hc, Ho.
  - destruct Hc as [Ht Hc]. simpl history_exec in Hskip. rewrite bool_decide_false in Hskip by lia.
    destruct (bool_decide (count_recent t (h k) < limit)%nat) eqn:Hb.
    2: { by eapply Hskip. }
    destruct (decide (k = key)) as [->|Hk].
    2: { eapply Hskip; [|done..|]; [by apply Hother|]. simpl. by rewrite decide_False. }
    simpl. rewrite bool_decide_false by lia. rewrite Hb.
    apply bool_decide_eq_true in Hb.
    assert (adm ++ [t] `sublist_of` set_key key (h key ++ [t]) h key) as Hs'.
    { unfold set_key. rewrite decide_True by done. by apply sublist_app. }
    assert (count_recent t adm ≤ count_recent t (h key))%nat by by apply sublist_filter_length.
    assert (∀ w, (length (List.filter (in_window w) (adm ++ [t])) ≤ limit)%nat) as Hw'.
    { intros w'. apply window_snoc; [by apply Hle'|lia|done]. }
    assert (Forall (fun x => x ≤ t) (adm ++ [t])) as Hle''.
    { apply Forall_app. split; [by apply Hle'|]. by apply Forall_singleton. }
    specialize (IH t _ _ Hc Hn Hle'' Hs' Hw').
    destruct (outcomes (history_exec limit) ops _) as [l h'']. simpl in *.
    rewrite decide_True by done. by rewrite <-app_assoc in IH.
  - destruct Hc as [Ht Hc]. by eapply Hskip.
  - eapply Hskip; [|done|simpl; lia|done..]. by apply Hother.
  - destruct Hc as [Ht Hc]. eapply Hskip; [|done..]. unfold set_key. case_decide; subst; [|done].
    by apply sublist_inserts_r.
  - eapply Hskip; [|done|simpl; lia|done..]. by apply Hother.
Qed.

(** The budget holds: with a limit set and no refund or clear of the key, no stretch of five
    minutes, wherever it begins, contains more admitted attempts for the key than the limit,
    whatever else is done with this and other keys in between. *)
Theorem throttle_budget (key : string) (limit : nat) (start : Z) (ops : list throttle_op) (w : Z) :
  (0 < limit)%nat → clock_ok start ops → Forall (no_refund key) ops →
  (length (List.filter (in_window w)
     (admitted key ops (fst (outcomes throttle_exec ops (throttle_new limit))))) ≤ limit)%nat.
Proof.
  intros Hlim Hc Hn. rewrite (throttle_outcomes _ _ _ _ _ Hc (refines_new start limit)).
  apply (history_budget key limit ops start (fun _ => []) []); try done; simpl; lia.
Qed.

Example throttle_budget_witness :
  (length (List.filter (in_window 0) (admitted "ann"
     [Take "ann" 1; Take "ann" 2; Take "bob" 2; Fail_ "ann" 3; Take "ann" 4]
     (fst (outcomes throttle_exec
       [Take "ann" 1; Take "ann" 2; Take "bob" 2; Fail_ "ann" 3; Take "ann" 4] (throttle_new 2)))))
   ≤ 2)%nat.
Proof.
  apply (throttle_budget "ann" 2 0).
  - lia.
  - vm_compute. repeat split; congruence.
  - by repeat constructor.
Defined.
