(* ===== verification/Vault.v ===== *)
(** * Encryption of saved credentials (src/src/vault.rs)

    One master key seals every saved password. The database keeps it twice, wrapped for this host
    and, once an administrator has set one, under a recovery passphrase. AES-256-GCM and Argon2id
    come from the [ring] and [argon2] crates and are the class [Crypto]; what wraps a key for a host
    is the class [KeyProtector], of which the key file is an instance. Random bytes are arguments,
    [None] where the operating system's source failed. *)

From S2P Require Import Prelude Tables Text Utf8 Store Auth.
Local Open Scope Z_scope.

Definition KEY_LEN : nat := 32.
Definition SALT_LEN : nat := 16.
Definition NONCE_LEN : nat := 12.
Definition FORMAT : byte := x01.
Definition MIN_PASSPHRASE : nat := 12.
Definition META_LOCAL : string := "master_local".
Definition META_RECOVERY : string := "master_recovery".
Definition AAD_LOCAL : bytes := String.list_byte_of_string "web-access local wrap v1".
Definition AAD_RECOVERY : bytes := String.list_byte_of_string "web-access recovery wrap v1".

Inductive VaultError :=
  | Locked
  | WrongPassphrase
  | NoRecovery
  | Weak
  | Crypto_
  | Protect (why : string)
  | VStore (e : StoreError)
  | Io (why : string).

(** ** What the crates provide *)

Class Crypto := {
  (** [seal_in_place_append_tag]: fails on a text too long for the cipher *)
  aead_seal : bytes → bytes → bytes → bytes → option bytes;
  (** [open_in_place]: fails unless the tag is that of this key, nonce, associated data and text *)
  aead_open : bytes → bytes → bytes → bytes → option bytes;
  aead_open_seal : ∀ key nonce aad plain sealed,
    aead_seal key nonce aad plain = Some sealed → aead_open key nonce aad sealed = Some plain;
  (** [hash_password_into] a key: fails on a salt it does not accept *)
  argon2 : bytes → bytes → result string bytes;
  argon2_length : ∀ pass salt key, argon2 pass salt = Ok key → length key = KEY_LEN;
}.

(** ** Sealing *)

(** [SystemRandom::fill] of an array of [n] bytes, begun as zeros. *)
Definition fill (n : nat) (random : option bytes) : result VaultError bytes :=
  match random with
  | Some b => Ok (resize n x00 b)
  | None => Err (Protect "the OS random source failed")
  end.

(** [UnboundKey::new]: a key has the cipher's length. *)
Definition unbound (key : bytes) : result VaultError bytes :=
  if decide (length key = KEY_LEN) then Ok key else Err Crypto_.

Definition random_key (random : option bytes) : result VaultError bytes := fill KEY_LEN random.

(** [to_key]: the first bytes, of a slice long enough. *)
Definition to_key (b : bytes) : bytes := take KEY_LEN b.

Section vault.
Context {C : Crypto}.

(** [nonce || ciphertext+tag] with a fresh nonce. *)
Definition seal_blob (key aad plain : bytes) (random : option bytes) : result VaultError bytes :=
  sealing ← unbound key;
  nonce ← fill NONCE_LEN random;
  sealed ← ok_or Crypto_ (aead_seal sealing nonce aad plain);
  mret (nonce ++ sealed).

Definition open_blob (key aad blob : bytes) : result VaultError bytes :=
  if decide (length blob < NONCE_LEN)%nat then Err Crypto_
  else
    let nonce := take NONCE_LEN blob in
    let ct := drop NONCE_LEN blob in
    opening ← unbound key;
    ok_or Crypto_ (aead_open opening nonce aad ct).

Definition derive (passphrase : string) (salt : bytes) : result VaultError bytes :=
  match argon2 (String.list_byte_of_string passphrase) salt with
  | Ok key => Ok key
  | Err e => Err (Protect e)
  end.

(** [FORMAT || salt || nonce || ciphertext], keyed by the passphrase. *)
Definition encrypt_with_passphrase (passphrase : string) (aad data : bytes)
    (random_salt random_nonce : option bytes) : result VaultError bytes :=
  salt ← fill SALT_LEN random_salt;
  kek ← derive passphrase salt;
  sealed ← seal_blob kek aad data random_nonce;
  mret (FORMAT :: salt ++ sealed).

Definition decrypt_with_passphrase (passphrase : string) (aad blob : bytes) : result VaultError bytes :=
  if decide (length blob < 1 + SALT_LEN + NONCE_LEN)%nat then Err Crypto_
  else if decide (head blob = Some FORMAT) then
    let salt := take SALT_LEN (drop 1 blob) in
    kek ← derive passphrase salt;
    match open_blob kek aad (drop (1 + SALT_LEN) blob) with
    | Ok plain => Ok plain
    | Err _ => Err WrongPassphrase
    end
  else Err Crypto_.

Definition wrap_recovery (key : bytes) (passphrase : string) (r1 r2 : option bytes) :
    result VaultError bytes :=
  encrypt_with_passphrase passphrase AAD_RECOVERY key r1 r2.

Definition unwrap_recovery (blob : bytes) (passphrase : string) : result VaultError bytes :=
  key ← decrypt_with_passphrase passphrase AAD_RECOVERY blob;
  if decide (length key = KEY_LEN) then Ok (to_key key) else Err Crypto_.

(** ** Passwords of local accounts *)

Definition hex (b : bytes) : string := of_chars (b ≫= hex_byte).

(** [u8::from_str_radix(_, 16)] of two bytes of text: two digits, or a plus sign and one. *)
Definition hex_pair (a b : ascii) : option byte :=
  if decide (a = "+"%char) then to_u8 <$> hex_value b
  else x ← hex_value a; y ← hex_value b; Some (to_u8 (16 * x + y)).

Fixpoint unhex_chars (l : chars) : option bytes :=
  match l with
  | [] => Some []
  | [_] => None
  | a :: b :: l' => x ← hex_pair a b; r ← unhex_chars l'; Some (x :: r)
  end.

Definition unhex (s : string) : option bytes := unhex_chars (to_chars s).

Definition hash_password (password : string) (random : option bytes) : result VaultError string :=
  salt ← fill SALT_LEN random;
  hash ← derive password salt;
  mret ("argon2id$" +:+ hex salt +:+ "$" +:+ hex hash).

(** The loop that looks at every byte whatever it finds. *)
Definition difference (got want : bytes) : Z :=
  foldl (fun acc ab => Z.lor acc (Z.lxor (u8 ab.1) (u8 ab.2))) 0 (zip got want).

Definition verify_password (password stored : string) : bool :=
  match split_on "$"%char (to_chars stored) with
  | [scheme; salt; want] =>
      if decide (of_chars scheme = "argon2id"%string) then
        match unhex_chars salt, unhex_chars want with
        | Some salt, Some want =>
            match derive password salt with
            | Ok got => bool_decide (length got = length want) && bool_decide (difference got want = 0)
            | Err _ => false
            end
        | _, _ => false
        end
      else false
  | _ => false
  end.

Definition check_strength (passphrase : string) : result VaultError unit :=
  if decide (char_count passphrase < MIN_PASSPHRASE)%nat then Err Weak else Ok ().

(** ** Associated data *)

Definition nul : string := String "000"%char EmptyString.

(** Binds a saved credential to one user and one server. *)
Definition credential_aad (sid : string) (server : Z) : bytes :=
  String.list_byte_of_string ("credential" +:+ nul +:+ sid +:+ nul +:+ pretty server).

(** ** Wrapping for this host *)

Class KeyProtector := {
  protect : bytes → option bytes → result VaultError bytes;
  unprotect : bytes → result VaultError bytes;
  unprotect_protect : ∀ data random blob, protect data random = Ok blob → unprotect blob = Ok data;
}.

(** What reading the key file gave. *)
Inductive file_read := FileBytes (b : bytes) | FileMissing | FileError (why : string).

(** [KeyFile::load_or_create]: the key, and what is written where there was no file; [write] is the
    error of writing it, if any. *)
Definition load_or_create (path : string) (read : file_read) (random : option bytes)
    (write : option string) : result VaultError bytes * option bytes :=
  match read with
  | FileBytes b =>
      if decide (length b = KEY_LEN) then (Ok b, None)
      else (Err (Protect (path +:+ " is not a " +:+ pretty (Z.of_nat KEY_LEN) +:+ "-byte key")), None)
  | FileMissing =>
      match random_key random with
      | Err e => (Err e, None)
      | Ok key => match write with
                  | Some why => (Err (Io why), None)
                  | None => (Ok key, Some key)
                  end
      end
  | FileError why => (Err (Io why), None)
  end.

Definition keyfile_protect (key data : bytes) (random : option bytes) : result VaultError bytes :=
  seal_blob key AAD_LOCAL data random.

Definition keyfile_unprotect (key blob : bytes) : result VaultError bytes := open_blob key AAD_LOCAL blob.
End vault.

(** ** The vault *)

Record Vault := mkVault { master : option bytes }.

(** What a vault operation acts on: the database and the key in memory. *)
Abbreviation V := (M (Db * Vault) VaultError).

Definition st {A} (m : store A) : V A := fun s =>
  let '(r, db) := m s.1 in
  (match r with Ok a => Ok a | Err e => Err (VStore e) end, (db, s.2)).

Section operations.
Context {C : Crypto} {K : KeyProtector}.

Definition install (key : bytes) : V unit := modify (fun s => (s.1, mkVault (Some key))).

(** [Vault::key]. *)
Definition vault_key (v : Vault) : result VaultError bytes := ok_or Locked (master v).
Definition is_unlocked (v : Vault) : bool := is_ok (vault_key v).

Definition key_ : V bytes := s ← get; lift (vault_key s.2).

Definition recovery_set : store bool := b ← meta_get META_RECOVERY; mret (bool_decide (is_Some b)).

(** [Vault::load] into a vault that holds nothing: this host's wrap, if it opens; a new key in a
    database that has none; otherwise it stays locked. *)
Definition load (r_key r_wrap : option bytes) : V unit :=
  _ ← modify (fun s => (s.1, mkVault None));
  local ← st (meta_get META_LOCAL);
  match local with
  | Some blob =>
      match unprotect blob with
      | Ok key => if decide (length key = KEY_LEN) then install (to_key key) else mret ()
      | Err _ => mret ()
      end
  | None =>
      recovery ← st (meta_get META_RECOVERY);
      match recovery with
      | Some _ => mret ()
      | None =>
          key ← lift (random_key r_key);
          blob ← lift (protect key r_wrap);
          _ ← st (meta_set META_LOCAL blob);
          install key
      end
  end.

(** [Vault::seal] and [Vault::open] of a credential, [seal_value] and [open_value] of a value kept in
    one piece. *)
Definition seal (v : Vault) (aad plain : bytes) (random : option bytes) : result VaultError (bytes * bytes) :=
  key ← vault_key v;
  blob ← seal_blob key aad plain random;
  mret (take NONCE_LEN blob, drop NONCE_LEN blob).

Definition open (v : Vault) (aad nonce ciphertext : bytes) : result VaultError bytes :=
  key ← vault_key v;
  open_blob key aad (nonce ++ ciphertext).

Definition seal_value (v : Vault) (aad plain : bytes) (random : option bytes) : result VaultError bytes :=
  key ← vault_key v;
  seal_blob key aad plain random.

Definition open_value (v : Vault) (aad blob : bytes) : result VaultError bytes :=
  key ← vault_key v;
  open_blob key aad blob.

Definition set_recovery (current : option string) (new : string) (r1 r2 : option bytes) : V unit :=
  key ← key_;
  _ ← lift (check_strength new);
  stored ← st (meta_get META_RECOVERY);
  _ ← match stored with
      | Some blob =>
          current ← lift (ok_or WrongPassphrase current);
          opened ← lift (unwrap_recovery blob current);
          if decide (opened = key) then mret () else throw WrongPassphrase
      | None => mret ()
      end;
  wrapped ← lift (wrap_recovery key new r1 r2);
  st (meta_set META_RECOVERY wrapped).

Definition replace_recovery (new : string) (r1 r2 : option bytes) : V unit :=
  key ← key_;
  _ ← lift (check_strength new);
  wrapped ← lift (wrap_recovery key new r1 r2);
  st (meta_set META_RECOVERY wrapped).

(** [Vault::reset]: how many saved credentials went. *)
Definition vault_reset (also_forget : list string) (r_key r_wrap : option bytes) : V Z :=
  key ← lift (random_key r_key);
  wrapped ← lift (protect key r_wrap);
  removed ← st (replace_secrets (META_RECOVERY :: also_forget) (META_LOCAL, wrapped));
  _ ← install key;
  mret removed.

Definition verify_recovery (passphrase : string) : V bytes :=
  stored ← st (meta_get META_RECOVERY);
  blob ← lift (ok_or NoRecovery stored);
  lift (unwrap_recovery blob passphrase).

Definition adopt (passphrase : string) (random : option bytes) : V bytes :=
  key ← verify_recovery passphrase;
  wrapped ← lift (protect key random);
  _ ← st (meta_set META_LOCAL wrapped);
  mret key.

(** An administrator unlocking the store: [adopt] on the database in place, then [install]. *)
Definition unlock (passphrase : string) (random : option bytes) : V unit :=
  key ← adopt passphrase random; install key.
End operations.
