(* ===== verification/VaultFacts.v ===== *)
(** * What the vault promises

    Sealing and opening are inverse through every layer of framing; a local password verifies
    exactly when it derives the stored hash; and the master key is never lost: whatever sequence of
    operations was carried out, a restart on this host finds the key in use, and so does another
    host given the recovery passphrase last set. *)

From S2P Require Import Prelude Tables Text Utf8 Store Auth Vault.
Local Open Scope Z_scope.

(** ** Framing of sealed data *)

Lemma fill_length n r b : fill n r = Ok b → length b = n.
Proof. destruct r as [r|]; [|done]. intros [= <-]. apply length_resize. Qed.

Lemma unbound_Ok key k : unbound key = Ok k ↔ k = key ∧ length key = KEY_LEN.
Proof. unfold unbound. case_decide; naive_solver. Qed.

Section sealing.
Context {C : Crypto}.

Lemma open_seal_blob key aad plain r blob :
  seal_blob key aad plain r = Ok blob → open_blob key aad blob = Ok plain.
Proof.
  unfold seal_blob, open_blob. unfold mbind, result_bind.
  destruct (unbound key) as [k|] eqn:Hk; [|done]. apply unbound_Ok in Hk as [-> Hk].
  destruct (fill NONCE_LEN r) as [nonce|] eqn:Hn; [|done]. apply fill_length in Hn.
  destruct (aead_seal key nonce aad plain) as [sealed|] eqn:Hs; [|done]. simpl. intros [= <-].
  rewrite decide_False by (rewrite length_app; lia).
  rewrite take_app_length', drop_app_length' by done.
  by rewrite (aead_open_seal _ _ _ _ _ Hs).
Qed.

Lemma seal_blob_length key aad plain r blob :
  seal_blob key aad plain r = Ok blob → (NONCE_LEN ≤ length blob)%nat.
Proof.
  unfold seal_blob, mbind, result_bind. destruct (unbound key); [|done].
  destruct (fill NONCE_LEN r) as [nonce|] eqn:Hn; [|done]. apply fill_length in Hn.
  destruct (aead_seal _ _ _ _); [|done]. intros [= <-]. rewrite length_app. lia.
Qed.

Lemma decrypt_encrypt pass aad data r1 r2 blob :
  encrypt_with_passphrase pass aad data r1 r2 = Ok blob →
  decrypt_with_passphrase pass aad blob = Ok data.
Proof.
  unfold encrypt_with_passphrase, mbind, result_bind.
  destruct (fill SALT_LEN r1) as [salt|] eqn:Hn; [|done]. apply fill_length in Hn.
  destruct (derive pass salt) as [kek|] eqn:Hd; [|done].
  destruct (seal_blob kek aad data r2) as [sealed|] eqn:Hs; [|done]. intros [= <-].
  pose proof (seal_blob_length _ _ _ _ _ Hs). unfold decrypt_with_passphrase.
  rewrite decide_False by (unfold SALT_LEN, NONCE_LEN in *; simpl; rewrite length_app; lia).
  rewrite decide_True by done.
  change (drop 1 (FORMAT :: salt ++ sealed)) with (salt ++ sealed).
  rewrite take_app_length' by done. unfold mbind, result_bind. rewrite Hd.
  change (drop (1 + SALT_LEN) (FORMAT :: salt ++ sealed)) with (drop SALT_LEN (salt ++ sealed)).
  rewrite drop_app_length' by done. by rewrite (open_seal_blob _ _ _ _ _ Hs).
Qed.

Lemma unwrap_wrap_recovery key pass r1 r2 blob :
  length key = KEY_LEN → wrap_recovery key pass r1 r2 = Ok blob → unwrap_recovery blob pass = Ok key.
Proof.
  intros Hk Hw%decrypt_encrypt. unfold unwrap_recovery, mbind, result_bind. rewrite Hw.
  rewrite decide_True by done. unfold to_key. by rewrite take_ge by lia.
Qed.

Lemma unwrap_recovery_length blob pass key : unwrap_recovery blob pass = Ok key → length key = KEY_LEN.
Proof.
  unfold unwrap_recovery, mbind, result_bind. destruct (decrypt_with_passphrase _ _ _) as [k|]; [|done].
  case_decide as Hk; [|done]. intros [= <-]. unfold to_key. rewrite length_take. lia.
Qed.

(** The key file keeps the promise of a protector. *)
Lemma keyfile_round_trip key data r blob :
  keyfile_protect key data r = Ok blob → keyfile_unprotect key blob = Ok data.
Proof. apply open_seal_blob. Qed.

Definition keyfile (key : bytes) : KeyProtector := {|
  protect := keyfile_protect key;
  unprotect := keyfile_unprotect key;
  unprotect_protect := keyfile_round_trip key;
|}.

(** ** Local passwords *)

Lemma unhex_hex b : unhex (hex b) = Some b.
Proof.
  unfold unhex, hex. rewrite to_of_chars. induction b as [|x b IH]; [done|].
  assert (∃ p q, hex_byte x = [p; q] ∧ hex_pair p q = Some x) as (p & q & Hx & Hp).
  { eexists _, _. split; [done|]. by destruct x. }
  change ((x :: b) ≫= hex_byte) with (hex_byte x ++ (b ≫= hex_byte)). rewrite Hx.
  cbn [app unhex_chars]. rewrite Hp, IH. done.
Qed.

Lemma hex_no_dollar b : "$"%char ∉ to_chars (hex b).
Proof.
  unfold hex. rewrite to_of_chars. rewrite list_elem_of_bind. intros (x & Hx & _).
  assert (bool_decide ("$"%char ∈ hex_byte x) = false) as Hno%bool_decide_eq_false by by destruct x.
  done.
Qed.

Lemma difference_acc l acc :
  foldl (fun acc ab => Z.lor acc (Z.lxor (u8 ab.1) (u8 ab.2))) acc l = 0 ↔
  acc = 0 ∧ Forall (fun ab => ab.1 = ab.2) l.
Proof.
  revert acc. induction l as [|[a b] l IH]; intros acc; simpl; [naive_solver|].
  rewrite IH, Z.lor_eq_0_iff, Forall_cons. simpl. split.
  - intros [[Ha Hx] Hl]. split_and!; [done| |done]. by apply u8_inj, Z.lxor_eq.
  - intros (Ha & -> & Hl). by rewrite Z.lxor_nilpotent.
Qed.

(** Looking at every byte decides equality. *)
Lemma difference_eq got want : length got = length want → difference got want = 0 ↔ got = want.
Proof.
  intros Hlen. unfold difference. rewrite difference_acc. split; [|intros ->].
  - intros [_ Hl]. revert want Hlen Hl. induction got as [|a got IH]; intros [|b want]; try done.
    intros [= Hlen] [Hab Hl]%Forall_cons. simpl in *. subst. f_equal. by apply IH.
  - split; [done|]. clear Hlen. induction want; simpl; by constructor.
Qed.

(** A stored local password verifies exactly the passwords that derive the stored hash under the
    stored salt, the one it was made from among them; the comparison that looks at every byte
    whatever it finds decides equality, and hex encoding the salt and the hash loses nothing. *)
Theorem local_password_exact (password : string) (r : option bytes) (stored : string) :
  hash_password password r = Ok stored →
  ∃ salt hash, derive password salt = Ok hash ∧
    ∀ q, verify_password q stored = true ↔ derive q salt = Ok hash.
Proof.
  unfold hash_password, mbind, result_bind. destruct (fill SALT_LEN r) as [salt|]; [|done].
  destruct (derive password salt) as [hash|] eqn:Hd; [|done]. intros [= <-].
  exists salt, hash. split; [done|]. intros q. unfold verify_password.
  assert (to_chars ("argon2id$" +:+ hex salt +:+ "$" +:+ hex hash) =
    to_chars "argon2id" ++ "$"%char :: to_chars (hex salt) ++ "$"%char :: to_chars (hex hash)) as ->
    by by rewrite !to_chars_app.
  rewrite split_on_app by by apply (bool_decide_unpack _).
  rewrite split_on_app by apply hex_no_dollar.
  rewrite split_on_none by apply hex_no_dollar. rewrite decide_True by done.
  change (unhex_chars (to_chars ?h)) with (unhex h). rewrite !unhex_hex.
  destruct (derive q salt) as [got|] eqn:Hq; [|naive_solver].
  assert (length got = length hash) as Hl.
  { revert Hq Hd. unfold derive. destruct (argon2 _ _) as [k1|] eqn:E1; [|done]. intros [= <-].
    destruct (argon2 (String.list_byte_of_string password) salt) as [k2|] eqn:E2; [|done]. intros [= <-].
    by rewrite (argon2_length _ _ _ E1), (argon2_length _ _ _ E2). }
  rewrite bool_decide_eq_true_2 by done. simpl. rewrite bool_decide_eq_true, difference_eq by done.
  naive_solver.
Qed.
End sealing.

(** ** Associated data *)

(** A credential's associated data names its user and its server, and no other pair. *)
Lemma credential_aad_inj sid1 sid2 server1 server2 :
  credential_aad sid1 server1 = credential_aad sid2 server2 → sid1 = sid2 ∧ server1 = server2.
Proof.
  unfold credential_aad. intros E.
  assert (∀ s, to_chars s = ascii_of_byte <$> String.list_byte_of_string s) as Hb.
  { intros s. unfold to_chars, String.list_byte_of_string. rewrite <-list_fmap_compose.
    rewrite <-(list_fmap_id (String.list_ascii_of_string s)) at 1. apply list_fmap_ext.
    intros i c _. simpl. by rewrite ascii_of_byte_of_ascii. }
  apply (f_equal (fmap ascii_of_byte)) in E. rewrite <-!Hb, !to_chars_app in E.
  change (to_chars nul) with ["000"%char] in E. cbn [app] in E.
  apply (inj (app (to_chars "credential"))) in E. injection E as E.
  assert (∀ z : Z, "000"%char ∉ to_chars (pretty z)) as Hno.
  { intros z. apply pretty_no_char. intros [[d Hd]|Hd]; [vm_compute in Hd|]; discriminate. }
  apply app_last_eq in E as [Es Ez]; [|done..]. split; [by apply to_chars_inj|].
  apply (inj pretty). by apply to_chars_inj.
Qed.

(** ** The key is never lost *)

(** What happens to a vault: restarts, the administrator's operations, and everything else that
    changes the database. *)
Inductive vault_op :=
  | OpLoad (r_key r_wrap : option bytes)
  | OpSetRecovery (current : option string) (new : string) (r1 r2 : option bytes)
  | OpReplaceRecovery (new : string) (r1 r2 : option bytes)
  | OpReset (also : list string) (r_key r_wrap : option bytes)
  | OpUnlock (passphrase : string) (random : option bytes)
  | OpOther (f : Db → Db).

(** Other changes leave the two wrapped keys alone. *)
Definition leaves_keys (op : vault_op) : Prop :=
  match op with
  | OpOther f => ∀ db, t_meta (f db) !! META_LOCAL = t_meta db !! META_LOCAL ∧
                       t_meta (f db) !! META_RECOVERY = t_meta db !! META_RECOVERY
  | _ => True
  end.

Section recoverable.
Context {C : Crypto} {K : KeyProtector}.
Implicit Types (db : Db) (p : option string) (k : bytes).

(** The state, and the recovery passphrase last accepted. *)
Definition vault_exec (sp : Db * Vault * option string) (op : vault_op) : Db * Vault * option string :=
  let '(s, p) := sp in
  match op with
  | OpLoad r1 r2 => (snd (load r1 r2 s), p)
  | OpSetRecovery c n r1 r2 =>
      let '(r, s') := set_recovery c n r1 r2 s in (s', if is_ok r then Some n else p)
  | OpReplaceRecovery n r1 r2 =>
      let '(r, s') := replace_recovery n r1 r2 s in (s', if is_ok r then Some n else p)
  | OpReset also r1 r2 =>
      let '(r, s') := vault_reset also r1 r2 s in (s', if is_ok r then None else p)
  | OpUnlock pass r =>
      let '(o, s') := unlock pass r s in (s', if is_ok o then Some pass else p)
  | OpOther f => ((f s.1, s.2), p)
  end.

Definition vault_run (ops : list vault_op) (db : Db) : Db * Vault * option string :=
  foldl vault_exec (db, mkVault None, None) ops.

(** Both wraps hold the key. *)
Definition wrapped k p db : Prop :=
  length k = KEY_LEN ∧
  (∃ b, t_meta db !! META_LOCAL = Some b ∧ unprotect b = Ok k) ∧
  match p with
  | Some pass => ∃ b, t_meta db !! META_RECOVERY = Some b ∧ unwrap_recovery b pass = Ok k
  | None => t_meta db !! META_RECOVERY = None
  end.

Definition no_keys db p : Prop :=
  t_meta db !! META_LOCAL = None ∧ t_meta db !! META_RECOVERY = None ∧ p = None.

Definition vault_inv (sp : Db * Vault * option string) : Prop :=
  match master sp.1.2 with
  | Some k => wrapped k sp.2 sp.1.1
  | None => no_keys sp.1.1 sp.2
  end.

Lemma random_key_length r k : random_key r = Ok k → length k = KEY_LEN.
Proof. apply fill_length. Qed.

Lemma wrapped_local k p db r blob :
  length k = KEY_LEN → protect k r = Ok blob → t_meta db !! META_RECOVERY = None → p = None →
  wrapped k p (set_meta (<[META_LOCAL := blob]>) db).
Proof.
  intros Hk Hp Hr ->. split; [done|]. split.
  - exists blob. simpl. rewrite lookup_insert_eq. split; [done|by eapply unprotect_protect].
  - simpl. by rewrite lookup_insert_ne.
Qed.

Lemma wrapped_recovery k p db new r1 r2 blob :
  wrapped k p db → wrap_recovery k new r1 r2 = Ok blob →
  wrapped k (Some new) (set_meta (<[META_RECOVERY := blob]>) db).
Proof.
  intros (Hk & (b & Hb & Hu) & _) Hw. split; [done|]. split.
  - exists b. simpl. by rewrite lookup_insert_ne.
  - exists blob. simpl. rewrite lookup_insert_eq. split; [done|by eapply unwrap_wrap_recovery].
Qed.

Lemma load_inv r1 r2 db v p : vault_inv (db, v, p) → vault_inv (snd (load r1 r2 (db, v)), p).
Proof.
  unfold vault_inv. cbn [fst snd]. destruct (master v) as [k|].
  - intros (Hk & (b & Hb & Hu) & Hr). unfold load, st, meta_get, gets. simpl.
    unfold mbind, M_bind. simpl. rewrite Hb, Hu, decide_True by done. simpl.
    unfold to_key. rewrite take_ge by lia. split; eauto.
  - intros (Hl & Hr & ->). unfold load, st, meta_get, gets, mbind, M_bind. simpl. rewrite Hl. simpl. rewrite Hr. simpl.
    destruct (random_key r1) as [k|] eqn:Hk; [|done]. simpl.
    destruct (protect k r2) as [blob|] eqn:Hp; [|done]. simpl.
    apply wrapped_local with r2; [by eapply random_key_length|done..].
Qed.

Lemma set_recovery_run c new r1 r2 db v :
  let '(r, s') := set_recovery c new r1 r2 (db, v) in
  s'.2 = v ∧
  (is_ok r = true → ∃ k blob, master v = Some k ∧ wrap_recovery k new r1 r2 = Ok blob ∧
     s'.1 = set_meta (<[META_RECOVERY := blob]>) db) ∧
  (is_ok r = false → s'.1 = db).
Proof.
  unfold set_recovery, key_, get, mbind, M_bind. simpl. destruct v as [[k|]]; simpl; [|done].
  destruct (check_strength new); simpl; [|done]. unfold mbind, M_bind, st. simpl.
  destruct (t_meta db !! META_RECOVERY) as [blob|]; simpl.
  - unfold mbind, M_bind. destruct c as [c|]; simpl; [|done].
    destruct (unwrap_recovery blob c) as [k'|]; simpl; [|done]. case_decide; simpl; [|done].
    destruct (wrap_recovery k new r1 r2) as [w|] eqn:Hw; simpl; [|done]. split_and!; [done| |done]. eauto.
  - destruct (wrap_recovery k new r1 r2) as [w|] eqn:Hw; simpl; [|done]. split_and!; [done| |done]. eauto.
Qed.

Lemma replace_recovery_run new r1 r2 db v :
  let '(r, s') := replace_recovery new r1 r2 (db, v) in
  s'.2 = v ∧
  (is_ok r = true → ∃ k blob, master v = Some k ∧ wrap_recovery k new r1 r2 = Ok blob ∧
     s'.1 = set_meta (<[META_RECOVERY := blob]>) db) ∧
  (is_ok r = false → s'.1 = db).
Proof.
  unfold replace_recovery, key_, get, mbind, M_bind. simpl. destruct v as [[k|]]; simpl; [|done].
  destruct (check_strength new); simpl; [|done]. unfold mbind, M_bind, st. simpl.
  destruct (wrap_recovery k new r1 r2) as [w|] eqn:Hw; simpl; [|done]. split_and!; [done| |done]. eauto.
Qed.

(** Setting and replacing the passphrase keep the invariant alike. *)
Lemma recovery_inv new r1 r2 db v p (r : result VaultError unit) s' :
  s'.2 = v ∧
  (is_ok r = true → ∃ k blob, master v = Some k ∧ wrap_recovery k new r1 r2 = Ok blob ∧
     s'.1 = set_meta (<[META_RECOVERY := blob]>) db) ∧
  (is_ok r = false → s'.1 = db) →
  vault_inv (db, v, p) → vault_inv (s', if is_ok r then Some new else p).
Proof.
  destruct s' as [db' v']. unfold vault_inv. cbn [fst snd]. intros (-> & Hok & Herr) Hinv.
  destruct (is_ok r).
  - destruct (Hok eq_refl) as (k & blob & Hk & Hw & ->). rewrite Hk in Hinv |- *. by eapply wrapped_recovery.
  - by rewrite (Herr eq_refl).
Qed.

Lemma forget_meta keys db :
  ∃ f, foldM (E:=StoreError) (fun _ key => meta_delete key) () keys db = (Ok (), set_meta f db) ∧
    ∀ m i, f m !! i = if decide (i ∈ keys) then None else m !! i.
Proof.
  revert db. induction keys as [|k keys IH]; intros db.
  - exists id. split; [by destruct db|]. intros m i. by rewrite decide_False by set_solver.
  - simpl. destruct (IH (set_meta (delete k) db)) as (f & Hf & Hi).
    exists (fun m => f (delete k m)). split; [by erewrite bind_ok by done; rewrite Hf|].
    intros m i. rewrite Hi. destruct (decide (i ∈ keys)) as [Hk|Hk].
    + by rewrite decide_True by set_solver.
    + destruct (decide (i = k)) as [->|Hne].
      * rewrite lookup_delete_eq. by rewrite decide_True by set_solver.
      * rewrite lookup_delete_ne by done. by rewrite decide_False by set_solver.
Qed.

Lemma reset_inv also r1 r2 db v p :
  vault_inv (db, v, p) →
  let '(r, s') := vault_reset also r1 r2 (db, v) in vault_inv (s', if is_ok r then None else p).
Proof.
  intros Hinv. unfold vault_reset, mbind, M_bind. simpl.
  destruct (random_key r1) as [k|] eqn:Hk; simpl; [|done].
  destruct (protect k r2) as [blob|] eqn:Hp; simpl; [|done]. unfold st, replace_secrets, transaction. simpl.
  destruct (forget_meta (META_RECOVERY :: also) (set_credentials (fun _ => ∅) db)) as (f & Hf & Hi).
  erewrite bind_ok by done. erewrite bind_ok by done. erewrite bind_ok by exact Hf. erewrite bind_ok by done.
  simpl. unfold vault_inv. simpl. apply (wrapped_local _ _ (set_meta f (set_credentials (fun _ => ∅) db)) r2);
    [by eapply random_key_length|done| |done].
  simpl. rewrite Hi. by rewrite decide_True by set_solver.
Qed.

Lemma unlock_run pass r db v :
  let '(o, s') := unlock pass r (db, v) in
  (is_ok o = false → s' = (db, v)) ∧
  (is_ok o = true → ∃ k b blob, t_meta db !! META_RECOVERY = Some b ∧ unwrap_recovery b pass = Ok k ∧
     protect k r = Ok blob ∧ s' = (set_meta (<[META_LOCAL := blob]>) db, mkVault (Some k))).
Proof.
  unfold unlock, adopt, verify_recovery, mbind, M_bind, st. simpl.
  destruct (t_meta db !! META_RECOVERY) as [b|]; simpl; [|done].
  destruct (unwrap_recovery b pass) as [k|] eqn:Hu; simpl; [|done].
  destruct (protect k r) as [blob|] eqn:Hp; simpl; [|done]. split; [done|]. eauto 10.
Qed.

Lemma unlock_inv pass r db v p :
  vault_inv (db, v, p) →
  let '(o, s') := unlock pass r (db, v) in vault_inv (s', if is_ok o then Some pass else p).
Proof.
  intros Hinv. pose proof (unlock_run pass r db v) as Hu. destruct (unlock pass r (db, v)) as [o s'].
  destruct Hu as [Herr Hok]. destruct (is_ok o); [|by rewrite (Herr eq_refl)].
  destruct (Hok eq_refl) as (k & b & blob & Hb & Hk & Hp & ->). unfold vault_inv. simpl.
  split; [by eapply unwrap_recovery_length|]. split.
  - exists blob. simpl. rewrite lookup_insert_eq. split; [done|by eapply unprotect_protect].
  - exists b. simpl. by rewrite lookup_insert_ne.
Qed.

Lemma vault_exec_inv sp op : leaves_keys op → vault_inv sp → vault_inv (vault_exec sp op).
Proof.
  destruct sp as [[db v] p]. intros Hop Hinv. destruct op as [| | | | |f]; simpl.
  - by apply load_inv.
  - pose proof (set_recovery_run current new r1 r2 db v) as H.
    destruct (set_recovery current new r1 r2 (db, v)). by eapply recovery_inv.
  - pose proof (replace_recovery_run new r1 r2 db v) as H.
    destruct (replace_recovery new r1 r2 (db, v)). by eapply recovery_inv.
  - pose proof (reset_inv also r_key r_wrap db v p Hinv) as H. by destruct (vault_reset _ _ _ _).
  - pose proof (unlock_inv passphrase random db v p Hinv) as H. by destruct (unlock _ _ _).
  - destruct (Hop db) as [Hl Hr]. revert Hinv. unfold vault_inv, wrapped, no_keys. simpl. by rewrite Hl, Hr.
Qed.

Lemma vault_run_inv ops db :
  t_meta db !! META_LOCAL = None → t_meta db !! META_RECOVERY = None → Forall leaves_keys ops →
  vault_inv (vault_run ops db).
Proof.
  intros Hl Hr Hops. unfold vault_run. assert (vault_inv (db, mkVault None, None)) as Hinv by done.
  revert Hinv. generalize (db, mkVault None, @None string). induction Hops as [|op ops Hop _ IH]; intros sp Hinv.
  - done.
  - apply IH. by apply vault_exec_inv.
Qed.
End recoverable.

(** C14. The master key is never lost. Take a database that began without one, and any sequence of
    restarts, passphrase changes, resets, unlocks and unrelated changes. While the vault holds a
    key, a restart on this host finds that same key; the passphrase last accepted, if any since the
    last reset, opens it; and a copy of the database taken to any other host and unlocked there
    with that passphrase gives a vault with the same key, the saved credentials untouched. The
    vault is without a key only as long as the database never had one. *)
Theorem vault_key_survives {C : Crypto} {K : KeyProtector} (ops : list vault_op) (db0 : Db) :
  t_meta db0 !! META_LOCAL = None → t_meta db0 !! META_RECOVERY = None → Forall leaves_keys ops →
  let '(db, v, p) := vault_run ops db0 in
  (master v = None → t_meta db !! META_LOCAL = None ∧ t_meta db !! META_RECOVERY = None) ∧
  ∀ k, master v = Some k →
    (∀ r1 r2 v0, load r1 r2 (db, v0) = (Ok (), (db, v))) ∧
    (∀ pass, p = Some pass → verify_recovery pass (db, v) = (Ok k, (db, v))) ∧
    (∀ (K2 : KeyProtector) pass r v2 db' v', p = Some pass →
       unlock (K:=K2) pass r (db, v2) = (Ok (), (db', v')) →
       v' = v ∧ t_credentials db' = t_credentials db).
Proof.
  intros Hl Hr Hops. pose proof (vault_run_inv ops db0 Hl Hr Hops) as Hinv.
  destruct (vault_run ops db0) as [[db v] p]. unfold vault_inv in Hinv. simpl in Hinv. split.
  { intros Hm. rewrite Hm in Hinv. by destruct Hinv as (? & ? & _). }
  intros k Hm. rewrite Hm in Hinv. destruct Hinv as (Hk & (b & Hb & Hu) & Hp). destruct v as [m]. simpl in Hm.
  subst m. split_and!.
  - intros r1 r2 v0. unfold load, st, mbind, M_bind. simpl. rewrite Hb, Hu, decide_True by done.
    unfold to_key. by rewrite take_ge by lia.
  - intros pass ->. destruct Hp as (rb & Hrb & Hun). unfold verify_recovery, mbind, M_bind, st. simpl.
    rewrite Hrb. simpl. unfold lift. by rewrite Hun.
  - intros K2 pass r v2 db' v' -> Hun. destruct Hp as (rb & Hrb & Hk').
    pose proof (unlock_run (K:=K2) pass r db v2) as Hrun. rewrite Hun in Hrun. destruct Hrun as [_ Hok].
    destruct (Hok eq_refl) as (k2 & b2 & blob & Hb2 & Hk2 & _ & [= -> ->]).
    assert (b2 = rb) as -> by congruence. assert (k2 = k) as -> by congruence. done.
Qed.

(** ** On a cipher small enough to compute with *)

(** The tag is the key, nonce and associated data themselves. *)
Definition sample_seal (key nonce aad plain : bytes) : option bytes := Some ((key ++ nonce ++ aad) ++ plain).
Definition sample_open (key nonce aad sealed : bytes) : option bytes :=
  let tag := key ++ nonce ++ aad in
  if decide (take (length tag) sealed = tag) then Some (drop (length tag) sealed) else None.

Lemma sample_open_seal key nonce aad plain sealed :
  sample_seal key nonce aad plain = Some sealed → sample_open key nonce aad sealed = Some plain.
Proof.
  intros [= <-]. unfold sample_open. rewrite take_app_length, drop_app_length. by rewrite decide_True.
Qed.

Definition sample_crypto : Crypto := {|
  aead_seal := sample_seal;
  aead_open := sample_open;
  aead_open_seal := sample_open_seal;
  argon2 := fun pass salt => Ok (resize KEY_LEN x00 (pass ++ salt));
  argon2_length := fun pass salt key H =>
    match H in _ = r return match r with Ok k => length k = KEY_LEN | Err _ => True end with
    | eq_refl => length_resize _ _ _
    end;
|}.

Definition sample_protector : KeyProtector := keyfile (C:=sample_crypto) (replicate 32 x07).

Definition sample_pass : string := "correct horse battery".
Definition sample_ops : list vault_op :=
  [OpLoad (Some [x2a]) (Some [x01]); OpSetRecovery None "too short" (Some []) (Some []);
   OpSetRecovery None "a first passphrase" (Some [x05]) (Some [x06]);
   OpOther (set_meta (<["frozen"%string := [x31]]>));
   OpSetRecovery (Some "a first passphrase"%string) sample_pass (Some [x08]) (Some [x09]);
   OpLoad None None].

Example vault_key_survives_witness :
  let '(db, v, p) := vault_run (C:=sample_crypto) (K:=sample_protector) sample_ops empty_db in
  p = Some sample_pass ∧ master v = Some (resize 32 x00 [x2a]) ∧
  (∀ r1 r2 v0, load (K:=sample_protector) r1 r2 (db, v0) = (Ok (), (db, v))) ∧
  verify_recovery (C:=sample_crypto) sample_pass (db, v) = (Ok (resize 32 x00 [x2a]), (db, v)).
Proof.
  assert (Forall leaves_keys sample_ops) as Hops.
  { unfold sample_ops. rewrite !Forall_cons, Forall_nil. split_and!; try exact I.
    intros db. split; simpl; by rewrite lookup_insert_ne. }
  pose proof (vault_key_survives (C:=sample_crypto) (K:=sample_protector) sample_ops empty_db
                eq_refl eq_refl Hops) as H.
  assert (snd (vault_run (C:=sample_crypto) (K:=sample_protector) sample_ops empty_db) = Some sample_pass)
    as Hp by (vm_compute; reflexivity).
  assert (master (snd (fst (vault_run (C:=sample_crypto) (K:=sample_protector) sample_ops empty_db))) =
          Some (resize 32 x00 [x2a])) as Hm by (vm_compute; reflexivity).
  destruct (vault_run (C:=sample_crypto) (K:=sample_protector) sample_ops empty_db) as [[db v] p].
  simpl in Hp, Hm. destruct H as [_ H]. destruct (H _ Hm) as (Hload & Hver & _).
  split; [exact Hp|]. split; [exact Hm|]. split; [exact Hload|]. exact (Hver _ Hp).
Defined.

Example local_password_witness :
  ∃ stored, hash_password (C:=sample_crypto) "secret" (Some [x11; x22]) = Ok stored ∧
    verify_password (C:=sample_crypto) "secret" stored = true ∧
    ∃ salt hash, derive (C:=sample_crypto) "secret" salt = Ok hash ∧
      ∀ q, verify_password (C:=sample_crypto) q stored = true ↔ derive (C:=sample_crypto) q salt = Ok hash.
Proof.
  eexists. split; [vm_compute; reflexivity|]. split; [vm_compute; reflexivity|].
  apply (local_password_exact (C:=sample_crypto) "secret" (Some [x11; x22])). vm_compute. reflexivity.
Defined.
