(* ===== verification/Directory.v ===== *)
(** * The directory client (src/src/directory.rs)

    Names, SIDs and filters, and the sign-in and lookups over LDAP. What the domain controllers
    answer during a call is the record [Network]; search entries come as the raw attributes, which
    the [ldap3] crate sorts into text and binary ones. *)

From S2P Require Import Prelude Text Utf8.
Local Open Scope Z_scope.

Definition RC_INVALID_CREDENTIALS : Z := 49.
Definition UAC_ACCOUNT_DISABLE : Z := 0x2.

(** ** Refusals *)

Inductive Refusal :=
  | PasswordMustChange
  | LockedOut
  | Restricted
  | Disabled
  | Expired.

#[export] Instance Refusal_eq : EqDecision Refusal.
Proof. solve_decision. Defined.

Inductive DirError :=
  | InvalidCredentials
  | Refused (r : Refusal)
  | OtherDomain (who : string)
  | Unreachable (why : string)
  | Protocol (why : string)
  | Config (why : string).

Definition refusal_text (r : Refusal) : string :=
  match r with
  | PasswordMustChange =>
      "the password has expired or must be changed; change it at a Windows sign-in, then sign in here"
  | LockedOut => "the account is locked; try again later or ask the helpdesk to unlock it"
  | Restricted => "the account may not sign in at this time or from here"
  | Disabled => "the account is disabled"
  | Expired => "the account has expired"
  end.

Definition code (r : Refusal) : string :=
  match r with
  | PasswordMustChange => "532/773"
  | LockedOut => "775"
  | Restricted => "530/531"
  | Disabled => "533"
  | Expired => "701"
  end.

Definition proves_password (r : Refusal) : bool := negb (bool_decide (r = LockedOut)).

(** The refusal named by [... data 775, ...]. *)
Definition refusal_in (text : string) : option Refusal :=
  rest ← split_str_second (to_chars "data ") (to_chars text);
  let c := to_ascii_lowercase
             (of_chars (take_until (fun c => bool_decide (c = ","%char ∨ c = " "%char)) rest)) in
  if decide (c = "532" ∨ c = "773")%string then Some PasswordMustChange
  else if decide (c = "775")%string then Some LockedOut
  else if decide (c = "530" ∨ c = "531")%string then Some Restricted
  else if decide (c = "533")%string then Some Disabled
  else if decide (c = "701")%string then Some Expired
  else None.

(** ** Accounts *)

(** What the directory says about one account. *)
Record Account := mkAccount {
  acc_username : string;
  acc_display_name : option string;
  acc_sid : string;
  acc_disabled : bool;
  acc_expired : bool;
}.

Definition usable (a : Account) : bool := negb (acc_disabled a) && negb (acc_expired a).

(** The order to try [count] controllers in. *)
Definition try_order (count preferred : nat) : list nat :=
  let first := if decide (preferred < count)%nat then preferred else 0%nat in
  take count (first :: List.filter (fun i => negb (Nat.eqb i first)) (seq 0 count)).

(** ** Names *)

Definition FORBIDDEN : list ascii :=
  ["034"; "/"; "092"; "["; "]"; ":"; ";"; "|"; "="; ","; "+"; "*"; "?"; "<"; ">"; "@"; "("; ")"; "000"]%char.

Section names.
Context {U : Unicode}.

(** The account name part of [DOMAIN\user], [user@domain] or [user], lowercased. *)
Definition normalize_username (input : string) : option string :=
  let s := to_chars (str_trim input) in
  let s := after_last "092"%char s in
  let s := take_until (fun c => bool_decide (c = "@"%char)) s in
  if decide (s = [] ∨ (64 < length (utf8_chars s))%nat) then None
  else if existsb (fun p => is_control p || existsb (fun c => bool_decide (p = [c])) FORBIDDEN) (utf8_chars s)
       then None
  else Some (to_lowercase (of_chars s)).

(** The account in a WhoAmI answer. *)
Definition parse_authzid (authzid : string) : option (option string * string) :=
  id ← strip_prefix (to_chars "u:") (to_chars authzid);
  let '(domain, name) :=
    match rsplit_once "092"%char id with
    | Some (d, n) => (if decide (d = []) then None else Some (of_chars d), n)
    | None => (None, id)
    end in
  short ← normalize_username (of_chars name);
  Some (domain, short).
End names.

(** RFC 4515 escaping. *)
Definition escape_char (c : ascii) : chars :=
  if decide (c = "*"%char) then to_chars "\2a"
  else if decide (c = "("%char) then to_chars "\28"
  else if decide (c = ")"%char) then to_chars "\29"
  else if decide (c = "092"%char) then to_chars "\5c"
  else if decide (c = "000"%char) then to_chars "\00"
  else [c].

Definition escape_filter (value : string) : string := of_chars (to_chars value ≫= escape_char).

(** ** SIDs *)

(** The identifier authority, big-endian. *)
Definition from_be (b : bytes) : Z := foldl (fun acc x => Z.lor (Z.shiftl acc 8) (u8 x)) 0 b.

(** The sub-authorities, four bytes each. *)
Fixpoint subs_of (count : nat) (b : bytes) : list Z :=
  match count with
  | O => []
  | S n => from_le (take 4 b) :: subs_of n (drop 4 b)
  end.

(** Binary objectSid to its [S-1-5-21-...] form. *)
Definition sid_to_string (b : bytes) : option string :=
  match b with
  | revision :: count :: rest =>
      if decide (length b = 8 + 4 * Z.to_nat (u8 count))%nat then
        let authority := from_be (take 6 rest) in
        let subs := subs_of (Z.to_nat (u8 count)) (drop 6 rest) in
        Some ("S-" +:+ pretty (u8 revision) +:+ "-" +:+ pretty authority +:+
              foldr (fun s acc => "-" +:+ pretty s +:+ acc) "" subs)
      else None
  | _ => None
  end.

Definition sid_bytes (sid : string) : option bytes :=
  rest ← strip_prefix (to_chars "S-") (to_chars sid);
  match split_on "-"%char rest with
  | r :: a :: parts =>
      revision ← parse_u8 (of_chars r);
      authority ← parse_u64 (of_chars a);
      if decide (2 ^ 48 ≤ authority) then None
      else
        subs ← mapM (fun p => parse_u32 (of_chars p)) parts;
        if decide (subs = [] ∨ (15 < length subs)%nat) then None
        else Some (to_u8 revision :: to_u8 (Z.of_nat (length subs)) ::
                   reverse (to_le 6 authority) ++ (subs ≫= to_le 4))
  | _ => None
  end.

Definition sid_filter (sid : string) : option string :=
  (fun b => of_chars (b ≫= fun x => "092"%char :: hex_byte x)) <$> sid_bytes sid.

Definition canonical_sid (sid : string) : option string :=
  b ← sid_bytes (str_trim sid); sid_to_string b.

(** ** Account state *)

(** [accountExpires], 100 ns ticks since 1601; zero and the maximum mean never. *)
Definition expired (account_expires : option Z) (now_unix : Z) : bool :=
  match account_expires with
  | None => false
  | Some ticks =>
      if decide (ticks = 0 ∨ ticks = i64_max) then false
      else bool_decide (Z.quot ticks 10000000 - 11644473600 ≤ now_unix)
  end.

Definition base_dn_for (domain : string) : string :=
  of_chars (join (to_chars ",")
    ((fun p => to_chars "DC=" ++ p) <$>
       List.filter (fun p => negb (bool_decide (p = []))) (split_on "."%char (to_chars domain)))).

(** ** Search entries *)

(** [SearchEntry::construct]: an attribute all of whose values are UTF-8 is text, any other binary,
    its values that are not UTF-8 first. *)
Abbreviation RawEntry := (list (string * list bytes)).
Record SearchEntry := mkEntry { attrs : gmap string (list string); bin_attrs : gmap string (list bytes) }.

Definition add_attribute (e : SearchEntry) (a : string * list bytes) : SearchEntry :=
  let '(name, values) := a in
  let binary := List.filter (fun v => negb (utf8_valid v)) values in
  let text := List.filter utf8_valid values in
  if decide (binary = [])
  then mkEntry (<[name := String.string_of_list_byte <$> text]> (attrs e)) (bin_attrs e)
  else mkEntry (attrs e) (<[name := default [] (bin_attrs e !! name) ++ binary ++ text]> (bin_attrs e)).

Definition construct (re : RawEntry) : SearchEntry := foldl add_attribute (mkEntry ∅ ∅) re.

(** ** The client *)

Record DirectoryConfig := mkDirConfig {
  d_domain : string;
  d_netbios : option string;
  d_urls : list string;
  d_base_dn : option string;
  d_service_account : option string;
}.

(** The answers of the domain controllers: a connection, a simple bind (its result code and text),
    WhoAmI (the text, where there is one) and a search, the last two as the name that is bound. *)
Record Network := mkNetwork {
  dial : string → result string unit;
  simple_bind : string → string → string → result string (Z * string);
  who_am_i : string → string → result string (option string);
  search : string → string → string → string → result string (list RawEntry);
}.

Section client.
Context {U : Unicode} (cfg : DirectoryConfig) (net : Network).

Definition dir_base_dn : string := default (base_dn_for (d_domain cfg)) (d_base_dn cfg).

Definition has_service_account : bool := bool_decide (is_Some (d_service_account cfg)).

Definition bind_name (username : string) : string :=
  match d_netbios cfg with
  | Some nb => nb +:+ of_chars ["092"%char] +:+ username
  | None => username +:+ "@" +:+ d_domain cfg
  end.

Definition sign_in_name (typed : string) : option string :=
  let typed := str_trim typed in
  short ← normalize_username typed;
  if decide (256 < length (to_chars typed))%nat then None
  else if existsb is_control (utf8_chars (to_chars typed)) then None
  else
    let names_a_domain := bool_decide ("@"%char ∈ to_chars typed) || bool_decide ("092"%char ∈ to_chars typed) in
    Some (if names_a_domain && bool_decide (is_Some (d_netbios cfg)) then typed else bind_name short).

(** [Directory::connect]: the controller that answered, which becomes the preferred one. *)
Fixpoint connect_loop (order : list nat) (last : string) : result DirError (string * nat) :=
  match order with
  | [] => Err (Unreachable last)
  | index :: order' =>
      match d_urls cfg !! index with
      | None => Err (Unreachable last)
      | Some url =>
          match dial net url with
          | Ok _ => Ok (url, index)
          | Err e => connect_loop order' (url +:+ ": " +:+ e)
          end
      end
  end.

Definition connect (preferred : nat) : result DirError (string * nat) :=
  connect_loop (try_order (length (d_urls cfg)) preferred) "no domain controller configured".

Definition bind (url name password : string) : result DirError unit :=
  if decide (password = ""%string) then Err InvalidCredentials
  else
    match simple_bind net url name password with
    | Err e => Err (Protocol e)
    | Ok (rc, text) =>
        if decide (rc = 0) then Ok ()
        else if decide (rc = RC_INVALID_CREDENTIALS) then
          Err (match refusal_in text with Some r => Refused r | None => InvalidCredentials end)
        else Err (Protocol ("bind returned " +:+ pretty rc +:+ ": " +:+ text))
    end.

Definition whoami (url bound : string) : result DirError (option string * string) :=
  match who_am_i net url bound with
  | Err e => Err (Protocol e)
  | Ok val =>
      let authzid := default ""%string val in
      ok_or (Protocol ("who-am-i named no account: " +:+ debug_string authzid)) (parse_authzid authzid)
  end.

Definition find_by (url bound filter username : string) (now : Z) : result DirError (option Account) :=
  match search net url bound dir_base_dn filter with
  | Err e => Err (Protocol e)
  | Ok entries =>
      match entries with
      | [] => Ok None
      | [e] =>
          let entry := construct e in
          let first name := attrs entry !! name ≫= head in
          sid ← ok_or (Protocol "the account has no readable objectSid")
                  (b ← bin_attrs entry !! "objectSid"%string ≫= head; sid_to_string b);
          let uac := default 0 (first "userAccountControl"%string ≫= parse_i64) in
          let expires := first "accountExpires"%string ≫= parse_i64 in
          Ok (Some (mkAccount
            (default username (to_lowercase <$> first "sAMAccountName"%string))
            (first "displayName"%string) sid
            (negb (bool_decide (Z.land uac UAC_ACCOUNT_DISABLE = 0)))
            (expired expires now)))
      | _ => Err (Protocol ("the directory returned " +:+ pretty (len entries) +:+ " accounts for one name"))
      end
  end.

Definition find (url bound username : string) (now : Z) : result DirError (option Account) :=
  find_by url bound
    ("(&(objectCategory=person)(objectClass=user)(sAMAccountName=" +:+ escape_filter username +:+ "))")
    username now.

Definition find_sid (url bound sid username : string) (now : Z) : result DirError (option Account) :=
  value ← ok_or (Protocol (sid +:+ " is not a SID")) (sid_filter sid);
  find_by url bound ("(&(objectCategory=person)(objectClass=user)(objectSid=" +:+ value +:+ "))")
    username now.

(** What follows a connection: the answer, and the preferred controller from now on. *)
Definition with_connection {A} (preferred : nat) (k : string → result DirError A) :
    result DirError A * nat :=
  match connect preferred with
  | Err e => (Err e, preferred)
  | Ok (url, index) => (k url, index)
  end.

(** Password sign-in with the name as typed. *)
Definition authenticate (typed password : string) (now : Z) (preferred : nat) :
    result DirError Account * nat :=
  match sign_in_name typed with
  | None => (Err InvalidCredentials, preferred)
  | Some name =>
      with_connection preferred (fun url =>
        _ ← bind url name password;
        who ← whoami url name;
        let '(domain, short) := who in
        _ ← match d_netbios cfg, domain with
            | Some nb, Some d =>
                if decide (to_ascii_lowercase nb = to_ascii_lowercase d) then Ok ()
                else Err (OtherDomain (d +:+ of_chars ["092"%char] +:+ short))
            | _, _ => Ok ()
            end;
        found ← find url name short now;
        account ← ok_or (Protocol "bound, but the account's entry was not found") found;
        if usable account then Ok account else Err InvalidCredentials)
  end.

(** Accounts looked up with the service account, by SID where there is one. *)
Definition lookup_each (service_password : string) (accounts : list (string * option string))
    (now : Z) (preferred : nat) :
    result DirError (list (string * result DirError (option Account))) * nat :=
  match ok_or (Config "no service_account configured") (d_service_account cfg ≫= normalize_username) with
  | Err e => (Err e, preferred)
  | Ok service =>
      with_connection preferred (fun url =>
        _ ← match bind url (bind_name service) service_password with
            | Err InvalidCredentials => Err (Config "the service account's password was refused")
            | Err (Refused r) =>
                Err (Config ("the service account was refused: " +:+ refusal_text r +:+
                             " (data " +:+ code r +:+ ")"))
            | r => r
            end;
        Ok ((fun a => (a.1, match a.2 with
                            | Some sid => find_sid url (bind_name service) sid a.1 now
                            | None => find url (bind_name service) a.1 now
                            end)) <$> accounts))
  end.

Fixpoint all_found (l : list (string * result DirError (option Account))) :
    result DirError (list (string * option Account)) :=
  match l with
  | [] => Ok []
  | (name, Err e) :: _ => Err e
  | (name, Ok a) :: l' => r ← all_found l'; Ok ((name, a) :: r)
  end.

(** [lookup_many]: any failure fails the call. *)
Definition lookup_many (service_password : string) (usernames : list string) (now : Z) (preferred : nat) :
    result DirError (list (string * option Account)) * nat :=
  let '(r, p) := lookup_each service_password ((fun n => (n, None)) <$> usernames) now preferred in
  (match r with Ok l => all_found l | Err e => Err e end, p).

(** The one account with this SID. *)
Definition lookup_by_sid (service_password sid : string) (now : Z) (preferred : nat) :
    result DirError (option Account) * nat :=
  match ok_or (Protocol (sid +:+ " is not a SID")) (canonical_sid sid) with
  | Err e => (Err e, preferred)
  | Ok wanted =>
      let '(r, p) := lookup_each service_password [(wanted, Some wanted)] now preferred in
      (match r with
       | Err e => Err e
       | Ok found =>
           match default (Ok None) (snd <$> last found) with
           | Err e => Err e
           | Ok (Some account) =>
               if decide (acc_sid account ≠ wanted) then
                 Err (Protocol ("asked for " +:+ wanted +:+ ", the directory answered " +:+ acc_sid account))
               else Ok (Some account)
           | Ok None => Ok None
           end
       end, p)
  end.
End client.
