(* ===== verification/DirectoryFacts.v ===== *)
(** * What the directory client promises

    The two forms of a SID determine each other; a value placed in a search filter is taken
    literally; the controllers are tried in a complete order; and a sign-in that succeeds is for the
    account the directory itself named, never for one found by the name that was typed. *)

From S2P Require Import Prelude Text Utf8 Directory.
Local Open Scope Z_scope.

(** ** SIDs *)

(** A binary SID of one to fifteen sub-authorities. *)
Definition sid_ok (b : bytes) : Prop :=
  ∃ revision count rest, b = revision :: count :: rest ∧
    1 ≤ u8 count ≤ 15 ∧ length rest = (6 + 4 * Z.to_nat (u8 count))%nat.

Lemma from_be_range b : 0 ≤ from_be b < 2 ^ (8 * len b).
Proof.
  unfold from_be. rewrite foldl_be. pose proof (from_le_range (reverse b)) as H.
  unfold len in *. rewrite length_reverse in H. lia.
Qed.

Lemma to_le_from_be b : reverse (to_le (length b) (from_be b)) = b.
Proof.
  unfold from_be. rewrite foldl_be, Z.mul_0_l, Z.add_0_l.
  rewrite <-(length_reverse b), to_from_le. apply reverse_involutive.
Qed.

Lemma subs_of_length n b : length (subs_of n b) = n.
Proof. revert b. induction n as [|n IH]; intros b; simpl; [done|]. by rewrite IH. Qed.

Lemma subs_of_range n b : length b = (4 * n)%nat → Forall (fun s => 0 ≤ s ≤ u32_max) (subs_of n b).
Proof.
  revert b. induction n as [|n IH]; intros b Hb; simpl; constructor.
  - pose proof (from_le_range (take 4 b)) as H. unfold len in H. rewrite length_take in H.
    replace (8 * Z.of_nat (4 `min` length b)) with 32 in H by lia. unfold u32_max. lia.
  - apply IH. rewrite length_drop. lia.
Qed.

Lemma subs_of_bytes n b : length b = (4 * n)%nat → (subs_of n b ≫= to_le 4) = b.
Proof.
  revert b. induction n as [|n IH]; intros b Hb.
  - destruct b; [done|simpl in Hb; lia].
  - change (to_le 4 (from_le (take 4 b)) ++ (subs_of n (drop 4 b) ≫= to_le 4) = b).
    rewrite IH by (rewrite length_drop; lia).
    assert (length (take 4 b) = 4%nat) as Hl by (rewrite length_take; lia).
    rewrite <-Hl at 1. rewrite to_from_le. apply take_drop.
Qed.

(** Pieces with no separator, separated, come back from a split. *)
Lemma split_on_pieces c p ps :
  c ∉ p → Forall (fun q => c ∉ q) ps → split_on c (p ++ (ps ≫= fun q => c :: q)) = p :: ps.
Proof.
  intros Hp Hps. revert p Hp. induction Hps as [|q ps Hq _ IH]; intros p Hp.
  - simpl. rewrite app_nil_r. by apply split_on_none.
  - change ((q :: ps) ≫= fun q => c :: q) with (c :: q ++ (ps ≫= fun q => c :: q)).
    rewrite split_on_app by done. by rewrite IH.
Qed.

Lemma pretty_no_dash z : 0 ≤ z → "-"%char ∉ to_chars (pretty z).
Proof.
  intros Hz Hin. pose proof (pretty_nonneg_chars z Hz) as H. rewrite Forall_forall in H.
  destruct (H _ Hin) as [d Hd]. vm_compute in Hd. discriminate.
Qed.

Lemma sid_text (revision authority : Z) (subs : list Z) :
  to_chars ("S-" +:+ pretty revision +:+ "-" +:+ pretty authority +:+
            foldr (fun s acc => "-" +:+ pretty s +:+ acc) "" subs) =
  to_chars "S-" ++ to_chars (pretty revision) ++
    (((fun z : Z => to_chars (pretty z)) <$> (authority :: subs)) ≫= fun q => "-"%char :: q).
Proof.
  rewrite !to_chars_app. f_equal. f_equal.
  change (((fun z : Z => to_chars (pretty z)) <$> (authority :: subs)) ≫= fun q => "-"%char :: q) with
    ("-"%char :: to_chars (pretty authority) ++ (((fun z : Z => to_chars (pretty z)) <$> subs) ≫= fun q => "-"%char :: q)).
  change (to_chars "-") with ["-"%char]. cbn [app]. f_equal. f_equal.
  induction subs as [|s subs IH]; [done|]. cbn [foldr fmap list_fmap]. rewrite !to_chars_app, IH. done.
Qed.

Lemma mapM_parse_pretty (subs : list Z) :
  Forall (fun s => 0 ≤ s ≤ u32_max) subs →
  mapM (fun p => parse_u32 (of_chars p)) ((fun z : Z => to_chars (pretty z)) <$> subs) = Some subs.
Proof.
  induction 1 as [|s subs Hs _ IH]; [done|]. cbn [fmap list_fmap mapM]. rewrite of_to_chars, IH.
  assert (parse_u32 (pretty s) = Some s) as -> by (apply parse_pretty; lia). done.
Qed.

(** The text of a binary SID reads back as that SID. *)
Lemma sid_string_bytes b : sid_ok b → ∃ s, sid_to_string b = Some s ∧ sid_bytes s = Some b ∧
  Forall (fun c => number_char c ∨ c = "S"%char) (to_chars s).
Proof.
  intros (revision & count & rest & -> & Hc & Hr). unfold sid_to_string.
  rewrite decide_True by (cbn [length]; lia). set (n := Z.to_nat (u8 count)).
  assert (length (take 6 rest) = 6%nat) as H6 by (rewrite length_take; lia).
  assert (length (drop 6 rest) = (4 * n)%nat) as Hd by (rewrite length_drop; lia).
  pose proof (from_be_range (take 6 rest)) as Ha. unfold len in Ha. rewrite H6 in Ha. simpl Z.of_nat in Ha.
  set (authority := from_be (take 6 rest)) in *. set (subs := subs_of n (drop 6 rest)).
  assert (0 ≤ authority < 2 ^ 48) as Ha2 by exact Ha.
  pose proof (subs_of_range n _ Hd) as Hsr. fold subs in Hsr. pose proof (u8_range revision) as Hrev.
  eexists. split; [reflexivity|]. split.
  - unfold sid_bytes. rewrite sid_text.
    change (strip_prefix (to_chars "S-") (to_chars "S-" ++ ?l)) with (Some l). cbn [mbind option_bind].
    rewrite split_on_pieces; [|by apply pretty_no_dash; lia|].
    2: { apply Forall_fmap, Forall_cons. split; [by apply pretty_no_dash; lia|].
         eapply Forall_impl; [exact Hsr|]. intros s [Hs _]. by apply pretty_no_dash. }
    cbn [fmap list_fmap]. rewrite !of_to_chars.
    unfold parse_u8, parse_u64. rewrite !parse_pretty by (unfold u64_max; lia). cbn [mbind option_bind].
    rewrite decide_False by lia. rewrite mapM_parse_pretty by done. cbn [mbind option_bind].
    assert (length subs = n) as Hn by apply subs_of_length.
    rewrite decide_False by (intros [He|?]; [rewrite He in Hn; simpl in Hn|]; lia).
    rewrite Hn. unfold n at 1. rewrite Z2Nat.id, !to_u8_u8 by lia.
    unfold authority. rewrite <-H6 at 1. rewrite to_le_from_be. unfold subs. rewrite subs_of_bytes by done.
    by rewrite take_drop.
  - rewrite sid_text. rewrite !Forall_app. split_and!.
    + apply Forall_cons; split; [by right|]. apply Forall_cons; split; [left; by right|constructor].
    + eapply Forall_impl; [apply pretty_chars|by left].
    + rewrite Forall_forall. intros c (q & Hq & Hin)%list_elem_of_bind.
      apply list_elem_of_fmap in Hin as (z & -> & _). apply elem_of_cons in Hq as [->|Hq]; [left; by right|].
      left. pose proof (pretty_chars z) as Hp. rewrite Forall_forall in Hp. by apply Hp.
Qed.

Lemma mapM_length {A B} (f : A → option B) l k : mapM f l = Some k → length k = length l.
Proof. intros H%mapM_Some. symmetry. by eapply Forall2_length. Qed.

Lemma bind_length {A B} (f : A → list B) n l : (∀ x, length (f x) = n) → length (l ≫= f) = (n * length l)%nat.
Proof.
  intros Hf. induction l as [|x l IH]; [simpl; lia|]. change ((x :: l) ≫= f) with (f x ++ (l ≫= f)).
  rewrite length_app, Hf, IH. simpl. lia.
Qed.

(** What reads as a SID is one. *)
Lemma sid_bytes_ok s b : sid_bytes s = Some b → sid_ok b.
Proof.
  unfold sid_bytes. destruct (strip_prefix _ _) as [rest|]; [|done]. cbn [mbind option_bind].
  destruct (split_on "-"%char rest) as [|r [|a parts]]; [done..|].
  destruct (parse_u8 (of_chars r)) as [revision|]; [|done]. cbn [mbind option_bind].
  destruct (parse_u64 (of_chars a)) as [authority|]; [|done]. cbn [mbind option_bind].
  case_decide; [done|]. destruct (mapM _ parts) as [subs|]; [|done]. cbn [mbind option_bind].
  case_decide as Hn; [done|]. intros [= <-].
  assert (1 ≤ Z.of_nat (length subs) ≤ 15) as Hl.
  { destruct subs; [naive_solver|]. simpl in *. lia. }
  assert (u8 (to_u8 (Z.of_nat (length subs))) = Z.of_nat (length subs)) as Hc.
  { rewrite u8_to_u8. apply Z.mod_small. lia. }
  exists (to_u8 revision), (to_u8 (Z.of_nat (length subs))), (reverse (to_le 6 authority) ++ (subs ≫= to_le 4)).
  split; [done|]. rewrite Hc. split; [done|].
  rewrite length_app, length_reverse, to_le_length, (bind_length _ 4) by (intros; apply to_le_length). lia.
Qed.

(** Text of plain ASCII with no white space is left alone by [trim]. *)
Lemma str_trim_id s : Forall (fun c => N_of_ascii c < 128 ∧ is_whitespace [c] = false)%N (to_chars s) → str_trim s = s.
Proof.
  intros Hs. unfold str_trim. rewrite utf8_chars_ascii by (eapply Forall_impl; [exact Hs|by intros c [? _]]).
  assert (∀ l, Forall (fun c => N_of_ascii c < 128 ∧ is_whitespace [c] = false)%N l →
    drop_while is_whitespace ((fun c => [c]) <$> l) = (fun c => [c]) <$> l) as Hd.
  { intros l [|c l' [_ Hc] _]; [done|]. cbn [fmap list_fmap drop_while]. by rewrite Hc. }
  rewrite Hd, <-fmap_reverse by done. rewrite Hd by by rewrite Forall_reverse.
  rewrite <-fmap_reverse, reverse_involutive.
  replace (mjoin ((fun c => [c]) <$> to_chars s)) with (to_chars s); [apply of_to_chars|].
  clear. induction (to_chars s) as [|c l IH]; [done|]. simpl. by rewrite <-IH at 1.
Qed.

(** The canonical form of a SID, and that it is its own. *)
Lemma canonical_sid_Some s c :
  canonical_sid s = Some c →
  ∃ b, sid_bytes (str_trim s) = Some b ∧ sid_to_string b = Some c ∧ sid_bytes c = Some b ∧ str_trim c = c.
Proof.
  unfold canonical_sid. destruct (sid_bytes (str_trim s)) as [b|] eqn:Hb; [|done].
  cbn [mbind option_bind]. intros Hs. pose proof (sid_bytes_ok _ _ Hb) as Hok.
  destruct (sid_string_bytes b Hok) as (s' & Hs' & Hb' & Hch). assert (s' = c) as -> by congruence.
  exists b. split_and!; [done..|]. apply str_trim_id. eapply Forall_impl; [exact Hch|].
  intros x [[[d Hd]| ->]| ->]; [|done..]. revert Hd. by destruct x as [[] [] [] [] [] [] [] []].
Qed.

Lemma canonical_sid_idem s c : canonical_sid s = Some c → canonical_sid c = Some c.
Proof. intros (b & _ & Hs & Hb & Ht)%canonical_sid_Some. unfold canonical_sid. by rewrite Ht, Hb. Qed.

(** The text and binary forms of a SID determine each other. Every binary SID of one to fifteen
    sub-authorities has a text, which reads back as those bytes; every text that reads as a SID
    yields such bytes; and the canonical form of a SID, however it was spelt, is that of the same
    bytes and its own canonical form, so two spellings compare equal exactly when the SIDs do. *)
Theorem sid_forms :
  (∀ b, sid_ok b → ∃ s, sid_to_string b = Some s ∧ sid_bytes s = Some b) ∧
  (∀ s b, sid_bytes s = Some b → sid_ok b) ∧
  (∀ s c, canonical_sid s = Some c → canonical_sid c = Some c ∧ sid_bytes c = sid_bytes (str_trim s)) ∧
  (∀ s t c, canonical_sid s = Some c → canonical_sid t = Some c ↔ sid_bytes (str_trim t) = sid_bytes (str_trim s)).
Proof.
  split_and!.
  - intros b Hb. destruct (sid_string_bytes b Hb) as (s & ? & ? & _). eauto.
  - apply sid_bytes_ok.
  - intros s c H. destruct (canonical_sid_Some s c H) as (b & Hb & Hs & Hb' & Ht). split; [|congruence].
    by eapply canonical_sid_idem.
  - intros s t c H. destruct (canonical_sid_Some s c H) as (b & Hb & Hs & Hb' & Ht). split.
    + intros Htc. destruct (canonical_sid_Some t c Htc) as (b2 & Hb2 & _ & Hb2' & _). congruence.
    + intros Heq. unfold canonical_sid. by rewrite Heq, Hb.
Qed.

(** ** Filters *)

(** How a directory reads a value in a filter (RFC 4515): a backslash and two hex digits stand for
    that byte, the characters that have a meaning in filters may not stand for themselves, and every
    other character does. *)
Fixpoint filter_value (l : chars) : option chars :=
  match l with
  | [] => Some []
  | c :: l' =>
      if decide (c = "092"%char) then
        match l' with
        | a :: b :: r =>
            x ← hex_value a; y ← hex_value b; rest ← filter_value r;
            Some (ascii_of_N (Z.to_N (16 * x + y)) :: rest)
        | _ => None
        end
      else if decide (c ∈ ["*"; "("; ")"; "000"]%char) then None
      else (fun rest => c :: rest) <$> filter_value l'
  end.

(** A value placed in a search filter is taken literally, whatever characters it holds: the
    directory reads back the value itself, so no part of it is read as filter syntax. *)
Theorem filter_is_literal (value : string) :
  filter_value (to_chars (escape_filter value)) = Some (to_chars value).
Proof.
  unfold escape_filter. rewrite to_of_chars. induction (to_chars value) as [|c l IH]; [done|].
  change ((c :: l) ≫= escape_char) with (escape_char c ++ (l ≫= escape_char)). unfold escape_char at 1.
  do 5 (case_decide; [subst; cbn; by rewrite IH|]).
  cbn [app filter_value]. rewrite decide_False by done. rewrite decide_False by set_solver. by rewrite IH.
Qed.

(** ** Domain controllers *)

Lemma filter_ne_count n i : (i < n)%nat → length (List.filter (fun j => negb (Nat.eqb j i)) (seq 0 n)) = (n - 1)%nat.
Proof.
  intros Hi.
  assert (∀ s m, (s ≤ i < s + m)%nat →
    length (List.filter (fun j => negb (Nat.eqb j i)) (seq s m)) = (m - 1)%nat) as H; [|apply H; lia].
  intros s m. revert s. induction m as [|m IH]; intros s Hs; [lia|]. simpl.
  destruct (Nat.eqb_spec s i) as [->|Hne]; simpl.
  - replace (List.filter _ (seq (S i) m)) with (seq (S i) m); [rewrite length_seq; lia|].
    symmetry. apply forallb_filter_id, forallb_forall. intros j Hj%in_seq.
    apply negb_true_iff, Nat.eqb_neq. lia.
  - rewrite IH by lia. lia.
Qed.

Lemma try_order_elem count preferred i : i ∈ try_order count preferred ↔ (i < count)%nat.
Proof.
  unfold try_order. set (first := if decide (preferred < count)%nat then preferred else 0%nat).
  destruct count as [|n]; [simpl; split; [inversion 1|lia]|].
  assert (first < S n)%nat as Hf by (unfold first; case_decide; lia).
  rewrite take_ge by (cbn [length]; rewrite filter_ne_count by done; lia).
  rewrite elem_of_cons, list_elem_of_In, filter_In, in_seq, negb_true_iff, Nat.eqb_neq.
  destruct (decide (i = first)); lia.
Qed.

Lemma try_order_NoDup count preferred : NoDup (try_order count preferred).
Proof.
  unfold try_order. eapply sublist_NoDup; [|apply sublist_take].
  apply NoDup_cons. split.
  - rewrite list_elem_of_In, filter_In, negb_true_iff, Nat.eqb_neq. tauto.
  - apply NoDup_ListNoDup, List.NoDup_filter, seq_NoDup.
Qed.

Lemma try_order_head count preferred : (preferred < count)%nat → head (try_order count preferred) = Some preferred.
Proof. intros H. unfold try_order. rewrite decide_True by done. destruct count; [lia|done]. Qed.

Section client_facts.
Context {U : Unicode} (cfg : DirectoryConfig) (net : Network).

(** This controller does not answer. *)
Definition silent (i : nat) : Prop := ∃ url e, d_urls cfg !! i = Some url ∧ dial net url = Err e.

Lemma connect_loop_spec order last :
  Forall (fun i => (i < length (d_urls cfg))%nat) order →
  match connect_loop cfg net order last with
  | Ok (url, i) => d_urls cfg !! i = Some url ∧ is_ok (dial net url) = true ∧
      ∃ pre post, order = pre ++ i :: post ∧ Forall silent pre
  | Err e => (∃ why, e = Unreachable why) ∧ Forall silent order
  end.
Proof.
  revert last. induction order as [|i order IH]; intros last Ho; simpl; [eauto|].
  apply Forall_cons in Ho as [Hi Ho]. apply lookup_lt_is_Some in Hi as [url Hu]. rewrite Hu.
  destruct (dial net url) as [[]|e] eqn:Hd.
  - split_and!; [done|by rewrite Hd|]. by exists [], order.
  - assert (silent i) as Hs by (exists url, e; done). specialize (IH (url +:+ ": " +:+ e) Ho).
    destruct (connect_loop cfg net order _) as [[url' j]|e'].
    + destruct IH as (? & ? & pre & post & -> & Hpre). split_and!; [done..|].
      exists (i :: pre), post. split; [done|by constructor].
    + destruct IH as [? ?]. split; [done|by constructor].
Qed.

(** A sign-in reaches a domain controller whenever one answers. The controllers are tried in an
    order that has each once, the one that last answered first; the connection is to the first in
    that order that answers, which becomes the preferred one, so a controller that keeps answering
    keeps being used; and there is no connection only if none of those configured answers. *)
Theorem connect_reaches (preferred : nat) :
  let order := try_order (length (d_urls cfg)) preferred in
  NoDup order ∧ (∀ i, i ∈ order ↔ (i < length (d_urls cfg))%nat) ∧
  match connect cfg net preferred with
  | Ok (url, i) => d_urls cfg !! i = Some url ∧ is_ok (dial net url) = true ∧
      (∃ pre post, order = pre ++ i :: post ∧ Forall silent pre) ∧
      connect cfg net i = Ok (url, i)
  | Err e => (∃ why, e = Unreachable why) ∧ ∀ i, (i < length (d_urls cfg))%nat → silent i
  end.
Proof.
  cbv zeta. split; [apply try_order_NoDup|]. split; [apply try_order_elem|].
  assert (∀ p, Forall (fun i => (i < length (d_urls cfg))%nat) (try_order (length (d_urls cfg)) p)) as Hall.
  { intros p. apply Forall_forall. intros i. apply try_order_elem. }
  unfold connect at 1. pose proof (connect_loop_spec _ "no domain controller configured" (Hall preferred)) as H.
  destruct (connect_loop cfg net _ _) as [[url i]|e].
  - destruct H as (Hu & Hd & Hpre). split_and!; [done..|].
    pose proof (try_order_head (length (d_urls cfg)) i (lookup_lt_Some _ _ _ Hu)) as Hh. unfold connect.
    destruct (try_order _ i) as [|j o]; [done|]. simpl in Hh. simplify_eq. simpl. rewrite Hu.
    by destruct (dial net url) as [[]|].
  - destruct H as [Hw Hs]. split; [done|]. intros i Hi. rewrite Forall_forall in Hs.
    by apply Hs, try_order_elem.
Qed.

(** ** Sign-in *)

(** What a password sign-in stands on: the name bound, the answers of the controller reached, and the
    account. *)
Record authentic (typed password : string) (now : Z) (preferred index : nat) (a : Account)
    (name url short : string) : Prop := {
  au_name : sign_in_name cfg typed = Some name;
  au_reached : connect cfg net preferred = Ok (url, index);
  au_password : password ≠ ""%string;
  au_bound : ∃ text, simple_bind net url name password = Ok (0, text);
  au_who : ∃ authzid domain, who_am_i net url name = Ok (Some authzid) ∧
    parse_authzid authzid = Some (domain, short) ∧
    ∀ nb d, d_netbios cfg = Some nb → domain = Some d → to_ascii_lowercase nb = to_ascii_lowercase d;
  au_account : find cfg net url name short now = Ok (Some a);
  au_usable : usable a = true;
}.

Lemma bind_Ok url name password :
  bind net url name password = Ok () ↔
  password ≠ ""%string ∧ ∃ text, simple_bind net url name password = Ok (0, text).
Proof.
  unfold bind. case_decide; [by split; [done|intros [? _]]|].
  destruct (simple_bind net url name password) as [[rc text]|]; [|by split; [done|intros (_ & ? & [=])]].
  destruct (decide (rc = 0)) as [->|Hrc]; [split; [eauto|done]|].
  split; [by case_decide|]. by intros (_ & t & [= -> _]).
Qed.

Lemma whoami_Ok url name domain short :
  whoami net url name = Ok (domain, short) ↔
  ∃ authzid, who_am_i net url name = Ok (Some authzid) ∧ parse_authzid authzid = Some (domain, short).
Proof.
  unfold whoami. destruct (who_am_i net url name) as [[z|]|].
  - change (default ""%string (Some z)) with z. destruct (parse_authzid z) as [p|] eqn:Hz; cbn [ok_or].
    + split; [intros [= ->]; eauto|]. intros (z' & [= <-] & Hz'). congruence.
    + split; [done|]. intros (z' & [= <-] & Hz'). congruence.
  - split; [done|]. by intros (z' & [=] & _).
  - split; [done|]. by intros (z' & [=] & _).
Qed.

(** C28. A password sign-in succeeds exactly when a controller was reached, the password is not empty
    and the controller accepted it, the controller then named an account, of the configured domain
    where both are known, and the one entry it has for that account is usable; and the account
    signed in is that one. The name that was typed decides only what is bound. *)
Theorem authenticate_exact (typed password : string) (now : Z) (preferred index : nat) (a : Account) :
  authenticate cfg net typed password now preferred = (Ok a, index) ↔
  ∃ name url short, authentic typed password now preferred index a name url short.
Proof.
  unfold authenticate, with_connection. split.
  - destruct (sign_in_name cfg typed) as [name|] eqn:Hn; [|done].
    destruct (connect cfg net preferred) as [[url i]|] eqn:Hc; [|done]. intros [= H <-].
    unfold mbind, result_bind in H.
    destruct (bind net url name password) as [[]|] eqn:Hb; [|done]. apply bind_Ok in Hb as [Hp Hb].
    destruct (whoami net url name) as [[domain short]|] eqn:Hw; [|done].
    apply whoami_Ok in Hw as (z & Hz & Hd). exists name, url, short.
    destruct (match d_netbios cfg with Some _ => _ | None => _ end) eqn:Hnb in H; [|done].
    destruct (find cfg net url name short now) as [[acc|]|] eqn:Hf; [|done..]. simpl in H.
    destruct (usable acc) eqn:Hus; [|done]. simplify_eq. split; try done.
    exists z, domain. split_and!; [done..|]. intros nb d E1 E2. rewrite E1, E2 in Hnb. by case_decide.
  - intros (name & url & short & [Hn Hc Hp Hb (z & domain & Hz & Hd & Hnb) Hf Hus]).
    rewrite Hn, Hc. unfold mbind, result_bind.
    rewrite (proj2 (bind_Ok _ _ _) (conj Hp Hb)), (proj2 (whoami_Ok _ _ _ _)) by eauto.
    destruct (d_netbios cfg) as [nb|], domain as [d|]; rewrite ?decide_True by (by apply Hnb); rewrite Hf; simpl;
      by rewrite Hus.
Qed.

(** The account of a single entry. *)
Lemma find_by_Some url bound filter username now a :
  find_by cfg net url bound filter username now = Ok (Some a) →
  ∃ e b, search net url bound (dir_base_dn cfg) filter = Ok [e] ∧
    bin_attrs (construct e) !! "objectSid"%string ≫= head = Some b ∧ sid_to_string b = Some (acc_sid a).
Proof.
  unfold find_by. destruct (search net url bound _ filter) as [[|e [|]]|]; [done| |done..].
  destruct (bin_attrs (construct e) !! "objectSid"%string ≫= head) as [b|] eqn:Hb; [|done].
  cbn [mbind option_bind]. destruct (sid_to_string b) as [sid|] eqn:Hs; [|done].
  cbn [ok_or mbind result_bind]. intros [= <-]. exists e, b. done.
Qed.

(** An account found for an identity provider's SID is the account with that SID: the directory was
    asked for exactly those bytes, gave one entry, and the SID of that entry is, in canonical form,
    the one asked for. *)
Lemma lookup_by_sid_found (pass sid : string) (now : Z) (preferred index : nat) (a : Account) :
  lookup_by_sid cfg net pass sid now preferred = (Ok (Some a), index) →
  canonical_sid sid = Some (acc_sid a) ∧
  ∃ url bound value e, connect cfg net preferred = Ok (url, index) ∧ sid_filter (acc_sid a) = Some value ∧
    search net url bound (dir_base_dn cfg)
      ("(&(objectCategory=person)(objectClass=user)(objectSid=" +:+ value +:+ "))") = Ok [e].
Proof.
  unfold lookup_by_sid. destruct (canonical_sid sid) as [wanted|] eqn:Hc; [|done]. cbn [ok_or].
  unfold lookup_each. destruct (d_service_account cfg ≫= normalize_username) as [service|]; [|done]. cbn [ok_or].
  unfold with_connection. destruct (connect cfg net preferred) as [[url i]|]; [|done].
  unfold mbind at 1, result_bind at 1. destruct (match bind net url _ pass with Ok _ => _ | Err _ => _ end); [|done].
  cbn [fmap list_fmap fst snd last option_fmap option_map from_option id]. unfold find_sid.
  destruct (sid_filter wanted) as [value|] eqn:Hv; [|done]. cbn [ok_or mbind result_bind].
  destruct (find_by _ _ _ _ _ _ _) as [[acc|]|] eqn:Hf; [|done..]. cbn [from_option id]. case_decide as Hw; [done|].
  intros [= -> ->]. rewrite Hw. split; [done|]. apply find_by_Some in Hf as (e & b & Hs & _).
  exists url, (bind_name cfg service), value, e. done.
Qed.

(** ** SIDs that are text *)

Lemma construct_text name e :
  (∀ values, (name, values) ∈ e → Forall (fun v => utf8_valid v = true) values) →
  bin_attrs (construct e) !! name = None.
Proof.
  unfold construct. assert (bin_attrs (mkEntry ∅ ∅) !! name = None) as H0 by done. revert H0.
  generalize (mkEntry ∅ ∅). induction e as [|[n values] e IH]; intros acc Hacc He; [done|]. simpl.
  apply IH; [|intros vs Hvs; apply He; by right].
  assert (n = name → List.filter (fun v => negb (utf8_valid v)) values = []) as Hn.
  { intros ->. specialize (He values (list_elem_of_here _ _)). induction He as [|v vs Hv _ IHv]; [done|].
    simpl. by rewrite Hv. }
  case_decide as Hb; [done|]. simpl. rewrite lookup_insert_ne; [done|naive_solver].
Qed.

(** C40. An account whose binary SID happens to be valid UTF-8 cannot be found: the entry's objectSid
    is then sorted among the text attributes, where the client does not look, and the lookup fails
    as if the account had no readable SID. *)
Theorem text_sid_is_unreadable (url bound filter username : string) (now : Z) (e : RawEntry) :
  search net url bound (dir_base_dn cfg) filter = Ok [e] →
  (∀ values, ("objectSid"%string, values) ∈ e → Forall (fun v => utf8_valid v = true) values) →
  find_by cfg net url bound filter username now = Err (Protocol "the account has no readable objectSid").
Proof.
  intros Hs Ht. unfold find_by. rewrite Hs. by rewrite (construct_text _ _ Ht).
Qed.
End client_facts.

(** ** On concrete answers *)

(** The SID S-1-5-21-100-200-300-1103 has a byte past 127; S-1-5-21-1-2-3-1103 has none. *)
Definition sample_sid : bytes := default [] (sid_bytes "S-1-5-21-100-200-300-1103").
Definition text_sid : bytes := default [] (sid_bytes "S-1-5-21-1-2-3-1103").

Definition sample_entry (sid : bytes) : RawEntry :=
  [("objectSid", [sid]); ("sAMAccountName", [String.list_byte_of_string "JSmith"]);
   ("userAccountControl", [String.list_byte_of_string "512"])]%string.

(** One controller that does not answer and one that does. *)
Definition sample_net (sid : bytes) : Network := {|
  dial := fun url => if decide (url = "ldaps://dc1"%string) then Err "down"%string else Ok ();
  simple_bind := fun _ _ password => Ok (if decide (password = "pw"%string) then 0 else 49, "data 52e, v"%string);
  who_am_i := fun _ _ => Ok (Some (of_chars (to_chars "u:CORP" ++ "092"%char :: to_chars "JSmith")));
  search := fun _ _ _ _ => Ok [sample_entry sid];
|}.

Definition sample_dir : DirectoryConfig :=
  mkDirConfig "corp.example.com" (Some "CORP"%string) ["ldaps://dc1"; "ldaps://dc2"]%string None
    (Some "svc-proxy"%string).

Example authenticate_example :
  authenticate (U:=ascii_unicode) sample_dir (sample_net sample_sid) " jsmith@corp.example.com" "pw" 0 0 =
    (Ok (mkAccount "jsmith" None "S-1-5-21-100-200-300-1103" false false), 1%nat) ∧
  authenticate (U:=ascii_unicode) sample_dir (sample_net sample_sid) "jsmith" "no" 0 0 =
    (Err InvalidCredentials, 1%nat) ∧
  authenticate (U:=ascii_unicode) sample_dir (sample_net text_sid) "jsmith" "pw" 0 1 =
    (Err (Protocol "the account has no readable objectSid"), 1%nat).
Proof. split_and!; vm_compute; reflexivity. Qed.

Example lookup_by_sid_witness :
  canonical_sid "S-1-5-21-0100-200-300-1103" = Some "S-1-5-21-100-200-300-1103"%string ∧
  ∃ url bound value e, connect sample_dir (sample_net sample_sid) 0 = Ok (url, 1%nat) ∧
    sid_filter "S-1-5-21-100-200-300-1103" = Some value ∧
    search (sample_net sample_sid) url bound (dir_base_dn sample_dir)
      ("(&(objectCategory=person)(objectClass=user)(objectSid=" +:+ value +:+ "))") = Ok [e].
Proof.
  apply (lookup_by_sid_found (U:=ascii_unicode) sample_dir (sample_net sample_sid) "pw"
           "S-1-5-21-0100-200-300-1103" 0 0 1
           (mkAccount "jsmith" None "S-1-5-21-100-200-300-1103" false false)).
  vm_compute. reflexivity.
Defined.

Example text_sid_witness :
  sid_to_string text_sid = Some "S-1-5-21-1-2-3-1103"%string ∧
  find_by (U:=ascii_unicode) sample_dir (sample_net text_sid) "ldaps://dc2" "svc" "f" "jsmith" 0 =
    Err (Protocol "the account has no readable objectSid").
Proof.
  split; [vm_compute; reflexivity|].
  apply (text_sid_is_unreadable (U:=ascii_unicode) sample_dir (sample_net text_sid)) with (sample_entry text_sid).
  - vm_compute. reflexivity.
  - intros values Hv. unfold sample_entry in Hv. rewrite !elem_of_cons in Hv.
    destruct Hv as [[= ->]|[[=]|[[=]|Hv]]]; [|by apply elem_of_nil in Hv].
    repeat constructor.
Defined.
