(* ===== verification/Framing.v ===== *)
(** * Framing the relayed stream (src/src/scan/framing.rs)

    One direction of the stream cut into whole units. The header reader [find_size] of the vendored
    [ironrdp-pdu] is translated with it, so that nothing about the cut is assumed. An error carries
    the values its message is made from. *)

From S2P Require Import Prelude.
Local Open Scope Z_scope.

(** ** The header reader (src/vendor/ironrdp-pdu/src/lib.rs and tpkt.rs) *)

Inductive Action := FastPath | X224.

Inductive DecodeError :=
  | UnknownAction (bits : Z)
  | UnsupportedVersion (version : Z)
  | PacketLength (length : Z)
  | FastPathLength (length : Z).

Record PduInfo := mkPduInfo { action : Action; pdu_length : Z }.

Definition from_fp_output_header (header : byte) : result DecodeError Action :=
  let bits := Z.land (u8 header) 3 in
  if decide (bits = 0) then Ok FastPath
  else if decide (bits = 3) then Ok X224
  else Err (UnknownAction bits).

(** [TpktHeader::read] on the four bytes of a header. *)
Definition tpkt_read (version b2 b3 : byte) : result DecodeError Z :=
  if decide (u8 version ≠ 3) then Err (UnsupportedVersion (u8 version))
  else
    let packet_length := u8 b2 * 256 + u8 b3 in
    if decide (packet_length < 7) then Err (PacketLength packet_length) else Ok packet_length.

Definition find_size (buf : bytes) : result DecodeError (option PduInfo) :=
  match buf with
  | [] => Ok None
  | b0 :: rest =>
      a ← from_fp_output_header b0;
      match a with
      | X224 =>
          match rest with
          | _ :: b2 :: b3 :: _ => n ← tpkt_read b0 b2 b3; Ok (Some (mkPduInfo X224 n))
          | _ => Ok None
          end
      | FastPath =>
          let checked n header :=
            if decide (n < header) then Err (FastPathLength n)
            else Ok (Some (mkPduInfo FastPath n)) in
          match rest with
          | [] => Ok None
          | b1 :: rest' =>
              if decide (Z.land (u8 b1) 128 ≠ 0) then
                match rest' with
                | [] => Ok None
                | b2 :: _ => checked (Z.shiftl (Z.land (u8 b1) 127) 8 + u8 b2) 3
                end
              else checked (u8 b1) 2
          end
      end
  end.

(** ** The framer *)

Definition MAX_UNIT : Z := Z.shiftl 1 20.

Inductive Unit_ :=
  | UOpaque (b : bytes)
  | UTpkt (b : bytes)
  | UFastPath (b : bytes).

(** [Unit::bytes]. *)
Definition unit_bytes (u : Unit_) : bytes :=
  match u with UOpaque b | UTpkt b | UFastPath b => b end.

(** [FrameError::OutOfStep], by what its message says. *)
Inductive FrameError :=
  | OutOfStep_header (e : DecodeError)
  | OutOfStep_early (first : byte)
  | OutOfStep_unit (len : Z)
  | OutOfStep_der (octets : Z).

Record Framer := mkFramer {
  buf : bytes;
  from_server : bool;
  hybrid_ex : bool;
  mcs : bool;
  euar_seen : bool;
}.

Definition framer_new (server hybrid : bool) : Framer := mkFramer [] server hybrid false false.

(** The length of a DER value starting at [buf[0]], once its length octets are in. *)
Definition der_length (buf : bytes) : result FrameError (option Z) :=
  match buf !! 1%nat with
  | None => Ok None
  | Some first =>
      if decide (u8 first < 128) then Ok (Some (2 + u8 first))
      else
        let n := Z.land (u8 first) 127 in
        if decide (n = 0 ∨ 4 < n) then Err (OutOfStep_der n)
        else if decide (len buf < 2 + n) then Ok None
        else
          let octets := take (Z.to_nat n) (drop 2 buf) in
          Ok (Some (2 + n + foldl (fun acc b => Z.lor (Z.shiftl acc 8) (u8 b)) 0 octets))
  end.

(** What the first bytes announce: the length of the unit and its kind. *)
Definition announced (f : Framer) (first : byte) : result FrameError (option (Z * (bytes → Unit_))) :=
  let euar := negb (mcs f) && from_server f && hybrid_ex f && negb (euar_seen f) in
  if negb (mcs f) && bool_decide (u8 first = 48) then
    match der_length (buf f) with
    | Err e => Err e
    | Ok None => Ok None
    | Ok (Some n) => Ok (Some (n, UOpaque))
    end
  else if euar && negb (bool_decide (u8 first = 3)) then Ok (Some (4, UOpaque))
  else
    match find_size (buf f) with
    | Err e => Err (OutOfStep_header e)
    | Ok None => Ok None
    | Ok (Some info) =>
        match action info with
        | X224 => Ok (Some (pdu_length info, UTpkt))
        | FastPath =>
            if mcs f then Ok (Some (pdu_length info, UFastPath)) else Err (OutOfStep_early first)
        end
    end.

Definition next_unit : M Framer FrameError (option Unit_) := fun f =>
  match buf f with
  | [] => (Ok None, f)
  | first :: _ =>
      let euar := negb (mcs f) && from_server f && hybrid_ex f && negb (euar_seen f) in
      match announced f first with
      | Err e => (Err e, f)
      | Ok None => (Ok None, f)
      | Ok (Some (n, kind)) =>
          if decide (n = 0 ∨ MAX_UNIT < n) then (Err (OutOfStep_unit n), f)
          else if decide (len (buf f) < n) then (Ok None, f)
          else
            let unit := kind (take (Z.to_nat n) (buf f)) in
            let rest := drop (Z.to_nat n) (buf f) in
            (Ok (Some unit),
             match unit with
             | UTpkt _ => mkFramer rest (from_server f) (hybrid_ex f) true (euar_seen f)
             | UOpaque _ =>
                 mkFramer rest (from_server f) (hybrid_ex f) (mcs f)
                   (euar_seen f || (euar && negb (bool_decide (u8 first = 48))))
             | UFastPath _ => mkFramer rest (from_server f) (hybrid_ex f) (mcs f) (euar_seen f)
             end)
      end
  end.

(** [while let Some(unit) = self.next_unit()?]; each round takes at least one byte. *)
Fixpoint units_loop (fuel : nat) : M Framer FrameError (list Unit_) :=
  match fuel with
  | O => mret []
  | S fuel' =>
      u ← next_unit;
      match u with
      | None => mret []
      | Some u => us ← units_loop fuel'; mret (u :: us)
      end
  end.

Definition extend (b : bytes) (f : Framer) : Framer :=
  mkFramer (buf f ++ b) (from_server f) (hybrid_ex f) (mcs f) (euar_seen f).

(** [Framer::push]. *)
Definition push (b : bytes) : M Framer FrameError (list Unit_) := fun f =>
  units_loop (S (length (buf (extend b f)))) (extend b f).

(** ** One unit *)

Lemma der_octets_nonneg (l : bytes) acc :
  0 ≤ acc → 0 ≤ foldl (fun acc b => Z.lor (Z.shiftl acc 8) (u8 b)) acc l.
Proof.
  revert acc. induction l as [|b l IH]; intros acc Hacc; simpl; [done|]. apply IH.
  apply Z.lor_nonneg. rewrite Z.shiftl_nonneg. split; [done|]. apply u8_range.
Qed.

Lemma der_length_pos b n : der_length b = Ok (Some n) → 0 ≤ n.
Proof.
  unfold der_length. destruct (b !! 1%nat) as [first|]; [|done]. pose proof (u8_range first).
  repeat case_decide; intros [= <-]; [lia|].
  assert (0 ≤ Z.land (u8 first) 127) by (apply Z.land_nonneg; lia).
  pose proof (der_octets_nonneg (take (Z.to_nat (Z.land (u8 first) 127)) (drop 2 b)) 0 ltac:(lia)). lia.
Qed.

Lemma find_size_pos b info : find_size b = Ok (Some info) → 0 ≤ pdu_length info.
Proof.
  unfold find_size. destruct b as [|b0 b]; [done|]. unfold mbind, result_bind.
  destruct (from_fp_output_header b0) as [[]|]; [| |done].
  - destruct b as [|b1 b]; [done|]. pose proof (u8_range b1). case_decide.
    + destruct b as [|b2 b]; [done|]. case_decide; intros [= <-]; simpl. lia.
    + case_decide; intros [= <-]; simpl. lia.
  - destruct b as [|b1 [|b2 [|b3 b]]]; [done..|]. unfold tpkt_read.
    repeat case_decide; intros [= <-]; simpl. lia.
Qed.

(** What the first bytes decide, later bytes do not change. *)
Lemma der_length_stable b c : der_length b ≠ Ok None → der_length (b ++ c) = der_length b.
Proof.
  unfold der_length. destruct (b !! 1%nat) as [first|] eqn:H1; [|done].
  rewrite (lookup_app_l_Some _ _ _ _ H1). case_decide; [done|]. case_decide as Hn; [done|].
  set (n := Z.land (u8 first) 127) in *. rewrite len_app. pose proof (len_nonneg c).
  case_decide; [done|]. rewrite decide_False by lia. intros _. unfold len in *.
  pose proof (lookup_lt_Some _ _ _ H1).
  assert (0 ≤ n) by (apply Z.land_nonneg; right; lia).
  rewrite drop_app_le by lia. rewrite take_app_le; [done|]. rewrite length_drop. lia.
Qed.

Lemma find_size_stable b c : find_size b ≠ Ok None → find_size (b ++ c) = find_size b.
Proof.
  unfold find_size. destruct b as [|b0 b]; [done|]. simpl. unfold mbind, result_bind.
  destruct (from_fp_output_header b0) as [[]|]; [| |done].
  - destruct b as [|b1 b]; [done|]. simpl. case_decide; [|done]. by destruct b as [|b2 b].
  - by destruct b as [|b1 [|b2 [|b3 b]]].
Qed.

Lemma announced_ok f first n kind :
  announced f first = Ok (Some (n, kind)) →
  0 ≤ n ∧ (kind = UOpaque ∨ kind = UTpkt ∨ kind = UFastPath ∧ mcs f = true).
Proof.
  unfold announced. destruct (negb (mcs f) && _).
  { destruct (der_length (buf f)) as [[m|]|] eqn:E; intros [= <- <-].
    split; [by eapply der_length_pos|auto]. }
  destruct (_ && negb (bool_decide (u8 first = 3))); [intros [= <- <-]; split; [lia|auto]|].
  destruct (find_size (buf f)) as [[info|]|] eqn:E; [|done..]. apply find_size_pos in E.
  destruct (action info), (mcs f); intros [= <- <-]; auto.
Qed.

Lemma announced_stable f first c :
  announced f first ≠ Ok None → announced (extend c f) first = announced f first.
Proof.
  unfold announced. simpl. destruct (negb (mcs f) && bool_decide (u8 first = 48)).
  { intros H. rewrite der_length_stable; [done|]. by destruct (der_length (buf f)) as [[]|]. }
  destruct (_ && negb (bool_decide (u8 first = 3))); [done|].
  intros H. rewrite find_size_stable; [done|]. by destruct (find_size (buf f)) as [[]|].
Qed.

(** A step that yields a unit cuts it off the front of the buffer. *)
Lemma next_unit_cut f u f' :
  next_unit f = (Ok (Some u), f') →
  buf f = unit_bytes u ++ buf f' ∧ 0 < len (unit_bytes u) ≤ MAX_UNIT.
Proof.
  unfold next_unit. destruct (buf f) as [|first b] eqn:Hb; [done|]. rewrite <-Hb.
  destruct (announced f first) as [[[n kind]|]|e] eqn:Ha; [|done..].
  apply announced_ok in Ha as [Hpos Hk].
  case_decide as Hn; [done|]. case_decide as Hlen; [done|].
  assert (0 < len (take (Z.to_nat n) (buf f)) ≤ MAX_UNIT) as Hr.
  { unfold len in *. rewrite length_take. lia. }
  intros [= Hu Hf]. subst u f'. destruct Hk as [->|[->|[-> _]]]; simpl; by rewrite take_drop.
Qed.

Lemma next_unit_other f r f' : next_unit f = (r, f') → (∀ u, r ≠ Ok (Some u)) → f' = f.
Proof.
  unfold next_unit. destruct (buf f) as [|first b]; [by intros [= <- <-]|].
  destruct (announced f first) as [[[n kind]|]|e]; [|by intros [= <- <-]..].
  repeat case_decide; intros [= <- <-] Hr; try done; by destruct (Hr _ eq_refl).
Qed.

Lemma next_unit_stable c f r f' :
  next_unit f = (r, f') → r ≠ Ok None → next_unit (extend c f) = (r, extend c f').
Proof.
  intros Hn Hr. destruct (buf f) as [|first b] eqn:Hb.
  { unfold next_unit in Hn. rewrite Hb in Hn. by simplify_eq. }
  assert (buf (extend c f) = first :: (b ++ c)) as Hb' by (unfold extend; simpl; by rewrite Hb).
  assert (len (buf (extend c f)) = len (buf f) + len c) as Hl by (unfold extend; simpl; apply len_app).
  unfold next_unit in Hn |- *. rewrite Hb in Hn at 1. rewrite Hb' at 1. simpl in Hn.
  assert (announced f first ≠ Ok None) as Ha.
  { intros E. rewrite E in Hn. by simplify_eq. }
  rewrite announced_stable by done.
  destruct (announced f first) as [[[n kind]|]|e] eqn:E; [|done|by simplify_eq].
  apply announced_ok in E as [Hpos Hk]. pose proof (len_nonneg c).
  case_decide as Hn0; [by simplify_eq|]. case_decide as Hlen; [by simplify_eq|].
  rewrite decide_False by lia. unfold len in Hlen. simpl buf.
  rewrite take_app_le, drop_app_le by lia. simplify_eq.
  by destruct Hk as [->|[->|[-> _]]].
Qed.

(** ** The loop *)

(** Every unit now complete: the loop of [push] with the fuel [push] gives it. *)
Definition units : M Framer FrameError (list Unit_) := fun f => units_loop (S (length (buf f))) f.

Lemma next_unit_shrinks f u f' :
  next_unit f = (Ok (Some u), f') → (length (buf f') < length (buf f))%nat.
Proof.
  intros [Hb [Hpos _]]%next_unit_cut. rewrite Hb, length_app. unfold len in Hpos. lia.
Qed.

(** The fuel is enough: more makes no difference. *)
Lemma units_loop_fuel fuel f :
  (length (buf f) < fuel)%nat → units_loop fuel f = units f.
Proof.
  unfold units. revert f. assert (∀ n m f, (length (buf f) < n)%nat → (length (buf f) < m)%nat →
    units_loop n f = units_loop m f) as H; [|intros f Hf; apply H; lia].
  induction n as [|n IH]; intros [|m] f Hn Hm; [lia..|]. simpl. unfold mbind, M_bind.
  destruct (next_unit f) as [[[u|]|e] f'] eqn:E; [|done..].
  apply next_unit_shrinks in E. by rewrite (IH m) by lia.
Qed.

Lemma units_eq f :
  units f =
  match next_unit f with
  | (Ok None, f') => (Ok [], f')
  | (Ok (Some u), f') =>
      match units f' with (Ok us, f'') => (Ok (u :: us), f'') | (Err e, f'') => (Err e, f'') end
  | (Err e, f') => (Err e, f')
  end.
Proof.
  unfold units at 1. simpl. unfold mbind, M_bind.
  destruct (next_unit f) as [[[u|]|e] f'] eqn:E; [|done..].
  apply next_unit_shrinks in E. by rewrite units_loop_fuel by lia.
Qed.

Lemma push_units b f : push b f = units (extend b f).
Proof. done. Qed.

(** Induction along the units cut off. *)
Lemma units_ind (P : Framer → Prop) :
  (∀ f, (∀ u f', next_unit f = (Ok (Some u), f') → P f') → P f) → ∀ f, P f.
Proof.
  intros H f. remember (length (buf f)) as n eqn:Hn. revert f Hn.
  induction n as [n IH] using lt_wf_ind. intros f ->. apply H. intros u f' Hu.
  eapply IH; [|done]. by eapply next_unit_shrinks.
Qed.

Lemma units_ok_lossless f us f' :
  units f = (Ok us, f') →
  buf f = (us ≫= unit_bytes) ++ buf f' ∧ next_unit f' = (Ok None, f') ∧
  Forall (fun u => 0 < len (unit_bytes u) ≤ MAX_UNIT) us.
Proof.
  revert us. induction f as [f IH] using units_ind. intros us. rewrite units_eq.
  destruct (next_unit f) as [[[u|]|e] f1] eqn:E; [| |done].
  - destruct (units f1) as [[us'|e] f2] eqn:E'; [|done]. intros [= <- <-].
    destruct (IH _ _ eq_refl _ E') as (Hb & Hn & Hall).
    destruct (next_unit_cut _ _ _ E) as [Hb' Hlen]. split_and!; [|done|by constructor].
    rewrite Hb', Hb. simpl. by rewrite app_assoc.
  - intros [= <- <-]. pose proof (next_unit_other _ _ _ E ltac:(done)) as ->. by split_and!.
Qed.

(** Bytes that arrive later are appended to what is left. *)
Lemma units_extend c f :
  match units f with
  | (Ok us, f') =>
      units (extend c f) =
      match units (extend c f') with
      | (Ok vs, f'') => (Ok (us ++ vs), f'')
      | (Err e, f'') => (Err e, f'')
      end
  | (Err e, f') => units (extend c f) = (Err e, extend c f')
  end.
Proof.
  induction f as [f IH] using units_ind. rewrite (units_eq f).
  destruct (next_unit f) as [[[u|]|e] f1] eqn:E.
  - specialize (IH _ _ eq_refl). rewrite (units_eq (extend c f)).
    rewrite (next_unit_stable c _ _ _ E) by done.
    destruct (units f1) as [[us|e] f2]; rewrite IH; [|done]. by destruct (units (extend c f2)) as [[]].
  - pose proof (next_unit_other _ _ _ E ltac:(done)) as ->. by destruct (units (extend c f)) as [[]].
  - rewrite (units_eq (extend c f)). by rewrite (next_unit_stable c _ _ _ E).
Qed.

(** ** What is kept waiting *)

Lemma next_unit_none_bound f f' :
  next_unit f = (Ok None, f') → len (buf f) < MAX_UNIT.
Proof.
  assert (6 < MAX_UNIT) as HM by (vm_compute; done).
  unfold next_unit. destruct (buf f) as [|first b] eqn:Hb; [intros _; unfold len; simpl; lia|].
  rewrite <-Hb. destruct (announced f first) as [[[n kind]|]|e] eqn:Ha; [|intros _|done].
  { case_decide; [done|]. case_decide; [intros _; lia|done]. }
  enough (len (buf f) ≤ 6) by lia. revert Ha. unfold announced.
  destruct (negb (mcs f) && bool_decide (u8 first = 48)).
  - unfold der_length. destruct (buf f !! 1%nat) as [x|] eqn:H1.
    2: { apply lookup_ge_None in H1. unfold len. lia. }
    case_decide; [done|]. case_decide; [done|]. case_decide; [|done]. lia.
  - destruct (_ && negb (bool_decide (u8 first = 3))); [done|]. unfold len.
    destruct (find_size (buf f)) as [[info|]|] eqn:E; [by destruct (action info), (mcs f)| |done].
    intros _. revert E. unfold find_size, mbind, result_bind.
    destruct (buf f) as [|b0 l]; simpl; [lia|].
    destruct (from_fp_output_header b0) as [[]|]; [| |done].
    + destruct l as [|b1 l]; simpl; [lia|]. case_decide; [|case_decide; done].
      destruct l as [|b2 l]; simpl; [lia|]. case_decide; done.
    + destruct l as [|b1 [|b2 [|b3 l]]]; simpl; try lia. by destruct (tpkt_read b0 b2 b3).
Qed.

(** Framing loses nothing, adds nothing and bounds what it holds: when a piece of the stream is
    accepted, the units returned followed by what is still buffered are exactly the bytes that were
    buffered followed by the piece; every unit is between one byte and 1 MiB long; and less than
    1 MiB is left waiting, whatever was received. *)
Theorem framing_lossless (f f' : Framer) (piece : bytes) (us : list Unit_) :
  push piece f = (Ok us, f') →
  (us ≫= unit_bytes) ++ buf f' = buf f ++ piece ∧
  Forall (fun u => 0 < len (unit_bytes u) ≤ MAX_UNIT) us ∧ len (buf f') < MAX_UNIT.
Proof.
  rewrite push_units. intros (Hb & Hn & Hall)%units_ok_lossless.
  split_and!; [by rewrite <-Hb|done|]. by eapply next_unit_none_bound.
Qed.

Definition sample_tpkt : bytes := [x03; x00; x00; x08; x02; xf0; x80; x64].

Example framing_lossless_witness :
  ∃ us f', push (sample_tpkt ++ [x03; x00]) (framer_new false false) = (Ok us, f') ∧
    (us ≫= unit_bytes) ++ buf f' = sample_tpkt ++ [x03; x00].
Proof.
  eexists _, _. split; [vm_compute; reflexivity|].
  refine (proj1 (framing_lossless (framer_new false false) _ (sample_tpkt ++ [x03; x00]) _ _)).
  vm_compute. reflexivity.
Defined.

(** Where the network cuts the stream does not matter: pushing two pieces one after the other
    gives the units, the error if there is one, and the state that pushing them as one gives. *)
Theorem framing_chunking (f : Framer) (a b : bytes) :
  let both := us ← push a; vs ← push b; mret (us ++ vs) in
  fst (push (a ++ b) f) = fst (both f) ∧
  (is_ok (fst (both f)) = true → push (a ++ b) f = both f).
Proof.
  simpl. assert (push (a ++ b) f = units (extend b (extend a f))) as ->.
  { rewrite push_units. unfold extend. simpl. by rewrite app_assoc. }
  pose proof (units_extend b (extend a f)) as H. unfold mbind, M_bind, mret, M_ret.
  rewrite !push_units. destruct (units (extend a f)) as [[us|e] f1]; rewrite H; [|done].
  rewrite push_units. by destruct (units (extend b f1)) as [[vs|e] f2].
Qed.

(** ** Units on the wire *)

(** The messages of the connection sequence, as they are written. *)
Inductive wire :=
  | WDer (octets payload : bytes)     (** CredSSP; no octets for the short length form *)
  | WEuar (result : bytes)            (** the Early User Authorization Result *)
  | WTpkt (x224 : bytes)
  | WFast (header : byte) (long : bool) (payload : bytes).

Definition be_value (l : bytes) : Z := foldl (fun acc b => Z.lor (Z.shiftl acc 8) (u8 b)) 0 l.

Definition wire_bytes (w : wire) : bytes :=
  match w with
  | WDer octets p =>
      x30 :: to_u8 (if decide (octets = []) then len p else 128 + len octets) :: octets ++ p
  | WEuar r => r
  | WTpkt p => x03 :: x00 :: to_u8 ((4 + len p) / 256) :: to_u8 (4 + len p) :: p
  | WFast h false p => h :: to_u8 (2 + len p) :: p
  | WFast h true p => h :: to_u8 (128 + (3 + len p) / 256) :: to_u8 (3 + len p) :: p
  end.

Definition wire_unit (w : wire) : Unit_ :=
  match w with
  | WDer _ _ | WEuar _ => UOpaque (wire_bytes w)
  | WTpkt _ => UTpkt (wire_bytes w)
  | WFast _ _ _ => UFastPath (wire_bytes w)
  end.

(** The lengths fit their fields, and the message may come now. *)
Definition wire_ok (f : Framer) (w : wire) : Prop :=
  match w with
  | WDer octets p =>
      mcs f = false ∧ len (wire_bytes w) ≤ MAX_UNIT ∧
      (octets = [] ∧ len p < 128 ∨ 1 ≤ len octets ≤ 4 ∧ be_value octets = len p)
  | WEuar r =>
      mcs f = false ∧ from_server f = true ∧ hybrid_ex f = true ∧ euar_seen f = false ∧
      len r = 4 ∧ (∀ b, head r = Some b → b ≠ x30 ∧ b ≠ x03)
  | WTpkt p => 3 ≤ len p ∧ 4 + len p < 65536
  | WFast h long p =>
      mcs f = true ∧ Z.land (u8 h) 3 = 0 ∧
      if long then 3 + len p < 32768 else 2 + len p < 128
  end.

Definition wire_next (f : Framer) (w : wire) : Framer :=
  mkFramer [] (from_server f) (hybrid_ex f)
    (match w with WTpkt _ => true | _ => mcs f end)
    (match w with WEuar _ => true | _ => euar_seen f end).

Fixpoint stream_ok (f : Framer) (ws : list wire) : Prop :=
  match ws with
  | [] => True
  | w :: ws' => wire_ok f w ∧ stream_ok (wire_next f w) ws'
  end.

(** The pieces as they arrive. *)
Definition feed (pieces : list bytes) : M Framer FrameError (list Unit_) :=
  foldM (fun us b => vs ← push b; mret (us ++ vs)) [] pieces.

Lemma land_127 b : Z.land (u8 b) 127 = u8 b mod 128.
Proof. by destruct b. Qed.

Lemma land_128 b : Z.land (u8 b) 128 ≠ 0 ↔ 128 ≤ u8 b.
Proof. destruct b; vm_compute; split; intros H; congruence || by destruct H. Qed.

(** A buffer that is one unit, whole. *)
Lemma next_unit_whole f first b n kind :
  buf f = first :: b → announced f first = Ok (Some (n, kind)) →
  n = len (buf f) → n ≤ MAX_UNIT →
  next_unit f = (Ok (Some (kind (buf f))),
    let euar := negb (mcs f) && from_server f && hybrid_ex f && negb (euar_seen f) in
    match kind (buf f) with
    | UTpkt _ => mkFramer [] (from_server f) (hybrid_ex f) true (euar_seen f)
    | UOpaque _ => mkFramer [] (from_server f) (hybrid_ex f) (mcs f)
                     (euar_seen f || (euar && negb (bool_decide (u8 first = 48))))
    | UFastPath _ => mkFramer [] (from_server f) (hybrid_ex f) (mcs f) (euar_seen f)
    end).
Proof.
  intros Hb Ha Hn Hmax. unfold next_unit. rewrite Hb at 1. rewrite Ha.
  assert (0 < n) by (rewrite Hn, Hb; unfold len; simpl; lia).
  rewrite decide_False by lia. rewrite decide_False by lia.
  assert (Z.to_nat n = length (buf f)) as -> by (unfold len in Hn; lia).
  rewrite firstn_all, drop_all. done.
Qed.

Lemma announced_der f octets p :
  buf f = wire_bytes (WDer octets p) → wire_ok f (WDer octets p) →
  announced f x30 = Ok (Some (len (buf f), UOpaque)).
Proof.
  intros Hb (Hmcs & Hlen & Hok). unfold announced. rewrite Hmcs.
  rewrite bool_decide_true by done. simpl andb. cbv iota. rewrite Hb. simpl wire_bytes.
  pose proof (len_nonneg p) as Hp. unfold der_length. simpl.
  destruct Hok as [[-> Hs]|[Ho Hv]].
  - rewrite (decide_True (P := [] = [])) by done. rewrite u8_to_u8, Z.mod_small by lia.
    rewrite decide_True by lia. unfold len. simpl. repeat f_equal. lia.
  - rewrite (decide_False (P := octets = [])) by (intros ->; unfold len in Ho; simpl in Ho; lia).
    rewrite land_127, u8_to_u8, !(Z.mod_small (128 + len octets) 256) by lia.
    rewrite decide_False by lia.
    assert ((128 + len octets) mod 128 = len octets) as ->.
    { rewrite <-(Z.mul_1_l 128), Z.add_comm at 1. rewrite Z.mod_add by lia. apply Z.mod_small. lia. }
    rewrite decide_False by lia. unfold len. simpl length. rewrite length_app.
    rewrite decide_False by lia. rewrite drop_0, Nat2Z.id, take_app_length.
    fold (be_value octets). rewrite Hv. unfold len. repeat f_equal. lia.
Qed.

Lemma announced_tpkt f p :
  buf f = wire_bytes (WTpkt p) → wire_ok f (WTpkt p) →
  announced f x03 = Ok (Some (len (buf f), UTpkt)).
Proof.
  intros Hb [Hlo Hhi]. unfold announced. rewrite (bool_decide_false (u8 x03 = 48)) by done.
  rewrite andb_false_r. rewrite (bool_decide_true (u8 x03 = 3)) by done. rewrite andb_false_r.
  rewrite Hb. simpl. unfold tpkt_read. rewrite (decide_False (P := u8 x03 ≠ 3)) by (intros []; done).
  assert (u8 (to_u8 ((4 + len p) / 256)) * 256 + u8 (to_u8 (4 + len p)) = 4 + len p) as ->.
  { rewrite !u8_to_u8, (Z.mod_small ((4 + len p) / 256)).
    - pose proof (Z.div_mod (4 + len p) 256). lia.
    - split; [apply Z.div_pos|apply Z.div_lt_upper_bound]; lia. }
  rewrite decide_False by lia. simpl. unfold len. simpl length. repeat f_equal. lia.
Qed.

Lemma announced_fast f h long p :
  buf f = wire_bytes (WFast h long p) → wire_ok f (WFast h long p) →
  announced f h = Ok (Some (len (buf f), UFastPath)).
Proof.
  intros Hb (Hmcs & Hh & Hlen). unfold announced. rewrite Hmcs. simpl. rewrite Hb.
  pose proof (len_nonneg p) as Hp. destruct long; simpl; unfold from_fp_output_header;
    rewrite (decide_True (P := Z.land (u8 h) 3 = 0)) by done; simpl.
  - set (b1 := to_u8 (128 + (3 + len p) / 256)).
    assert (0 ≤ (3 + len p) / 256 < 128) as Hq.
    { split; [apply Z.div_pos|apply Z.div_lt_upper_bound]; lia. }
    assert (u8 b1 = 128 + (3 + len p) / 256) as Hb1.
    { unfold b1. rewrite u8_to_u8. apply Z.mod_small. lia. }
    rewrite decide_True by (apply land_128; lia).
    assert (Z.shiftl (Z.land (u8 b1) 127) 8 + u8 (to_u8 (3 + len p)) = 3 + len p) as ->.
    { rewrite land_127, Hb1, u8_to_u8, Z.shiftl_mul_pow2 by lia.
      replace (128 + (3 + len p) / 256) with ((3 + len p) / 256 + 1 * 128) by lia.
      rewrite Z.mod_add, Z.mod_small by lia. pose proof (Z.div_mod (3 + len p) 256). lia. }
    rewrite decide_False by lia. simpl. unfold len. simpl length. repeat f_equal. lia.
  - set (b1 := to_u8 (2 + len p)).
    assert (u8 b1 = 2 + len p) as Hb1 by (unfold b1; rewrite u8_to_u8; apply Z.mod_small; lia).
    rewrite decide_False by (rewrite land_128; lia). rewrite Hb1, decide_False by lia. simpl.
    unfold len. simpl length. repeat f_equal. lia.
Qed.

Lemma next_unit_wire f w :
  buf f = wire_bytes w → wire_ok f w → next_unit f = (Ok (Some (wire_unit w)), wire_next f w).
Proof.
  assert (MAX_UNIT = 1048576) as HM by done.
  intros Hb Hok. destruct w as [octets p|r|p|h long p].
  - erewrite next_unit_whole; [|exact Hb|by eapply announced_der|done|].
    2: { rewrite Hb. apply Hok. }
    rewrite Hb. unfold wire_next. simpl. destruct Hok as [-> _].
    by rewrite andb_false_r, orb_false_r.
  - destruct Hok as (Hm & Hs & Hh & He & Hl & Hd). simpl in Hb.
    destruct r as [|b0 r]; [done|]. destruct (Hd b0 eq_refl) as [H30 H03].
    assert (u8 b0 ≠ 48 ∧ u8 b0 ≠ 3) as [H48 H3].
    { split; intros E; [apply H30|apply H03]; by apply u8_inj. }
    rewrite (next_unit_whole f b0 r 4 UOpaque); [|exact Hb| |by rewrite Hb|].
    + rewrite Hb. unfold wire_next. simpl. rewrite Hm, Hs, Hh, He.
      rewrite bool_decide_false by done. done.
    + unfold announced. rewrite Hm, Hs, Hh, He, !bool_decide_false by done. done.
    + lia.
  - erewrite next_unit_whole; [|exact Hb|by apply announced_tpkt with p|done|].
    + by rewrite Hb.
    + rewrite Hb. destruct Hok. unfold len in *. simpl length. lia.
  - assert (∃ b, buf f = h :: b) as [b Hb'] by (rewrite Hb; destruct long; simpl; eauto).
    erewrite next_unit_whole; [|exact Hb'|by eapply announced_fast|done|].
    + by rewrite Hb.
    + rewrite Hb. destruct Hok as (_ & _ & Hok). unfold len in *. destruct long; simpl length; lia.
Qed.

Lemma extend_nil f : extend [] f = f.
Proof. destruct f. unfold extend. simpl. by rewrite app_nil_r. Qed.

Lemma push_stream f ws :
  buf f = [] → stream_ok f ws →
  push (ws ≫= wire_bytes) f = (Ok (wire_unit <$> ws), foldl wire_next f ws).
Proof.
  rewrite push_units. revert f. induction ws as [|w ws IH]; intros f Hb Hok.
  { simpl. rewrite extend_nil, units_eq. unfold next_unit. by rewrite Hb. }
  destruct Hok as [Hw Hok]. rewrite bind_cons. specialize (IH (wire_next f w) eq_refl Hok).
  assert (extend (wire_bytes w ++ (ws ≫= wire_bytes)) f =
          extend (ws ≫= wire_bytes) (extend (wire_bytes w) f)) as ->.
  { unfold extend. simpl. by rewrite app_assoc. }
  assert (next_unit (extend (wire_bytes w) f) = (Ok (Some (wire_unit w)), wire_next f w)) as Hn.
  { rewrite (next_unit_wire _ w); [done|unfold extend; simpl; by rewrite Hb|]. by destruct w. }
  rewrite units_eq, (next_unit_stable _ _ _ _ Hn) by done. by rewrite IH.
Qed.

Lemma feed_step b f us :
  (vs ← push b; mret (us ++ vs)) f =
  match push b f with (Ok vs, f') => (Ok (us ++ vs), f') | (Err e, f') => (Err e, f') end.
Proof. unfold mbind, M_bind. by destruct (push b f) as [[]]. Qed.

Lemma feed_eq pieces f us :
  foldM (fun us b => vs ← push b; mret (us ++ vs)) us pieces f =
  match feed pieces f with (Ok vs, f') => (Ok (us ++ vs), f') | (Err e, f') => (Err e, f') end.
Proof.
  unfold feed. revert f us. induction pieces as [|b pieces IH]; intros f us; simpl.
  { unfold mret, M_ret. by rewrite app_nil_r. }
  pose proof (feed_step b f us) as H1. pose proof (feed_step b f []) as H2.
  destruct (push b f) as [[vs|e] f'].
  - rewrite (bind_ok _ _ _ _ _ H1), (bind_ok _ _ _ _ _ H2), (IH f' (us ++ vs)), (IH f' ([] ++ vs)).
    destruct (foldM _ [] pieces f') as [[ws|e] f'']; [|done]. simpl. by rewrite app_assoc.
  - by rewrite (bind_err _ _ _ _ _ H1), (bind_err _ _ _ _ _ H2).
Qed.

(** However the bytes are cut, the pieces give what the whole gives, when the whole is accepted. *)
Lemma feed_whole pieces f us f' :
  next_unit f = (Ok None, f) → push (mjoin pieces) f = (Ok us, f') → feed pieces f = (Ok us, f').
Proof.
  revert f us. induction pieces as [|b pieces IH]; intros f us Hf; simpl.
  { rewrite push_units, extend_nil, units_eq, Hf. by intros [= <- <-]. }
  unfold feed. simpl. rewrite push_units.
  assert (extend (b ++ mjoin pieces) f = extend (mjoin pieces) (extend b f)) as ->.
  { unfold extend. simpl. by rewrite app_assoc. }
  pose proof (units_extend (mjoin pieces) (extend b f)) as H.
  pose proof (feed_step b f []) as Hstep. rewrite push_units in Hstep.
  destruct (units (extend b f)) as [[vs|e] f1] eqn:E; rewrite H; [|done].
  rewrite (bind_ok _ _ _ _ _ Hstep). apply units_ok_lossless in E as (_ & Hn & _).
  destruct (units (extend (mjoin pieces) f1)) as [[ws|e] f2] eqn:E'; [|done]. intros [= <- <-].
  rewrite feed_eq. by rewrite (IH f1 ws).
Qed.

(** C32. Framing recovers what was sent: a connection sequence written as CredSSP messages, the
    server's Early User Authorization Result where it may come, TPKTs and, after the first of
    those, fast-path PDUs, comes back as exactly those units, however the network cuts it into
    pieces, with nothing left over. *)
Theorem framing_recovers_units (server hybrid : bool) (ws : list wire) (pieces : list bytes) :
  stream_ok (framer_new server hybrid) ws → mjoin pieces = ws ≫= wire_bytes →
  ∃ f', feed pieces (framer_new server hybrid) = (Ok (wire_unit <$> ws), f') ∧ buf f' = [].
Proof.
  intros Hok Hp. exists (foldl wire_next (framer_new server hybrid) ws). split.
  - apply feed_whole; [done|]. rewrite Hp. by apply push_stream.
  - destruct ws as [|w ws _] using rev_ind; [done|]. by rewrite foldl_snoc.
Qed.

Definition sample_stream : list wire :=
  [WDer [] [x01; x02]; WEuar [x00; x00; x00; x00]; WTpkt [x02; xf0; x80; x64]; WFast x00 false [xaa]].

Example framing_recovers_units_witness :
  ∃ f', feed [[x30]; [x02; x01; x02; x00; x00]; [x00; x00; x03; x00; x00; x08; x02; xf0; x80; x64; x00; x03; xaa]]
          (framer_new true true) = (Ok (wire_unit <$> sample_stream), f') ∧ buf f' = [].
Proof.
  apply framing_recovers_units.
  - vm_compute. repeat split; try (intros [=]); try congruence. left. by split.
  - vm_compute. reflexivity.
Defined.
