(* ===== verification/Cliprdr.v ===== *)
(** * The clipboard protocol's data and its codecs

    The values the scanner exchanges with the vendored crates ([ironrdp-cliprdr], [ironrdp-pdu],
    [ironrdp-svc]): clipboard PDUs as those crates decode them, and, as the class [Codec], the
    decoders and encoders themselves, which the program only calls. Theorems about the routing and
    the clipboard state machine hold for every codec. *)

From S2P Require Import Prelude.
Local Open Scope Z_scope.

(** ** PDUs (src/vendor/ironrdp-cliprdr/src/pdu) *)

Definition USE_LONG_FORMAT_NAMES : Z := 0x00000002.
Definition CAN_LOCK_CLIPDATA : Z := 0x00000010.
Definition FILE_CONTENTS_SIZE : Z := 0x00000001.
Definition FILE_CONTENTS_RANGE : Z := 0x00000002.
Definition ATTRIBUTE_DIRECTORY : Z := 0x00000010.

(** [bitflags]: every bit of [mask] is set in [flags]. *)
Definition contains (flags mask : Z) : bool := bool_decide (Z.land flags mask = mask).
(** [bitflags]' [flags - mask]. *)
Definition without (flags mask : Z) : Z := Z.ldiff flags mask.

Record FileDescriptor := mkFile {
  attributes : option Z;
  file_size : option Z;
  file_name : string;
  relative_path : option string;
}.

Record ClipboardFormat := mkFormat { format_id : Z; format_name : option string }.

(** A Format List as it was encoded. *)
Record FormatList := mkFormatList { use_ascii : bool; encoded_formats : bytes }.

Record FileContentsRequest := mkContentsRequest {
  req_stream : Z;
  req_index : Z;
  req_flags : Z;
  req_position : Z;
  req_size : Z;
  req_data_id : option Z;
}.

Record FileContentsResponse := mkContentsResponse {
  resp_error : bool;
  resp_stream : Z;
  resp_data : bytes;
}.

Record FormatDataResponse := mkDataResponse { data_error : bool; data_bytes : bytes }.

Inductive ClipboardPdu :=
  | MonitorReady
  | PFormatList (list : FormatList)
  | PFormatListResponse (ok : bool)
  | PFormatDataRequest (format : Z)
  | PFormatDataResponse (resp : FormatDataResponse)
  | TemporaryDirectory (path : bytes)
  | PCapabilities (version flags : Z)
  | PFileContentsRequest (req : FileContentsRequest)
  | PFileContentsResponse (resp : FileContentsResponse)
  | LockData (id : Z)
  | UnlockData (id : Z).

Definition new_size_response (stream size : Z) : FileContentsResponse :=
  mkContentsResponse false stream (to_le 8 size).
Definition new_data_response (stream : Z) (data : bytes) : FileContentsResponse :=
  mkContentsResponse false stream data.
Definition new_contents_error (stream : Z) : FileContentsResponse := mkContentsResponse true stream [].
Definition new_data (data : bytes) : FormatDataResponse := mkDataResponse false data.
Definition new_data_error : FormatDataResponse := mkDataResponse true [].

(** ** Virtual channel messages *)

Inductive McsMessage :=
  | SendDataRequest (initiator channel : Z) (user_data : bytes)
  | SendDataIndication (initiator channel : Z) (user_data : bytes)
  | OtherMcs.

Definition SHOW_PROTOCOL : Z := 0x00000010.
Record SvcMessage := mkSvc { svc_pdu : ClipboardPdu; svc_flags : Z }.

(** ** The vendored codecs *)

Class Codec := {
  (** [decode::<X224<X224Data>>], its data *)
  decode_x224_data : bytes → option bytes;
  (** [decode::<ConnectInitial>] and [channel_names]: the names, where they are text *)
  decode_channel_names : bytes → option (list (option string));
  (** [decode::<ConnectResponse>] and [channel_ids] *)
  decode_channel_ids : bytes → option (list Z);
  (** [decode::<X224<McsMessage>>] *)
  decode_mcs : bytes → option McsMessage;
  (** [decode::<ClipboardPdu>] *)
  decode_pdu : bytes → result string ClipboardPdu;
  (** [client_encode_svc_messages] and [server_encode_svc_messages] *)
  client_encode : list SvcMessage → Z → Z → result string bytes;
  server_encode : list SvcMessage → Z → Z → result string bytes;
  (** [FormatList::get_formats], [FormatList::new_unicode] and [FormatDataResponse::to_file_list] *)
  get_formats : FormatList → bool → option (list ClipboardFormat);
  new_unicode : list ClipboardFormat → bool → result string FormatList;
  to_file_list : FormatDataResponse → option (list FileDescriptor);
  (** a file's size is a [u64] *)
  to_file_list_u64 : ∀ r files f n,
    to_file_list r = Some files → f ∈ files → file_size f = Some n → 0 ≤ n ≤ u64_max;
}.

(** ** A codec small enough to compute with *)

(** One tag byte, then the fields; used where a theorem about every codec is run on a concrete
    stream. *)
Definition sample_decode (b : bytes) : result string ClipboardPdu :=
  match b with
  | x01 :: _ => Ok MonitorReady
  | x02 :: l => Ok (PFormatList (mkFormatList false l))
  | x03 :: _ => Ok (PFormatListResponse true)
  | x04 :: f => Ok (PFormatDataRequest (from_le f))
  | x05 :: d => Ok (PFormatDataResponse (new_data d))
  | x08 :: i :: n :: s =>
      Ok (PFileContentsRequest (mkContentsRequest (from_le s) (u8 i) FILE_CONTENTS_RANGE 0 (u8 n) None))
  | x09 :: d => Ok (PFileContentsResponse (new_data_response (from_le (take 4 d)) (drop 4 d)))
  | _ => Err "unknown"
  end.

Definition sample_encode (p : ClipboardPdu) : bytes :=
  match p with
  | MonitorReady => [x01]
  | PFormatList l => x02 :: encoded_formats l
  | PFormatListResponse _ => [x03]
  | PFormatDataRequest f => x04 :: to_le 4 f
  | PFormatDataResponse r => x05 :: data_bytes r
  | PFileContentsRequest r => x08 :: to_u8 (req_index r) :: to_u8 (req_size r) :: to_le 4 (req_stream r)
  | PFileContentsResponse r => x09 :: to_le 4 (resp_stream r) ++ resp_data r
  | _ => []
  end.

(** One file per byte, of that many bytes; a lone [0xff] stands for four files of 2^62 bytes. *)
Definition sample_files (r : FormatDataResponse) : option (list FileDescriptor) :=
  Some ((fun n => mkFile None (Some n) "f"%string None) <$>
    (if decide (data_bytes r = [xff]) then replicate 4 (2 ^ 62) else u8 <$> data_bytes r)).

Lemma sample_files_u64 r files f n :
  sample_files r = Some files → f ∈ files → file_size f = Some n → 0 ≤ n ≤ u64_max.
Proof.
  unfold sample_files. intros [= <-] (z & -> & Hz)%list_elem_of_fmap [= <-]. unfold u64_max.
  case_decide.
  - assert (z = 2 ^ 62) as -> by (revert Hz; rewrite !elem_of_cons, elem_of_nil; tauto). lia.
  - apply list_elem_of_fmap in Hz as (b & -> & _). pose proof (u8_range b). lia.
Qed.

Definition sample_codec : Codec := {|
  decode_x224_data := fun b => Some b;
  decode_channel_names := fun b => if decide (b = [x01]) then Some [Some "rdpdr"%string; Some "cliprdr"%string] else None;
  decode_channel_ids := fun b => if decide (b = [x02]) then Some [1003; 1004] else None;
  decode_mcs := fun b =>
    match b with
    | x64 :: c :: d => Some (SendDataRequest 1007 (1000 + u8 c) d)
    | x68 :: c :: d => Some (SendDataIndication 1002 (1000 + u8 c) d)
    | _ => None
    end;
  decode_pdu := sample_decode;
  client_encode := fun ms _ _ => Ok (ms ≫= fun m => sample_encode (svc_pdu m));
  server_encode := fun ms _ _ => Ok (ms ≫= fun m => sample_encode (svc_pdu m));
  get_formats := fun l _ =>
    Some (if decide (encoded_formats l = [x46]) then [mkFormat 49 (Some "FileGroupDescriptorW"%string)] else []);
  new_unicode := fun _ _ => Ok (mkFormatList false []);
  to_file_list := sample_files;
  to_file_list_u64 := sample_files_u64;
|}.
