(* ===== verification/Route.v ===== *)
(** * The clipboard channel in the stream (src/src/scan/route.rs)

    Finding the channel in the connection sequence, lifting its PDUs out of the units that carry
    them, and framing the proxy's own. An error carries the values its message is made from. *)

From S2P Require Import Prelude Cliprdr.
Local Open Scope Z_scope.

Definition CLIPRDR : string := "cliprdr".
Definition COMPRESS_OPTIONS : Z := Z.lor 0x00800000 0x00400000.
Definition MAX_PDU : Z := Z.shiftl 64 20.

Inductive out_of_step :=
  | Codec_said (e : string)
  | Header_short
  | Pdu_of (length : Z)
  | First_before_last
  | No_first
  | Chunks_longer
  | Chunks_shorter.

Inductive RouteError :=
  | Compressed
  | OutOfStep (why : out_of_step)
  | NoChannel.

Record Whole := mkWhole { pdu : bytes; units : list bytes }.

Inductive Routed :=
  | Pass
  | Replace (unit : bytes)
  | Clip (whole : option Whole).

(** ** Reassembly *)

Record Dechunker := mkDechunker { d_pdu : bytes; d_length : Z; d_units : list bytes }.
Definition dechunker_default : Dechunker := mkDechunker [] 0 [].

Definition FLAG_FIRST : Z := 0x00000001.
Definition FLAG_LAST : Z := 0x00000002.
Definition PACKET_COMPRESSED : Z := 0x00200000.

Record ChannelPduHeader := mkHeader { h_length : Z; h_flags : Z }.

(** [ChannelPduHeader::decode] and what remains after it
    (src/vendor/ironrdp-pdu/src/rdp/vc/mod.rs). *)
Definition decode_header (user_data : bytes) : option (ChannelPduHeader * bytes) :=
  if decide (len user_data < 8) then None
  else Some (mkHeader (from_le (take 4 user_data)) (from_le (take 4 (drop 4 user_data))),
             drop 8 user_data).

(** [Dechunker::push]. *)
Definition dechunker_push (user_data unit : bytes) : M Dechunker RouteError (option Whole) := fun d =>
  match decode_header user_data with
  | None => (Err (OutOfStep Header_short), d)
  | Some (header, remaining) =>
      if contains (h_flags header) PACKET_COMPRESSED then (Err Compressed, d)
      else
        let length := h_length header in
        if decide (MAX_PDU < length) then (Err (OutOfStep (Pdu_of length)), d)
        else
          let first := contains (h_flags header) FLAG_FIRST in
          if first && negb (bool_decide (d_units d = [])) then (Err (OutOfStep First_before_last), d)
          else if negb first && bool_decide (d_units d = []) then (Err (OutOfStep No_first), d)
          else
            let d := if first then mkDechunker [] length (d_units d) else d in
            let d := mkDechunker (d_pdu d ++ remaining) (d_length d) (d_units d ++ [unit]) in
            if decide (d_length d < len (d_pdu d)) then (Err (OutOfStep Chunks_longer), d)
            else if negb (contains (h_flags header) FLAG_LAST) then (Ok None, d)
            else if decide (len (d_pdu d) ≠ d_length d) then (Err (OutOfStep Chunks_shorter), d)
            else (Ok (Some (mkWhole (d_pdu d) (d_units d))), mkDechunker [] (d_length d) [])
  end.

(** ** Compression off *)

(** [unit.windows(name.len()).position(|w| w == name)]. *)
Fixpoint position_of (name unit : bytes) : option nat :=
  if decide (take (length name) unit = name ∧ (length name ≤ length unit)%nat) then Some O
  else match unit with
       | [] => None
       | _ :: unit' => S <$> position_of name unit'
       end.

Definition clip_name : bytes := [x63; x6c; x69; x70; x72; x64; x72; x00].

(** The Connect Initial with the clipboard channel's compression options cleared, in place. *)
Definition no_compression (unit : bytes) : option bytes :=
  i ← position_of clip_name unit;
  let at_ := (i + length clip_name)%nat in
  if bool_decide (is_Some (position_of clip_name (drop at_ unit))) then None
  else if decide (length unit < at_ + 4)%nat then None
  else
    let options := from_le (take 4 (drop at_ unit)) in
    Some (take at_ unit ++ to_le 4 (Z.ldiff options COMPRESS_OPTIONS) ++ drop (at_ + 4) unit).

(** ** The route *)

Record Route := mkRoute {
  names : option (list string);
  cliprdr : option Z;
  user_channel : option Z;
  server_initiator : option Z;
  from_client : Dechunker;
  from_server : Dechunker;
}.

Definition route_default : Route :=
  mkRoute None None None None dechunker_default dechunker_default.

Definition set_names n r := mkRoute n (cliprdr r) (user_channel r) (server_initiator r) (from_client r) (from_server r).
Definition set_cliprdr c r := mkRoute (names r) c (user_channel r) (server_initiator r) (from_client r) (from_server r).
Definition set_user_channel u r := mkRoute (names r) (cliprdr r) u (server_initiator r) (from_client r) (from_server r).
Definition set_server_initiator i r := mkRoute (names r) (cliprdr r) (user_channel r) i (from_client r) (from_server r).
Definition set_from_client d r := mkRoute (names r) (cliprdr r) (user_channel r) (server_initiator r) d (from_server r).
Definition set_from_server d r := mkRoute (names r) (cliprdr r) (user_channel r) (server_initiator r) (from_client r) d.

(** [names.iter().position(|n| n == CLIPRDR)]. *)
Definition clip_position (ns : list string) : option nat := fst <$> list_find (fun n => n = CLIPRDR) ns.

(** [CHANNEL_FLAG_SHOW_PROTOCOL] on the proxy's own messages. *)
Definition message (p : ClipboardPdu) : SvcMessage := mkSvc p SHOW_PROTOCOL.

Section route.
Context {H : Codec}.

Definition x224_data (unit : bytes) : option bytes := decode_x224_data unit.

Definition read_client (unit : bytes) : M Route RouteError Routed := fun r =>
  match names r with
  | None =>
      match x224_data unit ≫= decode_channel_names with
      | Some ns =>
          let ns := default EmptyString <$> ns in
          let replaced := if decide (CLIPRDR ∈ ns) then no_compression unit else None in
          (Ok (match replaced with Some u => Replace u | None => Pass end), set_names (Some ns) r)
      | None => (Ok Pass, r)
      end
  | Some _ =>
      match decode_mcs unit with
      | Some (SendDataRequest initiator channel user_data) =>
          let r := set_user_channel (Some initiator) r in
          if decide (Some channel = cliprdr r) then
            let '(res, d) := dechunker_push user_data unit (from_client r) in
            (Clip <$> res, set_from_client d r)
          else (Ok Pass, r)
      | _ => (Ok Pass, r)
      end
  end.

(** The Connect Response, while it is looked for. *)
Definition response_ids (unit : bytes) (r : Route) : option (list string * list Z) :=
  match cliprdr r, names r with
  | None, Some ns => (fun ids => (ns, ids)) <$> (x224_data unit ≫= decode_channel_ids)
  | _, _ => None
  end.

Definition read_server (unit : bytes) : M Route RouteError Routed := fun r =>
  match response_ids unit r with
  | Some (ns, ids) => (Ok Pass, set_cliprdr (clip_position ns ≫= fun i => ids !! i) r)
  | None =>
      match decode_mcs unit with
      | Some (SendDataIndication initiator channel user_data) =>
          let r := set_server_initiator (Some initiator) r in
          if decide (Some channel = cliprdr r) then
            let '(res, d) := dechunker_push user_data unit (from_server r) in
            (Clip <$> res, set_from_server d r)
          else (Ok Pass, r)
      | _ => (Ok Pass, r)
      end
  end.

Definition codec_err {A} (r : result string A) : result RouteError A :=
  match r with Ok a => Ok a | Err e => Err (OutOfStep (Codec_said e)) end.

(** A clipboard PDU of the proxy's own, framed for the server. *)
Definition to_server (r : Route) (p : ClipboardPdu) : result RouteError bytes :=
  match cliprdr r, user_channel r with
  | Some channel, Some user => codec_err (client_encode [message p] channel user)
  | _, _ => Err NoChannel
  end.

(** A clipboard PDU of the proxy's own, framed for the client. *)
Definition to_client (r : Route) (p : ClipboardPdu) : result RouteError bytes :=
  match cliprdr r, server_initiator r with
  | Some channel, Some initiator => codec_err (server_encode [message p] channel initiator)
  | _, _ => Err NoChannel
  end.
End route.
