(* ===== verification/RouteFacts.v ===== *)
(** * What routing guarantees (src/src/scan/route.rs)

    Chunked PDUs come back whole, every unit of the clipboard channel is either held or released in
    order, the channel once found does not change, and switching compression off touches nothing
    but the two option bits. *)

From S2P Require Import Prelude Cliprdr Route.
Local Open Scope Z_scope.

(** ** Reassembly *)

(** A chunk as it is sent: the header, then the piece of the PDU. *)
Definition chunk (length flags : Z) (piece : bytes) : bytes := to_le 4 length ++ to_le 4 flags ++ piece.

(** The chunks of a PDU of this length; each piece comes with its flags and the unit carrying it. *)
Record piece := mkPiece { p_flags : Z; p_bytes : bytes; p_unit : bytes }.

Definition push_all (length : Z) (ps : list piece) : M Dechunker RouteError (list (option Whole)) :=
  foldM (fun out p => w ← dechunker_push (chunk length (p_flags p) (p_bytes p)) (p_unit p);
                      mret (out ++ [w])) [] ps.

Definition flags_ok (first last : bool) (f : Z) : Prop :=
  0 ≤ f < 2 ^ 32 ∧ contains f PACKET_COMPRESSED = false ∧
  contains f FLAG_FIRST = first ∧ contains f FLAG_LAST = last.

(** First and last are flagged, and nothing between them is. *)
Fixpoint flagged (first : bool) (ps : list piece) : Prop :=
  match ps with
  | [] => False
  | [p] => flags_ok first true (p_flags p)
  | p :: ps' => flags_ok first false (p_flags p) ∧ flagged false ps'
  end.

Lemma decode_chunk length flags p :
  0 ≤ length < 2 ^ 32 → 0 ≤ flags < 2 ^ 32 →
  decode_header (chunk length flags p) = Some (mkHeader length flags, p).
Proof.
  intros Hl Hf. unfold decode_header, chunk.
  rewrite decide_False.
  2: { unfold len. rewrite !length_app, !to_le_length. lia. }
  rewrite take_app_le by (rewrite to_le_length; done).
  rewrite firstn_all2 by (rewrite to_le_length; done).
  rewrite !drop_app_ge by (rewrite to_le_length; lia).
  rewrite !to_le_length. simpl Nat.sub. rewrite !drop_0.
  rewrite take_app_le, firstn_all2 by (rewrite to_le_length; done).
  rewrite !from_to_le. change (8 * Z.of_nat 4) with 32. by rewrite !Z.mod_small.
Qed.

(** One chunk pushed. *)
Lemma push_chunk d length p first last :
  0 ≤ length ≤ MAX_PDU → flags_ok first last (p_flags p) →
  (if first then d_units d = [] else d_units d ≠ [] ∧ d_length d = length) →
  let got := (if first then [] else d_pdu d) ++ p_bytes p in
  len got ≤ length → (last = true → len got = length) →
  dechunker_push (chunk length (p_flags p) (p_bytes p)) (p_unit p) d =
  if last then (Ok (Some (mkWhole got (d_units d ++ [p_unit p]))), mkDechunker [] length [])
  else (Ok None, mkDechunker got length (d_units d ++ [p_unit p])).
Proof.
  assert (MAX_PDU < 2 ^ 32) as HM by (vm_compute; done).
  intros Hl (Hr & Hc & Hf & Hla) Hd got Hle Heq. unfold dechunker_push.
  rewrite decode_chunk by lia. simpl. rewrite Hc, Hf, Hla. rewrite decide_False by lia.
  subst got. destruct first; simpl in *.
  - rewrite Hd. simpl. rewrite decide_False by lia. destruct last; simpl; [|done].
    rewrite decide_False by (intros []; by apply Heq). done.
  - destruct Hd as [Hu Hdl]. rewrite bool_decide_false by done. simpl. rewrite Hdl.
    rewrite decide_False by lia. destruct last; simpl; [|done].
    rewrite decide_False by (intros []; by apply Heq). done.
Qed.

Definition payload (ps : list piece) : bytes := ps ≫= p_bytes.

Lemma push_all_rest length ps d out first :
  0 ≤ length ≤ MAX_PDU → flagged first ps →
  (if first then d_units d = [] else d_units d ≠ [] ∧ d_length d = length) →
  len ((if first then [] else d_pdu d) ++ payload ps) = length →
  foldM (fun out p => w ← dechunker_push (chunk length (p_flags p) (p_bytes p)) (p_unit p);
                      mret (out ++ [w])) out ps d =
  (Ok (out ++ replicate (List.length ps - 1) None ++
       [Some (mkWhole ((if first then [] else d_pdu d) ++ payload ps) (d_units d ++ (p_unit <$> ps)))]),
   mkDechunker [] length []).
Proof.
  intros Hl. revert d out first. induction ps as [|p ps IH]; intros d out first Hf Hd Hlen; [done|].
  destruct ps as [|p' ps].
  - simpl in *. rewrite app_nil_r in *.
    pose proof (push_chunk d length p first true Hl Hf Hd) as Hp. simpl in Hp.
    unfold mbind, M_bind. rewrite Hp by lia. done.
  - destruct Hf as [Hp Hf]. set (ps' := p' :: ps) in *.
    change (payload (p :: ps')) with (p_bytes p ++ payload ps') in *.
    rewrite app_assoc in Hlen. rewrite len_app in Hlen. pose proof (len_nonneg (payload ps')).
    pose proof (push_chunk d length p first false Hl Hp Hd) as Hpush. simpl in Hpush.
    specialize (Hpush ltac:(lia) ltac:(done)).
    cbn [foldM]. erewrite bind_ok.
    2: { erewrite bind_ok; [done|exact Hpush]. }
    rewrite (IH _ _ false); [|done| |].
    + simpl. rewrite Nat.sub_0_r. f_equal. f_equal. rewrite <-!app_assoc. simpl. repeat f_equal; done.
    + simpl. split; [|done]. by destruct (d_units d).
    + cbn [d_pdu]. by rewrite len_app.
Qed.

(** C33. A clipboard PDU cut into chunks comes back whole: pushing its chunks, however it was cut and
    whatever the other channel flags, yields nothing until the last and then the PDU itself, with
    the units that carried it in order, and leaves the reassembler ready for the next. *)
Theorem dechunk_reassembles (length : Z) (ps : list piece) (d : Dechunker) :
  len (payload ps) = length → length ≤ MAX_PDU → flagged true ps → d_units d = [] →
  push_all length ps d =
  (Ok (replicate (List.length ps - 1) None ++ [Some (mkWhole (payload ps) (p_unit <$> ps))]),
   mkDechunker [] length []).
Proof.
  intros Hlen Hmax Hf Hd. unfold push_all.
  rewrite (push_all_rest length ps d [] true); [|split; [subst; apply len_nonneg|done]|done..].
  by rewrite Hd.
Qed.

Definition sample_pieces : list piece :=
  [mkPiece 0x11 [x02; x00] [xa0]; mkPiece 0x10 [x01] [xa1]; mkPiece 0x12 [x05; x06] [xa2]].

Example dechunk_reassembles_witness :
  push_all 5 sample_pieces dechunker_default =
  (Ok [None; None; Some (mkWhole [x02; x00; x01; x05; x06] [[xa0]; [xa1]; [xa2]])],
   mkDechunker [] 5 []).
Proof.
  apply (dechunk_reassembles 5 sample_pieces).
  - reflexivity.
  - vm_compute. discriminate.
  - vm_compute. repeat split; discriminate.
  - reflexivity.
Defined.

(** ** Units held and released *)

(** What a push does to the units held: they are released all at once, or one more is held. *)
Lemma dechunker_push_units data unit d r d' :
  dechunker_push data unit d = (Ok r, d') →
  match r with
  | None => d_units d' = d_units d ++ [unit]
  | Some w => units w = d_units d ++ [unit] ∧ d_units d' = [] ∧ len (pdu w) ≤ d_length d'
  end.
Proof.
  unfold dechunker_push. destruct (decode_header data) as [[h rest]|]; [|done].
  destruct (contains (h_flags h) PACKET_COMPRESSED); [done|]. case_decide; [done|].
  destruct (contains (h_flags h) FLAG_FIRST), (bool_decide (d_units d = [])); simpl; try done.
  all: case_decide; [done|]; destruct (contains (h_flags h) FLAG_LAST); simpl.
  all: try case_decide; try done; intros [= <- <-]; simpl; auto with lia.
Qed.

Section route_facts.
Context {H : Codec}.

(** One direction of the stream. *)
Definition read (server : bool) : bytes → M Route RouteError Routed :=
  if server then read_server else read_client.

Definition held (server : bool) (r : Route) : list bytes :=
  d_units (if server then from_server r else from_client r).

Definition reads (server : bool) (us : list bytes) : M Route RouteError (list Routed) :=
  foldM (fun out u => o ← read server u; mret (out ++ [o])) [] us.

(** The units taken out of the stream, and those given back with a PDU. *)
Fixpoint taken (us : list bytes) (outs : list Routed) : list bytes :=
  match us, outs with
  | u :: us', Clip _ :: outs' => u :: taken us' outs'
  | _ :: us', _ :: outs' => taken us' outs'
  | _, _ => []
  end.

Definition released (outs : list Routed) : list bytes :=
  outs ≫= fun o => match o with Clip (Some w) => units w | _ => [] end.

(** The unit is clipboard data: sent on the channel found for it. *)
Definition on_channel (server : bool) (unit : bytes) (r : Route) : Prop :=
  ∃ initiator channel data, cliprdr r = Some channel ∧
    decode_mcs unit =
      Some (if server then SendDataIndication initiator channel data
            else SendDataRequest initiator channel data).

Lemma read_held server u r o r' :
  read server u r = (Ok o, r') →
  held server r ++ (match o with Clip _ => [u] | _ => [] end) =
  (match o with Clip (Some w) => units w | _ => [] end) ++ held server r'.
Proof.
  unfold read, held. destruct server.
  - unfold read_server. destruct (response_ids u r) as [[ns ids]|].
    { intros [= <- <-]. by rewrite app_nil_r. }
    destruct (decode_mcs u) as [[]|]; try by (intros [= <- <-]; rewrite app_nil_r).
    simpl. case_decide; [|by intros [= <- <-]; rewrite app_nil_r].
    destruct (dechunker_push user_data u (from_server r)) as [[res|e] d] eqn:E; [|done].
    intros [= <- <-]. simpl. apply dechunker_push_units in E.
    destruct res as [w|]; [destruct E as (-> & -> & _); by rewrite app_nil_r|done].
  - unfold read_client. destruct (names r).
    2: { destruct (x224_data u ≫= decode_channel_names); intros [= <- <-]; simpl;
           [|by rewrite app_nil_r]. repeat case_match; simplify_eq; by rewrite app_nil_r. }
    destruct (decode_mcs u) as [[]|]; try by (intros [= <- <-]; rewrite app_nil_r).
    simpl. case_decide; [|by intros [= <- <-]; rewrite app_nil_r].
    destruct (dechunker_push user_data u (from_client r)) as [[res|e] d] eqn:E; [|done].
    intros [= <- <-]. simpl. apply dechunker_push_units in E.
    destruct res as [w|]; [destruct E as (-> & -> & _); by rewrite app_nil_r|done].
Qed.

Lemma reads_app server us r out r' out0 :
  foldM (fun out u => o ← read server u; mret (out ++ [o])) out0 us r = (Ok out, r') →
  ∃ outs, out = out0 ++ outs ∧ length outs = length us ∧
    held server r ++ taken us outs = released outs ++ held server r'.
Proof.
  revert r out0. induction us as [|u us IH]; intros r out0; cbn [foldM].
  { intros [= <- <-]. exists []. simpl. by rewrite !app_nil_r. }
  intros (out1 & r1 & (o & r2 & Hr & [= <- <-])%bind_ok_inv & Hf)%bind_ok_inv.
  apply IH in Hf as (outs & -> & Hlen & Hh). exists (o :: outs).
  rewrite <-app_assoc. split_and!; [done|simpl; lia|].
  apply read_held in Hr.
  assert (taken (u :: us) (o :: outs) = (match o with Clip _ => [u] | _ => [] end) ++ taken us outs)
    as -> by by destruct o.
  rewrite app_assoc, Hr, <-app_assoc, Hh, app_assoc. done.
Qed.

(** No clipboard unit is lost or reordered: over any run of units of one direction, the units
    taken out of the stream, after those already held, are the units given back with the
    reassembled PDUs followed by those still held, in the order they arrived. *)
Theorem clip_units_conserved (server : bool) (us : list bytes) (r r' : Route) (outs : list Routed) :
  reads server us r = (Ok outs, r') →
  length outs = length us ∧
  held server r ++ taken us outs = released outs ++ held server r'.
Proof. unfold reads. by intros (outs' & -> & Hlen & Hh)%reads_app. Qed.

(** Only the clipboard channel is taken out of the stream, and all of it is: once the client's
    channel list is known and the connection response no longer awaited, a unit is withheld (taken
    as a clipboard chunk, or refused) exactly when it is data sent on the channel found for
    [cliprdr]; every other unit passes as it arrived. *)
Theorem route_takes_the_channel (server : bool) (unit : bytes) (r : Route) :
  is_Some (names r) → is_Some (cliprdr r) →
  (on_channel server unit r ∧ fst (read server unit r) ≠ Ok Pass) ∨
  (¬ on_channel server unit r ∧ fst (read server unit r) = Ok Pass).
Proof.
  intros [ns Hn] [c Hc]. unfold read, on_channel.
  destruct server; [unfold read_server, response_ids|unfold read_client]; rewrite Hn, ?Hc;
    destruct (decode_mcs unit) as [[]|]; simpl;
    try (by right; split; [intros (? & ? & ? & ? & ?)|]); rewrite Hc.
  - case_decide as Hch; simplify_eq.
    + left. split; [eauto|]. by destruct (dechunker_push _ _ _) as [[]].
    + right. split; [|done]. intros (? & ? & ? & ? & ?). by simplify_eq.
  - case_decide as Hch; simplify_eq.
    + left. split; [eauto|]. by destruct (dechunker_push _ _ _) as [[]].
    + right. split; [|done]. intros (? & ? & ? & ? & ?). by simplify_eq.
Qed.
End route_facts.

(** ** Compression off *)

Lemma position_of_app name unit i :
  position_of name unit = Some i →
  unit = take i unit ++ name ++ drop (i + length name) unit ∧ (i + length name ≤ length unit)%nat.
Proof.
  revert i. induction unit as [|x unit IH]; intros i; simpl.
  - case_decide as Hd; [|done]. intros [= <-]. destruct Hd as [Hn Hl].
    destruct name; [done|]. simpl in Hl. lia.
  - case_decide as Hd.
    + intros [= <-]. destruct Hd as [Hn Hl]. split; [|simpl; lia]. simpl.
      rewrite <-Hn at 1. by rewrite take_drop.
    + intros (j & Hj & ->)%fmap_Some. apply IH in Hj as [Hu Hl]. split; [|simpl; lia].
      simpl. by rewrite <-Hu.
Qed.

Lemma ldiff_land_0 a b : Z.land (Z.ldiff a b) b = 0.
Proof. apply Z.bits_inj'. intros n Hn. rewrite Z.land_spec, Z.ldiff_spec, Z.bits_0. by destruct (Z.testbit a n), (Z.testbit b n). Qed.

Lemma ldiff_range a b w : 0 ≤ w → 0 ≤ a < 2 ^ w → 0 ≤ Z.ldiff a b < 2 ^ w.
Proof.
  intros Hw [H0 Hlt]. enough (0 ≤ Z.ldiff a b ≤ a) by lia. apply Z.ldiff_le; [done|].
  apply Z.bits_inj'. intros n Hn. rewrite !Z.ldiff_spec, Z.bits_0.
  by destruct (Z.testbit a n), (Z.testbit b n).
Qed.

(** Switching compression off changes two bits: when the Connect Initial is rewritten, the result
    is the same bytes around the four option bytes that follow the channel's name, and those hold
    the same options with the two compression bits cleared and every other bit kept. *)
Theorem no_compression_in_place (unit out : bytes) :
  no_compression unit = Some out →
  ∃ pre options options' post,
    unit = pre ++ clip_name ++ options ++ post ∧ out = pre ++ clip_name ++ options' ++ post ∧
    length options = 4%nat ∧ length options' = 4%nat ∧
    Z.land (from_le options') COMPRESS_OPTIONS = 0 ∧
    from_le options' = Z.ldiff (from_le options) COMPRESS_OPTIONS.
Proof.
  unfold no_compression. intros (i & Hi & H)%bind_Some.
  apply position_of_app in Hi as [Hu Hl]. set (at_ := (i + length clip_name)%nat) in *.
  case_bool_decide; [done|]. case_decide as Hlen; [done|]. simplify_eq.
  set (options := take 4 (drop at_ unit)).
  assert (length options = 4%nat) as Ho.
  { unfold options. rewrite length_take, length_drop. lia. }
  pose proof (from_le_range options) as Hr. unfold len in Hr. rewrite Ho in Hr.
  assert (from_le (to_le 4 (Z.ldiff (from_le options) COMPRESS_OPTIONS)) =
          Z.ldiff (from_le options) COMPRESS_OPTIONS) as Hf.
  { rewrite from_to_le, Z.mod_small; [done|]. by apply ldiff_range. }
  exists (take i unit), options, (to_le 4 (Z.ldiff (from_le options) COMPRESS_OPTIONS)), (drop (at_ + 4) unit).
  assert (take at_ unit = take i unit ++ clip_name) as Ht.
  { rewrite Hu at 1. rewrite app_assoc. apply take_app_length'. rewrite length_app, length_take. lia. }
  split_and!; [|by rewrite Ht, <-!app_assoc|done|apply to_le_length| |done].
  - rewrite Hu at 1. do 2 f_equal. unfold options. rewrite <-drop_drop. by rewrite take_drop.
  - by rewrite Hf, ldiff_land_0.
Qed.

Example no_compression_witness :
  ∃ pre options options' post,
    [x2a] ++ clip_name ++ [x00; x00; xc0; xa0] ++ [x01] = pre ++ clip_name ++ options ++ post ∧
    [x2a] ++ clip_name ++ [x00; x00; x00; xa0] ++ [x01] = pre ++ clip_name ++ options' ++ post ∧
    length options = 4%nat ∧ length options' = 4%nat ∧
    Z.land (from_le options') COMPRESS_OPTIONS = 0 ∧
    from_le options' = Z.ldiff (from_le options) COMPRESS_OPTIONS.
Proof. apply no_compression_in_place. vm_compute. reflexivity. Defined.

(** ** A connection on the sample codec *)

Definition sample_route : Route :=
  snd ((_ ← read_client (H:=sample_codec) [x01]; read_server (H:=sample_codec) [x02]) route_default).

Definition sample_units : list bytes :=
  [[x64; x04] ++ chunk 3 0x11 [x05; x00]; [x64; x03; xff]; [x64; x04] ++ chunk 3 0x12 [x07]].

Example clip_units_witness :
  ∃ outs r', reads (H:=sample_codec) false sample_units sample_route = (Ok outs, r') ∧
    held false sample_route ++ taken sample_units outs = released outs ++ held false r' ∧
    released outs = [[x64; x04] ++ chunk 3 0x11 [x05; x00]; [x64; x04] ++ chunk 3 0x12 [x07]].
Proof.
  eexists _, _. split; [vm_compute; reflexivity|]. split; [|vm_compute; reflexivity].
  refine (proj2 (clip_units_conserved (H:=sample_codec) false sample_units sample_route _ _ _)).
  vm_compute. reflexivity.
Defined.

Example route_takes_witness :
  (on_channel (H:=sample_codec) false [x64; x03; xff] sample_route ∧
     fst (read (H:=sample_codec) false [x64; x03; xff] sample_route) ≠ Ok Pass) ∨
  (¬ on_channel (H:=sample_codec) false [x64; x03; xff] sample_route ∧
     fst (read (H:=sample_codec) false [x64; x03; xff] sample_route) = Ok Pass).
Proof. apply route_takes_the_channel; vm_compute; eauto. Defined.
