(* ===== verification/Scanner.v ===== *)
(** * Scanners and their standing (src/src/scan/scanner.rs and src/src/scan/mod.rs)

    The verdict on a file's bytes, as AMSI and as a scanner program give it; the check that proves a
    scanner answers both ways; the health that admits offers; the notices a user's page reads and
    the lines the activity log gets. What the operating system does (files, processes, the AMSI
    calls) is an argument of the operation that asks it. *)

From S2P Require Import Prelude Text Auth.
Local Open Scope Z_scope.

(** ** Verdicts *)

Inductive Verdict :=
  | Clean
  | Detected
  | Unavailable (why : string).

#[export] Instance Verdict_eq : EqDecision Verdict.
Proof. solve_decision. Defined.

(** [dyn Scanner]: one call's answers. *)
Record Scanner := mkScanner { describe : string; scan : string → bytes → Verdict }.

(** *** Formatting *)

(** [{v:?}]. *)
Definition debug_verdict (v : Verdict) : string :=
  match v with
  | Clean => "Clean"
  | Detected => "Detected"
  | Unavailable why => "Unavailable(" +:+ debug_string why +:+ ")"
  end.

(** [{hr:#010x}] of an [i32]. *)
Definition hex32 (z : Z) : string :=
  of_chars (to_chars "0x" ++
    ((fun i => hex_digit (Z.land (Z.shiftr (wrap 32 z) (4 * i)) 15)) <$> [7; 6; 5; 4; 3; 2; 1; 0])).

(** ** AMSI *)

Definition AMSI_RESULT_CLEAN : Z := 0.
Definition AMSI_RESULT_NOT_DETECTED : Z := 1.
Definition AMSI_RESULT_BLOCKED_BY_ADMIN_START : Z := 0x4000.
Definition AMSI_RESULT_BLOCKED_BY_ADMIN_END : Z := 0x4fff.
Definition AMSI_RESULT_DETECTED : Z := 0x8000.

Definition amsi_verdict (hr result : Z) : Verdict :=
  if decide (hr ≠ 0) then Unavailable ("AmsiScanBuffer failed with " +:+ hex32 hr)
  else if decide (result = AMSI_RESULT_CLEAN ∨ result = AMSI_RESULT_NOT_DETECTED) then Clean
  else if decide (AMSI_RESULT_DETECTED ≤ result) then Detected
  else if decide (AMSI_RESULT_BLOCKED_BY_ADMIN_START ≤ result ≤ AMSI_RESULT_BLOCKED_BY_ADMIN_END)
       then Detected
  else Unavailable ("AMSI answered " +:+ pretty result +:+ ", which is no verdict").

(** The AMSI calls of one scan: what [AmsiInitialize] gave at start, what opening a session gives,
    and the return value and result of scanning the buffer. *)
Record AmsiCalls := mkAmsi { initialize : Z; open_session : Z; scan_buffer : string → bytes → Z * Z }.

Definition amsi_scan (a : AmsiCalls) (name : string) (b : bytes) : Verdict :=
  if decide (initialize a ≠ 0) then Unavailable ("AmsiInitialize failed with " +:+ hex32 (initialize a))
  else if decide (u32_max < len b) then Unavailable "larger than AMSI scans at once (4 GB)"
  else if decide (open_session a ≠ 0) then Unavailable ("AmsiOpenSession failed with " +:+ hex32 (open_session a))
  else let '(hr, result) := scan_buffer a name b in amsi_verdict hr result.

(** Off Windows. *)
Definition missing_scan (_ : string) (_ : bytes) : Verdict := Unavailable "AMSI needs Windows".

(** ** A scanner program *)

Record Command := mkCommand {
  argv : list string;
  clean_codes : list Z;
  detected_codes : list Z;
  timeout : Z;
  staging : string;
}.

(** One answer of [Child::try_wait]: the exit status, whose code is missing when a signal ended it. *)
Inductive waited :=
  | Exited (code : option Z)
  | Running
  | WaitError (e : string).

(** What the operating system answers during one scan; [polls] are the answers of [try_wait] and
    the time read after each, in order. *)
Record Os := mkOs {
  create_dir : option string;
  write_copy : bytes → option string;
  spawn : string → list string → option string;
  started : Z;
  polls : nat → waited * Z;
}.

(** [str::replace]. *)
Fixpoint replace_chars (fuel : nat) (pat by_ l : chars) : chars :=
  match fuel with
  | O => l
  | S fuel' =>
      if decide (take (length pat) l = pat) then by_ ++ replace_chars fuel' pat by_ (drop (length pat) l)
      else match l with [] => [] | c :: l' => c :: replace_chars fuel' pat by_ l' end
  end.

Definition replace (s pat by_ : string) : string :=
  of_chars (replace_chars (length (to_chars s)) (to_chars pat) (to_chars by_) (to_chars s)).

(** [{other:?}] of an exit code. *)
Definition debug_code (c : option Z) : string :=
  match c with Some c => "Some(" +:+ pretty c +:+ ")" | None => "None" end.

Definition exit_verdict (c : Command) (code : option Z) : Verdict :=
  match code with
  | Some k =>
      if decide (k ∈ clean_codes c) then Clean
      else if decide (k ∈ detected_codes c) then Detected
      else Unavailable ("scanner exited with " +:+ debug_code code)
  | None => Unavailable ("scanner exited with " +:+ debug_code code)
  end.

(** The loop that waits for the program; [None] only when the rounds run out. *)
Fixpoint wait_loop (rounds : nat) (c : Command) (until : Z) (i : nat) (os : Os) : option Verdict :=
  match rounds with
  | O => None
  | S rounds' =>
      match polls os i with
      | (Exited code, _) => Some (exit_verdict c code)
      | (Running, now) =>
          if decide (now < until) then wait_loop rounds' c until (S i) os
          else Some (Unavailable "the scanner took too long")
      | (WaitError e, _) => Some (Unavailable ("waiting for the scanner: " +:+ e))
      end
  end.

(** The pause between two looks at the program. *)
Definition POLL : Z := 50 * 1000000.

(** The rounds the timeout allows. *)
Definition wait_rounds (c : Command) : nat := S (S (Z.to_nat (timeout c / POLL))).

(** [Command::run]. *)
Definition command_run (c : Command) (path : string) (b : bytes) (os : Os) : option Verdict :=
  match write_copy os b with
  | Some e => Some (Unavailable ("writing the copy: " +:+ e))
  | None =>
      let program := default EmptyString (head (argv c)) in
      let args := (fun a => replace a "{file}" path) <$> tail (argv c) in
      match spawn os program args with
      | Some e => Some (Unavailable ("starting " +:+ program +:+ ": " +:+ e))
      | None => wait_loop (wait_rounds c) c (started os + timeout c) 0 os
      end
  end.

(** [Command::scan]; [random] is the random name of the copy. *)
Definition command_scan (c : Command) (random : bytes) (b : bytes) (os : Os) : option Verdict :=
  match create_dir os with
  | Some e => Some (Unavailable ("staging folder: " +:+ e))
  | None =>
      let name := of_chars (take 24 (to_chars (random_token random))) +:+ ".bin" in
      command_run c (staging c +:+ "/" +:+ name) b os
  end.

(** ** The check *)

Definition EICAR_REVERSED : string :=
  "*H+H$!ELIF-TSET-SURIVITNA-DRADNATS-RACIE$}7)CC7)^P(45XZP\4[PA@%P!O5X".

Definition eicar : bytes := reverse (String.list_byte_of_string EICAR_REVERSED).

Definition harmless : bytes :=
  String.list_byte_of_string ("web-access scanner check, a harmless file" +:+ String "010"%char EmptyString).

Definition check (s : Scanner) : result string unit :=
  match scan s "web-access-check.com" eicar with
  | Detected =>
      match scan s "web-access-check.txt" harmless with
      | Clean => Ok ()
      | v => Err ("a harmless file came back " +:+ debug_verdict v +:+ ", not clean")
      end
  | v => Err ("the EICAR test file came back " +:+ debug_verdict v +:+ ", not detected")
  end.
