(* ===== verification/ScannerFacts.v ===== *)
(** * What a verdict means (src/src/scan/scanner.rs)

    Only an explicit clean answer is [Clean], a scanner program is waited for no longer than its
    timeout, and the check passes exactly for a scanner that answers both ways. *)

From S2P Require Import Prelude Text Auth Scanner.
Local Open Scope Z_scope.

(** AMSI fails closed: a file is clean exactly when AMSI was initialised, the file fits in one
    scan, a session opened, the call succeeded and the result is one of the two that mean clean; it
    is detected exactly when the same calls succeeded and the result is in the range AMSI documents
    for malware or for an administrator's block; anything else is no verdict. *)
Theorem amsi_fails_closed (a : AmsiCalls) (name : string) (b : bytes) :
  let answered := initialize a = 0 ∧ len b ≤ u32_max ∧ open_session a = 0 ∧ fst (scan_buffer a name b) = 0 in
  let result := snd (scan_buffer a name b) in
  (amsi_scan a name b = Clean ↔ answered ∧ (result = 0 ∨ result = 1)) ∧
  (amsi_scan a name b = Detected ↔ answered ∧ (0x8000 ≤ result ∨ 0x4000 ≤ result < 0x5000)).
Proof.
  simpl. unfold amsi_scan. destruct (scan_buffer a name b) as [hr result]. simpl.
  unfold amsi_verdict, AMSI_RESULT_CLEAN, AMSI_RESULT_NOT_DETECTED,
    AMSI_RESULT_BLOCKED_BY_ADMIN_START, AMSI_RESULT_BLOCKED_BY_ADMIN_END, AMSI_RESULT_DETECTED.
  repeat case_decide; (split; split; [intros [=]|intros [??]|intros [=]|intros [??]]); lia || tauto || auto with lia.
Qed.

(** *** Waiting *)

(** The clock moves on by at least the pause between two looks. *)
Definition clock_advances (os : Os) : Prop :=
  started os ≤ snd (polls os 0) ∧ ∀ i, snd (polls os i) + POLL ≤ snd (polls os (S i)).

Lemma polls_late os i : clock_advances os → started os + Z.of_nat i * POLL ≤ snd (polls os i).
Proof.
  intros [H0 Hs]. induction i as [|i IH]; [simpl; lia|]. specialize (Hs i). lia.
Qed.

Lemma wait_loop_ends rounds c until i os :
  (∃ j, (i ≤ j < i + rounds)%nat ∧ until ≤ snd (polls os j)) → is_Some (wait_loop rounds c until i os).
Proof.
  revert i. induction rounds as [|rounds IH]; intros i (j & Hj & Hu); [lia|]. simpl.
  destruct (polls os i) as [[code| |e] now] eqn:E; [eauto| |eauto].
  case_decide as Hn; [|eauto]. apply IH. exists j. split; [|done].
  assert (i ≠ j) by (intros ->; rewrite E in Hu; simpl in Hu; lia). lia.
Qed.

(** What the loop can answer. *)
Lemma wait_loop_clean rounds c until i os :
  wait_loop rounds c until i os = Some Clean →
  ∃ j k, polls os j = (Exited (Some k), snd (polls os j)) ∧ k ∈ clean_codes c ∧
    ∀ m, (i ≤ m < j)%nat → fst (polls os m) = Running ∧ snd (polls os m) < until.
Proof.
  revert i. induction rounds as [|rounds IH]; intros i; simpl; [done|].
  destruct (polls os i) as [[code| |e] now] eqn:E; [| |done].
  - unfold exit_verdict. destruct code as [k|]; [|done]. case_decide as Hk; [|case_decide; done].
    intros _. exists i, k. split_and!; [by rewrite E|done|lia].
  - case_decide as Hn; [|done]. intros (j & k & Hj & Hk & Hm)%IH. exists j, k. split_and!; [done..|].
    intros m Hlt. destruct (decide (m = i)) as [->|Hne]; [by rewrite E|]. apply Hm. lia.
Qed.

(** A scanner program is answered for, in time and never in its favour: whatever the operating
    system does, a scan ends within the rounds its timeout allows, and it says clean only when the
    copy was written, the program started and it exited, before a look past the deadline, with one
    of the codes configured as clean. *)
Theorem command_scan_decides (c : Command) (random : bytes) (b : bytes) (os : Os) :
  0 ≤ timeout c → clock_advances os →
  is_Some (command_scan c random b os) ∧
  (command_scan c random b os = Some Clean →
   create_dir os = None ∧ write_copy os b = None ∧
   ∃ j k, polls os j = (Exited (Some k), snd (polls os j)) ∧ k ∈ clean_codes c ∧
     ∀ m, (m < j)%nat → fst (polls os m) = Running ∧ snd (polls os m) < started os + timeout c).
Proof.
  intros Ht Hc. unfold command_scan, command_run.
  destruct (create_dir os); [split; [eauto|done]|].
  destruct (write_copy os b); [split; [eauto|done]|].
  destruct (spawn os _ _); [split; [eauto|done]|]. split.
  - apply wait_loop_ends. exists (S (Z.to_nat (timeout c / POLL))).
    unfold wait_rounds. split; [lia|].
    pose proof (polls_late os (S (Z.to_nat (timeout c / POLL))) Hc) as Hl.
    assert (0 < POLL) by (unfold POLL; lia).
    pose proof (Z.div_pos (timeout c) POLL Ht ltac:(lia)).
    pose proof (Z.mod_pos_bound (timeout c) POLL ltac:(lia)).
    pose proof (Z.div_mod (timeout c) POLL ltac:(lia)). nia.
  - intros (j & k & Hj & Hk & Hm)%wait_loop_clean. split_and!; [done..|]. exists j, k.
    split_and!; [done..|]. intros m Hlt. apply Hm. lia.
Qed.

Definition sample_command : Command := mkCommand ["scan"; "{file}"] [0] [1] (120 * second) "staging".

Definition sample_os : Os :=
  mkOs None (fun _ => None) (fun _ _ => None) 0
    (fun i => (if decide (i < 2)%nat then Running else Exited (Some 0), Z.of_nat i * POLL)).

Example command_scan_witness :
  is_Some (command_scan sample_command [x01; x02] [x03] sample_os) ∧
  command_scan sample_command [x01; x02] [x03] sample_os = Some Clean.
Proof.
  split; [|vm_compute; reflexivity].
  refine (proj1 (command_scan_decides sample_command [x01; x02] [x03] sample_os _ _)).
  - vm_compute. discriminate.
  - split; [vm_compute; discriminate|]. intros i. unfold sample_os. cbn [polls snd]. lia.
Defined.

(** The check proves the scanner answers both ways: it passes exactly when the scanner detects
    the EICAR test file, byte for byte the published 68-byte one, and calls a harmless file clean,
    so a scanner with one answer for everything never passes it. *)
Theorem check_proves_both_answers (s : Scanner) :
  (check s = Ok () ↔
     scan s "web-access-check.com" eicar = Detected ∧ scan s "web-access-check.txt" harmless = Clean) ∧
  ((∃ v, ∀ name b, scan s name b = v) → is_ok (check s) = false) ∧ length eicar = 68%nat.
Proof.
  unfold check. split_and!; [| |done].
  - destruct (scan s "web-access-check.com" eicar), (scan s "web-access-check.txt" harmless); naive_solver.
  - intros [v Hv]. rewrite !Hv. by destruct v.
Qed.
