(* ===== verification/Clip.v ===== *)
(** * Between the two clipboards (src/src/scan/clip.rs)

    One session's clipboard task: an offer of files is fetched, scanned and only then offered. The
    task is a function from inputs to outputs over its own state; the bytes reserved across sessions
    are state it shares, and the reports it makes and the scans it starts are recorded as they
    happen. What the clock, the settings, the scanner's standing and the route say when an input is
    handled is the environment of that step. *)

From S2P Require Import Prelude Cliprdr Auth Scanner.
From S2P Require Route.
Local Open Scope Z_scope.

Definition FILE_LIST : string := "FileGroupDescriptorW".
Definition RANGE : Z := Z.shiftl 1 20.
Definition ANSWER : Z := 30 * second.
Definition FIRST_STREAM : Z := 0x57410000.

Inductive Dir := Upload | Download.

#[export] Instance Dir_eq : EqDecision Dir.
Proof. solve_decision. Defined.

Abbreviation Files := (list (string * Z)).

Inductive Report :=
  | Started (dir : Dir) (files : Files)
  | Passed (dir : Dir) (files : Files)
  | Refused (dir : Dir) (files : Files) (reason : string).

(** ** Staging *)

(** [Staging::reserve] on the bytes held: the new total, unless it overflows or passes the most
    there may be. The compare-and-exchange loop retries until the total it read is current, so it
    acts at one moment. *)
Definition reserve (held max bytes : Z) : option Z :=
  let next := held + bytes in
  if decide (next ≤ u64_max ∧ next ≤ max) then Some next else None.

(** [Drop for Reservation]. *)
Definition release (held bytes : Z) : Z := wrap 64 (held - bytes).

(** ** State *)

Inductive Owner := Receiver | Proxy.

Inductive Step :=
  | Descriptor
  | Contents (descriptor : bytes) (files : list FileDescriptor) (data : list bytes) (index : nat)
      (stream : Z)
  | Scanning (descriptor : bytes) (files : list FileDescriptor) (data : list bytes)
      (verdicts : list (option Verdict)).

Record Fetch := mkFetch {
  f_generation : Z;
  f_list : list bytes;
  f_file_list : Z;
  f_step : Step;
  f_deadline : Z;
  f_reservation : option Z;
}.

Record Offer := mkOffer {
  o_file_list : Z;
  o_descriptor : bytes;
  o_data : list bytes;
  o_reservation : option Z;
}.

Inductive Phase :=
  | Idle
  | Fetching (f : Fetch)
  | Offered (o : Offer).

Record Direction := mkDirection {
  phase : Phase;
  data_owed : list Owner;
  lists_owed : list Owner;
}.

Definition direction_default : Direction := mkDirection Idle [] [].

Inductive Output :=
  | ToClient (b : bytes)
  | ToServer (b : bytes).

(** A scan started on a blocking thread. *)
Record Job := mkJob { j_dir : Dir; j_generation : Z; j_index : nat; j_name : string; j_bytes : bytes }.

(** The task's state, the staging it shares, and what it has set going. [long_names] is the flag of
    the server and of the client, in that order. *)
Record Clip := mkClip {
  up : Direction;
  down : Direction;
  long_names : bool * bool;
  generation : Z;
  next_stream : Z;
  out : list Output;
  held : Z;
  staging_max : Z;
  reports : list Report;
  jobs : list Job;
}.

Definition clip_new (held max : Z) : Clip :=
  mkClip direction_default direction_default (true, true) 0 FIRST_STREAM [] held max [] [].

(** What the step is given. *)
Record Env := mkEnv {
  now : Z;
  scan_timeout : Z;
  healthy : result string unit;
  max_file_bytes : option Z;
  route : Route.Route;
  (** whether the allocator, after these capacities but for the last, gives the last *)
  allocates : list Z → bool;
}.

Inductive Input :=
  | FromClient (w : Route.Whole)
  | FromServer (w : Route.Whole)
  | Scanned (dir : Dir) (generation : Z) (index : nat) (verdict : Verdict).

(** An error ends the task: one of the route's, a panic, which an allocation larger than the address
    space causes, or an allocation that is refused, which aborts the whole process. *)
Inductive ClipError :=
  | RouteE (e : Route.RouteError)
  | CapacityOverflow
  | AllocationFailed.

Definition set_up d c := mkClip d (down c) (long_names c) (generation c) (next_stream c) (out c) (held c) (staging_max c) (reports c) (jobs c).
Definition set_down d c := mkClip (up c) d (long_names c) (generation c) (next_stream c) (out c) (held c) (staging_max c) (reports c) (jobs c).
Definition set_long_names l c := mkClip (up c) (down c) l (generation c) (next_stream c) (out c) (held c) (staging_max c) (reports c) (jobs c).
Definition set_generation g c := mkClip (up c) (down c) (long_names c) g (next_stream c) (out c) (held c) (staging_max c) (reports c) (jobs c).
Definition set_next_stream s c := mkClip (up c) (down c) (long_names c) (generation c) s (out c) (held c) (staging_max c) (reports c) (jobs c).
Definition set_out o c := mkClip (up c) (down c) (long_names c) (generation c) (next_stream c) o (held c) (staging_max c) (reports c) (jobs c).
Definition set_held h c := mkClip (up c) (down c) (long_names c) (generation c) (next_stream c) (out c) h (staging_max c) (reports c) (jobs c).
Definition set_reports r c := mkClip (up c) (down c) (long_names c) (generation c) (next_stream c) (out c) (held c) (staging_max c) r (jobs c).
Definition set_jobs j c := mkClip (up c) (down c) (long_names c) (generation c) (next_stream c) (out c) (held c) (staging_max c) (reports c) j.

Definition set_phase p d := mkDirection p (data_owed d) (lists_owed d).
Definition set_data_owed q d := mkDirection (phase d) q (lists_owed d).
Definition set_lists_owed q d := mkDirection (phase d) (data_owed d) q.

Abbreviation C := (M Clip ClipError).

Definition direction (dir : Dir) (c : Clip) : Direction :=
  match dir with Upload => up c | Download => down c end.

Definition set_direction (dir : Dir) (d : Direction) (c : Clip) : Clip :=
  match dir with Upload => set_up d c | Download => set_down d c end.

Definition update (dir : Dir) (f : Direction → Direction) (c : Clip) : Clip :=
  set_direction dir (f (direction dir c)) c.

(** The reservation a phase holds, given back when the phase is dropped. *)
Definition reservation (p : Phase) : option Z :=
  match p with
  | Idle => None
  | Fetching f => f_reservation f
  | Offered o => o_reservation o
  end.

Definition drop_reservation (r : option Z) (c : Clip) : Clip :=
  match r with Some n => set_held (release (held c) n) c | None => c end.

(** An assignment to a phase drops the one that was there. *)
Definition replace_phase (dir : Dir) (p : Phase) (c : Clip) : Clip :=
  drop_reservation (reservation (phase (direction dir c))) (update dir (set_phase p) c).

(** A change of a phase in place: its reservation stays with it. *)
Definition put_phase (dir : Dir) (p : Phase) (c : Clip) : Clip := update dir (set_phase p) c.

Definition owe_data (dir : Dir) (o : Owner) : Clip → Clip :=
  update dir (fun d => set_data_owed (data_owed d ++ [o]) d).
Definition owe_list (dir : Dir) (o : Owner) : Clip → Clip :=
  update dir (fun d => set_lists_owed (lists_owed d ++ [o]) d).

Definition long_names_both (c : Clip) : bool := fst (long_names c) && snd (long_names c).

Definition files_of (files : list FileDescriptor) : Files :=
  (fun f => (file_name f, default 0 (file_size f))) <$> files.

Definition report (r : Report) : C unit := modify (fun c => set_reports (reports c ++ [r]) c).

Definition emit (o : Output) : C unit := modify (fun c => set_out (out c ++ [o]) c).

(** The units a PDU arrived in, passed on to the other side unchanged. *)
Definition pass (from_client : bool) (w : Route.Whole) : C unit :=
  modify (fun c => set_out (out c ++
    ((fun u => if from_client then ToServer u else ToClient u) <$> Route.units w)) c).

(** [next_stream]: wrapping, and never below the first. *)
Definition take_stream : C Z := fun c =>
  (Ok (next_stream c), set_next_stream (Z.max (wrap 32 (next_stream c + 1)) FIRST_STREAM) c).

(** The id of the file-list format, when the list offers one. *)
Definition file_list_format (formats : list ClipboardFormat) : option Z :=
  format_id <$> List.find (fun f => bool_decide (format_name f = Some FILE_LIST)) formats.

(** The first file at or after [index] that is not all in. *)
Fixpoint skip_full (fuel : nat) (files : list FileDescriptor) (data : list bytes) (index : nat) : nat :=
  match fuel with
  | O => index
  | S fuel' =>
      match files !! index, data !! index with
      | Some f, Some d =>
          if decide (default 0 (file_size f) ≤ len d) then skip_full fuel' files data (S index) else index
      | _, _ => index
      end
  end.

(** [i32::try_from(index).unwrap_or(i32::MAX)]. *)
Definition index_i32 (index : nat) : Z := Z.min (Z.of_nat index) i32_max.

(** [u32::try_from(want).unwrap_or(RANGE).min(RANGE)]. *)
Definition request_size (want : Z) : Z := Z.min (if decide (want ≤ u32_max) then want else RANGE) RANGE.

Definition refusal (v : option Verdict) (f : FileDescriptor) : option string :=
  match v with
  | Some Clean => None
  | Some Detected => Some (file_name f +:+ ": malware detected")
  | Some (Unavailable why) => Some (file_name f +:+ ": not scanned (" +:+ why +:+ ")")
  | None => Some (file_name f +:+ ": not scanned")
  end.

Definition is_none {A} (o : option A) : bool := match o with None => true | Some _ => false end.

Section clip.
Context {H : Codec} (env : Env).

(** ** Writing *)

Definition lift_route {A} (r : result Route.RouteError A) : C A :=
  match r with Ok a => mret a | Err e => throw (RouteE e) end.

Definition send (client : bool) (p : ClipboardPdu) : C unit :=
  b ← lift_route (if client then Route.to_client (route env) p else Route.to_server (route env) p);
  emit (if client then ToClient b else ToServer b).

Definition send_sender (dir : Dir) (p : ClipboardPdu) : C unit := send (bool_decide (dir = Upload)) p.
Definition send_receiver (dir : Dir) (p : ClipboardPdu) : C unit := send (bool_decide (dir = Download)) p.

(** The receiver is told the clipboard now holds nothing. *)
Definition clear_receiver (dir : Dir) : C unit :=
  _ ← modify (replace_phase dir Idle);
  _ ← modify (owe_list dir Proxy);
  long ← gets long_names_both;
  empty ← lift_route (Route.codec_err (new_unicode [] long));
  send_receiver dir (PFormatList empty).

(** The files a fetch is about, once they are known. *)
Definition fetch_files (p : Phase) : Files :=
  match p with
  | Fetching f =>
      match f_step f with
      | Contents _ files _ _ _ | Scanning _ files _ _ => files_of files
      | Descriptor => []
      end
  | _ => []
  end.

Definition refuse (dir : Dir) (reason : string) : C unit :=
  files ← gets (fun c => fetch_files (phase (direction dir c)));
  _ ← report (Refused dir files reason);
  clear_receiver dir.

Definition refuse_files (dir : Dir) (files : list FileDescriptor) (reason : string) : C unit :=
  _ ← report (Refused dir (files_of files) reason);
  clear_receiver dir.

(** ** The sender's side *)

(** A new clipboard on the sender's side. *)
Definition format_list (dir : Dir) (l : FormatList) (w : Route.Whole) : C unit :=
  _ ← modify (replace_phase dir Idle);
  long ← gets long_names_both;
  match file_list_format (default [] (get_formats l long)) with
  | None =>
      _ ← modify (owe_list dir Receiver);
      pass (bool_decide (dir = Upload)) w
  | Some file_list =>
      _ ← send_sender dir (PFormatListResponse true);
      match healthy env with
      | Err why =>
          _ ← report (Refused dir [] ("the scanner is not answering: " +:+ why));
          clear_receiver dir
      | Ok _ =>
          _ ← modify (fun c => set_generation (wrap 64 (generation c + 1)) c);
          g ← gets generation;
          _ ← modify (replace_phase dir
                (Fetching (mkFetch g (Route.units w) file_list Descriptor (now env + ANSWER) None)));
          _ ← modify (owe_data dir Proxy);
          send_sender dir (PFormatDataRequest file_list)
      end
  end.

(** The scans of one offer, one per file. *)
Definition scan_jobs (dir : Dir) (g : Z) (files : list FileDescriptor) (data : list bytes) : list Job :=
  imap (fun i fd => mkJob dir g i (file_name fd.1) fd.2) (zip files data).

(** Asks for the next range, or starts the scans once every byte is in. *)
Definition fetch_next (dir : Dir) : C unit :=
  p ← gets (fun c => phase (direction dir c));
  match p with
  | Fetching (mkFetch g l fl (Contents descriptor files data index stream) deadline res) =>
      let index := skip_full (length files) files data index in
      match files !! index, data !! index with
      | Some f, Some d =>
          let want := default 0 (file_size f) - len d in
          _ ← modify (put_phase dir (Fetching
                (mkFetch g l fl (Contents descriptor files data index stream) (now env + ANSWER) res)));
          send_sender dir (PFileContentsRequest
            (mkContentsRequest stream (index_i32 index) FILE_CONTENTS_RANGE (len d) (request_size want) None))
      | _, _ =>
          _ ← modify (fun c => set_jobs (jobs c ++ scan_jobs dir g files data) c);
          modify (put_phase dir (Fetching
            (mkFetch g l fl (Scanning descriptor files data (replicate (length files) None))
               (now env + scan_timeout env + ANSWER) res)))
      end
  | _ => mret ()
  end.

Definition is_folder (f : FileDescriptor) : bool :=
  bool_decide (is_Some (relative_path f)) ||
  match attributes f with Some a => contains a ATTRIBUTE_DIRECTORY | None => false end.

(** [sizes.iter().sum()] on [u64], which wraps. *)
Definition sum_u64 (sizes : list Z) : Z := foldl (fun acc s => wrap 64 (acc + s)) 0 sizes.

(** [Vec::with_capacity] for each size in turn, after the capacities [given]. *)
Fixpoint with_capacities (given sizes : list Z) : result ClipError unit :=
  match sizes with
  | [] => Ok ()
  | s :: sizes' =>
      if decide (i64_max < s) then Err CapacityOverflow
      else if bool_decide (s = 0) || allocates env (given ++ [s]) then with_capacities (given ++ [s]) sizes'
      else Err AllocationFailed
  end.

(** The sender's file list arrived. *)
Definition descriptor (dir : Dir) (resp : FormatDataResponse) : C unit :=
  p ← gets (fun c => phase (direction dir c));
  match p with
  | Fetching (mkFetch g l fl Descriptor deadline res) =>
      if data_error resp then refuse dir "the sender did not list its files"
      else
        match to_file_list resp with
        | None => refuse dir "the sender's file list could not be read"
        | Some files =>
            if decide (files = []) then refuse dir "the offer holds no files"
            else if existsb is_folder files then refuse_files dir files "folders are not transferred"
            else if existsb (fun f => is_none (file_size f)) files
                 then refuse_files dir files "a file came without its size"
            else
              let sizes := (fun f => default 0 (file_size f)) <$> files in
              if match max_file_bytes env with
                 | Some limit => existsb (fun s => bool_decide (limit < s)) sizes
                 | None => false
                 end
              then refuse_files dir files "larger than the file-size limit"
              else
                c ← get;
                match reserve (held c) (staging_max c) (sum_u64 sizes) with
                | None => refuse_files dir files "too much is being scanned at once"
                | Some held' =>
                    _ ← modify (set_held held');
                    _ ← report (Started dir (files_of files));
                    stream ← take_stream;
                    _ ← modify (drop_reservation res);
                    _ ← modify (put_phase dir (Fetching
                          (mkFetch g l fl Descriptor deadline (Some (sum_u64 sizes)))));
                    match with_capacities [] sizes with
                    | Err e => throw e
                    | Ok _ =>
                      _ ← modify (put_phase dir (Fetching
                            (mkFetch g l fl
                               (Contents (data_bytes resp) files (replicate (length files) []) 0 stream)
                               deadline (Some (sum_u64 sizes)))));
                      fetch_next dir
                    end
                end
        end
  | _ => mret ()
  end.

(** Bytes of a file arrived. *)
Definition contents (dir : Dir) (resp : FileContentsResponse) : C unit :=
  fresh ← take_stream;
  p ← gets (fun c => phase (direction dir c));
  match p with
  | Fetching (mkFetch g l fl (Contents descriptor files data index stream) deadline res) =>
      if decide (resp_stream resp ≠ stream) then mret ()
      else if resp_error resp then refuse dir "the sender stopped sending a file"
      else
        let d := default [] (data !! index) in
        let size := default 0 (files !! index ≫= file_size) in
        let got := resp_data resp in
        let room := size - len d in
        if decide (got = [] ∨ Z.min room RANGE < len got)
        then refuse dir "the sender sent a file that does not match its size"
        else
          _ ← modify (put_phase dir (Fetching
                (mkFetch g l fl (Contents descriptor files (<[index := d ++ got]> data) index fresh)
                   deadline res)));
          fetch_next dir
  | _ => mret ()
  end.

(** A verdict came back. *)
Definition scanned (dir : Dir) (g : Z) (index : nat) (verdict : Verdict) : C unit :=
  p ← gets (fun c => phase (direction dir c));
  match p with
  | Fetching (mkFetch g' l fl (Scanning descriptor files data verdicts) deadline res) =>
      if decide (g' ≠ g) then mret ()
      else
        let verdicts := <[index := Some verdict]> verdicts in
        if existsb is_none verdicts then
          modify (put_phase dir (Fetching
            (mkFetch g' l fl (Scanning descriptor files data verdicts) deadline res)))
        else
          let refused := omap (fun fv => refusal fv.2 fv.1) (zip files verdicts) in
          if decide (refused ≠ []) then
            _ ← modify (replace_phase dir Idle);
            _ ← report (Refused dir (files_of files) (String.concat "; " refused));
            clear_receiver dir
          else
            _ ← report (Passed dir (files_of files));
            _ ← modify (put_phase dir (Offered (mkOffer fl descriptor data res)));
            _ ← modify (owe_list dir Proxy);
            modify (fun c => set_out (out c ++
              ((fun u => match dir with Upload => ToServer u | Download => ToClient u end) <$> l)) c)
  | _ => mret ()
  end.

(** ** The receiver's side *)

Definition data_request (dir : Dir) (format : Z) (client : bool) (w : Route.Whole) : C unit :=
  p ← gets (fun c => phase (direction dir c));
  let answer :=
    match p with
    | Offered o => if decide (o_file_list o = format) then Some (new_data (o_descriptor o)) else None
    | Fetching _ => Some new_data_error
    | Idle => None
    end in
  match answer with
  | Some a => send_receiver dir (PFormatDataResponse a)
  | None =>
      _ ← modify (owe_data dir Receiver);
      pass client w
  end.

(** The answer to a request for a file's size or for a range of it, from the scanned copy. *)
Definition contents_answer (p : Phase) (req : FileContentsRequest) : FileContentsResponse :=
  match p with
  | Offered o =>
      match (if decide (0 ≤ req_index req) then o_data o !! Z.to_nat (req_index req) else None) with
      | Some file =>
          if contains (req_flags req) FILE_CONTENTS_SIZE then new_size_response (req_stream req) (len file)
          else
            let start := Z.min (req_position req) (len file) in
            let end_ := Z.min (Z.min (start + req_size req) u64_max) (len file) in
            new_data_response (req_stream req) (take (Z.to_nat (end_ - start)) (drop (Z.to_nat start) file))
      | None => new_contents_error (req_stream req)
      end
  | _ => new_contents_error (req_stream req)
  end.

Definition contents_request (dir : Dir) (req : FileContentsRequest) : C unit :=
  p ← gets (fun c => phase (direction dir c));
  send_receiver dir (PFileContentsResponse (contents_answer p req)).

(** [VecDeque::pop_front] of the answers owed. *)
Definition pop_list_owed (dir : Dir) : C (option Owner) := fun c =>
  (Ok (head (lists_owed (direction dir c))),
   update dir (fun d => set_lists_owed (tail (lists_owed d)) d) c).

Definition pop_data_owed (dir : Dir) : C (option Owner) := fun c =>
  (Ok (head (data_owed (direction dir c))),
   update dir (fun d => set_data_owed (tail (data_owed d)) d) c).

(** ** Inputs *)

(** [Clip::take]. *)
Definition take_pdu (client : bool) (w : Route.Whole) : C unit :=
  let sending := if client then Upload else Download in
  let receiving := if client then Download else Upload in
  p ← lift_route (Route.codec_err (decode_pdu (Route.pdu w)));
  match p with
  | PCapabilities version flags =>
      _ ← modify (fun c => set_long_names
            (let long := contains flags USE_LONG_FORMAT_NAMES in
             if client then (fst (long_names c), long) else (long, snd (long_names c))) c);
      send (negb client) (PCapabilities version (without flags CAN_LOCK_CLIPDATA))
  | PFormatList l => format_list sending l w
  | PFormatListResponse _ =>
      o ← pop_list_owed receiving;
      match o with Some Proxy => mret () | _ => pass client w end
  | PFormatDataRequest format => data_request receiving format client w
  | PFormatDataResponse resp =>
      o ← pop_data_owed sending;
      match o with Some Proxy => descriptor sending resp | _ => pass client w end
  | PFileContentsRequest req => contents_request receiving req
  | PFileContentsResponse resp => contents sending resp
  | LockData _ | UnlockData _ => mret ()
  | MonitorReady | TemporaryDirectory _ => pass client w
  end.

Definition handle (i : Input) : C unit :=
  match i with
  | FromClient w => take_pdu true w
  | FromServer w => take_pdu false w
  | Scanned dir g index v => scanned dir g index v
  end.

(** ** Deadlines *)

Definition phase_deadline (p : Phase) : option Z :=
  match p with Fetching f => Some (f_deadline f) | _ => None end.

Definition deadline (c : Clip) : option Z :=
  match phase_deadline (phase (up c)), phase_deadline (phase (down c)) with
  | Some a, Some b => Some (Z.min a b)
  | Some a, None | None, Some a => Some a
  | None, None => None
  end.

Definition expire_at : C unit :=
  foldM (fun _ dir =>
      p ← gets (fun c => phase (direction dir c));
      match phase_deadline p with
      | Some t => if decide (t ≤ now env) then refuse dir "the sender or the scanner took too long"
                  else mret ()
      | None => mret ()
      end) () [Upload; Download].

(** One round of [Clip::run]: an input or the deadline, then what was produced is written. *)
Definition round (i : option Input) : C (list Output) :=
  _ ← match i with Some i => handle i | None => expire_at end;
  o ← gets out;
  _ ← modify (set_out []);
  mret o.
End clip.
