(* ===== verification/ClipInv.v ===== *)
(** * What the clipboard task keeps true (src/src/scan/clip.rs)

    The invariant behind the scan guarantee: what a fetch has gathered, which scans were started on
    it and which answers they gave; and the accounting of reserved bytes. Every handler preserves
    both. *)

From S2P Require Import Prelude Cliprdr Auth Scanner Clip.
From S2P Require Route.
Local Open Scope Z_scope.

(** The scans answered so far, with their verdicts. *)
Abbreviation Answers := (list (Job * Verdict)).

(** ** The invariant *)

Definition no_jobs (dir : Dir) (g : Z) (js : list Job) : Prop :=
  ∀ j, j ∈ js → ¬ (j_dir j = dir ∧ j_generation j = g).

(** Each file's bytes so far are no more than its announced size. *)
Definition fits (files : list FileDescriptor) (data : list bytes) : Prop :=
  length data = length files ∧
  ∀ i f d, files !! i = Some f → data !! i = Some d → len d ≤ default 0 (file_size f).

(** The next byte to come is one of this file, which is not all in. *)
Definition wants (files : list FileDescriptor) (data : list bytes) (index : nat) : Prop :=
  ∃ f d, files !! index = Some f ∧ data !! index = Some d ∧ len d < default 0 (file_size f).

(** Every file before this one has all its bytes. *)
Definition full_before (files : list FileDescriptor) (data : list bytes) (index : nat) : Prop :=
  ∀ i f d, (i < index)%nat → files !! i = Some f → data !! i = Some d →
    len d = default 0 (file_size f).

Definition step_ok (dir : Dir) (g : Z) (js : list Job) (a : Answers) (s : Step) : Prop :=
  match s with
  | Descriptor => no_jobs dir g js
  | Contents _ files data index _ =>
      no_jobs dir g js ∧ fits files data ∧ full_before files data index ∧ wants files data index
  | Scanning _ files data verdicts =>
      length data = length files ∧ full_before files data (length files) ∧ length verdicts = length files ∧
      (∀ j, j ∈ js → j_dir j = dir → j_generation j = g → data !! j_index j = Some (j_bytes j)) ∧
      (∀ i v, verdicts !! i = Some (Some v) →
        ∃ j, (j, v) ∈ a ∧ j ∈ js ∧ j_dir j = dir ∧ j_generation j = g ∧ j_index j = i)
  end.

Definition phase_ok (dir : Dir) (g : Z) (js : list Job) (a : Answers) (p : Phase) : Prop :=
  match p with
  | Idle => True
  | Fetching f => f_generation f ≤ g ∧ step_ok dir (f_generation f) js a (f_step f)
  | Offered o =>
      ∀ i b, o_data o !! i = Some b → ∃ j, (j, Clean) ∈ a ∧ j_dir j = dir ∧ j_bytes j = b
  end.

Definition clip_ok (a : Answers) (c : Clip) : Prop :=
  (∀ dir, phase_ok dir (generation c) (jobs c) a (phase (direction dir c))) ∧
  (∀ j, j ∈ jobs c → j_generation j ≤ generation c).

(** The parts of the state the invariant speaks of. *)
Definition same_core (c c' : Clip) : Prop :=
  (∀ dir, phase (direction dir c') = phase (direction dir c)) ∧
  generation c' = generation c ∧ jobs c' = jobs c.

Lemma clip_ok_core a c c' : same_core c c' → clip_ok a c → clip_ok a c'.
Proof.
  intros (Hp & Hg & Hj) [Hok Hb]. split.
  - intros dir. rewrite Hp, Hg, Hj. apply Hok.
  - rewrite Hg, Hj. done.
Qed.

(** ** Reading and writing one direction *)

Lemma direction_update dir dir' f c :
  direction dir' (update dir f c) = if decide (dir' = dir) then f (direction dir c) else direction dir' c.
Proof. by destruct dir, dir'. Qed.

Lemma direction_drop dir r c : direction dir (drop_reservation r c) = direction dir c.
Proof. by destruct r, dir. Qed.

Lemma generation_update dir f c : generation (update dir f c) = generation c.
Proof. by destruct dir. Qed.
Lemma jobs_update dir f c : jobs (update dir f c) = jobs c.
Proof. by destruct dir. Qed.
Lemma held_update dir f c : held (update dir f c) = held c.
Proof. by destruct dir. Qed.
Lemma max_update dir f c : staging_max (update dir f c) = staging_max c.
Proof. by destruct dir. Qed.

#[export] Hint Rewrite direction_update direction_drop generation_update jobs_update held_update
  max_update : clip.

Lemma generation_drop r c : generation (drop_reservation r c) = generation c.
Proof. by destruct r. Qed.
Lemma jobs_drop r c : jobs (drop_reservation r c) = jobs c.
Proof. by destruct r. Qed.
#[export] Hint Rewrite generation_drop jobs_drop : clip.

(** A phase set anew in one direction. *)
Lemma clip_ok_set_phase a dir p c c' :
  (∀ dir', phase (direction dir' c') = if decide (dir' = dir) then p else phase (direction dir' c)) →
  generation c' = generation c → jobs c' = jobs c →
  phase_ok dir (generation c) (jobs c) a p → clip_ok a c → clip_ok a c'.
Proof.
  intros Hp Hg Hj Hok [Hall Hb]. split; [|by rewrite Hg, Hj].
  intros dir'. rewrite Hp, Hg, Hj. case_decide; [by subst|apply Hall].
Qed.

Lemma replace_phase_ok a dir p c :
  phase_ok dir (generation c) (jobs c) a p → clip_ok a c → clip_ok a (replace_phase dir p c).
Proof.
  unfold replace_phase. apply clip_ok_set_phase; intros; autorewrite with clip; [|done..].
  by case_decide.
Qed.

Lemma put_phase_ok a dir p c :
  phase_ok dir (generation c) (jobs c) a p → clip_ok a c → clip_ok a (put_phase dir p c).
Proof.
  unfold put_phase. apply clip_ok_set_phase; intros; autorewrite with clip; [|done..].
  by case_decide.
Qed.

Lemma owe_data_core dir o c : same_core c (owe_data dir o c).
Proof. split_and!; [intros [] | ..]; by destruct dir. Qed.
Lemma owe_list_core dir o c : same_core c (owe_list dir o c).
Proof. split_and!; [intros [] | ..]; by destruct dir. Qed.

(** ** Invariants the smaller operations keep *)

(** Nothing but output, reports, answers owed, names and stream ids changed. *)
Definition same_state (c c' : Clip) : Prop :=
  same_core c c' ∧ held c' = held c ∧ staging_max c' = staging_max c.

Ltac same_state :=
  unfold same_state, same_core; split_and!; [intros []|..];
  try match goal with dir : Dir |- _ => destruct dir end; done.

(** An invariant that does not depend on those, and survives the end of a phase. *)
Class ClipInvariant (I : Clip → Prop) : Prop := {
  inv_same : ∀ c c', same_state c c' → I c → I c';
  inv_idle : ∀ dir c, I c → I (replace_phase dir Idle c);
}.

#[export] Instance clip_ok_invariant a : ClipInvariant (clip_ok a).
Proof.
  split; [intros c c' [Hc _]; by apply clip_ok_core|]. intros dir c. by apply replace_phase_ok.
Qed.

Definition generation_is (k : Z) (c : Clip) : Prop := generation c = k.

#[export] Instance generation_is_invariant k : ClipInvariant (generation_is k).
Proof.
  unfold generation_is. split; [intros c c' ((_ & Hg & _) & _); by rewrite Hg|].
  intros dir c. unfold replace_phase. by autorewrite with clip.
Qed.

#[export] Instance and_invariant I J `{!ClipInvariant I, !ClipInvariant J} :
  ClipInvariant (fun c => I c ∧ J c).
Proof.
  split; [intros c c' Hs [? ?]; split; by eapply inv_same|].
  intros dir c [? ?]. split; by apply inv_idle.
Qed.

Section operations.
Context {H : Codec} (env : Env) (I : Clip → Prop) `{!ClipInvariant I}.

Abbreviation keeps := (preserves (E:=ClipError) I).

Lemma keeps_same (f : Clip → Clip) : (∀ c, same_state c (f c)) → keeps (modify f).
Proof. intros Hf. apply preserves_modify. intros c. by apply inv_same. Qed.

Lemma report_keeps r : keeps (report r).
Proof. apply keeps_same. intros c. same_state. Qed.
Lemma emit_keeps o : keeps (emit o).
Proof. apply keeps_same. intros c. same_state. Qed.
Lemma pass_keeps b w : keeps (pass b w).
Proof. apply keeps_same. intros c. same_state. Qed.
Lemma owe_data_keeps dir o : keeps (modify (owe_data dir o)).
Proof. apply keeps_same. intros c. same_state. Qed.
Lemma owe_list_keeps dir o : keeps (modify (owe_list dir o)).
Proof. apply keeps_same. intros c. same_state. Qed.
Lemma take_stream_keeps : keeps take_stream.
Proof. intros c. apply inv_same. same_state. Qed.
Lemma pop_list_keeps dir : keeps (pop_list_owed dir).
Proof. intros c. apply inv_same. same_state. Qed.
Lemma pop_data_keeps dir : keeps (pop_data_owed dir).
Proof. intros c. apply inv_same. same_state. Qed.
Lemma idle_keeps dir : keeps (modify (replace_phase dir Idle)).
Proof. apply preserves_modify. intros c. apply inv_idle. Qed.
Lemma lift_route_keeps {A} (r : result _ A) : keeps (lift_route r).
Proof. destruct r; [apply preserves_ret|apply preserves_throw]. Qed.
Lemma out_keeps (f : Clip → list Output) : keeps (modify (fun c => set_out (f c) c)).
Proof. apply keeps_same. intros c. same_state. Qed.
Lemma names_keeps (f : Clip → bool * bool) : keeps (modify (fun c => set_long_names (f c) c)).
Proof. apply keeps_same. intros c. same_state. Qed.

#[local] Hint Resolve report_keeps emit_keeps pass_keeps owe_data_keeps owe_list_keeps
  take_stream_keeps pop_list_keeps pop_data_keeps idle_keeps lift_route_keeps : preserves.

Lemma send_keeps b p : keeps (send env b p).
Proof. unfold send. solve_preserves. Qed.
#[local] Hint Resolve send_keeps : preserves.

Lemma clear_receiver_keeps dir : keeps (clear_receiver env dir).
Proof. unfold clear_receiver, send_receiver. solve_preserves. Qed.
#[local] Hint Resolve clear_receiver_keeps : preserves.

Lemma refuse_keeps dir r : keeps (refuse env dir r).
Proof. unfold refuse. solve_preserves. Qed.
Lemma refuse_files_keeps dir f r : keeps (refuse_files env dir f r).
Proof. unfold refuse_files. solve_preserves. Qed.
#[local] Hint Resolve refuse_keeps : preserves.

Lemma data_request_keeps dir f b w : keeps (data_request env dir f b w).
Proof. unfold data_request, send_receiver. solve_preserves. Qed.
Lemma contents_request_keeps dir r : keeps (contents_request env dir r).
Proof. unfold contents_request, send_receiver. solve_preserves. Qed.
Lemma expire_keeps : keeps (expire_at env).
Proof. unfold expire_at. solve_preserves. Qed.

(** The handlers that move a fetch along decide the rest. *)
Lemma take_pdu_keeps client w c :
  (∀ dir fl, I (snd (format_list env dir fl w c))) →
  (∀ dir r, keeps (descriptor env dir r)) → (∀ dir r, keeps (contents env dir r)) →
  I c → I (snd (take_pdu env client w c)).
Proof.
  intros Hf Hd Hc HI. unfold take_pdu.
  destruct (Route.codec_err (decode_pdu (Route.pdu w))) as [p|e]; [|done].
  simpl lift_route. erewrite bind_ok by done. destruct p; try apply Hf;
    (match goal with |- I (snd (?m c)) => refine ((_ : keeps m) c HI) end);
    eauto using data_request_keeps, contents_request_keeps with preserves;
    apply preserves_bind; auto using names_keeps with preserves; intros [[]|];
    auto with preserves.
Qed.
End operations.

#[export] Hint Resolve report_keeps emit_keeps pass_keeps owe_data_keeps owe_list_keeps
  take_stream_keeps pop_list_keeps pop_data_keeps idle_keeps lift_route_keeps send_keeps
  clear_receiver_keeps refuse_keeps refuse_files_keeps : preserves.
#[export] Hint Extern 0 (ClipInvariant _) => apply _ : preserves.

(** ** The invariant through the fetch *)

(** Scans started in the other direction do not matter. *)
Lemma phase_ok_more_jobs dir g js js' a p :
  phase_ok dir g js a p → (∀ j, j ∈ js' → j_dir j ≠ dir) → phase_ok dir g (js ++ js') a p.
Proof.
  intros Hp Hne. destruct p as [|f|o]; [done| |done]. destruct Hp as [Hg Hs]. split; [done|].
  assert (∀ g, no_jobs dir g js → no_jobs dir g (js ++ js')) as Hno.
  { intros g' Hs' j [Hj|Hj]%elem_of_app; [by apply Hs'|]. specialize (Hne j Hj). tauto. }
  destruct (f_step f); simpl in *; [by apply Hno|destruct Hs as [Hs ?]; split; auto|].
  destruct Hs as (? & ? & ? & Hs & Hv). split_and!; [done..| |].
  - intros j [Hj|Hj]%elem_of_app Hjd; [by apply Hs|]. by specialize (Hne j Hj).
  - intros k v Hk. destruct (Hv k v Hk) as (j & ? & ? & ?). exists j.
    split_and!; [done|apply elem_of_app; by left|naive_solver..].
Qed.

(** More answers only add. *)
Lemma clip_ok_more_answers a x c : clip_ok a c → clip_ok (a ++ x) c.
Proof.
  intros [Hok Hb]. split; [|done]. intros dir. specialize (Hok dir).
  assert (∀ jv, jv ∈ a → jv ∈ a ++ x) as Hsub by (intros; apply elem_of_app; by left).
  destruct (phase (direction dir c)) as [|f|o]; [done| |].
  - destruct Hok as [Hg Hs]. split; [done|]. destruct (f_step f); [done..|].
    destruct Hs as (? & ? & ? & ? & Hv). split_and!; [done..|]. intros i v Hi.
    destruct (Hv i v Hi) as (j & ? & ?). eauto.
  - intros i b Hi. destruct (Hok i b Hi) as (j & ? & ?). eauto.
Qed.

(** The loop over full files stops at one that is not, or past the last. *)
Lemma skip_full_spec n files data i :
  fits files data → full_before files data i → (length files ≤ i + n)%nat →
  let i' := skip_full n files data i in
  full_before files data i' ∧ (wants files data i' ∨ (length files ≤ i')%nat).
Proof.
  intros Hfit. revert i. induction n as [|n IH]; intros i Hb Hn; simpl.
  { split; [done|]. right. lia. }
  destruct (files !! i) as [f|] eqn:Hf.
  2: { split; [done|]. right. by apply lookup_ge_None. }
  destruct (data !! i) as [d|] eqn:Hd.
  2: { apply lookup_ge_None in Hd. destruct Hfit as [Hl _]. apply lookup_lt_Some in Hf. lia. }
  case_decide as Hle; [|split; [done|]; left; exists f, d; split_and!; [done..|lia]].
  apply IH; [|lia]. intros j g e Hj Hg He.
  destruct (decide (j = i)) as [->|Hne]; [|apply (Hb j); [lia|done..]].
  destruct Hfit as [_ Hfit]. specialize (Hfit i f d Hf Hd). simplify_eq. lia.
Qed.

Section fetching.
Context {H : Codec} (env : Env) (a : Answers).

Abbreviation keeps := (preserves (E:=ClipError) (clip_ok a)).

(** What a fetch in this direction needs of the state around it. *)
Definition around (dir : Dir) (g : Z) (c : Clip) : Prop :=
  g ≤ generation c ∧ no_jobs dir g (jobs c) ∧
  (∀ dir', dir' ≠ dir → phase_ok dir' (generation c) (jobs c) a (phase (direction dir' c))) ∧
  (∀ j, j ∈ jobs c → j_generation j ≤ generation c).

Lemma around_of_ok dir g l fl s dl res c :
  clip_ok a c → phase (direction dir c) = Fetching (mkFetch g l fl s dl res) →
  (∀ d f data vs, s ≠ Scanning d f data vs) → around dir g c.
Proof.
  intros [Hok Hb] Hp Hs. pose proof (Hok dir) as Hd. rewrite Hp in Hd. destruct Hd as [Hg Hstep].
  split_and!; [done| |intros; apply Hok|done]. simpl in Hstep.
  destruct s; [done|apply Hstep|by destruct (Hs _ _ _ _ eq_refl)].
Qed.

Lemma around_same dir g c c' : same_core c c' → around dir g c → around dir g c'.
Proof.
  intros (Hp & Hg & Hj) (? & ? & Ho & ?). unfold around. rewrite Hg, Hj. split_and!; [done..| |done].
  intros dir' Hne. rewrite Hp. by apply Ho.
Qed.

Lemma around_put dir g p c : around dir g c → around dir g (put_phase dir p c).
Proof.
  intros (Hg & Hn & Ho & Hb). unfold put_phase. split_and!; autorewrite with clip; [done..| |done].
  intros dir' Hne. autorewrite with clip. rewrite decide_False by done. by apply Ho.
Qed.

Lemma around_put_ok dir g p c :
  around dir g c → phase_ok dir (generation c) (jobs c) a p → clip_ok a (put_phase dir p c).
Proof.
  intros (Hg & Hn & Ho & Hb) Hp. unfold put_phase. split; autorewrite with clip; [|done].
  intros dir'. autorewrite with clip. case_decide as Hd; [by subst|by apply Ho].
Qed.

Lemma scan_jobs_elem dir g files data j :
  j ∈ scan_jobs dir g files data →
  j_dir j = dir ∧ j_generation j = g ∧ data !! j_index j = Some (j_bytes j).
Proof.
  unfold scan_jobs. intros (i & [f d] & Hj & Hi)%elem_of_lookup_imap_1. subst j. simpl.
  apply lookup_zip_with_Some in Hi as (? & ? & [= <- <-] & _ & Hd). done.
Qed.

(** From a fetch with bytes in hand to the next request or to the scans. *)
Lemma fetch_next_ok dir c g l fl desc files data index stream dl res :
  phase (direction dir c) = Fetching (mkFetch g l fl (Contents desc files data index stream) dl res) →
  around dir g c → fits files data → full_before files data index →
  clip_ok a (snd (fetch_next env dir c)).
Proof.
  intros Hp Ha Hfit Hb. unfold fetch_next. rewrite bind_gets, Hp.
  destruct (skip_full_spec (length files) files data index Hfit Hb ltac:(lia)) as [Hb' Hi].
  set (i := skip_full (length files) files data index) in *.
  destruct Hi as [(f & d & Hf & Hd & Hlt)|Hge].
  - rewrite Hf, Hd. erewrite bind_ok by done. apply (send_keeps env (clip_ok a)). apply around_put_ok with g; [done|].
    destruct Ha as (Hg & Hn & _). split; [done|]. split_and!; [done..|]. exists f, d. done.
  - assert (files !! i = None) as -> by by apply lookup_ge_None. erewrite bind_ok by done.
    destruct Ha as (Hg & Hn & Ho & Hjb). destruct Hfit as [Hl Hfit].
    unfold modify, put_phase. simpl. split; autorewrite with clip; simpl.
    + intros dir'. autorewrite with clip. case_decide as Hd; simpl.
      * subst dir'. split; [done|]. split_and!; [done| |by rewrite length_replicate| |].
        -- intros k fk dk Hk Hfk Hdk. apply (Hb' k); [lia|done..].
        -- intros j [Hj|Hj]%elem_of_app Hjd Hjg; [by destruct (Hn j Hj)|].
           by apply scan_jobs_elem in Hj as (_ & _ & ?).
        -- intros k v Hv. apply lookup_replicate in Hv as [Hv _]. done.
      * replace (direction dir' (set_jobs _ c)) with (direction dir' c) by by destruct dir'.
        apply phase_ok_more_jobs; [by apply Ho|]. intros j Hj%scan_jobs_elem. naive_solver.
    + intros j [Hj|Hj]%elem_of_app; [by apply Hjb|]. by apply scan_jobs_elem in Hj as (_ & -> & _).
Qed.

Lemma fits_new resp files :
  to_file_list resp = Some files → fits files (replicate (length files) []).
Proof.
  intros Hfl. split; [apply length_replicate|]. intros i f d Hf Hd.
  apply lookup_replicate in Hd as [-> _]. unfold len. simpl.
  destruct (file_size f) as [n|] eqn:Hn; simpl; [|lia].
  apply (to_file_list_u64 resp files f n Hfl); [|done]. by eapply list_elem_of_lookup_2.
Qed.

Lemma descriptor_keeps dir resp : keeps (descriptor env dir resp).
Proof.
  intros c Hok. unfold descriptor. rewrite bind_gets.
  destruct (phase (direction dir c)) as [|[g l fl s dl res]|o] eqn:Hp; [done| |done].
  destruct s; [|done..]. destruct (data_error resp); [by apply (refuse_keeps env (clip_ok a))|].
  destruct (to_file_list resp) as [files|] eqn:Hfl; [|by apply (refuse_keeps env (clip_ok a))].
  case_decide; [by apply (refuse_keeps env (clip_ok a))|].
  do 2 (destruct (existsb _ files); [by apply (refuse_files_keeps env (clip_ok a))|]).
  case_match; [by apply (refuse_files_keeps env (clip_ok a))|].
  pose proof (around_of_ok _ _ _ _ _ _ _ _ Hok Hp ltac:(done)) as Ha.
  unfold get. erewrite bind_ok by done.
  destruct (reserve (held c) (staging_max c) _) as [held'|]; [|by apply (refuse_files_keeps env (clip_ok a))].
  do 5 erewrite bind_ok by done. set (c0 := drop_reservation _ _).
  assert (same_core c c0) as Hc0 by (unfold c0; split_and!; [intros []|..]; by destruct res).
  apply (around_same _ _ _ _ Hc0) in Ha.
  set (c' := put_phase dir _ _). assert (around dir g c') as Ha' by by apply around_put.
  destruct (with_capacities env [] _) as [u|e].
  2: { apply around_put_ok with g; [done|]. destruct Ha as (Hg & Hn & _). by split. }
  - erewrite bind_ok by done. eapply fetch_next_ok.
    + autorewrite with clip. unfold put_phase. autorewrite with clip. by rewrite decide_True.
    + by apply around_put.
    + by eapply fits_new.
    + intros i f d Hi. lia.
Qed.

Lemma contents_keeps dir resp : keeps (contents env dir resp).
Proof.
  intros c Hok. unfold contents. erewrite bind_ok by done. rewrite bind_gets.
  pose proof (take_stream_keeps (clip_ok a) c Hok) as Hok'. set (c' := set_next_stream _ c).
  change (clip_ok a c') in Hok'.
  destruct (phase (direction dir c')) as [|[g l fl s dl res]|o] eqn:Hp; [done| |done].
  destruct s as [|desc files data index stream|]; [done| |done].
  case_decide; [done|]. destruct (resp_error resp); [by apply (refuse_keeps env (clip_ok a))|].
  pose proof (around_of_ok _ _ _ _ _ _ _ _ Hok' Hp ltac:(done)) as Ha.
  pose proof (proj1 Hok' dir) as Hd. rewrite Hp in Hd.
  destruct Hd as (_ & _ & Hfit & Hb & f & d & Hf & Hd & Hlt).
  rewrite Hf, Hd. simpl. case_decide as Hgot; [by apply (refuse_keeps env (clip_ok a))|].
  erewrite bind_ok by done. eapply fetch_next_ok.
  - unfold put_phase. autorewrite with clip. by rewrite decide_True.
  - by apply around_put.
  - destruct Hfit as [Hl Hfit]. split; [by rewrite length_insert|].
    intros i f' d' Hf' [(<- & <- & _)|[Hne Hd']]%list_lookup_insert_Some; [|by eapply Hfit].
    simplify_eq. rewrite len_app. lia.
  - intros i f' d' Hi Hf' [(<- & _)|[Hne Hd']]%list_lookup_insert_Some; [lia|].
    by apply (Hb i).
Qed.

(** A verdict that is the answer of a scan started for this offer. *)
Definition answered (dir : Dir) (g : Z) (index : nat) (v : Verdict) (c : Clip) : Prop :=
  ∃ j, (j, v) ∈ a ∧ j ∈ jobs c ∧ j_dir j = dir ∧ j_generation j = g ∧ j_index j = index.

Lemma all_clean files verdicts :
  length verdicts = length files → existsb is_none verdicts = false →
  omap (fun fv : FileDescriptor * option Verdict => refusal fv.2 fv.1) (zip files verdicts) = [] →
  ∀ i, (i < length files)%nat → verdicts !! i = Some (Some Clean).
Proof.
  intros Hl _ Hr i Hi. apply omap_nil_iff in Hr. rewrite Forall_lookup in Hr.
  destruct (lookup_lt_is_Some_2 files i Hi) as [f Hf].
  destruct (lookup_lt_is_Some_2 verdicts i ltac:(lia)) as [v Hv].
  specialize (Hr i (f, v)). rewrite Hv. rewrite lookup_zip_with, Hf, Hv in Hr. simpl in Hr.
  specialize (Hr eq_refl). by destruct v as [[]|].
Qed.

Lemma scanned_ok dir g index v c :
  answered dir g index v c → clip_ok a c → clip_ok a (snd (scanned env dir g index v c)).
Proof.
  intros (j0 & Hj0 & Hj0in & Hjd & Hjg & Hji) Hok. unfold scanned. rewrite bind_gets.
  destruct (phase (direction dir c)) as [|[g' l fl s dl res]|o] eqn:Hp; [done| |done].
  destruct s as [| |desc files data verdicts]; [done..|]. case_decide as Hg; [done|].
  assert (g' = g) as -> by (destruct (decide (g' = g)); tauto). clear Hg.
  pose proof (proj1 Hok dir) as Hd. rewrite Hp in Hd.
  destruct Hd as (Hgen & Hl & Hfull & Hlv & Hjobs & Hv). simpl in Hgen.
  set (verdicts' := <[index := Some v]> verdicts) in *.
  assert (∀ i v', verdicts' !! i = Some (Some v') →
    ∃ j, (j, v') ∈ a ∧ j ∈ jobs c ∧ j_dir j = dir ∧ j_generation j = g ∧ j_index j = i) as Hv'.
  { intros i v' [(<- & [= <-] & _)|[_ Hi]]%list_lookup_insert_Some; [by exists j0|by apply Hv]. }
  assert (length verdicts' = length files) as Hlv' by (unfold verdicts'; by rewrite length_insert).
  destruct (existsb is_none verdicts') eqn:Hnone.
  { apply put_phase_ok; [|done]. split; [done|]. by split_and!. }
  case_decide as Href.
  - refine ((_ : keeps _) c Hok). solve_preserves.
  - do 3 erewrite bind_ok by done. eapply clip_ok_core; [by split_and!; [intros []|..]|].
    eapply clip_ok_core; [apply owe_list_core|]. set (c1 := set_reports _ c).
    assert (clip_ok a c1) as Hok1 by (eapply clip_ok_core, Hok; by split_and!; [intros []|..]).
    apply put_phase_ok; [|done]. simpl. intros i b Hi.
    assert (i < length files)%nat as Hlt by (rewrite <-Hl; by eapply lookup_lt_Some).
    assert (verdicts' !! i = Some (Some Clean)) as Hc.
    { eapply all_clean; [done..| |done]. by destruct (decide (omap
        (fun fv : FileDescriptor * option Verdict => refusal fv.2 fv.1) (zip files verdicts') = [])). }
    destruct (Hv' _ _ Hc) as (j & Hj & Hjin & Hjd' & Hjg' & Hji'). exists j. split_and!; [done..|].
    specialize (Hjobs j Hjin Hjd' Hjg'). rewrite Hji' in Hjobs. congruence.
Qed.

Lemma clip_ok_generation g c : generation c ≤ g → clip_ok a c → clip_ok a (set_generation g c).
Proof.
  intros Hg [Hok Hb]. split; [|intros j Hj; specialize (Hb j Hj); simpl; lia].
  intros dir. specialize (Hok dir).
  replace (direction dir (set_generation g c)) with (direction dir c) by by destruct dir.
  destruct (phase (direction dir c)) as [|f|o]; [done| |done].
  destruct Hok as [Hf Hs]. split; [simpl; lia|done].
Qed.

(** A new offer takes a generation no scan has seen, unless the counter has wrapped. *)
Lemma format_list_ok dir fl w c k :
  generation c = k → 0 ≤ k → k + 1 < 2 ^ 64 → clip_ok a c →
  let c' := snd (format_list env dir fl w c) in
  clip_ok a c' ∧ (generation c' = k ∨ generation c' = k + 1).
Proof.
  intros Hk H0 Hmax Hok. simpl.
  set (Q := fun c' => clip_ok a c' ∧ (generation c' = k ∨ generation c' = k + 1)).
  change (Q (snd (format_list env dir fl w c))).
  assert (∀ k' c', k' = k ∨ k' = k + 1 → clip_ok a c' ∧ generation_is k' c' → Q c') as HQ.
  { unfold Q, generation_is. intros k' c' ? [? ?]. naive_solver. }
  set (J := fun c => clip_ok a c ∧ generation_is k c).
  unfold format_list. eapply (bind_through J); [apply (idle_keeps J)|done|eauto|]. intros _ c1 HJ1.
  rewrite bind_gets. destruct (file_list_format _) as [id|].
  2: { apply (HQ k); [auto|]. refine ((_ : preserves J _) c1 HJ1).
       apply preserves_bind; [apply (owe_list_keeps J)|intros; apply (pass_keeps J)]. }
  eapply (bind_through J); [apply (send_keeps env J)|done|eauto|]. clear c1 HJ1. intros _ c1 HJ1.
  destruct (healthy env) as [|why].
  2: { apply (HQ k); [auto|]. refine ((_ : preserves J _) c1 HJ1).
       apply preserves_bind; [apply (report_keeps J)|intros; apply (clear_receiver_keeps env J)]. }
  destruct HJ1 as [Hok1 Hg1]. unfold generation_is in Hg1.
  erewrite bind_ok by done. rewrite bind_gets. erewrite bind_ok by done. simpl.
  rewrite Hg1, wrap_small by lia.
  set (J' := fun c => clip_ok a c ∧ generation_is (k + 1) c). apply (HQ (k + 1)); [auto|].
  match goal with |- clip_ok a (snd (?m ?s)) ∧ _ =>
    refine ((_ : preserves J' m) s _) end.
  { apply preserves_bind; [apply (owe_data_keeps J')|intros; apply (send_keeps env J')]. }
  split; [|unfold generation_is, replace_phase; by autorewrite with clip].
  apply replace_phase_ok; [|apply clip_ok_generation; [lia|done]]. split; [done|].
  intros j Hj [_ Hjg]. simpl in *. pose proof (proj2 Hok1 j Hj). lia.
Qed.
End fetching.
