(* ===== verification/ClipFacts.v ===== *)
(** * What the clipboard task guarantees (src/src/scan/clip.rs)

    A session as a sequence of rounds of [Clip::run]: PDUs from either side, deadlines, and answers
    of scans the task itself started. Whatever the two sides send and however answers interleave,
    only bytes a scan called clean are ever offered or served. *)

From S2P Require Import Prelude Cliprdr Auth Scanner Clip ClipInv.
From S2P Require Route.
Local Open Scope Z_scope.

(** ** Sessions *)

(** A session's state and the answers its scans have given. *)
Record Session := mkSession { clip : Clip; answers : Answers }.

Section sessions.
Context {H : Codec}.

Inductive session_step : relation Session :=
  (** a PDU from one of the sides *)
  | step_pdu env (client : bool) w c a outs c' :
      round env (Some (if client then FromClient w else FromServer w)) c = (Ok outs, c') →
      session_step (mkSession c a) (mkSession c' a)
  (** a deadline *)
  | step_deadline env c a outs c' :
      round env None c = (Ok outs, c') →
      session_step (mkSession c a) (mkSession c' a)
  (** a scan this task started has answered *)
  | step_scanned env j v c a outs c' :
      j ∈ jobs c →
      round env (Some (Scanned (j_dir j) (j_generation j) (j_index j) v)) c = (Ok outs, c') →
      session_step (mkSession c a) (mkSession c' (a ++ [(j, v)]))
  (** other sessions reserve and release *)
  | step_others h c a :
      session_step (mkSession c a) (mkSession (set_held h c) a).

(** A session of fewer rounds than a 64-bit counter can count. *)
Definition reachable (s : Session) : Prop :=
  ∃ n h max, nsteps session_step n (mkSession (clip_new h max) []) s ∧ Z.of_nat n < 2 ^ 64.
End sessions.

(** ** The invariant along a session *)

Section reach.
Context {H : Codec}.

Abbreviation gen k := (preserves (E:=ClipError) (generation_is k)).

Lemma generation_phase k dir p : gen k (modify (put_phase dir p)).
Proof. apply preserves_modify. intros c. unfold generation_is, put_phase. by autorewrite with clip. Qed.
Lemma generation_jobs k f : gen k (modify (fun c => set_jobs (f c) c)).
Proof. by apply preserves_modify. Qed.
Lemma generation_held k h : gen k (modify (set_held h)).
Proof. by apply preserves_modify. Qed.
Lemma generation_drop_keeps k r : gen k (modify (drop_reservation r)).
Proof. apply preserves_modify. intros c. unfold generation_is. by autorewrite with clip. Qed.
Hint Resolve generation_drop_keeps generation_phase generation_jobs generation_held : preserves.

Lemma fetch_next_generation env k dir : gen k (fetch_next env dir).
Proof. unfold fetch_next, send_sender. solve_preserves. Qed.
Hint Resolve fetch_next_generation : preserves.
Lemma descriptor_generation env k dir r : gen k (descriptor env dir r).
Proof. unfold descriptor. solve_preserves. Qed.
Lemma contents_generation env k dir r : gen k (contents env dir r).
Proof. unfold contents. solve_preserves. Qed.
Lemma scanned_generation env k dir g i v : gen k (scanned env dir g i v).
Proof. unfold scanned. solve_preserves. Qed.

Lemma round_inv env i c outs c' :
  round env i c = (Ok outs, c') →
  ∃ c1, match i with Some i => handle env i c | None => expire_at env c end = (Ok (), c1) ∧
    outs = out c1 ∧ c' = set_out [] c1.
Proof.
  unfold round. intros ([] & c1 & Hm & [= <- <-])%bind_ok_inv. exists c1.
  split; [|done]. by destruct i.
Qed.

Lemma take_pdu_ok env a client w c :
  clip_ok a c → 0 ≤ generation c → generation c + 1 < 2 ^ 64 →
  let c' := snd (take_pdu env client w c) in
  clip_ok a c' ∧ (generation c' = generation c ∨ generation c' = generation c + 1).
Proof.
  intros Hok H0 Hmax. simpl. set (k := generation c).
  pose proof (fun dir fl => format_list_ok env a dir fl w c k eq_refl H0 Hmax Hok) as Hf.
  split; [apply take_pdu_keeps; [apply _|intros; by apply Hf|..|done];
    auto using descriptor_keeps, contents_keeps|].
  unfold take_pdu. destruct (Route.codec_err (decode_pdu (Route.pdu w))) as [p|e]; [|auto].
  simpl lift_route. erewrite bind_ok by done. destruct p; try apply Hf; left;
    (match goal with |- generation (snd (?m c)) = _ =>
       refine ((_ : gen k m) c eq_refl) end);
    eauto using data_request_keeps, contents_request_keeps, contents_generation with preserves;
    apply preserves_bind; auto using names_keeps with preserves; intros [[]|];
    auto using descriptor_generation with preserves.
Qed.

Lemma session_step_ok s s' :
  session_step s s' → clip_ok (answers s) (clip s) →
  0 ≤ generation (clip s) → generation (clip s) + 1 < 2 ^ 64 →
  clip_ok (answers s') (clip s') ∧
  (generation (clip s') = generation (clip s) ∨ generation (clip s') = generation (clip s) + 1).
Proof.
  intros Hstep Hok H0 Hmax. destruct Hstep as [env client w c a outs c' Hr|env c a outs c' Hr|
    env j v c a outs c' Hj Hr|h c a]; simpl in *.
  - apply round_inv in Hr as (c1 & Hh & -> & ->).
    pose proof (take_pdu_ok env a client w c Hok H0 Hmax) as Ht. simpl in Ht.
    assert (snd (take_pdu env client w c) = c1) as Hc1 by (destruct client; by rewrite Hh || (simpl in Hh; by rewrite Hh)).
    rewrite Hc1 in Ht. split; [|apply Ht]. eapply clip_ok_core; [|apply Ht]. by split_and!; [intros []|..].
  - apply round_inv in Hr as (c1 & Hh & -> & ->).
    pose proof (expire_keeps env (clip_ok a) c Hok) as Ht. rewrite Hh in Ht.
    pose proof (expire_keeps env (generation_is (generation c)) c eq_refl) as Hg. rewrite Hh in Hg.
    split; [|by left]. eapply clip_ok_core; [|apply Ht]. by split_and!; [intros []|..].
  - apply round_inv in Hr as (c1 & Hh & -> & ->). simpl in Hh.
    pose proof (scanned_ok env (a ++ [(j, v)]) (j_dir j) (j_generation j) (j_index j) v c) as Ht.
    rewrite Hh in Ht.
    pose proof (scanned_generation env (generation c) (j_dir j) (j_generation j) (j_index j) v c eq_refl) as Hg.
    rewrite Hh in Hg. split; [|by left].
    eapply clip_ok_core; [|apply Ht; [|by apply clip_ok_more_answers]].
    + by split_and!; [intros []|..].
    + exists j. split_and!; [apply elem_of_app; right; by left|done..].
  - split; [|by left]. eapply clip_ok_core; [|exact Hok]. by split_and!; [intros []|..].
Qed.

Lemma session_steps_ok n s s' :
  nsteps session_step n s s' → clip_ok (answers s) (clip s) →
  0 ≤ generation (clip s) → generation (clip s) + Z.of_nat n < 2 ^ 64 →
  clip_ok (answers s') (clip s').
Proof.
  induction 1 as [s|n s s1 s' Hstep _ IH]; intros Hok H0 Hmax; [done|].
  destruct (session_step_ok _ _ Hstep Hok H0 ltac:(lia)) as [Hok1 Hg1]. apply IH; [done|lia..].
Qed.

Lemma clip_new_ok h max : clip_ok [] (clip_new h max).
Proof. split; [by intros []|]. intros j Hj. by apply not_elem_of_nil in Hj. Qed.

Lemma reachable_ok s : reachable s → clip_ok (answers s) (clip s).
Proof.
  intros (n & h & max & Hn & Hlt). eapply session_steps_ok; [exact Hn|apply clip_new_ok|done|].
  simpl. lia.
Qed.

(** C2. Nothing unscanned is offered: in every state a session can reach, whatever the two sides
    send, in whatever order the scans answer, each file the receiver can be served is, byte for
    byte, a file a scan started by this session in this direction called clean. *)
Theorem offered_only_if_clean (s : Session) (dir : Dir) (o : Offer) :
  reachable s → phase (direction dir (clip s)) = Offered o →
  ∀ i b, o_data o !! i = Some b →
    ∃ j, (j, Clean) ∈ answers s ∧ j_dir j = dir ∧ j_bytes j = b.
Proof.
  intros [Hok _]%reachable_ok Hp. specialize (Hok dir). by rewrite Hp in Hok.
Qed.

(** The scans see whole files: when a fetch reaches its scans, every file of the offer has
    exactly as many bytes as was announced for it, there is one scan slot per file, and every
    scan of this offer was started on the bytes that would be served; while it is still fetching,
    the file being fetched exists and is short of its size, so the subtractions and indexing of
    the handlers are in range. *)
Theorem fetch_is_exact (s : Session) (dir : Dir) (f : Fetch) :
  reachable s → phase (direction dir (clip s)) = Fetching f →
  match f_step f with
  | Descriptor => True
  | Contents _ files data index _ =>
      length data = length files ∧
      ∃ fd d, files !! index = Some fd ∧ data !! index = Some d ∧ len d < default 0 (file_size fd)
  | Scanning _ files data verdicts =>
      length data = length files ∧ length verdicts = length files ∧
      (∀ i fd d, files !! i = Some fd → data !! i = Some d → len d = default 0 (file_size fd)) ∧
      (∀ j, j ∈ jobs (clip s) → j_dir j = dir → j_generation j = f_generation f →
        data !! j_index j = Some (j_bytes j))
  end.
Proof.
  intros [Hok _]%reachable_ok Hp. specialize (Hok dir). rewrite Hp in Hok. destruct Hok as [_ Hs].
  destruct (f_step f); [done| |].
  - destruct Hs as (_ & [Hl _] & _ & Hw). by split.
  - destruct Hs as (Hl & Hfull & Hlv & Hj & _). split_and!; [done..| |done].
    intros i fd d Hf. apply (Hfull i); [by eapply lookup_lt_Some|done].
Qed.
End reach.

(** ** A session on the sample codec *)

Definition sample_env : Env :=
  mkEnv 0 (120 * second) (Ok ()) None
    (Route.mkRoute (Some ["cliprdr"%string]) (Some 1004) (Some 1007) (Some 1002)
       Route.dechunker_default Route.dechunker_default) (fun _ => true).

Definition whole (b : bytes) : Route.Whole := Route.mkWhole b [b].

Definition play (c : Clip) (i : Input) : Clip := snd (round (H:=sample_codec) sample_env (Some i) c).

(** The client offers one file of two bytes, sends it, and the scan calls it clean. *)
Definition sample_asked : Clip := play (clip_new 0 100) (FromClient (whole [x02; x46])).
Definition sample_listed : Clip := play sample_asked (FromClient (whole [x05; x02])).
Definition sample_fetched : Clip :=
  play sample_listed (FromClient (whole (x09 :: to_le 4 FIRST_STREAM ++ [xaa; xbb]))).
Definition sample_job : Job := mkJob Upload 1 0 "f" [xaa; xbb].
Definition sample_offered : Clip := play sample_fetched (Scanned Upload 1 0 Clean).

Lemma play_client w c outs a :
  fst (round (H:=sample_codec) sample_env (Some (FromClient w)) c) = Ok outs →
  session_step (H:=sample_codec) (mkSession c a) (mkSession (play c (FromClient w)) a).
Proof.
  intros Hr. apply (step_pdu sample_env true w c a outs). unfold play.
  rewrite <-Hr. apply surjective_pairing.
Qed.

Lemma sample_fetched_steps :
  nsteps (session_step (H:=sample_codec)) 3 (mkSession (clip_new 0 100) []) (mkSession sample_fetched []).
Proof.
  apply nsteps_l with (mkSession sample_asked []); [eapply play_client; vm_compute; reflexivity|].
  apply nsteps_l with (mkSession sample_listed []); [eapply play_client; vm_compute; reflexivity|].
  apply nsteps_l with (mkSession sample_fetched []); [eapply play_client; vm_compute; reflexivity|].
  apply nsteps_O.
Qed.

Lemma sample_fetched_reachable : reachable (H:=sample_codec) (mkSession sample_fetched []).
Proof. exists 3%nat, 0, 100. split; [apply sample_fetched_steps|done]. Qed.

Lemma sample_offered_reachable :
  reachable (H:=sample_codec) (mkSession sample_offered [(sample_job, Clean)]).
Proof.
  exists 4%nat, 0, 100. split; [|done]. eapply nsteps_r; [apply sample_fetched_steps|].
  eapply (step_scanned sample_env sample_job Clean sample_fetched []).
  - vm_compute. by left.
  - vm_compute. reflexivity.
Qed.

Example offered_only_if_clean_witness :
  phase (direction Upload sample_offered) = Offered (mkOffer 49 [x02] [[xaa; xbb]] (Some 2)) ∧
  ∃ j, (j, Clean) ∈ [(sample_job, Clean)] ∧ j_dir j = Upload ∧ j_bytes j = [xaa; xbb].
Proof.
  split; [vm_compute; reflexivity|].
  apply (offered_only_if_clean (H:=sample_codec) (mkSession sample_offered [(sample_job, Clean)])
           Upload (mkOffer 49 [x02] [[xaa; xbb]] (Some 2))) with (i := 0%nat).
  - exact sample_offered_reachable.
  - vm_compute. reflexivity.
  - reflexivity.
Defined.

Definition sample_fetch : Fetch :=
  mkFetch 1 [[x02; x46]] 49 (Scanning [x02] [mkFile None (Some 2) "f" None] [[xaa; xbb]] [None])
    (150 * second) (Some 2).

Definition sample_session : Session := mkSession sample_fetched [].

Example fetch_is_exact_witness :
  phase (direction Upload (clip sample_session)) = Fetching sample_fetch ∧
  ∀ j, j ∈ jobs (clip sample_session) → j_dir j = Upload → j_generation j = f_generation sample_fetch →
    [[xaa; xbb]] !! j_index j = Some (j_bytes j).
Proof.
  assert (phase (direction Upload (clip sample_session)) = Fetching sample_fetch) as Hp
    by (vm_compute; reflexivity).
  split; [exact Hp|].
  destruct (fetch_is_exact (H:=sample_codec) sample_session Upload sample_fetch
              sample_fetched_reachable Hp) as (_ & _ & _ & Hj).
  exact Hj.
Defined.
