(* ===== verification/ClipStaging.v ===== *)
(** * The bytes held for scanning, across sessions (src/src/scan/clip.rs, [Staging])

    Every session of the process reserves from one total. Each round changes the total by exactly
    what the session's own reservations change, whichever way the round ends, so the total is always
    the sum over the sessions and never more than the configured limit. *)

From S2P Require Import Prelude Cliprdr Auth Scanner Clip ClipInv.
From S2P Require Route.
Local Open Scope Z_scope.

Definition reserved_by (dir : Dir) (c : Clip) : Z := default 0 (reservation (phase (direction dir c))).
Definition reserved (c : Clip) : Z := reserved_by Upload c + reserved_by Download c.

(** The total is what others hold and what this session holds, and is within the limit. *)
Definition staged (others max : Z) (c : Clip) : Prop :=
  held c = others + reserved c ∧ 0 ≤ others ∧ (∀ dir, 0 ≤ reserved_by dir c) ∧
  staging_max c = max ∧ held c ≤ max ≤ u64_max.

Lemma reserved_put dir p c :
  reserved (put_phase dir p c) = reserved c - reserved_by dir c + default 0 (reservation p).
Proof. unfold reserved, reserved_by, put_phase. destruct dir; simpl; lia. Qed.

Lemma reserved_by_put dir dir' p c :
  reserved_by dir' (put_phase dir p c) =
  if decide (dir' = dir) then default 0 (reservation p) else reserved_by dir' c.
Proof. by destruct dir, dir'. Qed.

Lemma staged_put others max dir p c :
  staged others max c → default 0 (reservation p) = reserved_by dir c → staged others max (put_phase dir p c).
Proof.
  intros (Hh & Ho & Hr & Hmax & Hm) Hp. split_and!.
  - rewrite reserved_put, Hp. unfold put_phase. autorewrite with clip. lia.
  - done.
  - intros dir'. rewrite reserved_by_put. case_decide; [rewrite Hp|]; apply Hr.
  - unfold put_phase. by autorewrite with clip.
  - unfold put_phase. autorewrite with clip. lia.
  - lia.
Qed.

Lemma release_small held n : 0 ≤ n ≤ held → held ≤ u64_max → release held n = held - n.
Proof. intros Hn Hm. unfold release. apply wrap_small. unfold u64_max in Hm. lia. Qed.

(** Giving a phase's reservation back. *)
Lemma staged_drop others max dir c :
  staged others max c →
  held (drop_reservation (reservation (phase (direction dir c))) c) = held c - reserved_by dir c.
Proof.
  intros (Hh & Ho & Hr & Hmax & Hm). pose proof (Hr Upload). pose proof (Hr Download).
  destruct (reservation (phase (direction dir c))) as [n|] eqn:E; simpl.
  - assert (reserved_by dir c = n) as Hn by (unfold reserved_by; by rewrite E). rewrite Hn.
    apply release_small; [|lia]. unfold reserved in Hh. destruct dir; lia.
  - assert (reserved_by dir c = 0) as -> by (unfold reserved_by; by rewrite E). lia.
Qed.

Lemma held_drop_update r dir f c : held (drop_reservation r (update dir f c)) = held (drop_reservation r c).
Proof. by destruct r, dir. Qed.
Lemma max_drop r c : staging_max (drop_reservation r c) = staging_max c.
Proof. by destruct r. Qed.

Lemma reserved_by_replace dir dir' p c :
  reserved_by dir' (replace_phase dir p c) =
  if decide (dir' = dir) then default 0 (reservation p) else reserved_by dir' c.
Proof.
  unfold reserved_by, replace_phase. autorewrite with clip. by case_decide.
Qed.

Lemma staged_replace others max dir p c :
  staged others max c → default 0 (reservation p) = 0 → staged others max (replace_phase dir p c).
Proof.
  intros Hs Hp. pose proof (staged_drop others max dir c Hs) as Hd.
  destruct Hs as (Hh & Ho & Hr & Hmax & Hm). pose proof (Hr dir).
  assert (held (replace_phase dir p c) = held c - reserved_by dir c) as Hheld.
  { unfold replace_phase. by rewrite held_drop_update. }
  assert (staging_max (replace_phase dir p c) = staging_max c) as Hmax'.
  { unfold replace_phase. rewrite max_drop. by autorewrite with clip. }
  split_and!; [|done| |congruence|lia..].
  - rewrite Hheld. unfold reserved in *. rewrite !reserved_by_replace, Hp. destruct dir; simpl; lia.
  - intros dir'. rewrite reserved_by_replace, Hp. case_decide; [done|apply Hr].
Qed.

#[export] Instance staged_invariant others max : ClipInvariant (staged others max).
Proof.
  split.
  - intros c c' ((Hp & _) & Hh & Hm) (? & ? & Hr & ?).
    assert (∀ dir, reserved_by dir c' = reserved_by dir c) as He.
    { intros dir. unfold reserved_by. by rewrite Hp. }
    unfold staged, reserved in *. rewrite !He, Hh, Hm. split_and!; try done; try lia.
    intros dir. rewrite He. apply Hr.
  - intros dir c Hs. by apply staged_replace.
Qed.

Section handlers.
Context {H : Codec} (env : Env) (others max : Z).
Abbreviation keeps := (preserves (E:=ClipError) (staged others max)).

Lemma jobs_staged f : keeps (modify (fun c => set_jobs (f c) c)).
Proof. by apply preserves_modify. Qed.
Hint Resolve jobs_staged : preserves.

Lemma fetch_next_staged dir : keeps (fetch_next env dir).
Proof.
  intros c Hs. unfold fetch_next. rewrite bind_gets.
  destruct (phase (direction dir c)) as [|[g l fl s dl res]|o] eqn:Hp; [done| |done].
  destruct s as [|d files data index stream|]; [done| |done].
  assert (reserved_by dir c = default 0 res) as Hres by (unfold reserved_by; by rewrite Hp).
  set (i := skip_full _ _ _ _).
  assert (∀ js p, default 0 (reservation p) = default 0 res →
    staged others max (put_phase dir p (set_jobs js c))) as Hjobs.
  { intros js p Hpr. apply staged_put; [done|]. rewrite Hpr, <-Hres. by destruct dir. }
  destruct (files !! i), (data !! i); erewrite bind_ok by done; [|by apply Hjobs..].
  apply (send_keeps env (staged others max)), staged_put; done.
Qed.

Lemma contents_staged dir resp : keeps (contents env dir resp).
Proof.
  intros c Hs. unfold contents. erewrite bind_ok by done. rewrite bind_gets.
  pose proof (take_stream_keeps (staged others max) c Hs) as Hs'. set (c' := set_next_stream _ c).
  change (staged others max c') in Hs'.
  destruct (phase (direction dir c')) as [|[g l fl s dl res]|o] eqn:Hp; [done| |done].
  destruct s as [|desc files data index stream|]; [done| |done].
  case_decide; [done|]. destruct (resp_error resp); [by apply (refuse_keeps env (staged others max))|].
  case_decide; [by apply (refuse_keeps env (staged others max))|].
  erewrite bind_ok by done. apply fetch_next_staged, staged_put; [done|].
  unfold reserved_by. by rewrite Hp.
Qed.

Lemma scanned_staged dir g index v : keeps (scanned env dir g index v).
Proof.
  intros c Hs. unfold scanned. rewrite bind_gets.
  destruct (phase (direction dir c)) as [|[g' l fl s dl res]|o] eqn:Hp; [done| |done].
  destruct s as [| |desc files data verdicts]; [done..|]. case_decide; [done|].
  assert (reserved_by dir c = default 0 res) as Hres by (unfold reserved_by; by rewrite Hp).
  destruct (existsb _ _); [by apply staged_put|]. case_decide.
  - refine ((_ : keeps _) c Hs). solve_preserves.
  - erewrite bind_ok by done. pose proof (report_keeps (staged others max) (Passed dir (files_of files)) c Hs) as Hs'.
    set (c1 := set_reports _ c) in *. change (staged others max c1) in Hs'. erewrite bind_ok by done.
    match goal with |- staged _ _ (snd (?m ?s)) => refine ((_ : keeps m) s _) end.
    + apply preserves_bind; [apply (owe_list_keeps (staged others max))|intros; apply (out_keeps (staged others max))].
    + apply staged_put; [done|]. simpl. rewrite <-Hres. by destruct dir.
Qed.

(** Taking a reservation moves its bytes from the free room to the fetch. *)
Lemma staged_reserve dir c total held' f :
  staged others max c → 0 ≤ total → reserve (held c) (staging_max c) total = Some held' →
  f_reservation f = Some total →
  staged others max (put_phase dir (Fetching f)
    (drop_reservation (reservation (phase (direction dir c))) (set_held held' c))).
Proof.
  intros (Hh & Ho & Hr & Hmax & Hm) Ht Hres Hf. unfold reserve in Hres.
  case_decide as Hd; [|done]. simplify_eq.
  pose proof (Hr dir). pose proof (Hr Upload). pose proof (Hr Download).
  assert (reserved_by dir c ≤ held c) as Hle by (unfold reserved in Hh; destruct dir; lia).
  set (c1 := set_held (held c + total) c).
  assert (held (drop_reservation (reservation (phase (direction dir c))) c1)
          = held c + total - reserved_by dir c) as Hheld.
  { destruct (reservation (phase (direction dir c))) as [n|] eqn:E; simpl.
    - assert (reserved_by dir c = n) as Hn by (unfold reserved_by; by rewrite E).
      rewrite release_small; unfold c1; simpl; lia.
    - assert (reserved_by dir c = 0) as -> by (unfold reserved_by; by rewrite E). lia. }
  set (c2 := drop_reservation _ c1) in *.
  assert (∀ dir', reserved_by dir' c2 = reserved_by dir' c) as Hr2.
  { intros dir'. unfold reserved_by, c2. autorewrite with clip. by destruct dir'. }
  assert (staging_max c2 = staging_max c) as Hm2 by (unfold c2; by rewrite max_drop).
  split_and!.
  - unfold put_phase. autorewrite with clip. rewrite Hheld. fold (put_phase dir (Fetching f) c2).
    unfold reserved in *. rewrite !reserved_by_put, !Hr2. simpl. rewrite Hf. simpl.
    destruct dir; simpl; lia.
  - done.
  - intros dir'. rewrite reserved_by_put, Hr2. simpl. rewrite Hf. case_decide; [done|apply Hr].
  - unfold put_phase. autorewrite with clip. by rewrite Hm2.
  - unfold put_phase. autorewrite with clip. rewrite Hheld. lia.
  - lia.
Qed.

Lemma sum_u64_nonneg sizes : 0 ≤ sum_u64 sizes.
Proof.
  unfold sum_u64. assert (∀ acc, 0 ≤ acc → 0 ≤ foldl (fun acc s => wrap 64 (acc + s)) acc sizes) as Hs.
  { induction sizes as [|s l IH]; intros acc Hacc; simpl; [done|]. apply IH. by apply wrap_range. }
  by apply Hs.
Qed.

Lemma descriptor_staged dir resp : keeps (descriptor env dir resp).
Proof.
  intros c Hs. unfold descriptor. rewrite bind_gets.
  destruct (phase (direction dir c)) as [|[g l fl s dl res]|o] eqn:Hp; [done| |done].
  destruct s; [|done..]. destruct (data_error resp); [by apply (refuse_keeps env (staged others max))|].
  destruct (to_file_list resp) as [files|]; [|by apply (refuse_keeps env (staged others max))].
  case_decide; [by apply (refuse_keeps env (staged others max))|].
  do 2 (destruct (existsb _ files); [by apply (refuse_files_keeps env (staged others max))|]).
  case_match; [by apply (refuse_files_keeps env (staged others max))|].
  unfold get. erewrite bind_ok by done.
  destruct (reserve (held c) (staging_max c) _) as [held'|] eqn:Hres;
    [|by apply (refuse_files_keeps env (staged others max))].
  do 5 erewrite bind_ok by done. set (c1 := put_phase dir (Fetching (mkFetch g l fl Descriptor dl _)) _).
  assert (staged others max c1) as Hs1.
  { pose proof (staged_reserve dir c _ _ (mkFetch g l fl Descriptor dl (Some (sum_u64
      ((fun f => default 0 (file_size f)) <$> files)))) Hs (sum_u64_nonneg _) Hres eq_refl) as Hs2.
    rewrite Hp in Hs2. simpl in Hs2. eapply inv_same, Hs2. unfold c1. destruct res, dir; same_state. }
  destruct (with_capacities env [] _); [|done]. erewrite bind_ok by done.
  apply fetch_next_staged, staged_put; [done|]. unfold c1, reserved_by, put_phase. autorewrite with clip.
  by rewrite decide_True.
Qed.

Lemma format_list_staged dir fl w : keeps (format_list env dir fl w).
Proof.
  unfold format_list. apply preserves_bind; [apply (idle_keeps (staged others max))|intros _].
  apply preserves_bind; [apply preserves_gets|intros long].
  destruct (file_list_format _); [|unfold pass; solve_preserves].
  apply preserves_bind; [apply (send_keeps env (staged others max))|intros _].
  destruct (healthy env); [|solve_preserves].
  apply preserves_bind; [by apply preserves_modify|intros _].
  apply preserves_bind; [apply preserves_gets|intros g].
  apply preserves_bind; [apply preserves_modify; intros c Hc; by apply staged_replace|intros _].
  unfold send_sender. solve_preserves.
Qed.

Lemma round_staged i : keeps (round env i).
Proof.
  unfold round. apply preserves_bind; [|intros; solve_preserves; intros c; by apply (inv_same c)].
  destruct i as [[w|w|dir g idx v]|]; [..|apply (expire_keeps env (staged others max))]; simpl.
  3: apply scanned_staged.
  all: intros c Hc; apply (take_pdu_keeps env (staged others max));
    auto using descriptor_staged, contents_staged; intros; by apply format_list_staged.
Qed.
End handlers.

(** ** The process *)

(** The total every session reserves from, and the sessions open now. *)
Record Process := mkProcess { total : Z; limit : Z; sessions : list Clip }.

(** Dropping a session drops both its phases. *)
Definition drop_session (c : Clip) : Clip := replace_phase Download Idle (replace_phase Upload Idle c).

Section process.
Context {H : Codec}.

Inductive process_step : relation Process :=
  | proc_open p :
      process_step p (mkProcess (total p) (limit p) (sessions p ++ [clip_new (total p) (limit p)]))
  (** one session handles an input or a deadline *)
  | proc_round env i inp c outs c' p :
      sessions p !! i = Some c → round env inp (set_held (total p) c) = (Ok outs, c') →
      process_step p (mkProcess (held c') (limit p) (<[i := c']> (sessions p)))
  (** a round ends in an error, which ends the session *)
  | proc_error env i inp c e c' p :
      sessions p !! i = Some c → round env inp (set_held (total p) c) = (Err e, c') →
      process_step p (mkProcess (held (drop_session c')) (limit p) (delete i (sessions p)))
  | proc_close i c p :
      sessions p !! i = Some c →
      process_step p (mkProcess (held (drop_session (set_held (total p) c))) (limit p)
                        (delete i (sessions p))).
End process.

Definition reserved_total (cs : list Clip) : Z := foldr (fun c n => reserved c + n) 0 cs.

Definition process_ok (p : Process) : Prop :=
  total p = reserved_total (sessions p) ∧ 0 ≤ total p ≤ limit p ∧ limit p ≤ u64_max ∧
  Forall (fun c => (∀ dir, 0 ≤ reserved_by dir c) ∧ staging_max c = limit p) (sessions p).

Lemma reserved_total_app l k : reserved_total (l ++ k) = reserved_total l + reserved_total k.
Proof. induction l as [|c l IH]; simpl; [done|]. rewrite IH. lia. Qed.

Lemma reserved_total_insert cs i c c' :
  cs !! i = Some c → reserved_total (<[i := c']> cs) = reserved_total cs - reserved c + reserved c'.
Proof.
  revert i. induction cs as [|x cs IH]; intros [|i] Hi; simplify_eq/=; [lia|]. rewrite (IH i Hi). lia.
Qed.

Lemma reserved_total_delete cs i c :
  cs !! i = Some c → reserved_total (delete i cs) = reserved_total cs - reserved c.
Proof.
  revert i. induction cs as [|x cs IH]; intros [|i] Hi; simplify_eq/=; [lia|].
  rewrite (IH i Hi). lia.
Qed.

(** What a session sees of the process. *)
Lemma process_ok_staged p i c :
  process_ok p → sessions p !! i = Some c →
  staged (total p - reserved c) (limit p) (set_held (total p) c).
Proof.
  intros (Ht & Hb & Hm & Hall) Hi. pose proof Hall as Hall'. rewrite Forall_lookup in Hall'.
  destruct (Hall' i c Hi) as [Hr Hmax].
  assert (0 ≤ reserved_total (delete i (sessions p))) as Hpos.
  { assert (∀ cs, Forall (fun c => (∀ dir, 0 ≤ reserved_by dir c) ∧ staging_max c = limit p) cs →
      0 ≤ reserved_total cs) as Hp.
    { induction 1 as [|x cs [Hx _] _ IH]; simpl; [done|]. unfold reserved.
      pose proof (Hx Upload). pose proof (Hx Download). lia. }
    apply Hp. by apply Forall_delete. }
  rewrite (reserved_total_delete _ _ _ Hi) in Hpos.
  split_and!; simpl; try lia.
  - replace (reserved (set_held (total p) c)) with (reserved c) by done. lia.
  - intros []; [apply (Hr Upload)|apply (Hr Download)].
Qed.

Lemma drop_session_staged others max c :
  staged others max c → held (drop_session c) = others.
Proof.
  intros Hs. unfold drop_session.
  assert (staged others max (replace_phase Download Idle (replace_phase Upload Idle c))) as (Hh & _).
  { by apply staged_replace, eq_refl; apply staged_replace. }
  rewrite Hh. unfold reserved. rewrite !reserved_by_replace. simpl. lia.
Qed.

Lemma process_delete p i c :
  process_ok p → sessions p !! i = Some c →
  process_ok (mkProcess (total p - reserved c) (limit p) (delete i (sessions p))).
Proof.
  intros Hok Hi. pose proof (process_ok_staged p i c Hok Hi) as (_ & Ho & Hr & _).
  destruct Hok as (Ht & Hb & Hm & Hall).
  pose proof (Hr Upload : 0 ≤ reserved_by Upload c). pose proof (Hr Download : 0 ≤ reserved_by Download c).
  unfold reserved in *. split_and!; simpl; rewrite ?(reserved_total_delete _ _ _ Hi);
    unfold reserved; try lia. by apply Forall_delete.
Qed.

Section process_facts.
Context {H : Codec}.

Lemma process_step_ok p p' : process_step p p' → process_ok p → process_ok p'.
Proof.
  intros Hstep Hok. pose proof Hok as (Ht & Hb & Hm & Hall).
  destruct Hstep as [p|env i inp c outs c' p Hi Hr|env i inp c e c' p Hi Hr|i c p Hi]; simpl.
  - split_and!; simpl; try lia.
    + rewrite reserved_total_app. simpl. unfold reserved, reserved_by. simpl. lia.
    + apply Forall_app. split; [done|]. constructor; [|done]. split; [by intros []|done].
  - pose proof (process_ok_staged p i c Hok Hi) as Hs.
    pose proof (round_staged env _ _ inp _ Hs) as Hs'. rewrite Hr in Hs'. simpl in Hs'.
    destruct Hs' as (Hh & Ho & Hr' & Hmax' & Hm').
    split_and!; simpl; try lia.
    + rewrite (reserved_total_insert _ _ _ _ Hi). lia.
    + pose proof (Hr' Upload). pose proof (Hr' Download). unfold reserved in *. lia.
    + by apply Forall_insert.
  - pose proof (process_ok_staged p i c Hok Hi) as Hs.
    pose proof (round_staged env _ _ inp _ Hs) as Hs'. rewrite Hr in Hs'. simpl in Hs'.
    rewrite (drop_session_staged _ _ _ Hs'). by apply process_delete.
  - rewrite (drop_session_staged _ _ _ (process_ok_staged p i c Hok Hi)). by apply process_delete.
Qed.

(** C36. What is reserved for scanning is bounded across sessions: starting with none, however sessions
    open, handle inputs, fail and close, the shared total is exactly the sum of what the open
    sessions have reserved, and never more than the configured limit; nothing leaks when a
    session ends, in order or by an error. *)
Theorem staging_is_bounded (max : Z) (p : Process) :
  0 ≤ max ≤ u64_max → rtc process_step (mkProcess 0 max []) p →
  total p = reserved_total (sessions p) ∧ 0 ≤ total p ≤ limit p ∧ limit p = max.
Proof.
  intros Hm Hsteps.
  assert (process_ok p ∧ limit p = max) as [(Ht & Hb & _) Hl]; [|done].
  revert Hsteps. apply (rtc_ind_r (fun p => process_ok p ∧ limit p = max)).
  - split; [|done]. split_and!; simpl; try lia. constructor.
  - intros y z _ Hstep [Hy Hl]. split; [by eapply process_step_ok|]. by destruct Hstep.
Qed.
End process_facts.

(** ** On the sample codec *)

Definition staging_env : Env :=
  mkEnv 0 (120 * second) (Ok ()) None
    (Route.mkRoute (Some ["cliprdr"%string]) (Some 1004) (Some 1007) (Some 1002)
       Route.dechunker_default Route.dechunker_default) (fun _ => true).

Definition staging_input (b : bytes) : option Input := Some (FromClient (Route.mkWhole b [b])).

(** One session, with an offer of a file of five bytes whose list has arrived. *)
Definition proc_0 : Process := mkProcess 0 100 [].
Definition proc_1 : Process := mkProcess (total proc_0) (limit proc_0) (sessions proc_0 ++ [clip_new (total proc_0) (limit proc_0)]).
Definition staging_asked : Clip :=
  snd (round (H:=sample_codec) staging_env (staging_input [x02; x46]) (set_held (total proc_1) (clip_new 0 100))).
Definition proc_2 : Process := mkProcess (held staging_asked) (limit proc_1) (<[0%nat := staging_asked]> (sessions proc_1)).
Definition staging_listed : Clip :=
  snd (round (H:=sample_codec) staging_env (staging_input [x05; x05]) (set_held (total proc_2) staging_asked)).
Definition proc_3 : Process := mkProcess (held staging_listed) (limit proc_2) (<[0%nat := staging_listed]> (sessions proc_2)).

Lemma staging_step b c outs p i :
  sessions p !! i = Some c →
  fst (round (H:=sample_codec) staging_env (staging_input b) (set_held (total p) c)) = Ok outs →
  let c' := snd (round (H:=sample_codec) staging_env (staging_input b) (set_held (total p) c)) in
  process_step (H:=sample_codec) p (mkProcess (held c') (limit p) (<[i := c']> (sessions p))).
Proof.
  intros Hi Hr. eapply (proc_round staging_env i (staging_input b)); [done|].
  rewrite <-Hr. apply surjective_pairing.
Qed.

Example staging_is_bounded_witness :
  total proc_3 = 5 ∧
  total proc_3 = reserved_total (sessions proc_3) ∧ 0 ≤ total proc_3 ≤ limit proc_3 ∧ limit proc_3 = 100.
Proof.
  split; [vm_compute; reflexivity|].
  apply (staging_is_bounded (H:=sample_codec) 100 proc_3).
  - vm_compute. split; discriminate.
  - apply rtc_l with proc_1; [apply proc_open|].
    apply rtc_l with proc_2; [eapply (staging_step [x02; x46] (clip_new 0 100)); vm_compute; reflexivity|].
    apply rtc_l with proc_3; [eapply (staging_step [x05; x05] staging_asked); vm_compute; reflexivity|].
    apply rtc_refl.
Defined.

(** ** Sizes that wrap *)

Definition huge (name : string) : FileDescriptor := mkFile None (Some (2 ^ 62)) name None.

Lemma send_sender_same {H : Codec} env dir p c :
  direction dir (snd (send_sender env dir p c)) = direction dir c ∧
  held (snd (send_sender env dir p c)) = held c.
Proof.
  unfold send_sender, send, lift_route.
  destruct (bool_decide (dir = Upload));
    [destruct (Route.to_client (route env) p)|destruct (Route.to_server (route env) p)]; by destruct dir.
Qed.

Lemma reserve_nothing held max : 0 ≤ held ≤ max → max ≤ u64_max → reserve held max 0 = Some held.
Proof. intros. unfold reserve. rewrite Z.add_0_r. by rewrite decide_True by lia. Qed.

(** The first request of a fetch whose first file has bytes to come. *)
Lemma fetch_next_first {H : Codec} env dir g fl dl l desc f files d data stream res c :
  phase (direction dir c) = Fetching (mkFetch g l fl (Contents desc (f :: files) (d :: data) 0 stream) dl res) →
  len d < default 0 (file_size f) →
  let c' := snd (fetch_next env dir c) in
  held c' = held c ∧
  phase (direction dir c') =
    Fetching (mkFetch g l fl (Contents desc (f :: files) (d :: data) 0 stream) (now env + ANSWER) res).
Proof.
  intros Hp Hd. unfold fetch_next. rewrite bind_gets, Hp. cbn [length skip_full lookup list_lookup].
  rewrite decide_False by lia. cbn [lookup list_lookup]. erewrite bind_ok by done.
  match goal with |- context [send_sender env dir ?p ?c1] => destruct (send_sender_same env dir p c1) as [-> ->] end.
  split; [by destruct dir|]. unfold put_phase, update, set_direction, direction. by destruct dir.
Qed.

(** What [with_capacity] does for four files of 2^62 bytes. *)
Definition huge_given (env : Env) : bool := forallb (fun n => allocates env (replicate n (2 ^ 62))) [1; 2; 3; 4]%nat.

Lemma huge_capacities env :
  with_capacities env [] (replicate 4 (2 ^ 62)) = if huge_given env then Ok () else Err AllocationFailed.
Proof.
  unfold huge_given. cbn [forallb with_capacities replicate app].
  rewrite (decide_False (P := i64_max < 2 ^ 62)), (bool_decide_eq_false_2 (2 ^ 62 = 0)) by done. cbn [orb].
  do 4 (match goal with |- context [if allocates env ?l then _ else _] => destruct (allocates env l); [|done] end; cbn [andb]).
  done.
Qed.

(** C37. The sizes of an offer are added as [u64] with wrap-around. With no file-size limit set, an
    offer of four files of 2^62 bytes each is not refused, whatever the staging limit is and however
    full it is: it reserves nothing, and 2^62 bytes are then asked of the allocator for each file.
    Where the allocator gives them the files are fetched; where it refuses one, as it will, the
    allocation's failure aborts the process. *)
Theorem huge_offer_reserves_nothing {H : Codec} (env : Env) (dir : Dir) (resp : FormatDataResponse)
    (names : list string) (g fl dl : Z) (l : list bytes) (c : Clip) :
  max_file_bytes env = None → data_error resp = false →
  length names = 4%nat → to_file_list resp = Some (huge <$> names) →
  phase (direction dir c) = Fetching (mkFetch g l fl Descriptor dl None) →
  0 ≤ held c ≤ staging_max c → staging_max c ≤ u64_max →
  let '(r, c') := descriptor env dir resp c in
  held c' = held c ∧
  if huge_given env then
    phase (direction dir c') =
      Fetching (mkFetch g l fl (Contents (data_bytes resp) (huge <$> names) (replicate 4 []) 0 (next_stream c))
        (now env + ANSWER) (Some 0))
  else
    r = Err AllocationFailed ∧
    phase (direction dir c') = Fetching (mkFetch g l fl Descriptor dl (Some 0)).
Proof.
  intros Hmax Herr Hlen Hfiles Hp Hheld Hlim.
  destruct names as [|n1 [|n2 [|n3 [|n4 []]]]]; try discriminate Hlen.
  unfold descriptor. rewrite bind_gets, Hp, Herr, Hfiles, Hmax. rewrite decide_False by done.
  set (files := huge <$> _). cbn [existsb]. change (existsb is_folder files) with false.
  change (existsb (fun f => is_none (file_size f)) files) with false. cbv iota.
  replace (sum_u64 _) with 0 by (vm_compute; reflexivity).
  unfold get. erewrite bind_ok by done. rewrite reserve_nothing by done.
  do 5 erewrite bind_ok by done. change (with_capacities env [] _) with (with_capacities env [] (replicate 4 (2 ^ 62))).
  rewrite huge_capacities. destruct (huge_given env).
  - erewrite bind_ok by done. set (c1 := put_phase dir _ _).
    destruct (fetch_next_first env dir g fl dl l (data_bytes resp) (huge n1) (huge <$> [n2; n3; n4]) []
      (replicate 3 []) (next_stream c) (Some 0) c1) as [Hheld1 Hphase1]; [by destruct dir|done|].
    destruct (fetch_next env dir c1) as [r c']. split; [|done]. simpl in Hheld1. rewrite Hheld1. by destruct dir.
  - by destruct dir.
Qed.

Definition huge_clip : Clip :=
  set_direction Upload (mkDirection (Fetching (mkFetch 1 [] 49 Descriptor 9 None)) [] []) (clip_new 7 10).

(** An allocator that gives no more than 2^47 bytes at once. *)
Definition real_env : Env :=
  mkEnv (now staging_env) (scan_timeout staging_env) (healthy staging_env) (max_file_bytes staging_env) (route staging_env)
    (fun l => forallb (fun s => bool_decide (s ≤ 2 ^ 47)) l).

Example huge_offer_witness :
  let '(r, c') := descriptor (H:=sample_codec) real_env Upload (new_data [xff]) huge_clip in
  held c' = 7 ∧ r = Err AllocationFailed ∧
  phase (direction Upload c') = Fetching (mkFetch 1 [] 49 Descriptor 9 (Some 0)).
Proof.
  apply (huge_offer_reserves_nothing (H:=sample_codec) real_env Upload (new_data [xff])
           ["f"; "f"; "f"; "f"]%string 1 49 9 [] huge_clip); vm_compute; repeat split; discriminate.
Defined.
