(* ===== verification/ClipServe.v ===== *)
(** * What leaves the proxy (src/src/scan/clip.rs)

    The answers to a receiver's requests are cut from the scanned copy and nothing else; reading a
    file range by range gives the file; and whatever a side sends, every byte written to the other
    is either a PDU that is no file content and no file offer, passed as it arrived, or one of the
    proxy's own. *)

From S2P Require Import Prelude Cliprdr Auth Scanner Clip ClipInv.
From S2P Require Route.
Local Open Scope Z_scope.

(** ** Serving the copy *)

(** A request for a range of one file of the offer. *)
Definition range_request (stream index position size : Z) : FileContentsRequest :=
  mkContentsRequest stream index FILE_CONTENTS_RANGE position size None.

Lemma contents_answer_range o index file position size stream :
  o_data o !! index = Some file → 0 ≤ position → 0 ≤ size → len file ≤ u64_max →
  contents_answer (Offered o) (range_request stream (Z.of_nat index) position size) =
  new_data_response stream (take (Z.to_nat size) (drop (Z.to_nat position) file)).
Proof.
  intros Hi Hp Hs Hf. unfold contents_answer. simpl. rewrite decide_True by lia.
  rewrite Nat2Z.id, Hi. unfold new_data_response. f_equal.
  pose proof (len_nonneg file). unfold len in *.
  destruct (decide (position ≤ Z.of_nat (length file))) as [Hle|Hgt].
  - replace (Z.min position (Z.of_nat (length file))) with position by lia. destruct (decide (position + size ≤ Z.of_nat (length file))).
    + f_equal. lia.
    + rewrite !firstn_all2; [done|rewrite length_drop; lia..].
  - rewrite !drop_ge by lia. by rewrite !take_nil.
Qed.

(** The bytes of a response, and the file read in consecutive ranges of one size. *)
Definition read_ranges (o : Offer) (index : nat) (size : Z) (n : nat) : bytes :=
  mjoin ((fun k => resp_data (contents_answer (Offered o)
           (range_request 0 (Z.of_nat index) (Z.of_nat k * size) size))) <$> seq 0 n).

Lemma chunks_join {A} (l : list A) (m n : nat) :
  mjoin ((fun k => take m (drop (k * m) l)) <$> seq 0 n) = take (n * m) l.
Proof.
  induction n as [|n IH]; [done|]. rewrite seq_S, fmap_app. simpl. rewrite join_app, IH. simpl.
  rewrite app_nil_r, take_take_drop. f_equal. lia.
Qed.

(** A file read back is the file that was scanned: asking for consecutive ranges of any size, as
    a receiver does when it pastes, yields exactly the bytes of the scanned copy, in order, once
    the ranges reach its end, and its size is answered as its length. *)
Theorem served_is_scanned (o : Offer) (index : nat) (file : bytes) (size : Z) (n : nat) :
  o_data o !! index = Some file → len file ≤ u64_max → 0 < size → len file ≤ size * Z.of_nat n →
  read_ranges o index size n = file ∧
  ∀ stream, from_le (resp_data (contents_answer (Offered o)
    (mkContentsRequest stream (Z.of_nat index) FILE_CONTENTS_SIZE 0 8 None))) = len file.
Proof.
  intros Hi Hf Hs Hn. split.
  - unfold read_ranges.
    assert (((fun k => resp_data (contents_answer (Offered o)
        (range_request 0 (Z.of_nat index) (Z.of_nat k * size) size))) <$> seq 0 n) =
      ((fun k => take (Z.to_nat size) (drop (k * Z.to_nat size) file)) <$> seq 0 n)) as ->.
    { apply list_fmap_ext. intros _ k _. rewrite (contents_answer_range _ _ file) by (done || lia).
      simpl. do 2 f_equal. lia. }
    rewrite chunks_join. apply firstn_all2. unfold len in *. nia.
  - intros stream. unfold contents_answer. simpl. rewrite decide_True by lia. rewrite Nat2Z.id, Hi.
    change (contains FILE_CONTENTS_SIZE FILE_CONTENTS_SIZE) with true. cbv iota.
    unfold new_size_response, resp_data. rewrite from_to_le. apply Z.mod_small.
    pose proof (len_nonneg file). unfold u64_max in Hf. change (8 * Z.of_nat 8) with 64. lia.
Qed.

Example served_is_scanned_witness :
  read_ranges (mkOffer 49 [x02] [[x01]; [xaa; xbb; xcc]] None) 1 2 2 = [xaa; xbb; xcc].
Proof.
  apply (served_is_scanned (mkOffer 49 [x02] [[x01]; [xaa; xbb; xcc]] None) 1 [xaa; xbb; xcc] 2 2).
  - reflexivity.
  - vm_compute. discriminate.
  - vm_compute. reflexivity.
  - vm_compute. discriminate.
Defined.

(** ** Everything that is written *)

Lemma ldiff_mask a : Z.land (without a CAN_LOCK_CLIPDATA) CAN_LOCK_CLIPDATA ≠ CAN_LOCK_CLIPDATA.
Proof.
  unfold without. intros E.
  assert (Z.testbit (Z.land (Z.ldiff a CAN_LOCK_CLIPDATA) CAN_LOCK_CLIPDATA) 4 = true) as Ht by by rewrite E.
  rewrite Z.land_spec, Z.ldiff_spec in Ht. change (Z.testbit CAN_LOCK_CLIPDATA 4) with true in Ht.
  by destruct (Z.testbit a 4).
Qed.

Section leaves.
Context {H : Codec} (env : Env).

Definition to_other (client : bool) (u : bytes) : Output := if client then ToServer u else ToClient u.
Definition to_receiver (dir : Dir) (u : bytes) : Output :=
  match dir with Upload => ToServer u | Download => ToClient u end.

(** PDUs passed on as they arrived: no file contents, no offer of files. *)
Definition passable (c : Clip) (p : ClipboardPdu) : Prop :=
  match p with
  | MonitorReady | TemporaryDirectory _ | PFormatListResponse _ | PFormatDataRequest _
  | PFormatDataResponse _ => True
  | PFormatList l => file_list_format (default [] (get_formats l (long_names_both c))) = None
  | _ => False
  end.

(** PDUs of the proxy's own; file contents and file lists among them come from a scanned offer. *)
Definition own (c : Clip) (p : ClipboardPdu) : Prop :=
  match p with
  | PFileContentsResponse r => ∃ dir req, r = contents_answer (phase (direction dir c)) req
  | PFormatDataResponse r =>
      r = new_data_error ∨
      ∃ dir o, phase (direction dir c) = Offered o ∧ r = new_data (o_descriptor o)
  | PFormatList l => ∃ long, new_unicode [] long = Ok l
  | PCapabilities _ flags => contains flags CAN_LOCK_CLIPDATA = false
  | PFormatListResponse _ | PFormatDataRequest _ | PFileContentsRequest _ => True
  | _ => False
  end.

Inductive leaves (c : Clip) : Input → Output → Prop :=
  | leaves_passed (client : bool) w p u :
      decode_pdu (Route.pdu w) = Ok p → passable c p → u ∈ Route.units w →
      leaves c (if client then FromClient w else FromServer w) (to_other client u)
  | leaves_own i (client : bool) p b :
      own c p →
      (if client then Route.to_client (route env) p else Route.to_server (route env) p) = Ok b →
      leaves c i (if client then ToClient b else ToServer b)
  (** the sender's own Format List, once every file of it is clean *)
  | leaves_offer dir g index v l fl d files data verdicts dl res u :
      phase (direction dir c) = Fetching (mkFetch g l fl (Scanning d files data verdicts) dl res) →
      Forall (fun fv => snd fv = Some Clean) (zip files (<[index := Some v]> verdicts)) → u ∈ l →
      leaves c (Scanned dir g index v) (to_receiver dir u).

(** Only outputs of this kind were added. *)
Definition wrote (base : list Output) (P : Output → Prop) (c : Clip) : Prop :=
  ∃ new, out c = base ++ new ∧ Forall P new.

Section writing.
Context (base : list Output) (P : Output → Prop).
Abbreviation quiet := (preserves (E:=ClipError) (wrote base P)).

Lemma quiet_modify (f : Clip → Clip) : (∀ c, out (f c) = out c) → quiet (modify f).
Proof. intros Hf. apply preserves_modify. intros c (new & Hc & HP). exists new. by rewrite Hf. Qed.

Lemma quiet_emit f : (∀ c, Forall P (f c)) → quiet (modify (fun c => set_out (out c ++ f c) c)).
Proof.
  intros Hf. apply preserves_modify. intros c (new & Hc & HP). exists (new ++ f c). simpl.
  rewrite Hc, app_assoc. split; [done|]. by apply Forall_app.
Qed.

Lemma quiet_phase dir p : quiet (modify (put_phase dir p)).
Proof. apply quiet_modify. by destruct dir. Qed.
Lemma quiet_replace dir p : quiet (modify (replace_phase dir p)).
Proof.
  apply quiet_modify. intros c. unfold replace_phase.
  destruct (reservation (phase (direction dir c))), dir; done.
Qed.
Lemma quiet_owe_list dir o : quiet (modify (owe_list dir o)).
Proof. apply quiet_modify. by destruct dir. Qed.
Lemma quiet_owe_data dir o : quiet (modify (owe_data dir o)).
Proof. apply quiet_modify. by destruct dir. Qed.
Lemma quiet_report r : quiet (report r).
Proof. by apply quiet_modify. Qed.
Lemma quiet_stream : quiet take_stream.
Proof. by intros c. Qed.
Lemma quiet_lift {A} (r : result _ A) : quiet (lift_route r).
Proof. destruct r; [apply preserves_ret|apply preserves_throw]. Qed.
Lemma quiet_drop r : quiet (modify (drop_reservation r)).
Proof. apply quiet_modify. by destruct r. Qed.

Lemma quiet_send (client : bool) p :
  (∀ b, (if client then Route.to_client (route env) p else Route.to_server (route env) p) = Ok b →
    P (if client then ToClient b else ToServer b)) → quiet (send env client p).
Proof.
  intros Hp c Hc. unfold send.
  destruct (if client then Route.to_client (route env) p else Route.to_server (route env) p) as [b|e];
    [|done]. simpl lift_route. erewrite bind_ok by done.
  apply (quiet_emit (fun _ => [if client then ToClient b else ToServer b])); [|done].
  intros _. constructor; [by apply Hp|done].
Qed.
End writing.

#[local] Hint Resolve quiet_phase quiet_replace quiet_owe_list quiet_owe_data quiet_report
  quiet_stream quiet_lift quiet_drop : preserves.

Section handlers.
Context (c0 : Clip) (i : Input).
Abbreviation fine := (preserves (E:=ClipError) (wrote (out c0) (leaves c0 i))).

Lemma send_leaves client p : own c0 p → fine (send env client p).
Proof. intros Hp. apply quiet_send. intros b Hb. by apply leaves_own with p. Qed.

Lemma clear_receiver_leaves dir : fine (clear_receiver env dir).
Proof.
  unfold clear_receiver, send_receiver.
  do 2 (apply preserves_bind; [auto with preserves|intros _]).
  apply preserves_bind; [apply preserves_gets|intros long].
  destruct (new_unicode [] long) as [l|e] eqn:E; simpl.
  - intros c Hc. erewrite bind_ok by done. apply send_leaves; [|done]. by exists long.
  - by intros c.
Qed.
#[local] Hint Resolve clear_receiver_leaves : preserves.

Lemma refuse_leaves dir r : fine (refuse env dir r).
Proof. unfold refuse. solve_preserves. Qed.
Lemma refuse_files_leaves dir f r : fine (refuse_files env dir f r).
Proof. unfold refuse_files. solve_preserves. Qed.
#[local] Hint Resolve refuse_leaves refuse_files_leaves : preserves.

Lemma jobs_leaves f : fine (modify (fun c => set_jobs (f c) c)).
Proof. by apply quiet_modify. Qed.
Lemma held_leaves h : fine (modify (set_held h)).
Proof. by apply quiet_modify. Qed.
#[local] Hint Resolve jobs_leaves held_leaves : preserves.
#[local] Hint Extern 1 (preserves _ (send _ _ _)) => by apply send_leaves : preserves.

Lemma fetch_next_leaves dir : fine (fetch_next env dir).
Proof. unfold fetch_next, send_sender. solve_preserves. Qed.
#[local] Hint Resolve fetch_next_leaves : preserves.

Lemma descriptor_leaves dir r : fine (descriptor env dir r).
Proof. unfold descriptor. solve_preserves. Qed.
Lemma contents_leaves dir r : fine (contents env dir r).
Proof. unfold contents. solve_preserves. Qed.

Lemma pass_leaves (client : bool) w p :
  i = (if client then FromClient w else FromServer w) →
  decode_pdu (Route.pdu w) = Ok p → passable c0 p → fine (pass client w).
Proof.
  intros -> Hd Hp. apply quiet_emit. intros _. apply Forall_forall.
  intros o (u & -> & Hu)%list_elem_of_fmap. by apply leaves_passed with p.
Qed.

Lemma format_list_leaves (client : bool) l w :
  i = (if client then FromClient w else FromServer w) → decode_pdu (Route.pdu w) = Ok (PFormatList l) →
  wrote (out c0) (leaves c0 i)
    (snd (format_list env (if client then Upload else Download) l w c0)).
Proof.
  intros Hi Hd. set (dir := if client then Upload else Download).
  assert (wrote (out c0) (leaves c0 i) c0) as H0 by (exists []; by rewrite app_nil_r).
  unfold format_list, send_sender. erewrite bind_ok by done. rewrite bind_gets.
  assert (long_names_both (replace_phase dir Idle c0) = long_names_both c0) as ->.
  { unfold replace_phase. destruct (reservation _), dir; done. }
  pose proof (quiet_replace (out c0) (leaves c0 i) dir Idle c0 H0) as H1.
  match goal with |- wrote _ _ (snd (?m ?s)) => refine ((_ : fine m) s H1) end.
  destruct (file_list_format _) eqn:E.
  - solve_preserves; apply quiet_modify; done.
  - apply preserves_bind; [auto with preserves|]. intros _.
    replace (bool_decide (dir = Upload)) with client by (unfold dir; by destruct client).
    by apply pass_leaves with (PFormatList l).
Qed.

Lemma data_request_leaves dir f (client : bool) w :
  i = (if client then FromClient w else FromServer w) → decode_pdu (Route.pdu w) = Ok (PFormatDataRequest f) →
  wrote (out c0) (leaves c0 i) (snd (data_request env dir f client w c0)).
Proof.
  intros Hi Hd. assert (wrote (out c0) (leaves c0 i) c0) as H0 by (exists []; by rewrite app_nil_r).
  unfold data_request, send_receiver. rewrite bind_gets.
  match goal with |- wrote _ _ (snd (?m ?s)) => refine ((_ : fine m) s H0) end.
  assert (fine (_ ← modify (owe_data dir Receiver); pass client w)) as Hp.
  { apply preserves_bind; [auto with preserves|intros _]. by apply pass_leaves with (PFormatDataRequest f). }
  destruct (phase (direction dir c0)) as [|fe|o] eqn:E; [done|apply send_leaves; by left|].
  case_decide; [|done]. apply send_leaves. right. eauto.
Qed.

Lemma contents_request_leaves dir req :
  wrote (out c0) (leaves c0 i) (snd (contents_request env dir req c0)).
Proof.
  unfold contents_request, send_receiver. rewrite bind_gets.
  apply send_leaves; [by eexists _, _|]. exists []; by rewrite app_nil_r.
Qed.

Lemma refused_nil files verdicts :
  omap (fun fv : FileDescriptor * option Verdict => refusal fv.2 fv.1) (zip files verdicts) = [] →
  Forall (fun fv => snd fv = Some Clean) (zip files verdicts).
Proof. rewrite omap_nil_iff. intros Hr. eapply Forall_impl; [exact Hr|]. by intros [f [[]|]]. Qed.

Lemma scanned_leaves dir g index v :
  i = Scanned dir g index v → wrote (out c0) (leaves c0 i) (snd (scanned env dir g index v c0)).
Proof.
  intros Hi. assert (wrote (out c0) (leaves c0 i) c0) as H0 by (exists []; by rewrite app_nil_r).
  unfold scanned. rewrite bind_gets.
  destruct (phase (direction dir c0)) as [|[g' l fl [| |d files data verdicts] dl res]|o] eqn:E; try done.
  case_decide as Hg; [done|]. assert (g' = g) as -> by (destruct (decide (g' = g)); tauto).
  match goal with |- wrote _ _ (snd (?m ?s)) => refine ((_ : fine m) s H0) end.
  destruct (existsb _ _); [auto with preserves|]. case_decide as Href; [solve_preserves|].
  do 3 (apply preserves_bind; [auto with preserves|intros _]).
  apply quiet_emit. intros _. apply Forall_forall. intros x (u & -> & Hu)%list_elem_of_fmap.
  rewrite Hi. eapply leaves_offer; [exact E| |done]. apply refused_nil.
  by destruct (decide (omap (fun fv : FileDescriptor * option Verdict => refusal fv.2 fv.1)
                         (zip files (<[index := Some v]> verdicts)) = [])).
Qed.
End handlers.

Lemma pop_list_out dir c : out (snd (pop_list_owed dir c)) = out c.
Proof. by destruct dir. Qed.
Lemma pop_data_out dir c : out (snd (pop_data_owed dir c)) = out c.
Proof. by destruct dir. Qed.

Lemma take_pdu_leaves c (client : bool) w :
  wrote (out c) (leaves c (if client then FromClient w else FromServer w))
    (snd (take_pdu env client w c)).
Proof.
  set (i := if client then FromClient w else FromServer w).
  assert (wrote (out c) (leaves c i) c) as H0 by (exists []; by rewrite app_nil_r).
  unfold take_pdu. destruct (decode_pdu (Route.pdu w)) as [p|e] eqn:Hd; [|done].
  simpl Route.codec_err. simpl lift_route. erewrite bind_ok by done.
  assert (∀ c', out c' = out c → wrote (out c) (leaves c i) c') as Hq.
  { intros c' Hc. exists []. by rewrite app_nil_r. }
  pose proof (fun p => pass_leaves c i client w p eq_refl) as Hpass.
  destruct p; try (by eapply Hpass); try done.
  - by apply format_list_leaves.
  - unfold pop_list_owed. erewrite bind_ok by done. set (c1 := update _ _ c).
    assert (wrote (out c) (leaves c i) c1) as H1 by (apply Hq; unfold c1; by destruct client).
    repeat case_match; try done; by eapply Hpass.
  - by apply data_request_leaves.
  - unfold pop_data_owed. erewrite bind_ok by done. set (c1 := update _ _ c).
    assert (wrote (out c) (leaves c i) c1) as H1 by (apply Hq; unfold c1; by destruct client).
    repeat case_match; try (by apply descriptor_leaves); by eapply Hpass.
  - match goal with |- wrote _ _ (snd (?m ?s)) =>
      refine ((_ : preserves (wrote (out c) (leaves c i)) m) s H0) end.
    apply preserves_bind; [by apply quiet_modify|intros _]. apply send_leaves. simpl.
    unfold contains, without. apply bool_decide_eq_false.
    apply ldiff_mask.
  - apply contents_request_leaves.
  - by apply contents_leaves.
Qed.

(** C12. Only these leave: whatever input a session handles, in whatever state, each thing it writes
    is a PDU that carries no file contents and offers no files, passed as it arrived to the other
    side; or a PDU of the proxy's own, in which file contents and file lists are those of the
    offer in place and locking is masked out; or the sender's own Format List, at the moment the
    last verdict makes every file of it clean. *)
Theorem only_these_leave (c : Clip) (i : Input) :
  wrote (out c) (leaves c i) (snd (handle env i c)).
Proof.
  destruct i as [w|w|dir g index v]; simpl.
  - apply (take_pdu_leaves c true).
  - apply (take_pdu_leaves c false).
  - by apply scanned_leaves.
Qed.
End leaves.
