(* ===== verification/ClipProgress.v ===== *)
(** * A fetch completes (src/src/scan/clip.rs)

    From the file list of an offer that is taken: with a sender that reads the requests written to it
    and answers each with the bytes it asks for, the requests end, and one scan is started on each of
    the sender's files. *)

From S2P Require Import Prelude Cliprdr Auth Scanner Clip ClipInv ClipFacts.
From S2P Require Route.
Local Open Scope Z_scope.

Section progress.
Context {H : Codec} (env : Env) (dir : Dir) (src : list bytes).
(** The sender's reading of what is written to it, and the scans started before. *)
Context (read : bytes → option FileContentsRequest) (before : list Job).
Context (g : Z) (l : list bytes) (fl : Z) (desc : bytes) (files : list FileDescriptor) (res : option Z).

(** What the sender has in hand: bytes for each file, of the sizes it announced. *)
Definition announced_sizes : Prop :=
  length files = length src ∧
  ∀ i f s, files !! i = Some f → src !! i = Some s → file_size f = Some (len s).

Definition prefixes (data : list bytes) : Prop :=
  length data = length files ∧
  ∀ i d s, data !! i = Some d → src !! i = Some s → d `prefix_of` s.

(** The bytes still to come. *)
Definition missing (data : list bytes) : nat :=
  sum_list ((fun ds : bytes * bytes => (length ds.2 - length ds.1)%nat) <$> zip data src).

Definition contents_phase (data : list bytes) (index : nat) (stream dl : Z) : Phase :=
  Fetching (mkFetch g l fl (Contents desc files data index stream) dl res).
Definition scanning_phase (data : list bytes) (dl : Z) : Phase :=
  Fetching (mkFetch g l fl (Scanning desc files data (replicate (length files) None)) dl res).

(** A request for a range, and that the sender reads what was written for it. *)
Definition range_request (stream : Z) (index : nat) (position size : Z) : FileContentsRequest :=
  mkContentsRequest stream (Z.of_nat index) FILE_CONTENTS_RANGE position size None.
Definition write (p : ClipboardPdu) : result Route.RouteError bytes :=
  if bool_decide (dir = Upload) then Route.to_client (route env) p else Route.to_server (route env) p.
Definition readable : Prop :=
  ∀ stream index position size b,
    0 ≤ stream ≤ u32_max → Z.of_nat index ≤ i32_max → 0 ≤ position ≤ u64_max → 0 ≤ size ≤ u32_max →
    write (PFileContentsRequest (range_request stream index position size)) = Ok b →
    read b = Some (range_request stream index position size).

(** The last request among what was written to the sender. *)
Definition to_sender (o : Output) : option bytes :=
  match o with
  | ToClient b => if bool_decide (dir = Upload) then Some b else None
  | ToServer b => if bool_decide (dir = Upload) then None else Some b
  end.
Definition asked (outs : list Output) : option FileContentsRequest :=
  last (omap (fun o => b ← to_sender o; read b) outs).

(** What an honest sender answers to a request. *)
Definition honest_answer (q : FileContentsRequest) : FileContentsResponse :=
  new_data_response (req_stream q)
    (take (Z.to_nat (req_size q)) (drop (Z.to_nat (req_position q)) (default [] (src !! Z.to_nat (req_index q))))).

(** It answers [n] times, as long as it is asked; each answer is handled with nothing left to write
    from before. *)
Fixpoint honest (n : nat) (c : Clip) : Clip :=
  match n with
  | O => c
  | S n' =>
      match asked (out c) with
      | Some q =>
          match contents env dir (honest_answer q) (set_out [] c) with
          | (Ok _, c') => honest n' c'
          | (Err _, c') => c'
          end
      | None => c
      end
  end.

Lemma request_size_range want : 0 < want → 0 < request_size want ≤ Z.min want RANGE.
Proof.
  assert (0 < RANGE ≤ u32_max) as HR by (vm_compute; split; [done|discriminate]).
  intros Hw. unfold request_size. case_decide; lia.
Qed.

Lemma prefixes_fit data : announced_sizes → prefixes data → fits files data.
Proof.
  intros [Hl Hs] [Hd Hp]. split; [done|]. intros i f d Hf Hdi.
  destruct (lookup_lt_is_Some_2 src i) as [s Hsi].
  { rewrite <-Hl. by eapply lookup_lt_Some. }
  rewrite (Hs i f s) by done. simpl. unfold len. apply Nat2Z.inj_le.
  eapply prefix_length, Hp; done.
Qed.

Lemma missing_insert data index d d' s :
  data !! index = Some d → src !! index = Some s →
  (length d < length d' ≤ length s)%nat → (missing (<[index := d']> data) < missing data)%nat.
Proof.
  unfold missing. revert index src. induction data as [|x data IH]; intros [|index] [|y ys] Hd Hs Hlt;
    simplify_eq/=; [lia|]. specialize (IH index ys Hd Hs Hlt). lia.
Qed.

Lemma missing_le data : (missing data ≤ sum_list (length <$> src))%nat.
Proof.
  unfold missing. revert data. induction src as [|s src' IH]; intros [|d data]; simplify_eq/=; try lia. specialize (IH data). lia.
Qed.

Lemma next_stream_range z : 0 ≤ z ≤ u32_max → 0 ≤ Z.max (wrap 32 (z + 1)) FIRST_STREAM ≤ u32_max.
Proof.
  intros _. pose proof (wrap_range 32 (z + 1) ltac:(lia)). assert (0 ≤ FIRST_STREAM ≤ u32_max) by done. unfold u32_max in *. lia.
Qed.

(** Where a fetch stands between two answers: the request for what is wanted next is out. *)
Definition under_way (data : list bytes) (c : Clip) : Prop :=
  ∃ index stream dl d s, phase (direction dir c) = contents_phase data index stream dl ∧
    full_before files data index ∧ wants files data index ∧ jobs c = before ∧ 0 ≤ next_stream c ≤ u32_max ∧
    data !! index = Some d ∧ src !! index = Some s ∧
    asked (out c) = Some (range_request stream index (len d) (request_size (len s - len d))).
(** Nothing more is asked, and one scan was started on each file. *)
Definition complete (data : list bytes) (c : Clip) : Prop :=
  ∃ dl, phase (direction dir c) = scanning_phase data dl ∧ full_before files data (length files) ∧
    jobs c = before ++ imap (fun i fb => mkJob dir g i (file_name fb.1) fb.2) (zip files data) ∧
    asked (out c) = None.

Lemma full_is_src data :
  announced_sizes → prefixes data → full_before files data (length files) → data = src.
Proof.
  intros [Hl Hs] [Hd Hp] Hf. apply list_eq_same_length with (length src); [done|lia|].
  intros i d s Hi Hdi Hsi. destruct (lookup_lt_is_Some_2 files i ltac:(lia)) as [f Hfi].
  specialize (Hf i f d ltac:(lia) Hfi Hdi). rewrite (Hs i f s Hfi Hsi) in Hf. simpl in Hf.
  destruct (Hp i d s Hdi Hsi) as [k ->]. unfold len in Hf. rewrite length_app in Hf.
  destruct k; [by rewrite app_nil_r|simpl in Hf; lia].
Qed.

(** The channel is known and the codec writes what it is given. *)
Definition route_up : Prop := ∀ p, ∃ b, write p = Ok b.

Lemma send_ok p c : route_up → ∃ b o,
  write p = Ok b ∧ to_sender o = Some b ∧ send_sender env dir p c = (Ok (), set_out (out c ++ [o]) c).
Proof.
  intros Hup. destruct (Hup p) as [b Hb]. unfold write, send_sender, send, to_sender in *.
  case_bool_decide.
  - exists b, (ToClient b). rewrite Hb. split_and!; [done..|]. simpl lift_route. by erewrite bind_ok by done.
  - exists b, (ToServer b). rewrite Hb. split_and!; [done..|]. simpl lift_route. by erewrite bind_ok by done.
Qed.

Lemma asked_snoc outs o b q : to_sender o = Some b → read b = Some q → asked (outs ++ [o]) = Some q.
Proof. intros Ho Hb. unfold asked. rewrite omap_app. simpl. rewrite Ho. simpl. by rewrite Hb, last_snoc. Qed.

Lemma direction_out o c : direction dir (set_out o c) = direction dir c.
Proof. by destruct dir. Qed.
Lemma direction_jobs j c : direction dir (set_jobs j c) = direction dir c.
Proof. by destruct dir. Qed.

(** What the sender and the proxy agree on throughout. *)
Record agreed : Prop := {
  ag_up : route_up;
  ag_readable : readable;
  ag_sizes : announced_sizes;
  ag_u64 : ∀ i s, src !! i = Some s → len s ≤ u64_max;
  ag_count : Z.of_nat (length files) ≤ i32_max;
}.

Lemma index_exact i f : agreed → files !! i = Some f → index_i32 i = Z.of_nat i ∧ Z.of_nat i ≤ i32_max.
Proof.
  intros Ha Hi%lookup_lt_Some. pose proof (ag_count Ha). unfold index_i32. lia.
Qed.

Lemma fetch_next_moves c data index stream dl :
  agreed → phase (direction dir c) = contents_phase data index stream dl →
  prefixes data → full_before files data index →
  out c = [] → jobs c = before → 0 ≤ next_stream c ≤ u32_max → 0 ≤ stream ≤ u32_max →
  ∃ c', fetch_next env dir c = (Ok (), c') ∧ (under_way data c' ∨ complete data c').
Proof.
  intros Ha Hp Hpre Hb Hout Hj Hns Hst. pose proof (ag_sizes Ha) as Hann.
  pose proof (prefixes_fit data Hann Hpre) as Hfit. unfold fetch_next. rewrite bind_gets, Hp. unfold contents_phase.
  destruct (skip_full_spec (length files) files data index Hfit Hb ltac:(lia)) as [Hb' Hi].
  set (i := skip_full (length files) files data index) in *.
  destruct Hi as [(f & d & Hf & Hd & Hlt)|Hge].
  - rewrite Hf, Hd. erewrite bind_ok by done.
    destruct (lookup_lt_is_Some_2 src i) as [s Hs].
    { rewrite <-(proj1 Hann). by eapply lookup_lt_Some. }
    rewrite (proj2 Hann i f s) in Hlt |- * by done. simpl in Hlt |- *. pose proof (ag_u64 Ha i s Hs) as Hu.
    destruct (index_exact i f Ha Hf) as [-> Hi32]. pose proof (request_size_range (len s - len d) ltac:(lia)) as Hreq.
    assert (0 ≤ len d) by (unfold len; lia). assert (RANGE ≤ u32_max) by done.
    match goal with |- context [send_sender env dir ?p ?c1] => destruct (send_ok p c1 (ag_up Ha)) as (b & o & Hw & Ho & ->) end.
    apply (ag_readable Ha) in Hw; [|lia..]. eexists. split; [done|]. left.
    eexists i, stream, _, d, s. rewrite direction_out. unfold put_phase.
    autorewrite with clip. rewrite decide_True by done. cbn [jobs next_stream out set_out].
    split_and!; [done|done|by exists f, d; rewrite (proj2 Hann i f s)|..]; try done; try (by destruct dir); try (destruct dir; simpl; lia).
    by eapply asked_snoc.
  - assert (files !! i = None) as -> by by apply lookup_ge_None. erewrite bind_ok by done.
    eexists. split; [done|]. right. eexists. unfold put_phase. autorewrite with clip.
    rewrite decide_True by done. split_and!; [done|intros k fk dk Hk; apply (Hb' k); lia|rewrite <-Hj; by destruct dir|].
    assert (out (put_phase dir (Fetching (mkFetch g l fl (Scanning desc files data (replicate (length files) None))
      (now env + scan_timeout env + ANSWER) res)) c) = []) as Ho by (by destruct dir).
    unfold asked. by destruct dir; simpl in *; rewrite Ho.
Qed.

(** One honest answer. *)
Lemma honest_step c data :
  agreed → prefixes data → under_way data c →
  ∃ q c' data', asked (out c) = Some q ∧ contents env dir (honest_answer q) (set_out [] c) = (Ok (), c') ∧
    prefixes data' ∧ (missing data' < missing data)%nat ∧ (under_way data' c' ∨ complete data' c').
Proof.
  intros Ha Hpre (index & stream & dl & d & s & Hp & Hb & (f & d0 & Hf & Hd0 & Hlt) & Hj & Hns & Hd & Hsi & Hq).
  rewrite Hd in Hd0. injection Hd0 as <-. pose proof (ag_sizes Ha) as [Hl Hs].
  rewrite (Hs _ _ _ Hf Hsi) in Hlt. simpl in Hlt.
  destruct (proj2 Hpre _ _ _ Hd Hsi) as [k ->]. rewrite len_app in Hlt.
  assert (len (d ++ k) - len d = len k) as Hwant by (rewrite len_app; lia). rewrite Hwant in Hq.
  pose proof (request_size_range (len k) ltac:(lia)) as Hreq.
  set (got := take (Z.to_nat (request_size (len k))) k).
  exists (range_request stream index (len d) (request_size (len k))).
  assert (honest_answer (range_request stream index (len d) (request_size (len k))) = new_data_response stream got) as ->.
  { unfold honest_answer, range_request. simpl. rewrite Nat2Z.id, Hsi. simpl.
    replace (Z.to_nat (len d)) with (length d) by (unfold len; lia). by rewrite drop_app_length. }
  assert (len got = request_size (len k)) as Hgot.
  { unfold got, len in *. rewrite length_take. lia. }
  unfold contents. erewrite bind_ok by done. rewrite bind_gets. set (c1 := set_next_stream _ (set_out [] c)).
  assert (phase (direction dir c1) = contents_phase data index stream dl) as -> by (rewrite <-Hp; by destruct dir).
  unfold contents_phase. simpl. rewrite decide_False by (intros []; done).
  rewrite Hd, Hf. simpl. rewrite (Hs _ _ _ Hf Hsi). simpl. rewrite Hwant.
  rewrite decide_False.
  2: { intros [Hn|Hn]; [rewrite Hn in Hgot; unfold len in *; simpl in *; lia|lia]. }
  erewrite bind_ok by done. set (c2 := put_phase dir _ c1).
  assert (prefixes (<[index := d ++ got]> data)) as Hpre'.
  { split; [rewrite length_insert; apply Hpre|]. intros j d' s' Hj' Hsj.
    apply list_lookup_insert_Some in Hj' as [(<- & <- & _)|[Hne Hj']]; [|by eapply (proj2 Hpre)].
    simplify_eq. unfold got. apply prefix_app, prefix_take. }
  destruct (fetch_next_moves c2 (<[index := d ++ got]> data) index (next_stream c) dl) as (c' & Hc' & Hmv); try done.
  { unfold c2, put_phase. autorewrite with clip. by rewrite decide_True. }
  { intros j f' d' Hj' Hf' Hd'. rewrite list_lookup_insert_ne in Hd' by lia. by apply (Hb j). }
  1-3: unfold c2, c1; destruct dir; simpl; try done; apply next_stream_range, Hns.
  exists c', (<[index := d ++ got]> data). split_and!; [done|done|done| |done].
  apply missing_insert with (d := d) (s := d ++ k); [done..|].
  unfold len in *. rewrite !length_app. lia.
Qed.

Lemma honest_completes (c : Clip) (data : list bytes) :
  agreed → prefixes data → under_way data c ∨ complete data c →
  ∃ n, (n ≤ missing data)%nat ∧ complete src (honest n c).
Proof.
  intros Ha. remember (missing data) as m eqn:Hm. revert c data Hm.
  induction m as [m IH] using lt_wf_ind. intros c data -> Hpre [Hu|Hc].
  - destruct (honest_step c data Ha Hpre Hu) as (q & c' & data' & Hq & Hc & Hpre' & Hlt & Hmv).
    destruct (IH _ Hlt c' data' eq_refl Hpre' Hmv) as (n & Hn & Hd). exists (S n). split; [lia|].
    simpl. by rewrite Hq, Hc.
  - exists 0%nat. split; [lia|]. simpl. destruct Hc as (dl & Hp & Hf & Hj & Hq).
    pose proof (full_is_src data (ag_sizes Ha) Hpre Hf) as ->. by exists dl.
Qed.
End progress.

(** Why an offer is taken: its file list is read, there are files, none is a folder or larger than
    the limit, they fit the staging, and the memory for them is given. *)
Definition taken_offer {H : Codec} (env : Env) (resp : FormatDataResponse) (files : list FileDescriptor) (c : Clip) : Prop :=
  let sizes := (fun f => default 0 (file_size f)) <$> files in
  data_error resp = false ∧ to_file_list resp = Some files ∧ files ≠ [] ∧ existsb is_folder files = false ∧
  (∀ limit, max_file_bytes env = Some limit → Forall (fun s => s ≤ limit) sizes) ∧
  is_Some (reserve (held c) (staging_max c) (sum_u64 sizes)) ∧ with_capacities env [] sizes = Ok ().

(** The list of an offer that is taken starts the fetch. *)
Lemma descriptor_fetches {H : Codec} env dir resp files g l fl dl c :
  taken_offer env resp files c → (∀ f, f ∈ files → is_Some (file_size f)) → out c = [] →
  phase (direction dir c) = Fetching (mkFetch g l fl Descriptor dl None) →
  ∃ c1, descriptor env dir resp c = fetch_next env dir c1 ∧
    out c1 = [] ∧ jobs c1 = jobs c ∧ next_stream c1 = Z.max (wrap 32 (next_stream c + 1)) FIRST_STREAM ∧
    phase (direction dir c1) =
      contents_phase g l fl (data_bytes resp) files (Some (sum_u64 ((fun f => default 0 (file_size f)) <$> files)))
        (replicate (length files) []) 0 (next_stream c) dl.
Proof.
  intros (He & Hf & Hne & Hfo & Hlim & [h Hres] & Hcap) Hsz Ho Hp.
  unfold descriptor. rewrite bind_gets, Hp, He, Hf, decide_False, Hfo by done.
  replace (existsb (fun f => is_none (file_size f)) files) with false.
  2: { symmetry. apply existsb_false_Forall, Forall_forall. intros f Hin. by destruct (Hsz f Hin) as [n ->]. }
  match goal with |- context [if ?b then refuse_files env dir files "larger than the file-size limit" else _] => replace b with false end.
  2: { destruct (max_file_bytes env) as [limit|]; [|done]. symmetry. apply existsb_false_Forall.
       eapply Forall_impl; [by apply Hlim|]. intros s Hs. simpl in Hs. rewrite bool_decide_eq_false. lia. }
  unfold get. erewrite bind_ok by done. rewrite Hres. do 5 erewrite bind_ok by done. rewrite Hcap.
  erewrite bind_ok by done. eexists. split; [done|]. by destruct dir; rewrite <-?Ho.
Qed.

(** C38. A fetch completes. When the file list of an offer that is taken arrives (it is read, there
    are files, none is a folder or larger than the limit, they fit the staging and the memory for them
    is given), with the channel up and a sender that announced the sizes of its files, reads the
    requests written to it and answers each with the bytes it asks for: the requests come to an end,
    after no more of them than there are bytes, no answer is refused, and exactly one scan is started
    for each file, on the bytes the sender has for it. *)
Theorem fetch_completes {H : Codec} (env : Env) (dir : Dir) (src : list bytes)
    (read : bytes → option FileContentsRequest) (resp : FormatDataResponse) (files : list FileDescriptor)
    (g : Z) (l : list bytes) (fl dl : Z) (c : Clip) :
  route_up env dir → readable env dir read →
  announced_sizes src files → Z.of_nat (length files) ≤ i32_max → taken_offer env resp files c →
  phase (direction dir c) = Fetching (mkFetch g l fl Descriptor dl None) →
  out c = [] → 0 ≤ next_stream c ≤ u32_max →
  ∃ c1 n, descriptor env dir resp c = (Ok (), c1) ∧ (n ≤ sum_list (length <$> src))%nat ∧
    complete dir read (jobs c) g l fl (data_bytes resp) files
      (Some (sum_u64 ((fun f => default 0 (file_size f)) <$> files))) src (honest env dir src read n c1).
Proof.
  intros Hup Hread Hann Hcount Htaken Hp Hout Hns.
  assert (∀ i f, files !! i = Some f → ∃ s, src !! i = Some s ∧ file_size f = Some (len s)) as Hsz.
  { intros i f Hi. destruct (lookup_lt_is_Some_2 src i) as [s Hs]; [rewrite <-(proj1 Hann); by eapply lookup_lt_Some|].
    exists s. split; [done|]. by apply (proj2 Hann i). }
  destruct (descriptor_fetches env dir resp files g l fl dl c Htaken) as (c0 & Hd & Ho & Hj & Hn & Hph); try done.
  { intros f [i Hi]%list_elem_of_lookup. destruct (Hsz i f Hi) as (s & _ & ->). eauto. }
  set (res := Some _) in *.
  assert (agreed env dir src read files) as Ha.
  { split; try done. intros i s Hs. destruct (lookup_lt_is_Some_2 files i) as [f Hf].
    { rewrite (proj1 Hann). by eapply lookup_lt_Some. }
    destruct Htaken as (_ & Hfl & _). eapply (to_file_list_u64 resp files f); [done|by eapply list_elem_of_lookup_2|].
    by apply (proj2 Hann i). }
  assert (prefixes src files (replicate (length files) [])) as Hpre.
  { split; [by rewrite length_replicate|]. intros i d s [-> _]%lookup_replicate _. apply prefix_nil. }
  destruct (fetch_next_moves env dir src read (jobs c) g l fl (data_bytes resp) files res c0
    (replicate (length files) []) 0 (next_stream c) dl Ha Hph Hpre) as (c1 & Hc1 & Hmv); try done.
  { intros j f d Hlt. lia. }
  { rewrite Hn. by apply next_stream_range. }
  destruct (honest_completes env dir src read (jobs c) g l fl (data_bytes resp) files res c1 _ Ha Hpre Hmv) as (n & Hle & Hc).
  exists c1, n. rewrite Hd. split_and!; [done| |done]. etransitivity; [exact Hle|]. apply missing_le.
Qed.

(** ** On a codec that writes requests in full *)

Definition wide_encode (p : ClipboardPdu) : bytes :=
  match p with
  | PFileContentsRequest q =>
      to_le 4 (req_stream q) ++ to_le 4 (req_index q) ++ to_le 8 (req_position q) ++ to_le 4 (req_size q)
  | _ => sample_encode p
  end.
Definition wide_read (b : bytes) : option FileContentsRequest :=
  Some (mkContentsRequest (from_le (take 4 b)) (from_le (take 4 (drop 4 b))) FILE_CONTENTS_RANGE
          (from_le (take 8 (drop 8 b))) (from_le (take 4 (drop 16 b))) None).
Definition wide_codec : Codec := {|
  decode_x224_data := decode_x224_data (Codec := sample_codec);
  decode_channel_names := decode_channel_names (Codec := sample_codec);
  decode_channel_ids := decode_channel_ids (Codec := sample_codec);
  decode_mcs := decode_mcs (Codec := sample_codec);
  decode_pdu := sample_decode;
  client_encode := fun ms _ _ => Ok (ms ≫= fun m => wide_encode (svc_pdu m));
  server_encode := fun ms _ _ => Ok (ms ≫= fun m => wide_encode (svc_pdu m));
  get_formats := get_formats (Codec := sample_codec);
  new_unicode := new_unicode (Codec := sample_codec);
  to_file_list := sample_files;
  to_file_list_u64 := sample_files_u64;
|}.

Lemma wide_read_back (b b0 b1 b2 : bytes) :
  length b = 4%nat → length b0 = 4%nat → length b1 = 8%nat → length b2 = 4%nat →
  wide_read (b ++ b0 ++ b1 ++ b2) =
  Some (mkContentsRequest (from_le b) (from_le b0) FILE_CONTENTS_RANGE (from_le b1) (from_le b2) None).
Proof.
  intros L L0 L1 L2. unfold wide_read.
  replace (drop 16 (b ++ b0 ++ b1 ++ b2)) with b2 by (rewrite !app_assoc, drop_app_length'; [done|rewrite !length_app; lia]).
  replace (drop 8 (b ++ b0 ++ b1 ++ b2)) with (b1 ++ b2) by (rewrite (app_assoc b), drop_app_length'; [done|rewrite !length_app; lia]).
  rewrite (drop_app_length' b) by done. rewrite !take_app_length' by done. by rewrite take_ge by lia.
Qed.

Lemma wide_readable : readable (H:=wide_codec) sample_env Upload wide_read.
Proof.
  intros stream index position size b Hs Hi Hp Hz [= <-].
  transitivity (wide_read ((to_le 4 stream ++ to_le 4 (Z.of_nat index) ++ to_le 8 position ++ to_le 4 size) ++ [])); [done|].
  rewrite app_nil_r, wide_read_back by apply to_le_length. unfold range_request. rewrite !from_to_le, !Z.mod_small; [done|..].
  all: unfold u32_max, i32_max, u64_max in *; lia.
Qed.

Definition wide_clip : Clip :=
  set_direction Upload (mkDirection (Fetching (mkFetch 1 [] 49 Descriptor 9 None)) [] []) (clip_new 0 100).
Definition wide_files : list FileDescriptor := (fun n => mkFile None (Some n) "f" None) <$> [2; 0; 1].

(** Three files, one of them empty: two requests, and three scans. *)
Example fetch_completes_witness :
  let src := [[xaa; xbb]; []; [xcc]] in
  ∃ c1 n, descriptor (H:=wide_codec) sample_env Upload (new_data [x02; x00; x01]) wide_clip = (Ok (), c1) ∧ (n ≤ 3)%nat ∧
    complete Upload wide_read [] 1 [] 49 [x02; x00; x01] wide_files (Some 3) src
      (honest (H:=wide_codec) sample_env Upload src wide_read n c1).
Proof.
  apply (fetch_completes (H:=wide_codec) sample_env Upload [[xaa; xbb]; []; [xcc]] wide_read (new_data [x02; x00; x01])
           wide_files 1 [] 49 9 wide_clip).
  - intros p. eexists. reflexivity.
  - exact wide_readable.
  - split; [reflexivity|]. intros [|[|[|i]]] f s Hf Hs; simplify_eq/=; reflexivity.
  - vm_compute. discriminate.
  - split_and!; try reflexivity; [discriminate|intros limit [=]|vm_compute; eauto].
  - reflexivity.
  - reflexivity.
  - vm_compute. split; discriminate.
Defined.
