(* ===== verification/Relay.v ===== *)
(** * The relay of a session (src/src/proxy.rs)

    With scanning on, one reader per side cuts the stream into units and routes each: clipboard PDUs
    go to the scan, everything else to the other side's writer, through channels of 64 places. The
    parts run in one task and interleave wherever one waits, so a reader's work on a message is
    several steps: a unit is routed, a PDU waits for a place with the scan, the bytes that pass wait
    for a place with the writer. *)

From S2P Require Import Prelude Cliprdr Auth Framing RouteFacts Scanner Clip ClipInv ClipFacts ClipServe.
From S2P Require Route.
Local Open Scope Z_scope.

(** ** State *)

(** Places in each of the three channels. *)
Definition CHANNEL : nat := 64.

(** A reader: its framer, the units of the last message still to route, a clipboard PDU waiting for a
    place with the scan, and the bytes of the message that pass. *)
Record Reader := mkReader {
  rd_framer : Framer;
  rd_todo : list Unit_;
  rd_offer : option Input;
  rd_pass : bytes;
}.

(** [rl_out] is what the scan's last round wrote and is still waiting to hand to the writers. *)
Record Relay := mkRelay {
  rl_client : Reader;
  rl_server : Reader;
  rl_route : Route.Route;
  rl_clip : Clip;
  rl_out : list Output;
  rl_inputs : list Input;
  rl_to_server : list bytes;
  rl_to_client : list bytes;
}.

Inductive RelayError :=
  | Frame (e : FrameError)
  | Routing (e : Route.RouteError)
  | Scanning_ (e : ClipError).

Definition reader (client : bool) (r : Relay) : Reader := if client then rl_client r else rl_server r.
Definition set_reader (client : bool) (rd : Reader) (r : Relay) : Relay :=
  if client then mkRelay rd (rl_server r) (rl_route r) (rl_clip r) (rl_out r) (rl_inputs r) (rl_to_server r) (rl_to_client r)
  else mkRelay (rl_client r) rd (rl_route r) (rl_clip r) (rl_out r) (rl_inputs r) (rl_to_server r) (rl_to_client r).
Definition set_route rt r := mkRelay (rl_client r) (rl_server r) rt (rl_clip r) (rl_out r) (rl_inputs r) (rl_to_server r) (rl_to_client r).
Definition set_clip c o r := mkRelay (rl_client r) (rl_server r) (rl_route r) c o (rl_inputs r) (rl_to_server r) (rl_to_client r).
Definition set_inputs i r := mkRelay (rl_client r) (rl_server r) (rl_route r) (rl_clip r) (rl_out r) i (rl_to_server r) (rl_to_client r).

(** The channel to a side's writer. *)
Definition queue (server : bool) (r : Relay) : list bytes := if server then rl_to_server r else rl_to_client r.
Definition set_queue (server : bool) (q : list bytes) (r : Relay) : Relay :=
  if server then mkRelay (rl_client r) (rl_server r) (rl_route r) (rl_clip r) (rl_out r) (rl_inputs r) q (rl_to_client r)
  else mkRelay (rl_client r) (rl_server r) (rl_route r) (rl_clip r) (rl_out r) (rl_inputs r) (rl_to_server r) q.

Definition relay_new (hybrid : bool) (held max : Z) : Relay :=
  mkRelay (mkReader (framer_new false hybrid) [] None []) (mkReader (framer_new true hybrid) [] None [])
    Route.route_default (clip_new held max) [] [] [] [].

(** ** The parts *)

Section relay.
Context {H : Codec}.

Abbreviation R := (M Relay RelayError).

(** A message from one side: [framer.push]. *)
Definition receive (client : bool) (b : bytes) : R unit := fun r =>
  let rd := reader client r in
  let '(res, f) := push b (rd_framer rd) in
  match res with
  | Err e => (Err (Frame e), set_reader client (mkReader f [] None []) r)
  | Ok us => (Ok (), set_reader client (mkReader f us None []) r)
  end.

Definition route_unit (client : bool) (u : Unit_) : M Route.Route Route.RouteError Route.Routed :=
  match u with
  | UTpkt b => if client then Route.read_client b else Route.read_server b
  | _ => mret Route.Pass
  end.

Definition input_from (client : bool) (w : Route.Whole) : Input := if client then FromClient w else FromServer w.

(** What of a routed unit goes to the other side's writer. *)
Definition passed (u : Unit_) (o : Route.Routed) : bytes :=
  match o with
  | Route.Pass => unit_bytes u
  | Route.Replace b => b
  | Route.Clip _ => []
  end.

(** One round of [forward]'s loop, up to the point where it waits for the scan. *)
Definition forward_unit (client : bool) (u : Unit_) (rest : list Unit_) : R Route.Routed := fun r =>
  let rd := reader client r in
  let '(res, rt) := route_unit client u (rl_route r) in
  match res with
  | Err e => (Err (Routing e), set_route rt r)
  | Ok o =>
      let offer := match o with Route.Clip (Some w) => Some (input_from client w) | _ => None end in
      (Ok o, set_reader client (mkReader (rd_framer rd) rest offer (rd_pass rd ++ passed u o)) (set_route rt r))
  end.

(** [clip_tx.send(input)], once there is a place. *)
Definition offer_input (client : bool) (i : Input) (r : Relay) : Relay :=
  let rd := reader client r in
  set_reader client (mkReader (rd_framer rd) (rd_todo rd) None (rd_pass rd)) (set_inputs (rl_inputs r ++ [i]) r).

(** [to.send(pass)], after the last unit of a message. *)
Definition forward_pass (client : bool) (r : Relay) : Relay :=
  let rd := reader client r in
  set_queue client (queue client r ++ [rd_pass rd])
    (set_reader client (mkReader (rd_framer rd) (rd_todo rd) (rd_offer rd) []) r).

(** A round of the scan, on the next input or at its deadline. *)
Definition scan_round (env : Env) (i : option Input) (rest : list Input) : R (list Output) := fun r =>
  let '(res, c) := round env i (rl_clip r) in
  match res with
  | Err e => (Err (Scanning_ e), set_clip c [] r)
  | Ok outs => (Ok outs, set_inputs rest (set_clip c outs r))
  end.

(** What the scan wrote, to the writer it is for. *)
Definition output_to (o : Output) : bool * bytes := match o with ToServer b => (true, b) | ToClient b => (false, b) end.
Definition hand_out (o : Output) (rest : list Output) (r : Relay) : Relay :=
  let '(server, b) := output_to o in
  set_queue server (queue server r ++ [b]) (set_clip (rl_clip r) rest r).

(** ** Runs *)

(** What happens, seen from outside: a message arrives, a unit is routed (with the route as it was),
    the bytes that pass are handed on, a PDU reaches the scan, a job of the scan answers, a round of
    the scan ends with what it wrote, an output of it is handed on, and a writer takes bytes. *)
Inductive event :=
  | Received (client : bool) (b : bytes)
  | RoutedUnit (client : bool) (rt : Route.Route) (u : Unit_) (o : Route.Routed)
  | Forwarded (client : bool) (b : bytes)
  | Offered_ (i : Input)
  | Answered (j : Job) (v : Verdict)
  | Round (env : Env) (c : Clip) (i : option Input) (outs : list Output)
  | Handed (o : Output)
  | Wrote (server : bool) (b : bytes)
  | Elsewhere.

Inductive rstep : event → Relay → Relay → Prop :=
  | rs_receive client b r r' :
      rd_todo (reader client r) = [] → rd_offer (reader client r) = None → rd_pass (reader client r) = [] →
      receive client b r = (Ok (), r') → rstep (Received client b) r r'
  | rs_route client u rest o r r' :
      rd_todo (reader client r) = u :: rest → rd_offer (reader client r) = None →
      forward_unit client u rest r = (Ok o, r') → rstep (RoutedUnit client (rl_route r) u o) r r'
  | rs_offer client i r :
      rd_offer (reader client r) = Some i → (length (rl_inputs r) < CHANNEL)%nat →
      rstep (Offered_ i) r (offer_input client i r)
  | rs_forward client r :
      rd_todo (reader client r) = [] → rd_offer (reader client r) = None → rd_pass (reader client r) ≠ [] →
      (length (queue client r) < CHANNEL)%nat →
      rstep (Forwarded client (rd_pass (reader client r))) r (forward_pass client r)
  | rs_answer j v r :
      j ∈ jobs (rl_clip r) → (length (rl_inputs r) < CHANNEL)%nat →
      rstep (Answered j v) r (set_inputs (rl_inputs r ++ [Scanned (j_dir j) (j_generation j) (j_index j) v]) r)
  | rs_round env i rest outs r r' :
      rl_out r = [] → rl_inputs r = i :: rest → route env = rl_route r →
      scan_round env (Some i) rest r = (Ok outs, r') → rstep (Round env (rl_clip r) (Some i) outs) r r'
  | rs_expire env t outs r r' :
      rl_out r = [] → deadline (rl_clip r) = Some t → t ≤ now env → route env = rl_route r →
      scan_round env None (rl_inputs r) r = (Ok outs, r') → rstep (Round env (rl_clip r) None outs) r r'
  | rs_hand o rest r :
      rl_out r = o :: rest → (length (queue (output_to o).1 r) < CHANNEL)%nat →
      rstep (Handed o) r (hand_out o rest r)
  | rs_write server b rest r :
      queue server r = b :: rest → rstep (Wrote server b) r (set_queue server rest r)
  (** other sessions reserve and release staging *)
  | rs_others h r : rstep Elsewhere r (set_clip (set_held h (rl_clip r)) (rl_out r) r).

(** A relay after the events [tr], in order. *)
Inductive relayed (hybrid : bool) : list event → Relay → Prop :=
  | relayed_start held max : relayed hybrid [] (relay_new hybrid held max)
  | relayed_step tr e r r' : relayed hybrid tr r → rstep e r r' → relayed hybrid (tr ++ [e]) r'.
End relay.
