(* ===== verification/RelayFacts.v ===== *)
(** * What a relay keeps (src/src/proxy.rs)

    However the parts interleave: the stream that is not the clipboard goes through in order and
    unchanged, every clipboard PDU goes to the scan and nowhere else, and what the scan writes is
    all that it adds. *)

From S2P Require Import Prelude Cliprdr Auth Framing RouteFacts Scanner Clip ClipInv ClipFacts ClipServe Relay.
From S2P Require Route.
Local Open Scope Z_scope.

(** ** What a run of events says *)

Definition when {A} (b : bool) (l : list A) : list A := if b then l else [].

(** Of each event: the bytes a side sent; the units routed from it, with what became of each; the
    bytes of it handed on as they are; what was handed to a side's writer, by the reader of the other
    side or by the scan, and what that writer took; what the scan wrote, and what of it was handed
    on; and the PDUs of a side the scan took. *)
Definition ev_received (client : bool) (e : event) : bytes :=
  match e with Received c b => when (Bool.eqb c client) b | _ => [] end.
Definition ev_routed (client : bool) (e : event) : list (Unit_ * Route.Routed) :=
  match e with RoutedUnit c _ u o => when (Bool.eqb c client) [(u, o)] | _ => [] end.
Definition ev_forwarded (client : bool) (e : event) : bytes :=
  match e with Forwarded c b => when (Bool.eqb c client) b | _ => [] end.
Definition ev_handed (server : bool) (e : event) : list bytes :=
  match e with
  | Forwarded c b => when (Bool.eqb c server) [b]
  | Handed o => when (Bool.eqb (output_to o).1 server) [(output_to o).2]
  | _ => []
  end.
Definition ev_written (server : bool) (e : event) : list bytes :=
  match e with Wrote s b => when (Bool.eqb s server) [b] | _ => [] end.
Definition ev_produced (e : event) : list Output := match e with Round _ _ _ outs => outs | _ => [] end.
Definition ev_handed_out (e : event) : list Output := match e with Handed o => [o] | _ => [] end.
Definition whole_of (uo : Unit_ * Route.Routed) : list Route.Whole :=
  match uo.2 with Route.Clip (Some w) => [w] | _ => [] end.
Definition whole_from (client : bool) (i : Input) : list Route.Whole :=
  match i with
  | FromClient w => when client [w]
  | FromServer w => when (negb client) [w]
  | Scanned _ _ _ _ => []
  end.
Definition ev_taken (client : bool) (e : event) : list Route.Whole :=
  match e with Round _ _ (Some i) _ => whole_from client i | _ => [] end.

Lemma bind_snoc {A B} (f : A → list B) l x : (l ++ [x]) ≫= f = (l ≫= f) ++ f x.
Proof. rewrite bind_app. simpl. by rewrite app_nil_r. Qed.

Lemma eqb_true b : Bool.eqb b b = true.
Proof. by destruct b. Qed.
Lemma eqb_false b b' : b ≠ b' → Bool.eqb b b' = false.
Proof. by destruct b, b'. Qed.

(** ** The invariant *)

Section facts.
Context {H : Codec}.

(** One direction: what arrived is what was routed, what waits and what is not yet a unit; what was
    handed on is what passes of the routed units; the PDUs among them are those the scan took and
    those on their way to it; and a writer takes what it is handed, in order. *)
Record side_ok (client : bool) (tr : list event) (r : Relay) : Prop := {
  so_received : tr ≫= ev_received client =
    (((tr ≫= ev_routed client).*1 ++ rd_todo (reader client r)) ≫= unit_bytes) ++ buf (rd_framer (reader client r));
  so_passed : (tr ≫= ev_forwarded client) ++ rd_pass (reader client r) =
    ((tr ≫= ev_routed client) ≫= fun uo => passed uo.1 uo.2);
  so_wholes : (tr ≫= ev_routed client) ≫= whole_of =
    (tr ≫= ev_taken client) ++ (rl_inputs r ≫= whole_from client)
      ++ (option_list (rd_offer (reader client r)) ≫= whole_from client);
  so_written : tr ≫= ev_handed client = (tr ≫= ev_written client) ++ queue client r;
}.

Lemma reader_set c rd r : reader c (set_reader c rd r) = rd.
Proof. by destruct c. Qed.
Lemma reader_set_ne c c' rd r : c ≠ c' → reader c (set_reader c' rd r) = reader c r.
Proof. by destruct c, c'. Qed.
Lemma reader_route c rt r : reader c (set_route rt r) = reader c r.
Proof. by destruct c. Qed.
Lemma reader_queue c s q r : reader c (set_queue s q r) = reader c r.
Proof. by destruct c, s. Qed.
Lemma reader_clip c k o r : reader c (set_clip k o r) = reader c r.
Proof. by destruct c. Qed.
Lemma reader_inputs c i r : reader c (set_inputs i r) = reader c r.
Proof. by destruct c. Qed.
Lemma queue_set c q r : queue c (set_queue c q r) = q.
Proof. by destruct c. Qed.
Lemma queue_set_ne c c' q r : c ≠ c' → queue c (set_queue c' q r) = queue c r.
Proof. by destruct c, c'. Qed.
Lemma queue_reader c s rd r : queue c (set_reader s rd r) = queue c r.
Proof. by destruct c, s. Qed.
Lemma inputs_reader c rd r : rl_inputs (set_reader c rd r) = rl_inputs r.
Proof. by destruct c. Qed.
Lemma inputs_queue c q r : rl_inputs (set_queue c q r) = rl_inputs r.
Proof. by destruct c. Qed.
Hint Rewrite reader_set reader_route reader_queue reader_clip reader_inputs queue_set queue_reader inputs_reader inputs_queue
  eqb_true @app_nil_r : relay.
Hint Rewrite reader_set_ne queue_set_ne eqb_false using congruence : relay.

Ltac side := split; rewrite ?bind_snoc; cbn [ev_received ev_routed ev_forwarded ev_handed ev_written ev_taken]; autorewrite with relay; cbn [when rl_inputs rd_todo rd_pass rd_offer rd_framer].

Definition offers_ok (r : Relay) : Prop :=
  ∀ c i, rd_offer (reader c r) = Some i → ∃ w, i = input_from c w.

Lemma offers_ok_set r c rd :
  offers_ok r → (∀ i, rd_offer rd = Some i → ∃ w, i = input_from c w) → offers_ok (set_reader c rd r).
Proof.
  intros Ho Hrd c' i. destruct (decide (c' = c)) as [->|Hc]; [rewrite reader_set; apply Hrd|].
  rewrite reader_set_ne by done. apply Ho.
Qed.

Lemma offers_ok_step e r r' : offers_ok r → rstep e r r' → offers_ok r'.
Proof.
  intros Ho Hs. destruct Hs as [c b r r' Ht Hn Hp E|c u rest o r r' Ht Hn E|c i r Hn Hl|c r Ht Hn Hp Hl|j v r Hj Hl
    |env i rest outs r r' Hr Hi He E|env t outs r r' Hr Hd Hn He E|o rest r Hr Hl|server b rest r Hq|h r].
  - unfold receive in E. destruct (push _ _) as [[us|e] f]; [|done]. injection E as <-. by apply offers_ok_set.
  - unfold forward_unit in E. destruct (route_unit c u (rl_route r)) as [[o'|e] rt]; [|done]. injection E as <- <-.
    apply offers_ok_set; [intros c'; rewrite reader_route; apply Ho|]. simpl.
    destruct o' as [| |[w|]]; try done. intros i [= <-]. by exists w.
  - apply offers_ok_set; [|done]. intros c'. rewrite reader_inputs. apply Ho.
  - intros c'. unfold forward_pass. rewrite reader_queue. apply offers_ok_set; [done|]. simpl. by rewrite Hn.
  - intros c'. rewrite reader_inputs. apply Ho.
  - unfold scan_round in E. destruct (round _ _ _) as [[]]; [|done]. injection E as <- <-.
    intros c'. rewrite reader_inputs, reader_clip. apply Ho.
  - unfold scan_round in E. destruct (round _ _ _) as [[]]; [|done]. injection E as <- <-.
    intros c'. rewrite reader_inputs, reader_clip. apply Ho.
  - unfold hand_out. destruct (output_to o). intros c'. rewrite reader_queue, reader_clip. apply Ho.
  - intros c'. rewrite reader_queue. apply Ho.
  - intros c'. rewrite reader_clip. apply Ho.
Qed.

Lemma side_ok_step client tr e r r' :
  offers_ok r → side_ok client tr r → rstep e r r' → side_ok client (tr ++ [e]) r'.
Proof.
  intros Hof [H1 H2 H3 H4] Hs.
  destruct Hs as [c b r r' Ht Ho Hp E|c u rest o r r' Ht Ho E|c i r Ho Hl|c r Ht Ho Hp Hl|j v r Hj Hl|env i rest outs r r' Hr Hi He E
    |env t outs r r' Hr Hd Hn He E|o rest r Hr Hl|server b rest r Hq|h r].
  - unfold receive in E. destruct (push b (rd_framer (reader c r))) as [[us|e] f] eqn:Ep; [|done].
    injection E as <-. apply framing_lossless in Ep as (Ep & _).
    destruct (decide (client = c)) as [->|Hc]; side; try done.
    + rewrite H1, Ht, app_nil_r, bind_app, <-!app_assoc. by rewrite Ep.
    + by rewrite <-H2, Hp, app_nil_r.
    + rewrite H3, Ho. simpl. by rewrite app_nil_r.
  - unfold forward_unit in E. destruct (route_unit c u (rl_route r)) as [[o'|e] rt] eqn:Er; [|done].
    injection E as <- <-. destruct (decide (client = c)) as [->|Hc]; side; try done.
    + rewrite H1, Ht, fmap_app. simpl. by rewrite <-!app_assoc.
    + by rewrite bind_snoc, app_assoc, H2.
    + rewrite bind_snoc, H3, Ho. simpl. rewrite app_nil_r, <-app_assoc. do 2 f_equal.
      destruct o' as [| |[w|]]; try done. by destruct c.
  - unfold offer_input. destruct (decide (client = c)) as [->|Hc]; side; try done.
    + rewrite H3, Ho. simpl. rewrite bind_app. simpl. by rewrite !app_nil_r.
    + destruct (Hof _ _ Ho) as [w ->]. rewrite H3. simpl. rewrite bind_app. simpl. destruct client, c; done || (simpl; by rewrite !app_nil_r).
  - unfold forward_pass. destruct (decide (client = c)) as [->|Hc]; side; try done.
    by rewrite H4, app_assoc.
  - side; try done. rewrite H3. simpl. rewrite bind_app. simpl. by rewrite !app_nil_r.
  - unfold scan_round in E. destruct (round _ _ _) as [[]]; [|done]. injection E as <- <-. side; try done.
    rewrite H3, Hi. simpl. by rewrite <-!app_assoc.
  - unfold scan_round in E. destruct (round _ _ _) as [[]]; [|done]. injection E as <- <-. by side.
  - unfold hand_out. destruct (output_to o) as [s b] eqn:Eo. 
    destruct (decide (client = s)) as [->|Hc]; side; rewrite ?Eo; cbn [fst snd]; autorewrite with relay; cbn [when]; try done.
    + by rewrite H4, app_assoc.
  - destruct (decide (client = server)) as [->|Hc]; side; try done.
    rewrite H4, Hq. simpl. by rewrite <-app_assoc.
  - by side.
Qed.
(** ** The scan's inputs come from where they say *)

(** A job stays started. *)
Definition started (j : Job) (c : Clip) : Prop := j ∈ jobs c.

#[local] Instance started_invariant j : ClipInvariant (started j).
Proof.
  unfold started. split; [intros c c' ((_ & _ & Hj) & _); by rewrite Hj|].
  intros dir c. unfold replace_phase. by autorewrite with clip.
Qed.

Abbreviation keeps_job j := (preserves (E:=ClipError) (started j)).

Lemma started_phase j dir p : keeps_job j (modify (put_phase dir p)).
Proof. apply preserves_modify. intros c. unfold started, put_phase. by autorewrite with clip. Qed.
Lemma started_more j f : keeps_job j (modify (fun c => set_jobs (jobs c ++ f c) c)).
Proof. apply preserves_modify. intros c Hj. apply elem_of_app. by left. Qed.
Lemma started_held j h : keeps_job j (modify (set_held h)).
Proof. by apply preserves_modify. Qed.
Lemma started_drop j r : keeps_job j (modify (drop_reservation r)).
Proof. apply preserves_modify. intros c. unfold started. by autorewrite with clip. Qed.
Lemma started_generation j g : keeps_job j (modify (set_generation g)).
Proof. by apply preserves_modify. Qed.
Lemma started_replace j dir p : keeps_job j (modify (replace_phase dir p)).
Proof. apply preserves_modify. intros c. unfold started, replace_phase. by autorewrite with clip. Qed.
#[local] Hint Resolve started_replace started_phase started_more started_held started_drop started_generation : preserves.

Lemma fetch_next_started env j dir : keeps_job j (fetch_next env dir).
Proof. unfold fetch_next, send_sender. solve_preserves. Qed.
#[local] Hint Resolve fetch_next_started : preserves.
Lemma descriptor_started env j dir r : keeps_job j (descriptor env dir r).
Proof. unfold descriptor. solve_preserves. Qed.
Lemma contents_started env j dir r : keeps_job j (contents env dir r).
Proof. unfold contents. solve_preserves. Qed.
Lemma scanned_started env j dir g i v : keeps_job j (scanned env dir g i v).
Proof. unfold scanned. solve_preserves. Qed.
Lemma format_list_started env j dir l w : keeps_job j (format_list env dir l w).
Proof. unfold format_list. solve_preserves. Qed.

Lemma round_started env i j c outs c' : round env i c = (Ok outs, c') → started j c → started j c'.
Proof.
  intros (c1 & E & _ & ->)%round_inv Hj. change (started j c1).
  assert (∀ m : M Clip ClipError unit, m c = (Ok (), c1) → keeps_job j m → started j c1) as Hk.
  { intros m Em Hm. specialize (Hm c Hj). by rewrite Em in Hm. }
  destruct i as [[w|w|dir g k v]|].
  - change (take_pdu env true w c = (Ok (), c1)) in E.
    pose proof (take_pdu_keeps env (started j) true w c) as Ht. rewrite E in Ht.
    apply Ht; [intros; by apply format_list_started|apply descriptor_started|apply contents_started|done].
  - change (take_pdu env false w c = (Ok (), c1)) in E.
    pose proof (take_pdu_keeps env (started j) false w c) as Ht. rewrite E in Ht.
    apply Ht; [intros; by apply format_list_started|apply descriptor_started|apply contents_started|done].
  - eapply Hk; [exact E|apply scanned_started].
  - eapply Hk; [exact E|apply expire_keeps, _].
Qed.
(** The channel's id is learned after its name. *)
Definition named (rt : Route.Route) : Prop := is_Some (Route.cliprdr rt) → is_Some (Route.names rt).

Lemma route_unit_named client u rt o rt' : route_unit client u rt = (Ok o, rt') → named rt → named rt'.
Proof.
  unfold named. destruct u as [b|b|b]; simpl; [by intros [= _ <-]| |by intros [= _ <-]]. destruct client.
  - unfold Route.read_client. destruct (Route.names rt) as [ns|] eqn:Hn.
    + destruct (decode_mcs b) as [[]|]; try by (intros [= _ <-]; rewrite Hn).
      simpl. case_decide; [|by intros [= _ <-]; simpl; rewrite Hn].
      destruct (Route.dechunker_push _ _ _) as [res d]. intros [= _ <-]. simpl. by rewrite Hn.
    + destruct (Route.x224_data b ≫= decode_channel_names); intros [= _ <-] Hi; simpl; [by eexists|].
      by rewrite Hn in *.
  - unfold Route.read_server. destruct (Route.response_ids b rt) as [[ns ids]|] eqn:Hr.
    + intros [= _ <-] _ _. simpl. unfold Route.response_ids in Hr.
      destruct (Route.cliprdr rt); [done|]. by destruct (Route.names rt).
    + destruct (decode_mcs b) as [[]|]; try by intros [= _ <-].
      simpl. case_decide; [|by intros [= _ <-]].
      destruct (Route.dechunker_push _ _ _) as [res d]. by intros [= _ <-].
Qed.

(** ** What is the clipboard's, told from what arrived *)

(** The channels a Connect Initial lists. *)
Definition listed (b : bytes) : option (list string) :=
  (fun ns : list (option string) => default EmptyString <$> ns) <$> (Route.x224_data b ≫= decode_channel_names).

(** What the units routed so far tell: the channels the client's first Connect Initial lists, and the
    id the server's Connect Response has at the place of [cliprdr] among them. *)
Definition learn (l : option (list string) * option Z) (e : event) : option (list string) * option Z :=
  match e, l with
  | RoutedUnit true _ (UTpkt b) _, (None, ch) => (listed b, ch)
  | RoutedUnit false _ (UTpkt b) _, (Some ns, None) =>
      (Some ns, (Route.x224_data b ≫= decode_channel_ids) ≫= fun ids : list Z => Route.clip_position ns ≫= fun i : nat => ids !! i)
  | _, _ => l
  end.
Definition learned (tr : list event) : option (list string) * option Z := foldl learn (None, None) tr.

(** The channel a unit of one side sends data on. *)
Definition addressed (client : bool) (b : bytes) : option Z :=
  match decode_mcs b with
  | Some (SendDataRequest _ ch _) => if client then Some ch else None
  | Some (SendDataIndication _ ch _) => if client then None else Some ch
  | _ => None
  end.
Definition clip_data (client : bool) (ch : option Z) (b : bytes) : bool :=
  bool_decide (is_Some ch ∧ addressed client b = ch).

(** The client's Connect Initial, when it names the clipboard channel, has its compression options
    cleared where they are found; nothing else is rewritten. *)
Definition rewritten (client : bool) (ns : option (list string)) (b : bytes) : option bytes :=
  if client && bool_decide (ns = None) then
    match listed b with
    | Some names => if decide (Route.CLIPRDR ∈ names) then Route.no_compression b else None
    | None => None
    end
  else None.

(** What becomes of a unit, and the bytes of it that go on. *)
Definition fate (client : bool) (l : option (list string) * option Z) (u : Unit_) (o : Route.Routed) : Prop :=
  match u with
  | UTpkt b =>
      if clip_data client l.2 b then ∃ w, o = Route.Clip w
      else o = match rewritten client l.1 b with Some b' => Route.Replace b' | None => Route.Pass end
  | _ => o = Route.Pass
  end.
Definition goes_on (client : bool) (l : option (list string) * option Z) (u : Unit_) : bytes :=
  match u with
  | UTpkt b => if clip_data client l.2 b then [] else default b (rewritten client l.1 b)
  | _ => unit_bytes u
  end.
Definition passing_step (client : bool) (s : (option (list string) * option Z) * bytes) (e : event) :=
  (learn s.1 e,
   s.2 ++ match e with RoutedUnit c _ u _ => when (Bool.eqb c client) (goes_on c s.1 u) | _ => [] end).
Definition passing (client : bool) (tr : list event) : bytes :=
  (foldl (passing_step client) ((None, None), []) tr).2.

Lemma passing_learned client tr : (foldl (passing_step client) ((None, None), []) tr).1 = learned tr.
Proof.
  induction tr as [|e tr IH] using rev_ind; [done|]. unfold learned in *. rewrite !foldl_app. simpl. by rewrite IH.
Qed.
Lemma passing_snoc client tr e :
  passing client (tr ++ [e]) =
  passing client tr ++ match e with RoutedUnit c _ u _ => when (Bool.eqb c client) (goes_on c (learned tr) u) | _ => [] end.
Proof. unfold passing. rewrite foldl_app. simpl. by rewrite passing_learned. Qed.
Lemma learned_snoc tr e : learned (tr ++ [e]) = learn (learned tr) e.
Proof. unfold learned. by rewrite foldl_app. Qed.

Lemma passed_goes_on client l u o : fate client l u o → passed u o = goes_on client l u.
Proof.
  destruct u as [b|b|b]; simpl; [by intros ->| |by intros ->]. destruct (clip_data client l.2 b); [by intros [w ->]|].
  intros ->. by destruct (rewritten client l.1 b).
Qed.

(** The route knows what was learned. *)
Definition knows (tr : list event) (rt : Route.Route) : Prop := (Route.names rt, Route.cliprdr rt) = learned tr.

Lemma route_unit_knows tr client u rt o rt' :
  route_unit client u rt = (Ok o, rt') → knows tr rt → named rt →
  knows (tr ++ [RoutedUnit client rt u o]) rt' ∧ fate client (learned tr) u o.
Proof.
  unfold knows. intros E Hk Hn. rewrite learned_snoc, <-Hk. clear Hk. unfold named in Hn.
  destruct u as [b|b|b]; simpl in E; [by injection E as <- <-; destruct client| |by injection E as <- <-; destruct client].
  destruct client.
  - unfold Route.read_client in E. simpl. unfold clip_data, rewritten, addressed, listed. destruct (Route.names rt) as [ns|] eqn:Hns; simpl.
    + destruct (decode_mcs b) as [[]|]; simpl in *; try (injection E as <- <-; rewrite Hns; split; [done|]; by case_bool_decide as Hx; [destruct Hx as [[? Hc] Hx]; rewrite <-Hx in Hc|]).
      case_decide as Hc.
      * rewrite bool_decide_eq_true_2 by (rewrite <-Hc; eauto). destruct (Route.dechunker_push _ _ _) as [[res|] d]; [|done].
        injection E as <- <-. simpl. rewrite Hns. eauto.
      * rewrite bool_decide_eq_false_2 by tauto. injection E as <- <-. simpl. by rewrite Hns.
    + assert (Route.cliprdr rt = None) as Hc.
      { destruct (Route.cliprdr rt); [|done]. by destruct Hn. }
      rewrite Hc. rewrite bool_decide_eq_false_2 by by intros [[] ?].
      destruct (Route.x224_data b ≫= decode_channel_names) as [ns|]; injection E as <- <-; simpl; rewrite ?Hns, ?Hc; [|done].
      split; [done|]. by case_decide.
  - unfold Route.read_server, Route.response_ids in E. simpl. unfold clip_data, rewritten, addressed. simpl.
    destruct (Route.cliprdr rt) as [ch|] eqn:Hc.
    + destruct Hn as [ns Hns]; [eauto|]. rewrite Hns in *.
      destruct (decode_mcs b) as [[]|]; simpl in *; try (injection E as <- <-; by rewrite Hns, Hc).
      case_decide as Hd; rewrite Hc in Hd.
      * rewrite bool_decide_eq_true_2 by (split; [eauto|done]). destruct (Route.dechunker_push _ _ _) as [[res|] d]; [|done].
        injection E as <- <-. simpl. rewrite Hns, Hc. eauto.
      * rewrite bool_decide_eq_false_2 by tauto. injection E as <- <-. simpl. by rewrite Hns, Hc.
    + rewrite bool_decide_eq_false_2 by by intros [[] ?].
      assert (o = Route.Pass ∧ (Route.names rt', Route.cliprdr rt') = learn (Route.names rt, None) (RoutedUnit false rt (UTpkt b) o)) as [-> ->]; [|done].
      destruct (Route.names rt) as [ns|] eqn:Hns; simpl in *.
      * destruct (Route.x224_data b ≫= decode_channel_ids) as [ids|]; simpl in *.
        { injection E as <- <-. simpl. by rewrite Hns. }
        destruct (decode_mcs b) as [[]|]; simpl in *; try (injection E as <- <-; simpl; by rewrite Hns, Hc).
        rewrite decide_False in E by (by rewrite Hc). injection E as <- <-. simpl. by rewrite Hns, Hc.
      * destruct (decode_mcs b) as [[]|]; simpl in *; try (injection E as <- <-; simpl; by rewrite Hns, Hc).
        rewrite decide_False in E by (by rewrite Hc). injection E as <- <-. simpl. by rewrite Hns, Hc.
Qed.

(** The scan is a session of its own, fed with what its jobs answered; what it wrote is what was
    handed on and what waits; the route knows what was learned, and every unit met its fate. *)
Record scan_ok (tr : list event) (r : Relay) : Prop := {
  sc_steps : ∃ n h max a, nsteps session_step n (mkSession (clip_new h max) []) (mkSession (rl_clip r) a) ∧
    (n ≤ length tr)%nat ∧ ∀ j v, (j, v) ∈ a → Answered j v ∈ tr;
  sc_inputs : ∀ dir g k v, Scanned dir g k v ∈ rl_inputs r →
    ∃ j, started j (rl_clip r) ∧ Answered j v ∈ tr ∧ j_dir j = dir ∧ j_generation j = g ∧ j_index j = k;
  sc_out : tr ≫= ev_produced = (tr ≫= ev_handed_out) ++ rl_out r;
  sc_route : named (rl_route r) ∧ knows tr (rl_route r);
  sc_fate : ∀ tr1 client rt u o tr2, tr = tr1 ++ RoutedUnit client rt u o :: tr2 → fate client (learned tr1) u o;
}.

Lemma fate_snoc tr e :
  (∀ tr1 client rt u o tr2, tr = tr1 ++ RoutedUnit client rt u o :: tr2 → fate client (learned tr1) u o) →
  (∀ client rt u o, e = RoutedUnit client rt u o → fate client (learned tr) u o) →
  ∀ tr1 client rt u o tr2, tr ++ [e] = tr1 ++ RoutedUnit client rt u o :: tr2 → fate client (learned tr1) u o.
Proof.
  intros H1 H2 tr1 client rt u o tr2. destruct tr2 as [|e' tr2 _] using rev_ind.
  - intros [-> [= ->]]%app_inj_tail. by eapply H2.
  - rewrite app_comm_cons, app_assoc. intros [-> _]%app_inj_tail. by eapply H1.
Qed.
Lemma knows_quiet tr e rt : knows tr rt → (∀ c rt u o, e ≠ RoutedUnit c rt u o) → knows (tr ++ [e]) rt.
Proof. unfold knows. rewrite learned_snoc. intros -> He. destruct e; try done. by destruct (He client rt0 u o). Qed.

(** A step that is not a round, and starts nothing. *)
Lemma scan_ok_quiet tr e r r' :
  rl_clip r' = rl_clip r → named (rl_route r') ∧ knows (tr ++ [e]) (rl_route r') →
  (∀ dir g k v, Scanned dir g k v ∈ rl_inputs r' → Scanned dir g k v ∈ rl_inputs r) →
  ev_produced e = [] → rl_out r = ev_handed_out e ++ rl_out r' →
  (∀ client rt u o, e = RoutedUnit client rt u o → fate client (learned tr) u o) →
  scan_ok tr r → scan_ok (tr ++ [e]) r'.
Proof.
  intros Hc Hr Hi Hp Ho He [H1 H2 H3 H4 H5]. split; rewrite ?bind_snoc, ?Hc; try done.
  - destruct H1 as (n & h & max & a & Hn & Hl & Ha). exists n, h, max, a. split_and!; [done|rewrite length_app; lia|].
    intros j v Hjv. apply elem_of_app. left. by apply Ha.
  - intros dir g k v Hs. destruct (H2 dir g k v) as (j & ? & ? & ?); [by apply Hi|]. exists j.
    split_and!; [done|apply elem_of_app; by left|tauto..].
  - by rewrite Hp, app_nil_r, H3, Ho, app_assoc.
  - by apply fate_snoc.
Qed.

(** A round of the scan is a step of its session. *)
Lemma scan_ok_round tr env i outs r c rest :
  scan_ok tr r → rl_out r = [] → round env i (rl_clip r) = (Ok outs, c) →
  (∀ x, x ∈ option_list i ++ rest → x ∈ rl_inputs r) →
  scan_ok (tr ++ [Round env (rl_clip r) i outs]) (set_inputs rest (set_clip c outs r)).
Proof.
  intros [H1 H2 H3 H4 H5] Hout Hr Hin. destruct H1 as (n & h & max & a & Hn & Hl & Ha).
  split; rewrite ?bind_snoc; cbn [ev_produced ev_handed_out set_inputs set_clip rl_clip rl_inputs rl_out rl_route].
  - assert (∃ a', session_step (mkSession (rl_clip r) a) (mkSession c a') ∧ ∀ j v, (j, v) ∈ a' → Answered j v ∈ tr) as (a' & Hs & Ha').
    { destruct i as [[w|w|dir g k v]|].
      - exists a. split; [|done]. by apply (step_pdu env true w _ _ outs).
      - exists a. split; [|done]. by apply (step_pdu env false w _ _ outs).
      - destruct (H2 dir g k v) as (j & Hj & Hans & <- & <- & <-); [apply Hin; by left|].
        exists (a ++ [(j, v)]). split; [by apply (step_scanned env j v _ _ outs)|].
        intros j' v' [?|[= -> ->]%list_elem_of_singleton]%elem_of_app; [by apply Ha|done].
      - exists a. split; [|done]. by apply (step_deadline env _ _ outs). }
    exists (S n), h, max, a'. split_and!; [eapply nsteps_r; [exact Hn|done]|rewrite length_app; simpl; lia|].
    intros j v Hjv. apply elem_of_app. left. by apply Ha'.
  - intros dir g k v Hs. destruct (H2 dir g k v) as (j & Hj & ? & ?).
    { apply Hin, elem_of_app. by right. }
    exists j. split_and!; [by eapply round_started|apply elem_of_app; by left|tauto..].
  - rewrite H3, Hout, !app_nil_r. done.
  - split; [apply H4|apply knows_quiet; [apply H4|done]].
  - by apply fate_snoc.
Qed.

Lemma scan_ok_step tr e r r' : offers_ok r → scan_ok tr r → rstep e r r' → scan_ok (tr ++ [e]) r'.
Proof.
  intros Hof Hsc Hs. assert (named (rl_route r) ∧ knows tr (rl_route r)) as [Hnm Hkn] by apply Hsc.
  assert (∀ e, (∀ c rt u o, e ≠ RoutedUnit c rt u o) → named (rl_route r) ∧ knows (tr ++ [e]) (rl_route r)) as Hq'
    by (intros; split; [done|by apply knows_quiet]).
  destruct Hs as [c b r r' Ht Hn Hp E|c u rest o r r' Ht Hn E|c i r Hn Hl|c r Ht Hn Hp Hl|j v r Hj Hl
    |env i rest outs r r' Hr Hi He E|env t outs r r' Hr Hd Hn He E|o rest r Hr Hl|server b rest r Hq|h r].
  - unfold receive in E. destruct (push _ _) as [[us|e] f]; [|done]. injection E as <-.
    apply (scan_ok_quiet _ _ r); try done; destruct c; first [done|by apply Hq'].
  - unfold forward_unit in E. destruct (route_unit c u (rl_route r)) as [[o'|e] rt] eqn:Er; [|done]. injection E as <- <-.
    apply (scan_ok_quiet _ _ r); try done; try by destruct c.
    + split; [destruct c; by eapply route_unit_named|]. destruct c; by eapply route_unit_knows.
    + intros client rt' b o [= -> <- -> <-]. by eapply route_unit_knows.
  - apply (scan_ok_quiet _ _ r); try done; try (destruct c; first [done|by apply Hq']). intros dir g k v. unfold offer_input. rewrite inputs_reader.
    intros [?|Hx%list_elem_of_singleton]%elem_of_app; [done|]. destruct (Hof _ _ Hn) as [w ->]. by destruct c.
  - apply (scan_ok_quiet _ _ r); try done; destruct c; first [done|by apply Hq'].
  - assert (scan_ok (tr ++ [Answered j v]) r) as [G1 G2 G3 G4 G5] by (apply (scan_ok_quiet _ _ r); try done; by apply Hq').
    split; try done. intros dir g k v' [Hx|[= -> -> -> ->]%list_elem_of_singleton]%elem_of_app; [by apply G2|].
    exists j. split_and!; [done|apply elem_of_app; right; by left|done..].
  - unfold scan_round in E. destruct (round env (Some i) (rl_clip r)) as [[outs'|]] eqn:Er; [|done]. injection E as <- <-.
    apply scan_ok_round; try done. intros x Hx. by rewrite Hi.
  - unfold scan_round in E. destruct (round env None (rl_clip r)) as [[outs'|]] eqn:Er; [|done]. injection E as <- <-.
    by apply scan_ok_round.
  - unfold hand_out. destruct (output_to o) as [s b]. apply (scan_ok_quiet _ _ r); try done; destruct s; first [done|by apply Hq'].
  - apply (scan_ok_quiet _ _ r); try done; destruct server; first [done|by apply Hq'].
  - assert (scan_ok (tr ++ [Elsewhere]) r) as [G1 G2 G3 G4 G5] by (apply (scan_ok_quiet _ _ r); try done; by apply Hq').
    split; try done. destruct Hsc as [(n & h0 & max & a & Hn & Hl & Ha) _ _ _ _].
    exists (S n), h0, max, a. split_and!; [eapply nsteps_r; [exact Hn|apply step_others]|rewrite length_app; simpl; lia|].
    intros j v Hjv. apply elem_of_app. left. by apply Ha.
Qed.

(** ** Runs *)

Lemma relayed_ok hybrid tr r :
  relayed hybrid tr r → offers_ok r ∧ (∀ client, side_ok client tr r) ∧ scan_ok tr r.
Proof.
  induction 1 as [held max|tr e r r' _ (Ho & Hs & Hc) He].
  - split_and!; [by intros [] ?|by intros []; split|]. split; try done.
    + exists 0%nat, held, max, []. split_and!; [constructor|done|]. intros j v Hx. by apply not_elem_of_nil in Hx.
    + intros dir g k v Hx. by apply not_elem_of_nil in Hx.
    + split; [by intros [? ?]|done].
    + by intros [|? ?].
  - split_and!; [by eapply offers_ok_step|intros client; by eapply side_ok_step|by eapply scan_ok_step].
Qed.

Lemma passing_routed client tr :
  (∀ tr1 c rt u o tr2, tr = tr1 ++ RoutedUnit c rt u o :: tr2 → fate c (learned tr1) u o) →
  ((tr ≫= ev_routed client) ≫= fun uo => passed uo.1 uo.2) = passing client tr.
Proof.
  induction tr as [|e tr IH] using rev_ind; [done|]. intros Hf.
  rewrite bind_snoc, bind_app, passing_snoc, IH.
  2: { intros tr1 c rt u o tr2 ->. apply (Hf _ _ rt _ _ (tr2 ++ [e])). by rewrite <-app_assoc. }
  f_equal. destruct e; try done. simpl. destruct (Bool.eqb client0 client) eqn:Hc; [|done]. simpl. rewrite app_nil_r.
  by eapply passed_goes_on, Hf.
Qed.

(** C3. A relay loses, repeats, reorders and changes nothing but the clipboard and the one message
    that sets its channel up. However messages arrive, the parts interleave and the channels fill,
    for each side: the bytes it sent are its units routed so far, those waiting and an unfinished
    rest, in order; the bytes handed on to the other side's writer, with those waiting, are exactly
    its units that are not data of the clipboard channel, in order and as they arrived, but for the
    client's first Connect Initial, whose compression options for that channel are cleared, where
    the channel is the one the units routed before tell; exactly the units of that channel are taken
    out of the stream; every PDU reassembled from them is one the scan took or is waiting to take,
    in order; a writer takes exactly what it was handed, in order; and what the scan wrote was
    handed on or waits. *)
Theorem relay_conserves (hybrid : bool) (tr : list event) (r : Relay) (client : bool) :
  relayed hybrid tr r →
  let rd := reader client r in
  let units := tr ≫= ev_routed client in
  tr ≫= ev_received client = ((units.*1 ++ rd_todo rd) ≫= unit_bytes) ++ buf (rd_framer rd) ∧
  (tr ≫= ev_forwarded client) ++ rd_pass rd = passing client tr ∧
  (∀ tr1 c rt u o tr2, tr = tr1 ++ RoutedUnit c rt u o :: tr2 → fate c (learned tr1) u o) ∧
  units ≫= whole_of = (tr ≫= ev_taken client) ++ ((rl_inputs r ++ option_list (rd_offer rd)) ≫= whole_from client) ∧
  tr ≫= ev_handed client = (tr ≫= ev_written client) ++ queue client r ∧
  tr ≫= ev_produced = (tr ≫= ev_handed_out) ++ rl_out r.
Proof.
  intros (_ & Hs & Hc)%relayed_ok. destruct (Hs client) as [H1 H2 H3 H4]. destruct Hc as [_ _ H5 _ H6].
  split_and!; try done.
  - by rewrite H2, passing_routed.
  - by rewrite bind_app.
Qed.

(** C13. Whatever the two sides send and however the session's parts interleave, a file a receiver can
    be served was, byte for byte, called clean by a scan of this session in this direction that
    answered before. *)
Theorem relayed_files_were_scanned (hybrid : bool) (tr : list event) (r : Relay) (dir : Dir) (o : Offer) :
  relayed hybrid tr r → Z.of_nat (length tr) < 2 ^ 64 → phase (direction dir (rl_clip r)) = Offered o →
  ∀ i b, o_data o !! i = Some b → ∃ j, Answered j Clean ∈ tr ∧ j_dir j = dir ∧ j_bytes j = b.
Proof.
  intros (_ & _ & [(n & h & max & a & Hn & Hl & Ha) _ _ _ _])%relayed_ok Hlen Hp i b Hi.
  destruct (reachable_ok (mkSession (rl_clip r) a)) as [Hok _]; [exists n, h, max; split; [done|lia]|].
  specialize (Hok dir). simpl in Hok. rewrite Hp in Hok. destruct (Hok i b Hi) as (j & Hj & Hd & Hb).
  exists j. split_and!; [by apply Ha|done..].
Qed.
End facts.
