(* ===== verification/RelaySample.v ===== *)
(** * A relay run on a concrete stream (src/src/proxy.rs)

    The steps of [Relay] carried out by a schedule, and a session on it in which the client offers a
    file of two bytes while other channels are in use. *)

From S2P Require Import Prelude Cliprdr Auth Framing RouteFacts Scanner Clip ClipInv ClipFacts ClipServe Relay RelayFacts.
From S2P Require Route.
Local Open Scope Z_scope.

(** ** Schedules *)

Inductive turn :=
  | TReceive (client : bool) (b : bytes)
  | TRoute (client : bool)
  | TOffer (client : bool)
  | TForward (client : bool)
  | TAnswer (k : nat) (v : Verdict)
  | TRound
  | THand
  | TWrite (server : bool).

Section schedules.
Context {H : Codec}.

Definition turn_env (r : Relay) : Env := mkEnv 0 (120 * second) (Ok ()) None (rl_route r) (fun _ => true).

(** The step a turn takes, where it can be taken. *)
Definition take_turn (t : turn) (r : Relay) : option (event * Relay) :=
  match t with
  | TReceive client b =>
      let rd := reader client r in
      match rd_todo rd, rd_offer rd, rd_pass rd, receive client b r with
      | [], None, [], (Ok _, r') => Some (Received client b, r')
      | _, _, _, _ => None
      end
  | TRoute client =>
      match rd_todo (reader client r), rd_offer (reader client r) with
      | u :: rest, None =>
          match forward_unit client u rest r with
          | (Ok o, r') => Some (RoutedUnit client (rl_route r) u o, r')
          | _ => None
          end
      | _, _ => None
      end
  | TOffer client =>
      match rd_offer (reader client r) with
      | Some i => if decide (length (rl_inputs r) < CHANNEL)%nat then Some (Offered_ i, offer_input client i r) else None
      | None => None
      end
  | TForward client =>
      let rd := reader client r in
      match rd_todo rd, rd_offer rd with
      | [], None =>
          if decide (rd_pass rd ≠ [] ∧ (length (queue client r) < CHANNEL)%nat)
          then Some (Forwarded client (rd_pass rd), forward_pass client r) else None
      | _, _ => None
      end
  | TAnswer k v =>
      match jobs (rl_clip r) !! k with
      | Some j =>
          if decide (length (rl_inputs r) < CHANNEL)%nat
          then Some (Answered j v, set_inputs (rl_inputs r ++ [Scanned (j_dir j) (j_generation j) (j_index j) v]) r) else None
      | None => None
      end
  | TRound =>
      match rl_out r, rl_inputs r with
      | [], i :: rest =>
          match scan_round (turn_env r) (Some i) rest r with
          | (Ok outs, r') => Some (Round (turn_env r) (rl_clip r) (Some i) outs, r')
          | _ => None
          end
      | _, _ => None
      end
  | THand =>
      match rl_out r with
      | o :: rest =>
          if decide (length (queue (output_to o).1 r) < CHANNEL)%nat then Some (Handed o, hand_out o rest r) else None
      | [] => None
      end
  | TWrite server =>
      match queue server r with
      | b :: rest => Some (Wrote server b, set_queue server rest r)
      | [] => None
      end
  end.

Lemma take_turn_sound t r e r' : take_turn t r = Some (e, r') → rstep e r r'.
Proof.
  destruct t as [c b|c|c|c|k v| | |s]; simpl.
  - destruct (rd_todo (reader c r)) eqn:?, (rd_offer (reader c r)) eqn:?, (rd_pass (reader c r)) eqn:?; try done.
    destruct (receive c b r) as [[[]|] r1] eqn:?; [|done]. intros [= <- <-]. by apply rs_receive.
  - destruct (rd_todo (reader c r)) eqn:?, (rd_offer (reader c r)) eqn:?; try done.
    destruct (forward_unit _ _ _ _) as [[o|] r1] eqn:E; [|done]. intros [= <- <-]. by eapply rs_route.
  - destruct (rd_offer (reader c r)) eqn:?; [|done]. case_decide; [|done]. intros [= <- <-]. by apply rs_offer.
  - destruct (rd_todo (reader c r)) eqn:?, (rd_offer (reader c r)) eqn:?; try done.
    case_decide as Hd; [|done]. intros [= <- <-]. destruct Hd. by apply rs_forward.
  - destruct (jobs (rl_clip r) !! k) eqn:Hk; [|done]. case_decide; [|done]. intros [= <- <-].
    apply rs_answer; [by eapply list_elem_of_lookup_2|done].
  - destruct (rl_out r) eqn:?; [|done]. destruct (rl_inputs r) eqn:?; [done|].
    destruct (scan_round _ _ _ _) as [[o|] r1] eqn:E; [|done]. intros [= <- <-]. by eapply rs_round.
  - destruct (rl_out r) eqn:?; [done|]. case_decide; [|done]. intros [= <- <-]. by apply rs_hand.
  - destruct (queue s r) eqn:?; [done|]. intros [= <- <-]. by apply rs_write.
Qed.

Fixpoint play_turns (ts : list turn) (tr : list event) (r : Relay) : option (list event * Relay) :=
  match ts with
  | [] => Some (tr, r)
  | t :: ts' =>
      match take_turn t r with
      | Some (e, r') => play_turns ts' (tr ++ [e]) r'
      | None => None
      end
  end.

Lemma play_turns_sound hybrid ts tr r tr' r' :
  relayed hybrid tr r → play_turns ts tr r = Some (tr', r') → relayed hybrid tr' r'.
Proof.
  revert tr r. induction ts as [|t ts IH]; intros tr r Hr; simpl; [by intros [= <- <-]|].
  destruct (take_turn t r) as [[e r1]|] eqn:E; [|done]. apply IH.
  eapply relayed_step; [exact Hr|by eapply take_turn_sound].
Qed.
End schedules.

(** ** A session *)

(** The sample codec behind TPKT headers. *)
Definition framed_codec : Codec := {|
  decode_x224_data := fun b => Some (drop 4 b);
  decode_channel_names := fun b => if decide (b = [x01; x01; x01]) then Some [Some "rdpdr"%string; Some "cliprdr"%string] else None;
  decode_channel_ids := fun b => if decide (b = [x02; x02; x02]) then Some [1003; 1004] else None;
  decode_mcs := fun b => @decode_mcs sample_codec (drop 4 b);
  decode_pdu := sample_decode;
  client_encode := @client_encode sample_codec;
  server_encode := @server_encode sample_codec;
  get_formats := @get_formats sample_codec;
  new_unicode := @new_unicode sample_codec;
  to_file_list := sample_files;
  to_file_list_u64 := sample_files_u64;
|}.

Definition tpkt (b : bytes) : bytes := [x03; x00; x00; to_u8 (4 + len b)] ++ b.
Definition clip_unit (b : bytes) : bytes := tpkt ([x64; x04] ++ chunk (len b) 3 b).

(** A unit that passes, and a clipboard PDU that is taken. *)
Definition through (client : bool) (b : bytes) : list turn :=
  [TReceive client b; TRoute client; TForward client; TWrite client].
Definition taken_in (b : bytes) (outs : nat) : list turn :=
  [TReceive true (clip_unit b); TRoute true; TOffer true; TRound] ++ replicate outs THand.

Definition sample_turns : list turn :=
  through true (tpkt [x01; x01; x01]) ++ through false (tpkt [x02; x02; x02]) ++ through false (tpkt [x68; x03; xee])
  ++ taken_in [x02; x46] 2 ++ taken_in [x05; x02] 1
  ++ taken_in (x09 :: to_le 4 FIRST_STREAM ++ [xaa; xbb]) 0 ++ [TAnswer 0 Clean; TRound; THand]
  (** two units in one message, one for the scan *)
  ++ [TReceive true (tpkt [x64; x03; xdd] ++ clip_unit [x03]); TRoute true; TRoute true; TWrite true; TOffer true; TForward true].

Definition sample_run : list event * Relay :=
  default ([], relay_new false 0 100) (play_turns (H:=framed_codec) sample_turns [] (relay_new false 0 100)).

Lemma sample_relayed : relayed (H:=framed_codec) false sample_run.1 sample_run.2.
Proof.
  eapply (play_turns_sound (H:=framed_codec) false sample_turns []); [apply (relayed_start (H:=framed_codec) false 0 100)|].
  vm_compute. reflexivity.
Qed.

Example relay_conserves_witness :
  (sample_run.1 ≫= ev_forwarded true) ++ rd_pass (reader true sample_run.2) = tpkt [x01; x01; x01] ++ tpkt [x64; x03; xdd] ∧
  (sample_run.1 ≫= ev_forwarded true) ++ rd_pass (reader true sample_run.2) =
    ((sample_run.1 ≫= ev_routed true) ≫= fun uo => passed uo.1 uo.2).
Proof.
  split; [vm_compute; reflexivity|].
  exact (proj1 (proj2 (relay_conserves (H:=framed_codec) false sample_run.1 sample_run.2 true sample_relayed))).
Defined.

Example relayed_files_witness :
  ∃ j, Answered j Clean ∈ sample_run.1 ∧ j_dir j = Upload ∧ j_bytes j = [xaa; xbb].
Proof.
  apply (relayed_files_were_scanned (H:=framed_codec) false sample_run.1 sample_run.2 Upload
           (mkOffer 49 [x02] [[xaa; xbb]] (Some 2)) sample_relayed) with (i := 0%nat).
  - vm_compute. reflexivity.
  - vm_compute. reflexivity.
  - reflexivity.
Defined.
