(* ===== verification/ScanService.v ===== *)
(** * The scanner's standing, notices and log lines (src/src/scan/mod.rs)

    The record of the last check and what it admits, the log line when the standing changes, the
    notices a signed-in user's page polls for, and the text of both for a report. *)

From S2P Require Import Prelude Text Auth Scanner Clip.
Local Open Scope Z_scope.

(** ** Health *)

Record Health := mkHealth {
  h_scanner : string;
  h_ok : bool;
  h_detail : string;
  h_checked_at : option Z;
}.

Record ScanService := mkService {
  s_scanner : Scanner;
  s_timeout : Z;
  s_staging_max : Z;
  s_check_every : Z;
  s_health : Health;
}.

(** [Scanner] of the config, and the part of [Scan] the service reads
    (src/src/config.rs). *)
Inductive Kind := Amsi | CommandScanner | Off.

Record Scan := mkScan {
  kind : Kind;
  command : list string;
  clean_exit_codes : list Z;
  detected_exit_codes : list Z;
  timeout_secs : Z;
  max_staged_mb : Z;
  check_every_mins : Z;
}.

(** [str::contains]. *)
Fixpoint contains_sub (pat l : chars) : bool :=
  bool_decide (take (length pat) l = pat) ||
  match l with [] => false | _ :: l' => contains_sub pat l' end.

(** [Scan::check]. *)
Definition scan_check (windows : bool) (s : Scan) : result string unit :=
  let amsi := match kind s with Amsi => true | _ => false end in
  let cmd := match kind s with CommandScanner => true | _ => false end in
  if amsi && negb windows then
    Err ("scanner = " +:+ debug_string "amsi" +:+ " needs Windows")%string
  else if cmd && bool_decide (command s = []) then
    Err ("scanner = " +:+ debug_string "command" +:+ " needs command = [program, args...]")%string
  else if cmd && negb (existsb (fun a => contains_sub (to_chars "{file}") (to_chars a)) (command s)) then
    Err "command must pass the file as {file}"%string
  else if cmd && bool_decide (detected_exit_codes s = []) then
    Err "detected_exit_codes lists no code"%string
  else if cmd && existsb (fun c => bool_decide (c ∈ detected_exit_codes s)) (clean_exit_codes s) then
    Err "an exit code cannot mean both clean and detected"%string
  else if bool_decide (timeout_secs s = 0 ∨ max_staged_mb s = 0) then
    Err "timeout_secs and max_staged_mb must be at least 1"%string
  else if negb (bool_decide (5 ≤ check_every_mins s ≤ 1440)) then
    Err "check_every_mins must be 5 to 1440"%string
  else Ok ().

(** [scanner::from_config]: the scanner the config names. What a scan answers is the operating
    system's doing, [answer]. *)
Definition from_config (s : Scan) (describe_amsi : string) (answer : string → bytes → Verdict) :
    option Scanner :=
  match kind s with
  | Off => None
  | CommandScanner => Some (mkScanner ("command " +:+ default EmptyString (head (command s))) answer)
  | Amsi => Some (mkScanner describe_amsi answer)
  end.

(** [ScanService::new]. *)
Definition service_new (s : Scan) (describe_amsi : string) (answer : string → bytes → Verdict) :
    option ScanService :=
  scanner ← from_config s describe_amsi answer;
  Some (mkService scanner (timeout_secs s)
          (Z.min (max_staged_mb s * (1024 * 1024)) u64_max)
          (wrap 64 (check_every_mins s * 60))
          (mkHealth (describe scanner) false "not checked yet" None)).

(** [ScanService::healthy]. *)
Definition service_healthy (now : Z) (s : ScanService) : result string unit :=
  let h := s_health s in
  let fresh := Z.min (wrap 64 (wrap 64 (s_check_every s * 2) + 600)) i64_max in
  match h_checked_at h with
  | None => Err (h_detail h)
  | Some at_ =>
      if negb (h_ok h) then Err (h_detail h)
      else if decide (fresh < now - at_) then Err "the scanner has not been checked recently"%string
      else Ok ()
  end.

(** How the check on a blocking thread ended. *)
Inductive checked :=
  | Answered (r : result string unit)
  | Panicked (e : string)
  | TimedOut.

(** [ScanService::check]: the answer, recorded. *)
Definition service_check (now : Z) (r : checked) (s : ScanService) : Health * ScanService :=
  let result :=
    match r with
    | Answered r => r
    | Panicked e => Err ("the check failed: " +:+ e)%string
    | TimedOut => Err "the scanner did not answer in time"%string
    end in
  let h := mkHealth (h_scanner (s_health s)) (is_ok result)
             (match result with
              | Ok _ => "detects the EICAR test file and passes a harmless one"%string
              | Err e => e
              end) (Some now) in
  (h, mkService (s_scanner s) (s_timeout s) (s_staging_max s) (s_check_every s) h).

(** The activity log's line when a check changes the scanner's standing. *)
Definition transition (was now : Health) : option (string * string) :=
  let was_failing := bool_decide (is_Some (h_checked_at was)) && negb (h_ok was) in
  match was_failing, h_ok now with
  | false, false => Some ("scan.failing"%string, h_detail now)
  | true, true => Some ("scan.restored"%string, h_scanner now)
  | _, _ => None
  end.

(** ** Notices *)

Record Notice := mkNotice { n_seq : Z; n_text : string; n_bad : bool }.

Definition NOTICES_KEPT : nat := 32.

Record Notices := mkNotices { n_last : Z; n_queues : gmap Z (list Notice) }.
Definition notices_default : Notices := mkNotices 0 ∅.

(** [while q.len() > NOTICES_KEPT { q.pop_front() }]. *)
Definition keep_last (n : nat) {A} (q : list A) : list A := drop (length q - n) q.

Definition notices_push (user : Z) (text : string) (bad : bool) (n : Notices) : Notices :=
  let seq := wrap 64 (n_last n + 1) in
  let q := default [] (n_queues n !! user) ++ [mkNotice seq text bad] in
  mkNotices seq (<[user := keep_last NOTICES_KEPT q]> (n_queues n)).

(** The user's notices after [after], and the newest sequence number overall. *)
Definition notices_since (user after : Z) (n : Notices) : list Notice * Z :=
  (List.filter (fun x => bool_decide (after < n_seq x)) (default [] (n_queues n !! user)), n_last n).

(** ** Text *)

(** [files.iter().map(..).join(", ")], or "files". *)
Definition names (files : Files) : string :=
  match files with
  | [] => "files"%string
  | _ => String.concat ", " (files.*1)
  end.

(** What a report tells the user, and whether it is bad news. *)
Definition notice_text (r : Report) (server : string) : string * bool :=
  match r with
  | Started Upload files => ("scanning " +:+ names files +:+ " before they reach " +:+ server, false)
  | Started Download files => ("scanning " +:+ names files +:+ " from " +:+ server, false)
  | Passed Upload files => (names files +:+ " passed the scan; paste on " +:+ server, false)
  | Passed Download files => (names files +:+ " from " +:+ server +:+ " passed the scan", false)
  | Refused Upload files reason => (names files +:+ " not sent to " +:+ server +:+ ": " +:+ reason, true)
  | Refused Download files reason => (names files +:+ " from " +:+ server +:+ " refused: " +:+ reason, true)
  end.

Definition action (dir : Dir) : string :=
  match dir with Upload => "file.upload" | Download => "file.download" end.

(** The activity log's lines for a report: one per file passed or refused. *)
Definition audit_lines (r : Report) (server : string) : list (string * string) :=
  match r with
  | Started _ _ => []
  | Passed dir files =>
      (fun ns => (action dir, ns.1 +:+ " (" +:+ pretty ns.2 +:+ " bytes), " +:+ server +:+ ": passed")) <$> files
  | Refused dir [] reason => [(action dir, server +:+ ": refused: " +:+ reason)]
  | Refused dir files reason =>
      (fun ns => (action dir, ns.1 +:+ " (" +:+ pretty ns.2 +:+ " bytes), " +:+ server +:+ ": refused: " +:+ reason)) <$> files
  end.

(** ** What the standing means *)

Definition run_checks (cs : list (Z * checked)) (s : ScanService) : ScanService :=
  foldl (fun s c => snd (service_check c.1 c.2 s)) s cs.

Lemma run_checks_every cs s : s_check_every (run_checks cs s) = s_check_every s.
Proof.
  revert s. induction cs as [|c cs IH]; intros s; [done|]. exact (IH (snd (service_check c.1 c.2 s))).
Qed.

Lemma scan_check_interval windows s : scan_check windows s = Ok () → 5 ≤ check_every_mins s ≤ 1440.
Proof.
  unfold scan_check. cbv zeta.
  repeat match goal with |- (if ?b then Err _ else _) = _ → _ => destruct b eqn:?; [done|] end. intros _.
  match goal with E : negb (bool_decide (5 ≤ _ ≤ 1440)) = false |- _ =>
    apply negb_false_iff, bool_decide_eq_true in E; done end.
Qed.

(** Offers are admitted on proof only: whatever checks were made since the service started, under
    a configuration that was accepted, the scanner counts as healthy exactly when the last check
    answered both ways correctly and is no older than two intervals and ten minutes. *)
Theorem healthy_means_proved (windows : bool) (cfg : Scan) (describe_amsi : string)
    (answer : string → bytes → Verdict) (s : ScanService) (cs : list (Z * checked)) (now : Z) :
  scan_check windows cfg = Ok () → service_new cfg describe_amsi answer = Some s →
  service_healthy now (run_checks cs s) = Ok () ↔
  ∃ t, last cs = Some (t, Answered (Ok ())) ∧ now - t ≤ check_every_mins cfg * 60 * 2 + 600.
Proof.
  intros Hcfg%scan_check_interval (sc & Hsc & [= <-])%bind_Some.
  set (s0 := mkService _ _ _ _ _).
  assert (s_check_every (run_checks cs s0) = check_every_mins cfg * 60) as Hev.
  { rewrite run_checks_every. simpl. apply wrap_small. lia. }
  unfold service_healthy. rewrite Hev.
  replace (Z.min (wrap 64 (wrap 64 (check_every_mins cfg * 60 * 2) + 600)) i64_max)
    with (check_every_mins cfg * 60 * 2 + 600).
  2: { rewrite !wrap_small by (rewrite ?wrap_small; lia). unfold i64_max. lia. }
  destruct cs as [|[t r] cs _] using rev_ind; simpl; [naive_solver|].
  unfold run_checks. rewrite foldl_snoc, last_snoc. simpl.
  destruct r as [[[]|e]|e|]; simpl; try naive_solver.
  case_decide; naive_solver lia.
Qed.

Definition sample_scan : Scan := mkScan CommandScanner ["scan"; "{file}"]%string [0] [1] 120 2048 60.

Example healthy_means_proved_witness :
  ∃ s, service_new sample_scan "" (fun _ _ => Clean) = Some s ∧
    (service_healthy 7000 (run_checks [(0, TimedOut); (100, Answered (Ok ()))] s) = Ok () ↔
     ∃ t, last [(0, TimedOut); (100, Answered (Ok ()))] = Some (t, Answered (Ok ())) ∧
       7000 - t ≤ check_every_mins sample_scan * 60 * 2 + 600).
Proof.
  eexists. split; [vm_compute; reflexivity|].
  apply (healthy_means_proved false sample_scan "" (fun _ _ => Clean)); vm_compute; reflexivity.
Defined.

(** The lines of the activity log over a run of checks. *)
Fixpoint standing_log (cs : list (Z * checked)) (s : ScanService) : list string :=
  match cs with
  | [] => []
  | c :: cs' =>
      let '(h, s') := service_check c.1 c.2 s in
      option_list (fst <$> transition (s_health s) h) ++ standing_log cs' s'
  end.

Definition failing (h : Health) : bool := bool_decide (is_Some (h_checked_at h)) && negb (h_ok h).

(** The log tells the standing: over any run of checks the lines are a failure, a recovery, a
    failure and so on, with no line repeated, and the last line tells whether the scanner is
    failing after the last check. *)
Theorem standing_log_alternates (cs : list (Z * checked)) (s : ScanService) :
  alternates "scan.failing" "scan.restored" (failing (s_health s)) (standing_log cs s) =
    Some (failing (s_health (run_checks cs s))).
Proof.
  revert s. induction cs as [|[t r] cs IH]; intros s; [done|].
  simpl standing_log. set (h := mkHealth _ _ _ _). set (s' := mkService _ _ _ _ h).
  specialize (IH s'). change (run_checks ((t, r) :: cs) s) with (run_checks cs s').
  unfold transition. fold (failing (s_health s)).
  assert (failing (s_health s') = negb (h_ok h)) as Hf by done. rewrite Hf in IH.
  destruct (failing (s_health s)), (h_ok h); simpl in *; done.
Qed.

(** ** What the notices guarantee *)

Definition push_all (ps : list (Z * string * bool)) (n : Notices) : Notices :=
  foldl (fun n p => notices_push p.1.1 p.1.2 p.2 n) n ps.

(** Everything ever told to a user, numbered from [from]. *)
Fixpoint told (user from : Z) (ps : list (Z * string * bool)) : list Notice :=
  match ps with
  | [] => []
  | (u, text, bad) :: ps' =>
      (if decide (u = user) then [mkNotice (from + 1) text bad] else []) ++ told user (from + 1) ps'
  end.

Lemma keep_last_snoc {A} n (q : list A) x : keep_last n (keep_last n q ++ [x]) = keep_last n (q ++ [x]).
Proof.
  unfold keep_last. rewrite !length_app, length_drop. simpl.
  destruct (decide (length q ≤ n)%nat) as [Hle|Hgt].
  - replace (length q - n)%nat with 0%nat by lia. by rewrite drop_0, Nat.sub_0_r.
  - replace (length q - (length q - n) + 1 - n)%nat with 1%nat by lia.
    replace (length q + 1 - n)%nat with (length q - n + 1)%nat by lia.
    by rewrite <-drop_drop, (drop_app_le q) by lia.
Qed.

Lemma told_snoc user from ps p :
  told user from (ps ++ [p]) =
  told user from ps ++
    (if decide (p.1.1 = user) then [mkNotice (from + Z.of_nat (length ps) + 1) p.1.2 p.2] else []).
Proof.
  revert from. induction ps as [|[[u t] b] ps IH]; intros from; simpl.
  - destruct p as [[u t] b]. simpl. by rewrite app_nil_r, Z.add_0_r.
  - rewrite IH, <-app_assoc. do 3 f_equal. destruct (decide _); [|done]. do 2 f_equal. lia.
Qed.

Lemma push_all_state ps :
  Z.of_nat (length ps) < 2 ^ 64 →
  n_last (push_all ps notices_default) = Z.of_nat (length ps) ∧
  ∀ user, default [] (n_queues (push_all ps notices_default) !! user) = keep_last NOTICES_KEPT (told user 0 ps).
Proof.
  induction ps as [|[[u t] b] ps IH] using rev_ind; intros Hlt; [by split|].
  rewrite length_app in Hlt. simpl in Hlt. destruct (IH ltac:(lia)) as [Hl Hq].
  unfold push_all. rewrite foldl_snoc. fold (push_all ps notices_default). simpl. rewrite Hl.
  rewrite wrap_small by lia. split; [rewrite length_app; simpl; lia|].
  intros user. rewrite told_snoc. simpl. destruct (decide (u = user)) as [->|Hne].
  - rewrite lookup_insert, decide_True by done. simpl. by rewrite Hq, keep_last_snoc.
  - rewrite lookup_insert_ne by done. by rewrite Hq, app_nil_r.
Qed.

Lemma told_seq user from ps : Forall (fun n => from < n_seq n ≤ from + Z.of_nat (length ps)) (told user from ps).
Proof.
  revert from. induction ps as [|[[u t] b] ps IH]; intros from; simpl; [constructor|].
  apply Forall_app. split; [case_decide; repeat constructor; simpl; lia|].
  eapply Forall_impl; [apply IH|]. simpl. lia.
Qed.

Lemma told_app user from ps qs :
  told user from (ps ++ qs) = told user from ps ++ told user (from + Z.of_nat (length ps)) qs.
Proof.
  revert from. induction ps as [|[[u t] b] ps IH]; intros from; simpl; [by rewrite Z.add_0_r|].
  rewrite IH, app_assoc. do 2 f_equal. lia.
Qed.

(** A page that polls misses nothing and sees nothing twice: asking again with the number of the
    last answer returns, in order, exactly the notices told to the user in between, numbered as
    they came, as long as there were at most the thirty-two kept. *)
Theorem notices_since_complete (before between : list (Z * string * bool)) (user : Z) :
  let n1 := push_all before notices_default in
  let n2 := push_all between n1 in
  Z.of_nat (length (before ++ between)) < 2 ^ 64 →
  let cursor := snd (notices_since user 0 n1) in
  (length (told user cursor between) ≤ NOTICES_KEPT)%nat →
  notices_since user cursor n2 =
    (told user cursor between, cursor + Z.of_nat (length between)).
Proof.
  simpl. intros Hlt Hk.
  assert (push_all between (push_all before notices_default) = push_all (before ++ between) notices_default) as ->.
  { unfold push_all. by rewrite foldl_app. }
  destruct (push_all_state before) as [Hl _]; [rewrite length_app in Hlt; lia|]. rewrite Hl in *.
  destruct (push_all_state (before ++ between) Hlt) as [Hl2 Hq]. unfold notices_since.
  rewrite Hl2, Hq, told_app, Z.add_0_l, length_app. f_equal; [|lia].
  pose proof (told_seq user 0 before) as Hold. rewrite Z.add_0_l in Hold.
  pose proof (told_seq user (Z.of_nat (length before)) between) as Hnew.
  set (old := told user 0 before) in *. set (new := told user (Z.of_nat (length before)) between) in *.
  unfold keep_last. rewrite length_app.
  rewrite drop_app_le by lia. rewrite List.filter_app.
  assert (∀ l, Forall (fun n => 0 < n_seq n ≤ Z.of_nat (length before)) l →
    List.filter (fun x => bool_decide (Z.of_nat (length before) < n_seq x)) l = []) as Hnil.
  { induction 1 as [|x l Hx _ IH]; simpl; [done|]. by rewrite bool_decide_false by lia. }
  rewrite Hnil by by apply Forall_drop. simpl.
  clear -Hnew. induction Hnew as [|x l Hx _ IH]; simpl; [done|]. rewrite bool_decide_true by lia. by rewrite IH.
Qed.

Example notices_since_witness :
  notices_since 7 1 (push_all [(8, "b"%string, false); (7, "c"%string, true)] (push_all [(7, "a"%string, false)] notices_default))
  = ([mkNotice 3 "c" true], 3).
Proof.
  apply (notices_since_complete [(7, "a"%string, false)] [(8, "b"%string, false); (7, "c"%string, true)] 7).
  - vm_compute. reflexivity.
  - vm_compute. lia.
Defined.
