(* ===== verification/Live.v ===== *)
(** * Live connections (src/src/live.rs)

    Every connection from its upgrade to its end. Each has a one-shot sender that tells its task to
    stop; [fired] are the connections told so far. *)

From S2P Require Import Prelude.
Local Open Scope Z_scope.

Record Live := mkLive {
  l_user : Z;
  l_token_hash : bytes;
  l_server : option Z;
  l_established : bool;
  l_generation : Z;
  l_incarnations : option (Z * Z);
  l_cancel : bool;  (** the sender is still there *)
}.

Record Ended := mkEnded {
  e_user : Z;
  e_server : option Z;
  e_established : bool;
  e_generation : Z;
  e_incarnations : option (Z * Z);
}.

Record LiveSessions := mkLiveSessions { inner : gmap Z Live; next : Z; fired : list Z }.
Definition live_default : LiveSessions := mkLiveSessions ∅ 0 [].

Definition on_live (id : Z) (f : Live → Live) (s : LiveSessions) : LiveSessions :=
  mkLiveSessions (alter f id (inner s)) (next s) (fired s).

Definition register (user : Z) (token_hash : bytes) (generation : Z) (s : LiveSessions) : Z * LiveSessions :=
  let id := next s in
  (id, mkLiveSessions (<[id := mkLive user token_hash None false generation None true]> (inner s))
         (wrap 64 (id + 1)) (fired s)).

Definition generation_of (id : Z) (s : LiveSessions) : option Z := l_generation <$> inner s !! id.

Definition with_server srv l := mkLive (l_user l) (l_token_hash l) (Some srv) (l_established l) (l_generation l) (l_incarnations l) (l_cancel l).
Definition with_incarnations rows l := mkLive (l_user l) (l_token_hash l) (l_server l) (l_established l) (l_generation l) (Some rows) (l_cancel l).
Definition with_established l := mkLive (l_user l) (l_token_hash l) (l_server l) true (l_generation l) (l_incarnations l) (l_cancel l).
Definition cancelled l := mkLive (l_user l) (l_token_hash l) (l_server l) (l_established l) (l_generation l) (l_incarnations l) false.

Definition set_server (id server : Z) : LiveSessions → LiveSessions := on_live id (with_server server).
Definition set_incarnations (id : Z) (rows : Z * Z) : LiveSessions → LiveSessions :=
  on_live id (with_incarnations rows).
Definition set_established (id : Z) : LiveSessions → LiveSessions := on_live id with_established.

Definition ended (l : Live) : Ended :=
  mkEnded (l_user l) (l_server l) (l_established l) (l_generation l) (l_incarnations l).

Definition remove (id : Z) (s : LiveSessions) : option Ended * LiveSessions :=
  (ended <$> inner s !! id, mkLiveSessions (delete id (inner s)) (next s) (fired s)).

(** [cancel.take()] and [tx.send(())] on one connection: whether there was a sender. *)
Definition fire (id : Z) (s : LiveSessions) : bool * LiveSessions :=
  match inner s !! id with
  | Some l =>
      if l_cancel l then (true, mkLiveSessions (<[id := cancelled l]> (inner s)) (next s) (fired s ++ [id]))
      else (false, s)
  | None => (false, s)
  end.

(** End specific connections by id. *)
Fixpoint end_ids (ids : list Z) (s : LiveSessions) : nat * LiveSessions :=
  match ids with
  | [] => (0%nat, s)
  | id :: ids' =>
      let '(b, s) := fire id s in
      let '(n, s) := end_ids ids' s in
      ((if b then S n else n), s)
  end.

(** The loop visits the map's connections that satisfy the predicate, each once. *)
Definition end_where (p : Live → bool) (s : LiveSessions) : nat * LiveSessions :=
  end_ids (fst <$> List.filter (fun kv => p kv.2) (map_to_list (inner s))) s.

Definition end_user (user : Z) := end_where (fun l => bool_decide (l_user l = user)).
Definition end_user_server (user server : Z) :=
  end_where (fun l => bool_decide (l_user l = user ∧ l_server l = Some server)).
Definition end_server (server : Z) := end_where (fun l => bool_decide (l_server l = Some server)).
Definition end_session (token_hash : bytes) := end_where (fun l => bool_decide (l_token_hash l = token_hash)).
Definition end_all := end_where (fun _ => true).

(** (id, user, sign-in session) for every connection. *)
Definition connections (s : LiveSessions) : list (Z * Z * bytes) :=
  (fun kv => (kv.1, l_user kv.2, l_token_hash kv.2)) <$> map_to_list (inner s).

Definition user_ids (s : LiveSessions) : gset Z :=
  list_to_set ((fun kv => l_user kv.2) <$> map_to_list (inner s)).

(** Servers this user has an established session to. *)
Definition servers_for (user : Z) (s : LiveSessions) : gset Z :=
  list_to_set (omap (fun kv => if bool_decide (l_user kv.2 = user) && l_established kv.2 then l_server kv.2 else None)
    (map_to_list (inner s))).

Definition live_count (s : LiveSessions) : nat := size (inner s).

(** ** What ending does *)

(** Still running: registered and not told to stop. *)
Definition running (id : Z) (s : LiveSessions) : Prop := ∃ l, inner s !! id = Some l ∧ l_cancel l = true.

Lemma fire_inner id s i :
  inner (snd (fire id s)) !! i =
  if decide (i = id) then cancelled <$> inner s !! id else inner s !! i.
Proof.
  unfold fire. destruct (inner s !! id) as [l|] eqn:E.
  - destruct (l_cancel l) eqn:Hc; simpl.
    + rewrite lookup_insert. destruct (decide (id = i)), (decide (i = id)); congruence.
    + case_decide as Hi; [|done]. rewrite Hi, E. f_equal. destruct l. simpl in *. by subst.
  - simpl. case_decide as Hi; [|done]. by rewrite Hi.
Qed.

(** Ending connections one by one: who is told, in what order, and what stays. *)
Lemma end_ids_spec ids s :
  let '(n, s') := end_ids ids s in
  (∀ i, inner s' !! i = (if decide (i ∈ ids) then cancelled else id) <$> inner s !! i) ∧
  next s' = next s ∧
  ∃ told, fired s' = fired s ++ told ∧ n = length told ∧ NoDup told ∧
    ∀ i, i ∈ told ↔ i ∈ ids ∧ running i s.
Proof.
  revert s. induction ids as [|x ids IH]; intros s; simpl.
  - split; [intros i; by destruct (inner s !! i)|].
    split; [done|]. exists []. rewrite app_nil_r. split_and!; [done|done|constructor|set_solver].
  - pose proof (fire_inner x s) as Hf. destruct (fire x s) as [b s1] eqn:E. simpl in Hf.
    specialize (IH s1). destruct (end_ids ids s1) as [n s2].
    destruct IH as (Hin & Hnext & told & Hfired & Hn & Hnd & Htold).
    assert (running x s ↔ b = true) as Hb.
    { unfold fire in E. unfold running. destruct (inner s !! x) as [l|]; [destruct (l_cancel l) eqn:Hl|];
        naive_solver. }
    assert (next s1 = next s ∧ fired s1 = fired s ++ (if b then [x] else [])) as [Hn1 Hf1].
    { unfold fire in E. destruct (inner s !! x) as [l|]; [destruct (l_cancel l)|];
        simplify_eq; by rewrite ?app_nil_r. }
    assert (∀ i, running i s1 ↔ running i s ∧ i ≠ x) as Hrun.
    { intros i. unfold running. rewrite Hf. case_decide; subst; [|naive_solver].
      split; [|naive_solver]. intros (l & (l0 & -> & ->)%fmap_Some & Hl). done. }
    split; [|split; [congruence|]].
    + intros i. rewrite Hin, Hf. destruct (decide (i = x)) as [->|Hne].
      * rewrite (decide_True (P := x ∈ x :: ids)) by set_solver.
        destruct (inner s !! x); simpl; [|done]. by case_decide.
      * destruct (decide (i ∈ ids)), (decide (i ∈ x :: ids)); try done; set_solver.
    + exists ((if b then [x] else []) ++ told). rewrite Hfired, Hf1, app_assoc. split; [done|].
      split; [destruct b; simpl; by subst|]. split.
      * destruct b; [|done]. constructor; [|done]. rewrite Htold, Hrun. tauto.
      * intros i. rewrite elem_of_app, Htold, Hrun, elem_of_cons. destruct b.
        -- rewrite list_elem_of_singleton. destruct (decide (i = x)) as [->|]; tauto.
        -- assert (¬ running x s) by (intros Hx%Hb; done).
           rewrite elem_of_nil. destruct (decide (i = x)) as [->|]; tauto.
Qed.

(** The connections a condition selects. *)
Lemma elem_of_selected (p : Live → bool) s i :
  i ∈ fst <$> List.filter (fun kv => p kv.2) (map_to_list (inner s)) ↔ ∃ l, inner s !! i = Some l ∧ p l = true.
Proof.
  rewrite list_elem_of_fmap. split.
  - intros ([k l] & -> & Hk). rewrite list_elem_of_In, filter_In, <-list_elem_of_In in Hk.
    destruct Hk as [Hk%elem_of_map_to_list Hpl]. eauto.
  - intros (l & Hl & Hpl). exists (i, l). split; [done|].
    rewrite list_elem_of_In, filter_In, <-list_elem_of_In. split; [|done]. by apply elem_of_map_to_list.
Qed.

(** What is left running, unchanged. *)
Lemma end_where_running p s i l :
  inner (snd (end_where p s)) !! i = Some l ∧ l_cancel l = true ↔
  inner s !! i = Some l ∧ l_cancel l = true ∧ p l = false.
Proof.
  unfold end_where. pose proof (elem_of_selected p s i) as Hids. set (ids := fst <$> _) in *.
  pose proof (end_ids_spec ids s) as Hs. destruct (end_ids ids s) as [n s']. destruct Hs as (Hin & _).
  simpl. rewrite Hin. destruct (inner s !! i) as [x|]; simpl; [|naive_solver].
  destruct (decide (i ∈ ids)) as [Hi|Hi]; simpl.
  - apply Hids in Hi as (y & [= <-] & Hy). split; [by intros [[= <-] [=]]|]. intros ([= <-] & _ & Hu). congruence.
  - split; [|naive_solver]. intros [[= <-] Hc]. split_and!; [done..|].
    destruct (p x) eqn:Hx; [|done]. destruct Hi. apply Hids. eauto.
Qed.

(** Ending is exact and happens once: ending the connections a condition selects tells to stop
    exactly those that satisfied it and had not been told before, each once, and returns their
    number; afterwards no connection that satisfies the condition is still running, every other
    one is as it was, and no entry is added or removed. *)
Theorem end_where_exact (p : Live → bool) (s : LiveSessions) :
  (∀ l, p (cancelled l) = p l) →
  let '(n, s') := end_where p s in
  (∃ told, fired s' = fired s ++ told ∧ n = length told ∧ NoDup told ∧
     ∀ i, i ∈ told ↔ ∃ l, inner s !! i = Some l ∧ p l = true ∧ l_cancel l = true) ∧
  (∀ i, running i s' ↔ ∃ l, inner s !! i = Some l ∧ p l = false ∧ l_cancel l = true) ∧
  (∀ i, ended <$> inner s' !! i = ended <$> inner s !! i) ∧ next s' = next s.
Proof.
  intros Hp. unfold end_where. set (ids := fst <$> _).
  pose proof (elem_of_selected p s) as Hids. fold ids in Hids.
  pose proof (end_ids_spec ids s) as Hs. destruct (end_ids ids s) as [n s'].
  destruct Hs as (Hin & Hnext & told & Hf & Hn & Hnd & Htold). split_and!; [|..|done].
  - exists told. split_and!; [done..|]. intros i. rewrite Htold, Hids. unfold running. naive_solver.
  - intros i. unfold running. rewrite Hin. specialize (Hids i). destruct (decide (i ∈ ids)) as [Hi|Hi].
    + destruct (inner s !! i) as [l|]; naive_solver.
    + destruct (inner s !! i) as [l|]; simpl; [|naive_solver].
      destruct (p l) eqn:Hpl; [by destruct Hi; apply Hids; eauto|]. naive_solver.
  - intros i. rewrite Hin. destruct (inner s !! i); [|done]. simpl. by case_decide.
Qed.

Definition sample_live : LiveSessions :=
  snd (register 2 [x02] 0 (snd (register 1 [x01] 0 live_default))).

Example end_where_exact_witness :
  let '(n, s') := end_where (fun l => bool_decide (l_user l = 1)) sample_live in
  (∃ told, fired s' = fired sample_live ++ told ∧ n = length told ∧ NoDup told ∧
     ∀ i, i ∈ told ↔ ∃ l, inner sample_live !! i = Some l ∧ bool_decide (l_user l = 1) = true ∧ l_cancel l = true) ∧
  (∀ i, running i s' ↔
     ∃ l, inner sample_live !! i = Some l ∧ bool_decide (l_user l = 1) = false ∧ l_cancel l = true) ∧
  (∀ i, ended <$> inner s' !! i = ended <$> inner sample_live !! i) ∧ next s' = next sample_live.
Proof. apply (end_where_exact (fun l => bool_decide (l_user l = 1)) sample_live). intros l. reflexivity. Defined.
