(* ===== verification/Settings.v ===== *)
(** * Settings (src/src/settings.rs)

    What an administrator sets, kept as one JSON value. The serialiser is [serde_json], a parameter:
    what the program relies on is that what it wrote reads back. *)

From S2P Require Import Prelude Store.
Local Open Scope Z_scope.

Definition KEY : string := "settings".
Definition MAX_SIGNIN_HOURS : Z := 720.

Record Settings := mkSettings { signin_hours : Z; renew_below_hours : Z; max_file_mb : Z }.

Definition settings_default : Settings := mkSettings 24 18 0.

Definition settings_check (s : Settings) : result string unit :=
  if negb (bool_decide (1 ≤ signin_hours s ≤ MAX_SIGNIN_HOURS)) then
    Err ("a sign-in lasts 1 to " +:+ pretty MAX_SIGNIN_HOURS +:+ " hours")
  else if bool_decide (signin_hours s ≤ renew_below_hours s) then
    Err ("ask for the password again under fewer hours than a sign-in lasts (" +:+
         pretty (signin_hours s) +:+ ")")
  else Ok ().

Definition signin_secs (s : Settings) : Z := signin_hours s * 3600.
Definition renew_below_secs (s : Settings) : Z := renew_below_hours s * 3600.

Definition settings_max_file_bytes (s : Settings) : option Z :=
  if decide (0 < max_file_mb s) then Some (max_file_mb s * 1024 * 1024) else None.

(** For the activity log. *)
Definition settings_describe (s : Settings) : string :=
  "sign-in " +:+ pretty (signin_hours s) +:+ " h, ask again under " +:+ pretty (renew_below_hours s) +:+
  " h, files " +:+ (if decide (max_file_mb s = 0) then "any size"
                    else "up to " +:+ pretty (max_file_mb s) +:+ " MB").

Section settings.
(** [serde_json::from_slice] and [serde_json::to_vec]. *)
Context (from_slice : bytes → option Settings) (to_vec : Settings → bytes).

(** The stored settings, or the defaults where none pass the check. *)
Definition settings_read : store Settings :=
  v ← meta_get KEY;
  let stored := v ≫= from_slice in
  mret (match stored with
        | Some s => if is_ok (settings_check s) then s else settings_default
        | None => settings_default
        end).

Definition settings_write (s : Settings) : store unit := meta_set KEY (to_vec s).

(** The fields are [u32]s. *)
Definition settings_u32 (s : Settings) : Prop :=
  0 ≤ signin_hours s ≤ u32_max ∧ 0 ≤ renew_below_hours s ≤ u32_max ∧ 0 ≤ max_file_mb s ≤ u32_max.

(** Settings in force are always sound: whatever bytes the database holds, what is read passes
    the check, so a sign-in lasts between an hour and thirty days, asking again comes strictly
    before it ends, and neither the seconds nor the file limit overflow; and settings that pass
    the check, once written, are the ones read back, whatever was written elsewhere. *)
Theorem settings_in_force (db : Db) (s : Settings) :
  (∀ b s', from_slice b = Some s' → settings_u32 s') →
  (∀ s', settings_u32 s' → from_slice (to_vec s') = Some s') →
  (∃ s', settings_read db = (Ok s', db) ∧ settings_check s' = Ok () ∧
     3600 ≤ signin_secs s' ≤ 2592000 ∧ 0 ≤ renew_below_secs s' < signin_secs s' ∧
     ∀ n, settings_max_file_bytes s' = Some n → 0 < n ≤ u64_max) ∧
  (settings_u32 s → settings_check s = Ok () → fst (settings_read (snd (settings_write s db))) = Ok s).
Proof.
  intros Hu32 Hrt. split.
  - set (s' := match t_meta db !! KEY ≫= from_slice with
               | Some s => if is_ok (settings_check s) then s else settings_default
               | None => settings_default
               end).
    assert (settings_check s' = Ok () ∧ settings_u32 s') as [Hc Hu].
    { unfold s'. assert (settings_u32 settings_default) by (unfold settings_u32, u32_max; simpl; lia).
      destruct (t_meta db !! KEY ≫= from_slice) as [s0|] eqn:E; [|done].
      apply bind_Some in E as (b & _ & Hb). apply Hu32 in Hb.
      destruct (settings_check s0) as [[]|] eqn:Hs; simpl; [done|]. done. }
    exists s'. split; [done|]. split; [done|]. revert Hc. unfold settings_check, MAX_SIGNIN_HOURS.
    destruct (bool_decide (1 ≤ _ ≤ 720)) eqn:Hb; simpl; [|done].
    destruct (bool_decide (signin_hours s' ≤ renew_below_hours s')) eqn:Hr; [intros [=]|]. intros _.
    apply bool_decide_eq_true in Hb. apply bool_decide_eq_false in Hr.
    unfold signin_secs, renew_below_secs, settings_max_file_bytes, settings_u32, u32_max, u64_max in *.
    split_and!; try lia. intros n. case_decide; intros [= <-]. lia.
  - intros Hu Hs. unfold settings_read, settings_write, meta_set, meta_get, mbind, M_bind. simpl.
    rewrite lookup_insert, decide_True by done. simpl. by rewrite Hrt, Hs.
Qed.
End settings.

(** Twelve bytes, for examples. *)
Definition sample_to_vec (s : Settings) : bytes :=
  to_le 4 (signin_hours s) ++ to_le 4 (renew_below_hours s) ++ to_le 4 (max_file_mb s).
Definition sample_from_slice (b : bytes) : option Settings :=
  Some (mkSettings (from_le (take 4 b)) (from_le (take 4 (drop 4 b))) (from_le (take 4 (drop 8 b)))).

Lemma take_4_range b : 0 ≤ from_le (take 4 b) ≤ u32_max.
Proof.
  pose proof (from_le_range (take 4 b)) as Hr. unfold len in Hr.
  assert (2 ^ (8 * Z.of_nat (length (take 4 b))) ≤ 2 ^ 32) as Hle.
  { apply Z.pow_le_mono_r; [done|]. rewrite length_take. lia. }
  unfold u32_max. lia.
Qed.

Lemma sample_settings_roundtrip s : settings_u32 s → sample_from_slice (sample_to_vec s) = Some s.
Proof.
  destruct s as [a b c]. unfold settings_u32, u32_max. simpl. intros (Ha & Hb & Hc).
  unfold sample_from_slice, sample_to_vec. cbn [signin_hours renew_below_hours max_file_mb].
  rewrite (drop_app_ge _ _ 8), (drop_app_ge _ _ 4) by (rewrite to_le_length; lia).
  rewrite (drop_app_ge _ _ (8 - _)) by (rewrite !to_le_length; lia).
  rewrite !to_le_length. simpl Nat.sub. rewrite !drop_0.
  rewrite !take_app_le by (rewrite to_le_length; lia).
  rewrite !firstn_all2 by (rewrite to_le_length; lia).
  rewrite !from_to_le. change (8 * Z.of_nat 4) with 32. by rewrite !Z.mod_small by lia.
Qed.

Example settings_in_force_witness :
  fst (settings_read sample_from_slice (snd (settings_write sample_to_vec (mkSettings 8 2 5) empty_db)))
  = Ok (mkSettings 8 2 5).
Proof.
  apply (settings_in_force sample_from_slice sample_to_vec empty_db (mkSettings 8 2 5)).
  - intros b s [= <-]. split; [apply take_4_range|split; apply take_4_range].
  - apply sample_settings_roundtrip.
  - vm_compute. repeat split; discriminate.
  - reflexivity.
Defined.
