(* ===== verification/App.v ===== *)
(** * The running proxy (src/src/app.rs, src/src/proxy.rs, src/src/server.rs, src/src/resolve.rs)

    The state requests share, and the operations on it that decide whether a connection opens and
    how long it lives: admission, recording the opening and the end, ending connections whose
    sign-in ended, and revoking accounts the directory no longer allows. Each runs under the import
    gate, so it acts on one database. The wall clock and the monotonic clock are arguments. *)

From S2P Require Import Prelude Tables Text Utf8 Store Policy Auth Live Vault Directory.
Local Open Scope Z_scope.

Record RevocationHealth := mkRevocation {
  last_run : option Z;
  last_ok : option Z;
  rev_error : option string;
  rev_checked : Z;
  rev_unread : list string;
}.

(** An uploaded archive's data, and when it came (src/src/migrate.rs). *)
Record PendingImport := mkPending { blob : bytes; uploaded : Z }.

Record App := mkApp {
  store_ : Db;
  live : LiveSessions;
  tickets : Tickets;
  generation : Z;
  revocation : RevocationHealth;
  vault_ : Vault;
  throttle : Throttle;
  address_throttle : Throttle;
  preferred : nat;
  imports : gmap string PendingImport;
}.

Definition with_store db a := mkApp db (live a) (tickets a) (generation a) (revocation a) (vault_ a) (throttle a) (address_throttle a) (preferred a) (imports a).
Definition with_live l a := mkApp (store_ a) l (tickets a) (generation a) (revocation a) (vault_ a) (throttle a) (address_throttle a) (preferred a) (imports a).
Definition with_tickets t a := mkApp (store_ a) (live a) t (generation a) (revocation a) (vault_ a) (throttle a) (address_throttle a) (preferred a) (imports a).
Definition with_generation g a := mkApp (store_ a) (live a) (tickets a) g (revocation a) (vault_ a) (throttle a) (address_throttle a) (preferred a) (imports a).
Definition with_revocation r a := mkApp (store_ a) (live a) (tickets a) (generation a) r (vault_ a) (throttle a) (address_throttle a) (preferred a) (imports a).
Definition with_vault v a := mkApp (store_ a) (live a) (tickets a) (generation a) (revocation a) v (throttle a) (address_throttle a) (preferred a) (imports a).
Definition with_throttle t a := mkApp (store_ a) (live a) (tickets a) (generation a) (revocation a) (vault_ a) t (address_throttle a) (preferred a) (imports a).
Definition with_address_throttle t a := mkApp (store_ a) (live a) (tickets a) (generation a) (revocation a) (vault_ a) (throttle a) t (preferred a) (imports a).
Definition with_preferred p a := mkApp (store_ a) (live a) (tickets a) (generation a) (revocation a) (vault_ a) (throttle a) (address_throttle a) p (imports a).
Definition with_imports i a := mkApp (store_ a) (live a) (tickets a) (generation a) (revocation a) (vault_ a) (throttle a) (address_throttle a) (preferred a) i.

(** Called by an import, under the exclusive gate. *)
Definition bump_generation (a : App) : App := with_generation (wrap 64 (generation a + 1)) a.

(** ** The stored flags *)

Definition META_FROZEN : string := "frozen".
Definition META_FREEZE_PENDING : string := "freeze_pending".

Definition frozen (db : Db) : bool :=
  match fst (flag META_FROZEN db) with Ok b => b | Err _ => false end.

(** A freeze whose export never handed over its archive is lifted when the service starts. *)
Definition lift_stranded_freeze (now : Z) : store bool :=
  pending ← flag META_FREEZE_PENDING;
  if negb pending then mret false
  else
    _ ← set_flag META_FROZEN false;
    _ ← set_flag META_FREEZE_PENDING false;
    _ ← audit now "system" "unfreeze" "the export that froze this proxy did not finish";
    mret true.

(** ** Configuration and stored values *)

(** What requests read of the configuration: the directory's section, the accounts that are always
    administrators, whether local accounts may sign in, whether the listener speaks HTTPS, whether
    files are scanned, and the servers that seed an empty database. *)
Record Cfg := mkCfg {
  c_directory : option DirectoryConfig;
  c_admins : list string;
  allow_local_accounts : bool;
  secure_cookies : bool;
  scanning : bool;
  c_target : list (string * string * Z);
}.

Definition META_DIRECTORY_PASSWORD : string := "directory_password".
Definition AAD_DIRECTORY_PASSWORD : bytes := String.list_byte_of_string "directory service password".
Definition META_INSTANCE : string := "instance".
Definition META_SEEDED : string := "seeded_from_config".

(** This database's instance, empty where it has none. *)
Definition instance (db : Db) : string :=
  match fst (meta_get META_INSTANCE db) with
  | Ok (Some v) => from_utf8_lossy v
  | _ => ""
  end.

(** A new instance; [random] is what the operating system gave for the token. *)
Definition new_instance (random : bytes) : store unit :=
  meta_set META_INSTANCE (take 32 (String.list_byte_of_string (random_token random))).

(** [[[target]]] entries become servers in an "Imported" group, once, into an empty database; each
    comes with the incarnation its row would be given, drawn for it. *)
Definition seed_from_config (now : Z) (cfg : Cfg) (rnds : nat → Z) : store unit :=
  if decide (c_target cfg = []) then mret ()
  else
    seeded ← flag META_SEEDED;
    if seeded : bool then mret () else
    empty ← servers_empty;
    if negb empty then mret () else
    counts ← servers_import
      (imap (fun i t => (rnds i, mkImportRow t.1.1 t.1.2 (Some t.2) (Some (Some "Imported"%string)) None)) (c_target cfg));
    _ ← set_flag META_SEEDED true;
    audit now "system" "servers.seed" (pretty counts.1 +:+ " server(s) from config.toml").

Section configuration.
Context {U : Unicode} {C : Crypto}.

(** [Config::is_bootstrap_admin] and [App::is_admin]. *)
Definition is_bootstrap_admin (cfg : Cfg) (name : string) : bool :=
  existsb (fun a => bool_decide (a = name)) (omap normalize_username (c_admins cfg)).

Definition app_is_admin (cfg : Cfg) (u : User) : bool := is_admin u || is_bootstrap_admin cfg (username u).

(** The directory, when it has a service account for lookups. *)
Definition lookup_directory (cfg : Cfg) : option DirectoryConfig :=
  d ← c_directory cfg; if has_service_account d then Some d else None.

(** The service account's password, sealed under the master key. *)
Definition directory_password (a : App) : result VaultError (option string) :=
  match fst (meta_get META_DIRECTORY_PASSWORD (store_ a)) with
  | Err e => Err (VStore e)
  | Ok None => Ok None
  | Ok (Some blob) =>
      plain ← open_value (vault_ a) AAD_DIRECTORY_PASSWORD blob;
      Ok (Some (from_utf8_lossy plain))
  end.

Definition set_directory_password (password : string) (random : option bytes) : M App VaultError unit := fun a =>
  match seal_value (vault_ a) AAD_DIRECTORY_PASSWORD (String.list_byte_of_string password) random with
  | Err e => (Err e, a)
  | Ok blob => (Ok (), with_store (snd (meta_set META_DIRECTORY_PASSWORD blob (store_ a))) a)
  end.

Definition directory_password_set (db : Db) : bool :=
  bool_decide (is_Some (t_meta db !! META_DIRECTORY_PASSWORD)).
End configuration.

(** A vault operation on the running proxy. *)
Definition on_vault {A} (m : V A) : M App VaultError A := fun a =>
  let '(r, (db, v)) := m (store_ a, vault_ a) in (r, with_vault v (with_store db a)).

Definition reset_credential_store `{K : KeyProtector} (r_key r_wrap : option bytes) : M App VaultError Z :=
  on_vault (vault_reset [META_DIRECTORY_PASSWORD] r_key r_wrap).

(** ** Admission *)

Inductive Refusal :=
  | TicketUnknown
  | TicketOtherUser
  | SignInEnded
  | NoSuchServer
  | NotAssigned
  | WrongServer
  | StoreFailed
  | Superseded.

(** A connection: who opened it, under which sign-in, and its entry in the registry. *)
Record Session := mkSession { s_user : Z; s_name : string; s_token_hash : bytes; s_live_id : Z }.

(** [Session::admit], at this wall-clock and monotonic time. *)
Definition admit_session (s : Session) (target_id proxy_auth : string) (now at_ : Z) (a : App) :
    result Refusal Server * App :=
  if decide (generation_of (s_live_id s) (live a) ≠ Some (generation a)) then (Err Superseded, a)
  else
    let '(redeemed, ts) := redeem_at proxy_auth at_ (tickets a) in
    let a := with_tickets ts a in
    match redeemed with
    | None => (Err TicketUnknown, a)
    | Some t =>
        if decide (ticket_user t ≠ s_user s) then (Err TicketOtherUser, a)
        else
          let a := with_live (set_server (s_live_id s) (ticket_server t) (live a)) a in
          match fst (session_user (s_token_hash s) now (store_ a)) with
          | Err _ => (Err StoreFailed, a)
          | Ok None => (Err SignInEnded, a)
          | Ok (Some u) =>
              if decide (user_id u ≠ s_user s) then (Err SignInEnded, a)
              else
                match fst (resolve (s_user s) target_id (store_ a)) with
                | Err (PDenied NoSuchTarget) => (Err NoSuchServer, a)
                | Err (PDenied NotPermitted) => (Err NotAssigned, a)
                | Err (PStore _) => (Err StoreFailed, a)
                | Ok target =>
                    if decide (server_id target ≠ ticket_server t) then (Err WrongServer, a)
                    else
                      match fst (incarnations (s_user s) (server_id target) (store_ a)) with
                      | Err _ => (Err StoreFailed, a)
                      | Ok None => (Err NoSuchServer, a)
                      | Ok (Some rows) =>
                          (Ok target, with_live (set_incarnations (s_live_id s) rows (live a)) a)
                      end
                end
          end
    end.

(** [Session::record_open]: false, and nothing written, when an import came between. *)
Definition record_open (s : Session) (target : Server) (addr : string) (now : Z) (a : App) : bool * App :=
  if decide (generation_of (s_live_id s) (live a) ≠ Some (generation a)) then (false, a)
  else
    (true, with_store (snd (audit now (s_name s) "session.open"
       (server_name target +:+ " (" +:+ host target +:+ " -> " +:+ addr +:+ ")") (store_ a))) a).

(** [record_end]: the end of an established session, in the database it was opened in. *)
Definition record_end (e : Ended) (now : Z) (a : App) : App :=
  match e_established e, e_server e, e_incarnations e with
  | true, Some server, Some (user_row, server_row) =>
      if decide (e_generation e ≠ generation a) then a
      else with_store (snd (session_ended (e_user e) user_row server server_row now (store_ a))) a
  | _, _, _ => a
  end.

(** The end of [Session::run], however it ended. *)
Definition close (s : Session) (now : Z) (a : App) : App :=
  let '(e, l) := remove (s_live_id s) (live a) in
  let a := with_live l a in
  match e with Some e => record_end e now a | None => a end.

(** ** Names to addresses (src/src/resolve.rs) *)

Inductive ResolveError :=
  | Failed (source : string)
  | NoAddress
  | Ambiguous (addrs : list string).

(** Exactly one address, or an error; [lookup] is what the resolver gave. *)
Definition resolve_one (lookup : result string (list string)) : result ResolveError string :=
  match lookup with
  | Err e => Err (Failed e)
  | Ok [] => Err NoAddress
  | Ok [a] => Ok a
  | Ok l => Err (Ambiguous l)
  end.

(** ** Sign-ins that ended (src/src/server.rs) *)

(** Whether the connection's sign-in is gone; a store error ends nothing. *)
Definition orphaned (now : Z) (db : Db) (c : Z * Z * bytes) : bool :=
  match fst (session_user c.2 now db) with
  | Ok (Some u) => negb (bool_decide (user_id u = c.1.2))
  | Ok None => true
  | Err _ => false
  end.

Definition end_orphaned_connections (now : Z) (a : App) : nat * App :=
  let stale := (fun c => c.1.1) <$> List.filter (orphaned now (store_ a)) (connections (live a)) in
  let '(n, l) := end_ids stale (live a) in
  (n, with_live l a).

(** ** Revocation *)

(** Directory users to re-check: everyone with a sign-in session, and everyone with a connection. *)
Definition users_to_check (now : Z) (a : App) : result StoreError (list User) :=
  match fst (directory_users_with_sessions now (store_ a)) with
  | Err e => Err e
  | Ok users =>
      let seen : gset Z := list_to_set (user_id <$> users) in
      let more := elements (user_ids (live a) ∖ seen) in
      Ok (users ++ omap (fun id =>
            match fst (user_by_id id (store_ a)) with
            | Ok (Some u) => if local u then None else Some u
            | _ => None
            end) more)
  end.

Definition revocation_reason (u : User) (account : option Account) : option string :=
  match account with
  | None => Some "the account no longer exists"%string
  | Some acc =>
      if acc_disabled acc then Some "the account is disabled"%string
      else if acc_expired acc then Some "the account has expired"%string
      else match sid u with
           | Some s => if decide (s ≠ acc_sid acc) then Some "the account's SID changed"%string else None
           | None => None
           end
  end.

Record Pass := mkPass { p_checked : Z; p_revoked : Z; p_unread : list string }.
Definition pass_default : Pass := mkPass 0 0 [].

(** One user of a pass: what the directory said is applied to the user as they are by now. *)
Definition apply_lookup (now : Z) (checked : User) (name : string)
    (looked_up : result string (option Account)) (pa : Pass * App) : Pass * App :=
  let '(p, a) := pa in
  match looked_up with
  | Err _ => (mkPass (p_checked p) (p_revoked p) (p_unread p ++ [name]), a)
  | Ok account =>
      let p := mkPass (p_checked p + 1) (p_revoked p) (p_unread p) in
      match fst (user_by_id (user_id checked) (store_ a)) with
      | Ok (Some u) =>
          if negb (local u) && bool_decide (username u = username checked) then
            match revocation_reason u account with
            | Some reason =>
                let db := snd (sessions_delete_user (user_id u) (store_ a)) in
                let '(ended, l) := end_user (user_id u) (live a) in
                let db := snd (audit now "system" "revoked" (username u +:+ ": " +:+ reason +:+ "; " +:+
                                 pretty (Z.of_nat ended) +:+ " live session(s) ended") db) in
                (mkPass (p_checked p) (p_revoked p + 1) (p_unread p), with_live l (with_store db a))
            | None => (p, a)
            end
          else (p, a)
      | _ => (p, a)
      end
  end.

(** [apply_lookups]: under a hold, only in the database that was asked about. *)
Definition apply_lookups (now gen : Z) (users : list User)
    (found : list (string * result string (option Account))) (a : App) : Pass * App :=
  if decide (generation a ≠ gen) then (pass_default, a)
  else foldl (fun pa ur => apply_lookup now ur.1 ur.2.1 ur.2.2 pa) (pass_default, a) (zip users found).

(** The health the Migration tab shows, and the log entry for a change of standing. *)
Definition record_revocation (outcome : result string (option Pass)) (at_ : Z) (h : RevocationHealth) :
    option (string * string) * RevocationHealth :=
  let was_failing := bool_decide (is_Some (rev_error h)) in
  match outcome with
  | Ok None => (None, h)
  | Err e =>
      ((if was_failing then None else Some ("revocation.failing"%string, e)),
       mkRevocation (Some at_) (last_ok h) (Some e) (rev_checked h) (rev_unread h))
  | Ok (Some p) =>
      if decide (p_checked p = 0 ∧ p_unread p ≠ []) then
        let e := "none of the " +:+ pretty (len (p_unread p)) +:+ " signed-in account(s) could be looked up" in
        ((if was_failing then None else Some ("revocation.failing"%string, e)),
         mkRevocation (Some at_) (last_ok h) (Some e) (p_checked p) (p_unread p))
      else
        ((if was_failing then Some ("revocation.restored"%string, EmptyString) else None),
         mkRevocation (Some at_) (Some at_) None (p_checked p) (p_unread p))
  end.
