(* ===== verification/AppFacts.v ===== *)
(** * What the running proxy guarantees (src/src/proxy.rs, src/src/server.rs)

    Who is admitted, that a connection does not outlive its sign-in, and that revocation reaches
    exactly the accounts it should. *)

From S2P Require Import Prelude Tables Text Store Policy Auth Live Vault Directory App.
Local Open Scope Z_scope.

(** ** Admission *)

(** The ticket presented is good, now, for this user and server. *)
Definition ticket_good (s : Session) (server : Z) (auth : string) (at_ : Z) (a : App) : Prop :=
  ∃ e, tickets a !! auth = Some e ∧ i_ticket e = mkTicket (s_user s) server ∧
    since at_ (i_minted e) < TICKET_TTL.

(** The sign-in the connection was opened under is alive and the user's. *)
Definition sign_in_live (user : Z) (token_hash : bytes) (now : Z) (db : Db) : Prop :=
  ∃ n, t_sessions db !! token_hash = Some n ∧ n_user_id n = user ∧ now < n_expires n ∧
    is_Some (t_users db !! user).

Lemma session_user_Some h now db u :
  fst (session_user h now db) = Ok (Some u) ↔
  ∃ n r, t_sessions db !! h = Some n ∧ now < n_expires n ∧ t_users db !! n_user_id n = Some r ∧
    u = user_from (n_user_id n) r.
Proof.
  unfold session_user, gets. simpl. split.
  - intros [= E]. apply bind_Some in E as (n & Hn & E). case_bool_decide as Hx; [|done].
    apply fmap_Some in E as (r & Hr & ->). exists n, r. split_and!; [done|lia|done..].
  - intros (n & r & Hn & Hx & Hr & ->). rewrite Hn. simpl. rewrite bool_decide_true by lia. by rewrite Hr.
Qed.

Lemma session_user_is_ok h now db : ∃ o, fst (session_user h now db) = Ok o.
Proof. unfold session_user, gets. simpl. eauto. Qed.

Lemma user_from_id i r : user_id (user_from i r) = i.
Proof. done. Qed.

(** The sign-in check of [admit_session]. *)
Lemma sign_in_check user h now db :
  sign_in_live user h now db ↔
  ∃ u, fst (session_user h now db) = Ok (Some u) ∧ user_id u = user.
Proof.
  unfold sign_in_live. setoid_rewrite session_user_Some. split.
  - intros (n & Hn & Hu & Hx & r & Hr). exists (user_from (n_user_id n) r).
    split; [|by rewrite user_from_id]. exists n, r. split_and!; [done..|by rewrite Hu|done].
  - intros (u & (n & r & Hn & Hx & Hr & ->) & Hu). rewrite user_from_id in Hu.
    exists n. split_and!; [done..|]. rewrite <-Hu. eauto.
Qed.

Lemma sign_in_live_dec user h now db : sign_in_live user h now db ∨ ¬ sign_in_live user h now db.
Proof.
  rewrite sign_in_check. destruct (session_user_is_ok h now db) as [[u|] ->]; [|naive_solver].
  destruct (decide (user_id u = user)); naive_solver.
Qed.

Lemma resolve_fst user tid db sv :
  fst (resolve user tid db) = Ok sv ↔
  ∃ id r, parse_i64 tid = Some id ∧ t_servers db !! id = Some r ∧
    (user, id) ∈ t_assignments db ∧ sv = server_from id r.
Proof.
  destruct (resolve user tid db) as [r db'] eqn:E. simpl.
  pose proof (resolve_Ok user tid db sv db') as Hr. rewrite E in Hr. split.
  - intros ->. by apply Hr.
  - intros Hx. assert (fst (resolve user tid db) = Ok sv) as Hok; [|by rewrite E in Hok].
    destruct Hx as (id & rr & Hx). pose proof (resolve_Ok user tid db sv db) as Hr'.
    rewrite (proj2 Hr'); [done|]. split; [done|]. by exists id, rr.
Qed.

Lemma redeem_at_both tok at_ ts :
  snd (redeem_at tok at_ ts) = delete tok ts ∧
  ∀ t, fst (redeem_at tok at_ ts) = Some t ↔
    ∃ e, ts !! tok = Some e ∧ i_ticket e = t ∧ since at_ (i_minted e) < TICKET_TTL.
Proof.
  unfold redeem_at. destruct (ts !! tok) as [e|] eqn:E; simpl.
  - split; [done|]. intros t. case_decide; naive_solver.
  - split; [by rewrite delete_id|]. naive_solver.
Qed.

(** What must hold for a connection to be admitted to a server. *)
Definition admissible (s : Session) (tid auth : string) (now at_ : Z) (a : App) (target : Server) : Prop :=
  generation_of (s_live_id s) (live a) = Some (generation a) ∧
  ticket_good s (server_id target) auth at_ a ∧ sign_in_live (s_user s) (s_token_hash s) now (store_ a) ∧
  ∃ id row, parse_i64 tid = Some id ∧ t_servers (store_ a) !! id = Some row ∧
    (s_user s, id) ∈ t_assignments (store_ a) ∧ target = server_from id row.

Lemma admit_ok_iff s tid auth now at_ a target :
  fst (admit_session s tid auth now at_ a) = Ok target ↔ admissible s tid auth now at_ a target.
Proof.
  unfold admissible, ticket_good. rewrite sign_in_check, <-resolve_fst.
  unfold admit_session. destruct (decide (generation_of _ _ ≠ _)) as [Hg|Hg]; [naive_solver|].
  assert (generation_of (s_live_id s) (live a) = Some (generation a)) as Hgen
    by (destruct (decide (generation_of (s_live_id s) (live a) = Some (generation a))); tauto).
  destruct (redeem_at_both auth at_ (tickets a)) as [_ Hr].
  destruct (redeem_at auth at_ (tickets a)) as [[t|] ts]; cbn [fst snd with_tickets with_live store_] in *.
  2: { split; [done|]. intros (_ & (e & He & Ht & Hx) & _). 
       assert (None = Some (mkTicket (s_user s) (server_id target))) by (apply Hr; eauto). done. }
  destruct (proj1 (Hr t) eq_refl) as (e & He & Het & Hx).
  assert (∀ P, (∃ e', tickets a !! auth = Some e' ∧ i_ticket e' = mkTicket (s_user s) (server_id target) ∧
      since at_ (i_minted e') < TICKET_TTL) ∧ P ↔ t = mkTicket (s_user s) (server_id target) ∧ P) as Ht.
  { intros P. naive_solver. }
  rewrite Ht. clear Ht.
  case_decide as Hu; [split; [done|]; by intros (_ & -> & _)|].
  assert (ticket_user t = s_user s) as Hu' by lia.
  destruct (fst (session_user (s_token_hash s) now (store_ a))) as [[u|]|] eqn:Hsess;
    [|split; [done|]; by intros (_ & _ & (? & [=] & _) & _)..].
  case_decide as Hid; [split; [done|]; intros (_ & _ & (? & [= <-] & ?) & _); done|].
  assert (user_id u = s_user s) as Hid' by lia.
  destruct (fst (resolve (s_user s) tid (store_ a))) as [sv|[[]|]] eqn:Hres;
    [|split; [done|]; by intros (_ & _ & _ & [=])..].
  case_decide as Hsv; [simpl; split; [done|]; intros (_ & -> & _ & [= ->]); simpl in *; done|].
  assert (server_id sv = ticket_server t) as Hsv' by lia.
  apply resolve_fst in Hres as (id & row & Hp & Hrow & Has & ->).
  apply session_user_Some in Hsess as (n & r & Hn & Hexp & Hur & ->).
  rewrite user_from_id in Hid'. rewrite Hid' in Hur.
  assert (fst (incarnations (s_user s) (server_id (server_from id row)) (store_ a)) =
    Ok (Some (u_incarnation r, s_incarnation row))) as ->.
  { unfold incarnations, gets. simpl. rewrite Hur. simpl. by rewrite Hrow. }
  simpl. split.
  - intros [= <-]. split; [done|]. split; [destruct t; simpl in *; by subst|]. eauto.
  - by intros (_ & _ & _ & [= <-]).
Qed.

(** The other outcomes leave the ticket spent and everything else as it was. *)
Lemma admit_state s tid auth now at_ a :
  let '(r, a') := admit_session s tid auth now at_ a in
  store_ a' = store_ a ∧ generation a' = generation a ∧ revocation a' = revocation a ∧
  fired (live a') = fired (live a) ∧
  match r with Err Superseded => a' = a | _ => tickets a' = delete auth (tickets a) end.
Proof.
  unfold admit_session. case_decide; [done|].
  destruct (redeem_at_both auth at_ (tickets a)) as [Hd _].
  destruct (redeem_at auth at_ (tickets a)) as [[t|] ts]; simpl in Hd; subst ts; [|done].
  case_decide; [done|]. destruct (fst (session_user _ _ _)) as [[u|]|]; [|done..]. case_decide; [done|].
  destruct (fst (resolve _ _ _)) as [sv|[[]|]]; [|done..]. case_decide; [done|].
  by destruct (fst (incarnations _ _ _)) as [[rows|]|].
Qed.

Lemma alter_lookup_same {A} (f : A → A) i (m : gmap Z A) : alter f i m !! i = f <$> m !! i.
Proof. apply lookup_alter_eq. Qed.

Lemma admit_recorded s tid auth now at_ a :
  let '(r, a') := admit_session s tid auth now at_ a in
  ∀ target, r = Ok target → ∃ l, inner (live a') !! s_live_id s = Some l ∧
    l_server l = Some (server_id target) ∧
    fst (incarnations (s_user s) (server_id target) (store_ a)) = Ok (l_incarnations l).
Proof.
  unfold admit_session. destruct (decide (generation_of _ _ ≠ _)) as [|Hg]; [naive_solver|].
  assert (generation_of (s_live_id s) (live a) = Some (generation a)) as Hgen
    by (destruct (decide (generation_of (s_live_id s) (live a) = Some (generation a))); tauto).
  apply fmap_Some in Hgen as (l & Hl & _).
  destruct (redeem_at auth at_ (tickets a)) as [[t|] ts]; [|naive_solver]. case_decide; [naive_solver|].
  destruct (fst (session_user _ _ _)) as [[u|]|]; [|naive_solver..]. case_decide; [naive_solver|].
  destruct (fst (resolve _ _ _)) as [sv|[[]|]]; [|naive_solver..]. case_decide as Hsv; [naive_solver|].
  simpl store_. destruct (fst (incarnations _ _ _)) as [[rows|]|] eqn:Hi; [|naive_solver..].
  intros target [= <-]. simpl. rewrite !alter_lookup_same, Hl. simpl. eexists. split; [done|].
  split; [simpl; f_equal; lia|done].
Qed.

(** C4. Admission is exact. A connection is admitted to a server if and only if its identities are of
    the database now in place, its ticket was minted for this user and this server less than its
    lifetime ago and not used since, the sign-in it was opened under is alive and the same user's,
    and the server named by the client's text exists and is assigned to the user. Whatever the
    outcome, the database is not changed; the ticket is spent, unless the connection was opened in a
    database since replaced, which is refused with nothing changed at all; and an admitted connection is recorded against the rows it was admitted under. *)
Theorem admit_exact (s : Session) (tid auth : string) (now at_ : Z) (a : App) :
  let '(r, a') := admit_session s tid auth now at_ a in
  (∀ target, r = Ok target ↔ admissible s tid auth now at_ a target) ∧
  store_ a' = store_ a ∧
  match r with Err Superseded => a' = a | _ => tickets a' = delete auth (tickets a) end ∧
  (∀ target, r = Ok target → ∃ l, inner (live a') !! s_live_id s = Some l ∧
     l_server l = Some (server_id target) ∧
     fst (incarnations (s_user s) (server_id target) (store_ a)) = Ok (l_incarnations l)).
Proof.
  pose proof (admit_ok_iff s tid auth now at_ a) as Hok. pose proof (admit_state s tid auth now at_ a) as Hst.
  pose proof (admit_recorded s tid auth now at_ a) as Hrec.
  destruct (admit_session s tid auth now at_ a) as [r a']. destruct Hst as (? & _ & _ & _ & ?). done.
Qed.

(** ** Sign-ins that ended *)

Lemma elem_of_connections l i u h :
  (i, u, h) ∈ connections l ↔ ∃ c, inner l !! i = Some c ∧ l_user c = u ∧ l_token_hash c = h.
Proof.
  unfold connections. rewrite list_elem_of_fmap. split.
  - intros ([k c] & [= -> -> ->] & Hc%elem_of_map_to_list). eauto.
  - intros (c & Hc & <- & <-). exists (i, c). split; [done|]. by apply elem_of_map_to_list.
Qed.

Lemma orphaned_iff now db i u h : orphaned now db (i, u, h) = true ↔ ¬ sign_in_live u h now db.
Proof.
  rewrite sign_in_check. unfold orphaned. cbn [fst snd].
  destruct (session_user_is_ok h now db) as [o ->]. destruct o as [x|].
  - rewrite negb_true_iff, bool_decide_eq_false. naive_solver.
  - naive_solver.
Qed.

(** A connection does not outlive its sign-in: after the check, the connections still running
    are exactly those that were running and whose sign-in is alive, unexpired, and still their own
    user's; nothing else about the proxy changes, and the number returned is how many were told. *)
Theorem orphans_end (now : Z) (a : App) :
  let '(n, a') := end_orphaned_connections now a in
  (∀ i, running i (live a') ↔ ∃ l, inner (live a) !! i = Some l ∧ l_cancel l = true ∧
     sign_in_live (l_user l) (l_token_hash l) now (store_ a)) ∧
  store_ a' = store_ a ∧ tickets a' = tickets a ∧
  ∃ told, fired (live a') = fired (live a) ++ told ∧ n = length told ∧ NoDup told.
Proof.
  unfold end_orphaned_connections. set (stale := (fun c => c.1.1) <$> _).
  assert (∀ i, i ∈ stale ↔ ∃ l, inner (live a) !! i = Some l ∧
    ¬ sign_in_live (l_user l) (l_token_hash l) now (store_ a)) as Hst.
  { intros i. unfold stale. rewrite list_elem_of_fmap. split.
    - intros ([[k u] h] & -> & Hk). rewrite list_elem_of_In, filter_In, <-list_elem_of_In in Hk.
      destruct Hk as [(c & Hc & <- & <-)%elem_of_connections Ho%orphaned_iff]. eauto.
    - intros (l & Hl & Ho). exists (i, l_user l, l_token_hash l). split; [done|].
      rewrite list_elem_of_In, filter_In, <-list_elem_of_In. split; [|by apply orphaned_iff].
      apply elem_of_connections. eauto. }
  pose proof (end_ids_spec stale (live a)) as Hs. destruct (end_ids stale (live a)) as [n l'].
  destruct Hs as (Hin & _ & told & Hf & Hn & Hnd & _). simpl. split_and!; [|done|done|by exists told].
  intros i. unfold running. rewrite Hin. specialize (Hst i).
  destruct (inner (live a) !! i) as [l|] eqn:Hl; simpl; [|naive_solver].
  destruct (decide (i ∈ stale)) as [Hi|Hi]; simpl; split.
  - intros (l0 & [= <-] & [=]).
  - intros (l0 & [= <-] & _ & Hlive). apply Hst in Hi as (l1 & [= <-] & Hno). done.
  - intros (l0 & [= <-] & Hc). exists l. split_and!; [done..|].
    destruct (sign_in_live_dec (l_user l) (l_token_hash l) now (store_ a)) as [?|Hno]; [done|].
    destruct Hi. apply Hst. eauto.
  - intros (l0 & [= <-] & Hc & _). eauto.
Qed.

(** ** Revocation *)

(** The user a directory answer revokes, and why: the row as it is now, a directory account, still
    under the name that was looked up, for which there is a reason. *)
Definition revokes (db : Db) (ur : User * (string * result string (option Account))) : option (User * string) :=
  match ur.2.2 with
  | Err _ => None
  | Ok account =>
      r ← t_users db !! user_id ur.1;
      let u := user_from (user_id ur.1) r in
      if negb (local u) && bool_decide (username u = username ur.1)
      then (fun reason => (u, reason)) <$> revocation_reason u account else None
  end.

(** The line written for a user, with how many of their connections were told. *)
Definition revoked_line (x : User * string) (ended : nat) : string :=
  username x.1 +:+ ": " +:+ x.2 +:+ "; " +:+ pretty (Z.of_nat ended) +:+ " live session(s) ended".
Definition revoked_log (now : Z) (lines : list string) (db : Db) : Db :=
  foldl (fun db d => snd (audit now "system" "revoked" d db)) db lines.
Definition ids_of (rs : list (User * string)) : list Z := (fun x => user_id x.1) <$> rs.

(** What revoking [rs] does, and all it does: *)
Record revoked_exactly (now : Z) (rs : list (User * string)) (a a' : App) : Prop := {
  (** of the proxy, only the database and the registry change, and of the database only the
      sign-ins and the log; *)
  rx_rest : a' = with_live (live a') (with_store (store_ a') a);
  rx_tables : store_ a' =
    set_audit (fun _ => t_audit (store_ a')) (set_sessions (fun _ => t_sessions (store_ a')) (store_ a));
  (** the sign-ins of those users are gone and their connections told to end; *)
  rx_sessions h : t_sessions (store_ a') !! h =
    n ← t_sessions (store_ a) !! h; if decide (n_user_id n ∈ ids_of rs) then None else Some n;
  rx_live i : inner (live a') !! i =
    (fun l => if decide (l_user l ∈ ids_of rs) then cancelled l else l) <$> inner (live a) !! i;
  rx_next : next (live a') = next (live a);
  (** each of those connections is told once, and there is one line for each user. *)
  rx_told : ∃ told ended,
    fired (live a') = fired (live a) ++ told ∧ NoDup told ∧
    (∀ i, i ∈ told ↔ ∃ l, inner (live a) !! i = Some l ∧ l_cancel l = true ∧ l_user l ∈ ids_of rs) ∧
    length ended = length rs ∧ sum_list ended = length told ∧
    t_audit (store_ a') = t_audit (revoked_log now (zip_with revoked_line rs ended) (store_ a));
}.

Lemma revoked_none now a : revoked_exactly now [] a a.
Proof.
  split; [by destruct a|by destruct a as [[]]|..|done|].
  - intros h. by destruct (t_sessions (store_ a) !! h).
  - intros i. by destruct (inner (live a) !! i).
  - exists [], []. rewrite app_nil_r. split_and!; try done; [constructor|set_solver].
Qed.

Lemma revoked_log_audit now lines db db' :
  t_audit db = t_audit db' → t_audit (revoked_log now lines db) = t_audit (revoked_log now lines db').
Proof.
  revert db db'. induction lines as [|d lines IH]; intros db db' Ha; [done|]. apply IH. simpl.
  unfold next_audit_id. by rewrite Ha.
Qed.

Lemma revoked_trans now rs rs' a a1 a2 :
  revoked_exactly now rs a a1 → revoked_exactly now rs' a1 a2 → revoked_exactly now (rs ++ rs') a a2.
Proof.
  intros [R1 T1 S1 L1 N1 (told1 & ended1 & F1 & D1 & E1 & Le1 & Su1 & A1)]
    [R2 T2 S2 L2 N2 (told2 & ended2 & F2 & D2 & E2 & Le2 & Su2 & A2)].
  assert (ids_of (rs ++ rs') = ids_of rs ++ ids_of rs') as Hids by apply fmap_app.
  split; rewrite ?Hids; clear Hids.
  - rewrite R2, R1. by destruct a.
  - rewrite T2, T1. by destruct (store_ a).
  - intros h. rewrite S2, S1. destruct (t_sessions (store_ a) !! h) as [n|]; simpl; [|done].
    destruct (decide (n_user_id n ∈ ids_of rs)); simpl; repeat case_decide; try done; set_solver.
  - intros i. rewrite L2, L1. destruct (inner (live a) !! i) as [l|]; [|done]. simpl. f_equal.
    destruct (decide (l_user l ∈ ids_of rs)); simpl;
      repeat case_decide; try done; set_solver.
  - by rewrite N2.
  - assert (∀ i, i ∈ told2 ↔ ∃ l, inner (live a) !! i = Some l ∧ l_cancel l = true ∧
      l_user l ∉ ids_of rs ∧ l_user l ∈ ids_of rs') as E2'.
    { intros i. rewrite E2, L1. destruct (inner (live a) !! i) as [l|]; simpl; [|naive_solver].
      case_decide; [|naive_solver]. split; [by intros (? & [= <-] & ? & ?)|naive_solver]. }
    exists (told1 ++ told2), (ended1 ++ ended2). rewrite F2, F1, <-app_assoc. split_and!; [done|..].
    + apply NoDup_app. split_and!; [done| |done]. intros i (l & Hl & _ & Hu)%E1 (l' & Hl' & _ & Hu' & _)%E2'.
      simplify_eq. done.
    + intros i. rewrite elem_of_app, E1, E2'. setoid_rewrite elem_of_app.
      split; [naive_solver|]. intros (l & Hl & Hc & Hu).
      destruct (decide (l_user l ∈ ids_of rs)); naive_solver.
    + rewrite !length_app. lia.
    + rewrite length_app, sum_list_with_app. lia.
    + rewrite zip_with_app by done. unfold revoked_log in *. rewrite foldl_app, A2.
      by apply (revoked_log_audit now).
Qed.

Lemma end_user_spec user s :
  let '(n, s') := end_user user s in
  (∀ i, inner s' !! i = (fun l => if decide (l_user l ∈ [user]) then cancelled l else l) <$> inner s !! i) ∧
  next s' = next s ∧
  ∃ told, fired s' = fired s ++ told ∧ n = length told ∧ NoDup told ∧
    ∀ i, i ∈ told ↔ ∃ l, inner s !! i = Some l ∧ l_cancel l = true ∧ l_user l ∈ [user].
Proof.
  unfold end_user. set (p := fun l => bool_decide _). unfold end_where.
  pose proof (elem_of_selected p s) as Hids. set (ids := fst <$> _) in *.
  pose proof (end_ids_spec ids s) as Hs. destruct (end_ids ids s) as [n s'].
  destruct Hs as (Hin & Hn & told & Hf & Hl & Hd & Ht).
  assert (∀ l, p l = true ↔ l_user l ∈ [user]) as Hp.
  { intros l. unfold p. by rewrite bool_decide_eq_true, list_elem_of_singleton. }
  split_and!; [|done|].
  - intros i. rewrite Hin. destruct (inner s !! i) as [l|] eqn:E; [|done]. simpl. f_equal.
    destruct (decide (i ∈ ids)) as [Hi|Hi], (decide (l_user l ∈ [user])) as [Hu|Hu]; try done.
    + apply Hids in Hi as (l' & Hl' & Hpl%Hp). congruence.
    + destruct Hi. apply Hids. exists l. by rewrite Hp.
  - exists told. split_and!; [done..|]. intros i. rewrite Ht, Hids. unfold running. setoid_rewrite Hp. naive_solver.
Qed.

Definition pass_after (ur : User * (string * result string (option Account))) (db : Db) (p : Pass) : Pass :=
  match ur.2.2 with
  | Err _ => mkPass (p_checked p) (p_revoked p) (p_unread p ++ [ur.2.1])
  | Ok _ => mkPass (p_checked p + 1) (p_revoked p + len (option_list (revokes db ur))) (p_unread p)
  end.

Lemma apply_lookup_exact now ur p a :
  let '(p', a') := apply_lookup now ur.1 ur.2.1 ur.2.2 (p, a) in
  p' = pass_after ur (store_ a) p ∧ revoked_exactly now (option_list (revokes (store_ a) ur)) a a'.
Proof.
  destruct ur as [checked [name looked]]. unfold apply_lookup, pass_after, revokes. cbn [fst snd].
  destruct looked as [account|e]; [|split; [done|apply revoked_none]].
  unfold user_by_id, gets. cbn [fst].
  destruct (t_users (store_ a) !! user_id checked) as [r|] eqn:Hr; cbn [fmap option_fmap option_map mbind option_bind].
  2: { cbn. rewrite Z.add_0_r. split; [done|apply revoked_none]. }
  set (u := user_from (user_id checked) r).
  destruct (negb (local u) && bool_decide (username u = username checked)).
  2: { cbn. rewrite Z.add_0_r. split; [done|apply revoked_none]. }
  destruct (revocation_reason u account) as [reason|].
  2: { cbn. rewrite Z.add_0_r. split; [done|apply revoked_none]. }
  simpl option_list. pose proof (end_user_spec (user_id u) (live a)) as Hu.
  destruct (end_user (user_id u) (live a)) as [n l']. destruct Hu as (Hin & Hnx & told & Hf & Hn & Hd & Ht).
  split; [done|]. split; try done.
  - intros h. simpl. rewrite map_lookup_filter. destruct (t_sessions (store_ a) !! h) as [x|]; simpl; [|done].
    case_guard as Hx; destruct (decide (n_user_id x ∈ [user_id checked])) as [Hy|Hy]; simpl; try done; set_solver.
  - exists told, [n]. split_and!; try done. simpl. lia.
Qed.

Lemma revokes_rows now rs a a' ur : revoked_exactly now rs a a' → revokes (store_ a') ur = revokes (store_ a) ur.
Proof. intros Hx. unfold revokes. by rewrite (rx_tables _ _ _ _ Hx). Qed.

Definition pass_of (db : Db) (l : list (User * (string * result string (option Account)))) (p : Pass) : Pass :=
  mkPass (p_checked p + len (List.filter (fun ur => is_ok ur.2.2) l))
    (p_revoked p + len (omap (revokes db) l))
    (p_unread p ++ ((fun ur => ur.2.1) <$> List.filter (fun ur => negb (is_ok ur.2.2)) l)).

Lemma pass_of_cons db ur l p : pass_of db l (pass_after ur db p) = pass_of db (ur :: l) p.
Proof.
  unfold pass_of, pass_after. cbn [List.filter omap list_omap]. destruct ur as [u [name [acc|e]]]; simpl.
  - destruct (revokes db _); simpl; unfold len; f_equal; simpl; lia.
  - f_equal. by rewrite <-app_assoc.
Qed.

Lemma lookups_exact now l p a :
  let '(p', a') := foldl (fun pa ur => apply_lookup now ur.1 ur.2.1 ur.2.2 pa) (p, a) l in
  p' = pass_of (store_ a) l p ∧ revoked_exactly now (omap (revokes (store_ a)) l) a a'.
Proof.
  revert p a. induction l as [|ur l IH]; intros p a; cbn [foldl].
  { split; [|apply revoked_none]. unfold pass_of. destruct p. simpl. by rewrite !Z.add_0_r, app_nil_r. }
  pose proof (apply_lookup_exact now ur p a) as H1.
  destruct (apply_lookup now ur.1 ur.2.1 ur.2.2 (p, a)) as [p1 a1]. destruct H1 as [-> H1].
  specialize (IH (pass_after ur (store_ a) p) a1). destruct (foldl _ _ l) as [p2 a2]. destruct IH as [-> H2].
  assert (omap (revokes (store_ a1)) l = omap (revokes (store_ a)) l) as Ho.
  { apply list_omap_ext, Forall_Forall2_diag, Forall_true. intros x. by eapply revokes_rows. }
  unfold pass_of at 1. rewrite Ho in *. split; [apply pass_of_cons|].
  replace (omap (revokes (store_ a)) (ur :: l)) with (option_list (revokes (store_ a) ur) ++ omap (revokes (store_ a)) l).
  - by eapply revoked_trans.
  - simpl. by destruct (revokes (store_ a) ur).
Qed.

(** C39. A revocation pass ends exactly what the directory disowns. Its answers are dropped, with
    nothing changed, when an import replaced the database since they were asked for. Otherwise the
    users it revokes are the directory accounts, still under the name that was looked up, that are
    gone, disabled, expired or now carry another SID; their sign-ins are deleted, their connections
    told to end, each once, and one line for each user is added to the log. Every other sign-in and
    connection is as it was, and so is all else: every other table and counter, the tickets, the
    vault, the throttles and the uploads. The pass counts who was answered for, who was revoked and
    who could not be looked up, and a lookup that failed revokes nobody. *)
Theorem revocation_exact (now gen : Z) (users : list User)
    (found : list (string * result string (option Account))) (a : App) :
  let '(p, a') := apply_lookups now gen users found a in
  if decide (generation a = gen)
  then p = pass_of (store_ a) (zip users found) pass_default ∧
       revoked_exactly now (omap (revokes (store_ a)) (zip users found)) a a'
  else p = pass_default ∧ a' = a.
Proof.
  unfold apply_lookups. destruct (decide (generation a = gen)) as [He|Hn].
  - rewrite decide_False by tauto. apply (lookups_exact now (zip users found) pass_default a).
  - by rewrite decide_True by done.
Qed.

(** ** The standing of the checks *)

Definition checks_failing (h : RevocationHealth) : bool := bool_decide (is_Some (rev_error h)).

(** The health after a run of passes, and the actions they wrote to the activity log. *)
Fixpoint record_all (os : list (Z * result string (option Pass))) (h : RevocationHealth) :
    list string * RevocationHealth :=
  match os with
  | [] => ([], h)
  | (t, o) :: os' =>
      let '(e, h1) := record_revocation o t h in
      let '(log, h2) := record_all os' h1 in
      (option_list (fst <$> e) ++ log, h2)
  end.

Lemma record_standing o t h :
  let '(e, h') := record_revocation o t h in
  alternates "revocation.failing" "revocation.restored" (checks_failing h) (option_list (fst <$> e)) =
  Some (checks_failing h').
Proof.
  destruct h as [lr lo [err|] c u]; destruct o as [[p|]|e]; simpl; try case_decide; reflexivity.
Qed.

Lemma alternates_app f r b l1 l2 :
  alternates f r b (l1 ++ l2) = b' ← alternates f r b l1; alternates f r b' l2.
Proof. revert b. induction l1 as [|a l1 IH]; intros b; simpl; [done|]. case_decide; [apply IH|done]. Qed.

(** The activity log tells the standing of the revocation checks: over any run of passes, those
    that could not reach the directory, those that could look nobody up and those with nothing
    configured included, the lines are a failure, a recovery, a failure and so on, and the last line
    tells whether the checks are failing now. *)
Theorem revocation_log_alternates (os : list (Z * result string (option Pass))) (h : RevocationHealth) :
  let '(log, h') := record_all os h in
  alternates "revocation.failing" "revocation.restored" (checks_failing h) log = Some (checks_failing h').
Proof.
  revert h. induction os as [|[t o] os IH]; intros h; [done|]. simpl.
  pose proof (record_standing o t h) as H1. destruct (record_revocation o t h) as [e h1].
  specialize (IH h1). destruct (record_all os h1) as [log h2].
  by rewrite alternates_app, H1.
Qed.
