(* ===== verification/Proxy.v ===== *)
(** * Setting a session up (src/src/proxy.rs)

    From the WebSocket's first message to the point where bytes flow: the RDCleanPath request, the
    admission, the server's name and address, the X.224 exchange, TLS, and the answer. What the
    client, the resolver, the server and other requests do meanwhile is the record [Visit]; what the
    session does to them is a list of [Act]s. The DER codec of RDCleanPath and the decoder of the
    X.224 confirm are the class [ProxyLib]. *)

From S2P Require Import Prelude Tables Text Utf8 Store Policy Auth Live Vault App.
Local Open Scope Z_scope.

(** ** RDCleanPath (src/vendor/ironrdp-rdcleanpath/src/lib.rs) *)

Record RDCleanPathErr := mkRdcErr {
  error_code : Z;
  http_status_code : option Z;
  wsa_last_error : option Z;
  tls_alert_code : option Z;
}.

Record RDCleanPathPdu := mkRdc {
  version : Z;
  rdc_error : option RDCleanPathErr;
  destination : option string;
  proxy_auth : option string;
  server_auth : option string;
  preconnection_blob : option string;
  x224_connection_pdu : option bytes;
  server_cert_chain : option (list bytes);
  server_addr : option string;
}.

Definition VERSION_1 : Z := 3389 + 1.
Definition GENERAL_ERROR_CODE : Z := 1.
Definition NEGOTIATION_ERROR_CODE : Z := 2.

Definition error_pdu (code : Z) (wsa tls : option Z) (x224 : option bytes) : RDCleanPathPdu :=
  mkRdc VERSION_1 (Some (mkRdcErr code None wsa tls)) None None None None x224 None None.
Definition new_general_error : RDCleanPathPdu := error_pdu GENERAL_ERROR_CODE None None None.
Definition new_wsa_error (code : Z) : RDCleanPathPdu := error_pdu GENERAL_ERROR_CODE (Some code) None None.
Definition new_tls_error (alert : Z) : RDCleanPathPdu := error_pdu GENERAL_ERROR_CODE None (Some alert) None.

(** [into_enum]. *)
Inductive RDCleanPath :=
  | Request (destination proxy_auth : string) (x224 : bytes)
  | Response (x224 : bytes) (chain : list bytes) (server_addr : string)
  | GeneralErr (e : RDCleanPathErr)
  | NegotiationErr (x224 : bytes).

Definition into_enum (p : RDCleanPathPdu) : option RDCleanPath :=
  match destination p, server_addr p, x224_connection_pdu p with
  | Some d, _, Some x => auth ← proxy_auth p; Some (Request d auth x)
  | None, Some addr, Some x => chain ← server_cert_chain p; Some (Response x chain addr)
  | None, None, x =>
      e ← rdc_error p;
      match x with
      | Some x => if decide (error_code e = NEGOTIATION_ERROR_CODE) then Some (NegotiationErr x) else Some (GeneralErr e)
      | None => Some (GeneralErr e)
      end
  | _, _, None => None
  end.

Class ProxyLib := {
  from_der : bytes → option RDCleanPathPdu;
  to_der : RDCleanPathPdu → result string bytes;
  (** [OctetString::new]: the error, where there are too many bytes *)
  octets_error : bytes → option string;
  (** [decode::<X224<ConnectionConfirm>>] of a response: the protocol it selects *)
  confirm_protocol : bytes → option Z;
  (** [ServerName::try_from]: the error, if any *)
  name_error : string → option string;
}.

(** ** Errors *)

Inductive CertificateError :=
  Expired | ExpiredContext | NotValidYet | NotValidYetContext | UnknownIssuer | Revoked | OtherCertificate.
Inductive RustlsError := InvalidCertificate (c : CertificateError) | AlertReceived (alert : Z) | OtherTls.

Inductive ErrorKind :=
  | ConnectionRefused | KTimedOut | HostUnreachable | NetworkUnreachable | ConnectionReset | UnexpectedEof
  | ConnectionAborted | InvalidData | OtherKind.

(** [std::io::Error]: its kind, its text, and the TLS error inside it. *)
Record IoError := mkIo { kind : ErrorKind; io_text : string; inner_tls : option RustlsError }.

Inductive SessionError :=
  | SWebSocket (e : string)
  | SIo (e : IoError)
  | SNotARequest
  | SRefused
  | STls (e : string)
  | STimeout (what : string)
  | SNegotiation.

Definition WSAETIMEDOUT : Z := 10060.
Definition WSAECONNREFUSED : Z := 10061.
Definition WSAEHOSTUNREACH : Z := 10065.
Definition WSAENETUNREACH : Z := 10051.
Definition WSAECONNRESET : Z := 10054.
Definition WSAECONNABORTED : Z := 10053.
Definition WSAHOST_NOT_FOUND : Z := 11001.

Definition wsa_error (e : IoError) : RDCleanPathPdu :=
  match kind e with
  | ConnectionRefused => new_wsa_error WSAECONNREFUSED
  | KTimedOut => new_wsa_error WSAETIMEDOUT
  | HostUnreachable => new_wsa_error WSAEHOSTUNREACH
  | NetworkUnreachable => new_wsa_error WSAENETUNREACH
  | ConnectionReset | UnexpectedEof => new_wsa_error WSAECONNRESET
  | ConnectionAborted => new_wsa_error WSAECONNABORTED
  | _ => new_general_error
  end.

Definition tls_alert (e : IoError) : Z :=
  match inner_tls e with
  | Some (InvalidCertificate c) =>
      match c with
      | Expired | ExpiredContext | NotValidYet | NotValidYetContext => 45
      | UnknownIssuer => 48
      | Revoked => 44
      | OtherCertificate => 42
      end
  | Some (AlertReceived alert) => alert
  | _ => 40
  end.

Definition tls_failure (e : IoError) : RDCleanPathPdu :=
  match inner_tls e with Some _ => new_tls_error (tls_alert e) | None => wsa_error e end.

(** ** Reading *)

(** What [ws.next()] gives; a ping comes with the error of answering it, if any. *)
Inductive WsItem :=
  | WsBinary (b : bytes)
  | WsPing (p : bytes) (failed : option string)
  | WsOther
  | WsError (e : string)
  | WsEnd.

(** The first binary message; [None] is still waiting. With the pings answered. *)
Fixpoint first_binary (items : list WsItem) : option (result SessionError (option bytes)) * list bytes :=
  match items with
  | [] => (None, [])
  | WsBinary b :: _ => (Some (Ok (Some b)), [])
  | WsPing p failed :: rest =>
      match failed with
      | Some e => (Some (Err (SWebSocket e)), [])
      | None => let '(r, pongs) := first_binary rest in (r, p :: pongs)
      end
  | WsOther :: rest => first_binary rest
  | WsError e :: _ => (Some (Err (SWebSocket e)), [])
  | WsEnd :: _ => (Some (Ok None), [])
  end.

(** A socket's bytes and, once they end, why: [None] is still open. *)
Record Incoming := mkIncoming { in_bytes : bytes; in_end : option IoError }.

(** [read_exact]; [None] waits. *)
Definition read_exact (n : nat) (s : Incoming) : option (result IoError (bytes * Incoming)) :=
  if decide (n ≤ length (in_bytes s))%nat then Some (Ok (take n (in_bytes s), mkIncoming (drop n (in_bytes s)) (in_end s)))
  else Err <$> in_end s.

Definition TPKT_HEADER : nat := 4.
Definition TPKT_MAX : nat := 65535.

(** One whole TPKT unit, and what is left. *)
Definition read_tpkt (s : Incoming) : option (result IoError (bytes * Incoming)) :=
  match read_exact TPKT_HEADER s with
  | Some (Ok ([b0; b1; b2; b3], rest)) =>
      let length := Z.to_nat (u8 b2 * 256 + u8 b3) in
      if decide (TPKT_HEADER ≤ length ≤ TPKT_MAX)%nat then
        match read_exact (length - TPKT_HEADER) rest with
        | Some (Ok (body, rest)) => Some (Ok ([b0; b1; b2; b3] ++ body, rest))
        | other => other
        end
      else Some (Err (mkIo InvalidData ("implausible TPKT length " +:+ pretty (Z.of_nat length)) None))
  | other => other
  end.

(** RDP_NEG_FAILURE in a connection confirm. *)
Definition negotiation_failed (confirm : bytes) : bool :=
  match confirm !! 5%nat with
  | Some code => bool_decide (Z.land (u8 code) 0xF0 = 0xD0) && bool_decide (confirm !! 11%nat = Some x03)
  | None => false
  end.

(** [SecurityProtocol]'s flags. *)
Definition SSL : Z := 1.
Definition HYBRID : Z := 2.
Definition HYBRID_EX : Z := 8.

(** The [ip()] of an address written as [to_string] writes it: [ip:port], or [[ip%scope]:port]. *)
Definition ip_text (addr : string) : string :=
  let ip := match rsplit_once ":"%char (to_chars addr) with Some (ip, _) => ip | None => to_chars addr end in
  of_chars (match strip_prefix ["["%char] ip with
            | Some rest =>
                let inner := match rsplit_once "]"%char rest with Some (i, _) => i | None => rest end in
                match split_once "%"%char inner with Some (i, _) => i | None => inner end
            | None => ip
            end).

(** ** What happens around a session *)

Inductive timed (A : Type) := InTime (a : A) | TooLate.
Arguments InTime {A} a.
Arguments TooLate {A}.

(** What a session does: to the client, to the resolver and to the server. *)
Inductive Act :=
  | Ponged (p : bytes)
  | SentClient (b : bytes)
  | ClosedClient
  | LookedUp (host : string) (port : Z)
  | Connected (addr : string)
  | WroteServer (b : bytes)
  | StartedTls (host : string).

Record Visit := mkVisit {
  v_items : list WsItem;
  v_now : Z;                                   (** the wall clock at admission *)
  v_at : Z;                                    (** the monotonic clock at admission *)
  v_lookup : string → Z → timed (result string (list string));
  v_open : Z;                                  (** the wall clock at the opening *)
  v_connect : string → timed (result IoError unit);
  v_wrote : option IoError;
  v_server : Incoming;                         (** what the server answers within the deadline *)
  v_tls : timed (result IoError (list bytes)); (** the certificates it showed *)
  v_sent : option string;                      (** the error of sending the answer *)
  v_before_admit : App → App;                  (** what other requests do before each hold of the gate *)
  v_before_open : App → App;
  v_before_established : App → App;
}.

(** The running proxy, and what the session did. *)
Record Running := mkRunning { ru_app : App; ru_acts : list Act }.

(** The session that bytes now flow in. *)
Record Ready := mkReady { rdy_target : Server; rdy_hybrid_ex : bool }.

(** ** The session *)

Section serve.
Context {L : ProxyLib} (scanning_on : bool) (s : Session) (v : Visit).

Abbreviation X := (M Running SessionError).

Definition act (a : Act) : X unit := modify (fun r => mkRunning (ru_app r) (ru_acts r ++ [a])).
Definition others (f : App → App) : X unit := modify (fun r => mkRunning (f (ru_app r)) (ru_acts r)).
Definition on_running {A} (f : App → A * App) : X A := fun r =>
  let '(x, a) := f (ru_app r) in (Ok x, mkRunning a (ru_acts r)).

(** Tell the client why, close, and end with the error. *)
Definition fail_ {A} (p : RDCleanPathPdu) (e : SessionError) : X A :=
  _ ← match to_der p with Ok der => act (SentClient der) | Err _ => mret () end;
  _ ← act ClosedClient;
  throw e.

(** One refusal shape for every denial. *)
Definition refuse_ {A} : X A := fail_ new_general_error SRefused.

(** The RDCleanPath request: server id, ticket and the X.224 request. *)
Definition request_of (b : bytes) : option (string * string * bytes) :=
  match from_der b ≫= into_enum with
  | Some (Request d auth x) => Some (d, auth, x)
  | _ => None
  end.

(** Why a server could not be reached: the PDU for the client and the error for the log. *)
Abbreviation Unreached := (RDCleanPathPdu * SessionError)%type.

Definition timed_out (what : string) : Unreached := (new_wsa_error WSAETIMEDOUT, STimeout what).

Definition new_negotiation_error (x224 : bytes) : result string RDCleanPathPdu :=
  match octets_error x224 with
  | Some e => Err e
  | None => Ok (error_pdu NEGOTIATION_ERROR_CODE None None (Some x224))
  end.

Definition new_response (addr : string) (x224 : bytes) (chain : list bytes) : result string RDCleanPathPdu :=
  match head (omap octets_error (x224 :: chain)) with
  | Some e => Err e
  | None => Ok (mkRdc VERSION_1 None None None None None (Some x224) (Some chain) (Some addr))
  end.

(** X.224, exactly as the client sent it, then TLS: the certificates and the server's confirm. *)
Definition reach (addr : string) (x224 : bytes) (host : string) : X (result Unreached (list bytes * bytes)) :=
  _ ← act (Connected addr);
  match v_connect v addr with
  | TooLate => mret (Err (timed_out "connecting to the server"))
  | InTime (Err e) => mret (Err (wsa_error e, SIo e))
  | InTime (Ok _) =>
      _ ← act (WroteServer x224);
      match match v_wrote v with Some e => Some (Err e) | None => read_tpkt (v_server v) end with
      | None => mret (Err (timed_out "waiting for the server's X.224 confirm"))
      | Some (Err e) => mret (Err (wsa_error e, SIo e))
      | Some (Ok (confirm, _)) =>
          if negotiation_failed confirm then
            mret (Err (match new_negotiation_error confirm with Ok p => p | Err _ => new_general_error end, SNegotiation))
          else
            match name_error host with
            | Some e => mret (Err (new_general_error, STls e))
            | None =>
                _ ← act (StartedTls host);
                match v_tls v with
                | TooLate => mret (Err (timed_out "in the TLS handshake with the server"))
                | InTime (Err e) => mret (Err (tls_failure e, STls (io_text e)))
                | InTime (Ok chain) => mret (Ok (chain, confirm))
                end
            end
      end
  end.

(** How the stream after the handshake is framed; [None] is a protocol the scan cannot frame. *)
Definition framing_of (confirm : bytes) : option bool :=
  match confirm_protocol confirm with
  | Some p =>
      if decide (Z.land p HYBRID_EX = HYBRID_EX) then Some true
      else if decide (Z.land p (Z.lor SSL HYBRID) ≠ 0) then Some false
      else if scanning_on then None else Some false
  | None => if scanning_on then None else Some false
  end.

(** The answer goes back and the session counts as established. *)
Definition establish (addr : string) (confirm : bytes) (chain : list bytes) : X unit :=
  match new_response (ip_text addr) confirm chain ≫= to_der with
  | Err e => throw (STls e)
  | Ok der =>
      _ ← act (SentClient der);
      match v_sent v with
      | Some e => throw (SWebSocket e)
      | None =>
          _ ← others (v_before_established v);
          on_running (fun a => (tt, with_live (set_established (s_live_id s) (live a)) a))
      end
  end.

(** From an address to bytes. *)
Definition connect_server (target : Server) (addr : string) (x224 : bytes) : X Ready :=
  reached ← reach addr x224 (host target);
  match reached with
  | Err (p, e) => fail_ p e
  | Ok (chain, confirm) =>
      match framing_of confirm with
      | None => refuse_
      | Some hybrid_ex =>
          _ ← establish addr confirm chain;
          mret (mkReady target hybrid_ex)
      end
  end.

(** From an admitted server to bytes. *)
Definition open_server (target : Server) (x224 : bytes) : X Ready :=
  _ ← act (LookedUp (host target) (port target));
  match v_lookup v (host target) (port target) with
  | TooLate => fail_ (new_wsa_error WSAHOST_NOT_FOUND) (STimeout "resolving the server's name")
  | InTime found =>
      match resolve_one found with
      | Err (Ambiguous _) => fail_ new_general_error SRefused
      | Err _ => fail_ (new_wsa_error WSAHOST_NOT_FOUND) SRefused
      | Ok addr =>
          _ ← others (v_before_open v);
          opened ← on_running (record_open s target addr (v_open v));
          if opened : bool then connect_server target addr x224 else refuse_
      end
  end.

(** [Session::serve] up to the relay: [None] when the client closed before asking. *)
Definition serve : X (option Ready) :=
  let '(first, pongs) := first_binary (v_items v) in
  _ ← modify (fun r => mkRunning (ru_app r) (ru_acts r ++ (Ponged <$> pongs)));
  match first with
  | None => throw (STimeout "waiting for the client's request")
  | Some (Err e) => throw e
  | Some (Ok None) => mret None
  | Some (Ok (Some b)) =>
      match request_of b with
      | None => throw SNotARequest
      | Some (target_id, auth, x224) =>
          _ ← others (v_before_admit v);
          admitted ← on_running (admit_session s target_id auth (v_now v) (v_at v));
          match admitted with
          | Err _ => refuse_
          | Ok target => ready ← open_server target x224; mret (Some ready)
          end
      end
  end.
End serve.
