(* ===== verification/ProxyFacts.v ===== *)
(** * What setting a session up guarantees (src/src/proxy.rs) *)

From S2P Require Import Prelude Tables Text Utf8 Store Policy Auth Live Vault App AppFacts Proxy.
Local Open Scope Z_scope.

(** ** What a session did, by whom it touched *)

Definition to_client (a : Act) : bool :=
  match a with Ponged _ | SentClient _ | ClosedClient => true | _ => false end.

Definition client_acts : list Act → list Act := List.filter to_client.
Definition outward_acts : list Act → list Act := List.filter (fun a => negb (to_client a)).

Section facts.
Context {L : ProxyLib} (scanning_on : bool) (s : Session) (v : Visit).

Lemma client_acts_app l k : client_acts (l ++ k) = client_acts l ++ client_acts k.
Proof. apply List.filter_app. Qed.
Lemma outward_acts_app l k : outward_acts (l ++ k) = outward_acts l ++ outward_acts k.
Proof. apply List.filter_app. Qed.
Lemma client_pongs ps : client_acts (Ponged <$> ps) = Ponged <$> ps.
Proof. unfold client_acts. induction ps as [|p ps IH]; [done|]. rewrite fmap_cons. simpl. f_equal. exact IH. Qed.
Lemma outward_pongs ps : outward_acts (Ponged <$> ps) = [].
Proof. by induction ps. Qed.
Hint Rewrite client_acts_app outward_acts_app client_pongs outward_pongs : acts.

(** What is sent to refuse. *)
Definition told_refused : list Act :=
  (match to_der new_general_error with Ok der => [SentClient der] | Err _ => [] end) ++ [ClosedClient].

Lemma fail_run {A} p e r :
  fail_ (A:=A) p e r = (Err e, mkRunning (ru_app r)
    (ru_acts r ++ (match to_der p with Ok der => [SentClient der] | Err _ => [] end) ++ [ClosedClient])).
Proof. unfold fail_, mbind, M_bind, act, modify, mret, M_ret. destruct (to_der p); simpl; by rewrite <-?app_assoc. Qed.

(** The client's request, as [serve] reads it. *)
Definition asked (pongs : list bytes) (target_id auth : string) (x224 : bytes) : Prop :=
  ∃ b, first_binary (v_items v) = (Some (Ok (Some b)), pongs) ∧ request_of b = Some (target_id, auth, x224).

Lemma serve_asked pongs tid auth x a :
  asked pongs tid auth x →
  let '(admitted, a1) := admit_session s tid auth (v_now v) (v_at v) (v_before_admit v a) in
  serve scanning_on s v (mkRunning a []) =
    match admitted with
    | Err _ => refuse_ (mkRunning a1 (Ponged <$> pongs))
    | Ok target => (ready ← open_server scanning_on s v target x; mret (Some ready)) (mkRunning a1 (Ponged <$> pongs))
    end.
Proof.
  intros (b & Hf & Hr). destruct (admit_session _ _ _ _ _ _) as [adm a1] eqn:E.
  unfold serve. rewrite Hf, Hr. unfold mbind, M_bind, modify, others, on_running. simpl. rewrite E. by destruct adm.
Qed.

(** Nothing is done unless a request was read. *)
Lemma serve_not_asked r a a' acts :
  serve scanning_on s v (mkRunning a []) = (r, mkRunning a' acts) →
  (∃ pongs tid auth x, asked pongs tid auth x) ∨ outward_acts acts = [] ∧ ∀ rdy, r ≠ Ok (Some rdy).
Proof.
  unfold serve, asked. destruct (first_binary (v_items v)) as [[[[b|]|e]|] pongs].
  - destruct (request_of b) as [[[tid auth] x]|] eqn:Hr; [by left; exists pongs, tid, auth, x, b|].
    intros [= <- _ <-]. right. simpl. by rewrite outward_pongs.
  - intros [= <- _ <-]. right. simpl. by rewrite outward_pongs.
  - intros [= <- _ <-]. right. simpl. by rewrite outward_pongs.
  - intros [= <- _ <-]. right. simpl. by rewrite outward_pongs.
Qed.

(** What an admitted session does to the resolver and the server, at most and in this order. *)
Definition outward (target : Server) (addr : string) (x224 : bytes) : list Act :=
  [LookedUp (host target) (port target); Connected addr; WroteServer x224; StartedTls (host target)].

(** The attempt ends after this many of the last two. *)
Ltac stops_after n :=
  intros [= <- <-]; simpl; rewrite <-?app_assoc; (split_and!; [done|by exists n|]); intros chain' confirm';
  (split; [done|]); intros (? & ? & [? ?] & ? & ? & ?); congruence.

Lemma reach_run addr x h r res r' :
  reach v addr x h r = (res, r') →
  ru_app r' = ru_app r ∧
  (∃ n, ru_acts r' = ru_acts r ++ Connected addr :: take n [WroteServer x; StartedTls h]) ∧
  ∀ chain confirm, res = Ok (Ok (chain, confirm)) ↔
    v_connect v addr = InTime (Ok ()) ∧ v_wrote v = None ∧ (∃ rest, read_tpkt (v_server v) = Some (Ok (confirm, rest))) ∧
    negotiation_failed confirm = false ∧ name_error h = None ∧ v_tls v = InTime (Ok chain).
Proof.
  unfold reach. unfold mbind, M_bind, act, modify, mret, M_ret. simpl.
  destruct (v_connect v addr) as [[[]|e]|]; [|stops_after 0%nat..]. simpl.
  destruct (v_wrote v) as [e|]; [stops_after 1%nat|].
  destruct (read_tpkt (v_server v)) as [[[confirm rest]|e]|]; [|stops_after 1%nat..].
  destruct (negotiation_failed confirm) eqn:Hneg; [stops_after 1%nat|].
  destruct (name_error h) as [e|]; [stops_after 1%nat|]. simpl.
  destruct (v_tls v) as [[chain|e]|]; [|stops_after 2%nat..].
  intros [= <- <-]. simpl. rewrite <-!app_assoc. split_and!; [done|by exists 2%nat|]. intros chain' confirm'.
  split; [intros [= <- <-]; eauto 10|]. by intros (_ & _ & [? [= <- _]] & _ & _ & [= <-]).
Qed.

(** What it takes for a session to be established with a server at [addr]. *)
Record establishes (target : Server) (addr : string) (chain : list bytes) (confirm : bytes) (hybrid_ex : bool) : Prop := {
  es_connect : v_connect v addr = InTime (Ok ());
  es_wrote : v_wrote v = None;
  es_confirm : ∃ rest, read_tpkt (v_server v) = Some (Ok (confirm, rest));
  es_negotiated : negotiation_failed confirm = false;
  es_name : name_error (host target) = None;
  es_tls : v_tls v = InTime (Ok chain);
  es_framed : framing_of scanning_on confirm = Some hybrid_ex;
  es_answer : ∃ der, new_response (ip_text addr) confirm chain ≫= to_der = Ok der;
  es_sent : v_sent v = None;
}.

Lemma resolve_one_ok found addr : resolve_one found = Ok addr ↔ found = Ok [addr].
Proof. destruct found as [[|x [|y l]]|e]; simpl; naive_solver. Qed.

Lemma fail_outward {A} (p : RDCleanPathPdu) e r (res : result SessionError A) r' :
  fail_ p e r = (res, r') → outward_acts (ru_acts r') = outward_acts (ru_acts r) ∧ ∀ x, res ≠ Ok x.
Proof.
  rewrite fail_run. intros [= <- <-]. split; [|done]. simpl. rewrite !outward_acts_app.
  destruct (to_der p); simpl; by rewrite app_nil_r.
Qed.

Lemma establish_run addr confirm chain r res r' :
  establish s v addr confirm chain r = (res, r') →
  outward_acts (ru_acts r') = outward_acts (ru_acts r) ∧
  (res = Ok () ↔ v_sent v = None ∧ ∃ der, new_response (ip_text addr) confirm chain ≫= to_der = Ok der).
Proof.
  unfold establish. destruct (_ ≫= to_der) as [der|e].
  2: { intros [= <- <-]. split; [done|]. split; [done|]. by intros (_ & ? & ?). }
  unfold mbind, M_bind, act, modify, others, on_running. simpl. destruct (v_sent v) as [e|]; intros [= <- <-]; simpl.
  - rewrite outward_acts_app, app_nil_r. split; [done|]. split; [done|]. by intros [? _].
  - rewrite outward_acts_app, app_nil_r. split; [done|]. split; [|done]. eauto.
Qed.

Lemma reach_ok addr x h r res r' : reach v addr x h r = (res, r') → ∃ y, res = Ok y.
Proof.
  unfold reach, mbind, M_bind, act, modify, mret, M_ret. simpl. repeat case_match; intros; simplify_eq; eauto.
Qed.

Lemma connect_server_run target addr x r res r' :
  connect_server scanning_on s v target addr x r = (res, r') →
  (∃ n, outward_acts (ru_acts r') = outward_acts (ru_acts r) ++ Connected addr :: take n [WroteServer x; StartedTls (host target)]) ∧
  ∀ rdy, res = Ok rdy ↔ rdy_target rdy = target ∧ ∃ chain confirm, establishes target addr chain confirm (rdy_hybrid_ex rdy).
Proof.
  unfold connect_server. destruct (reach v addr x (host target) r) as [reached r2] eqn:Hreach.
  destruct (reach_ok _ _ _ _ _ _ Hreach) as [y ->]. rewrite (bind_ok _ _ _ _ _ Hreach).
  apply reach_run in Hreach as (_ & [n Hn] & Hy).
  assert (outward_acts (ru_acts r2) = outward_acts (ru_acts r) ++ Connected addr :: take n [WroteServer x; StartedTls (host target)]) as Hout.
  { rewrite Hn, outward_acts_app. f_equal. simpl. f_equal. by destruct n as [|[|[|n]]]. }
  assert (∀ chain confirm h, establishes target addr chain confirm h → y = Ok (chain, confirm)) as Hes.
  { intros chain confirm h Hx. destruct Hx. destruct (Hy chain confirm) as [_ Hz]. enough (Ok (E:=SessionError) y = Ok (Ok (chain, confirm))) by congruence.
    apply Hz. by split_and!. }
  destruct y as [[chain confirm]|[p e]].
  2: { intros [Ho He]%fail_outward. split; [exists n; by rewrite Ho|]. intros rdy. split; [by intros ?%He|].
       by intros (_ & chain & confirm & ?%Hes). }
  destruct (framing_of scanning_on confirm) as [h|] eqn:Hf.
  2: { intros [Ho He]%fail_outward. split; [exists n; by rewrite Ho|]. intros rdy. split; [by intros ?%He|].
       intros (_ & chain' & confirm' & Hx). pose proof (Hes _ _ _ Hx) as [= <- <-]. destruct Hx. congruence. }
  destruct (establish s v addr confirm chain r2) as [res' r3] eqn:He. apply establish_run in He as Hok. destruct Hok as [Ho Hok].
  destruct (Hy chain confirm) as [Hy1 _]. destruct (Hy1 eq_refl) as (? & ? & ? & ? & ? & ?).
  destruct res' as [[]|e].
  - rewrite (bind_ok _ _ _ _ _ He). intros [= <- <-]. split; [exists n; by rewrite Ho|]. intros [t h']. simpl.
    destruct Hok as [[? ?] _]; [done|]. split.
    + intros [= <- <-]. split; [done|]. exists chain, confirm. by split.
    + intros (-> & chain' & confirm' & Hx). pose proof (Hes _ _ _ Hx) as [= <- <-]. destruct Hx. congruence.
  - rewrite (bind_err _ _ _ _ _ He). intros [= <- <-]. split; [exists n; by rewrite Ho|]. intros rdy. split; [done|].
    intros (_ & chain' & confirm' & Hx). pose proof (Hes _ _ _ Hx) as [= <- <-]. destruct Hx. destruct Hok as [_ Hok]. specialize (Hok (conj es_sent0 es_answer0)). done.
Qed.

(** What [open_server] does, by how far it comes. *)
Lemma open_server_run target x a1 acts res r' :
  open_server scanning_on s v target x (mkRunning a1 acts) = (res, r') →
  (∃ addr n, outward_acts (ru_acts r') = outward_acts acts ++ take n (outward target addr x) ∧ (0 < n)%nat ∧
    ((1 < n)%nat → v_lookup v (host target) (port target) = InTime (Ok [addr]) ∧
       fst (record_open s target addr (v_open v) (v_before_open v a1)) = true)) ∧
  ∀ rdy, res = Ok rdy ↔ rdy_target rdy = target ∧ ∃ addr chain confirm,
    v_lookup v (host target) (port target) = InTime (Ok [addr]) ∧
    fst (record_open s target addr (v_open v) (v_before_open v a1)) = true ∧
    establishes target addr chain confirm (rdy_hybrid_ex rdy).
Proof.
  unfold open_server. set (r0 := mkRunning a1 (acts ++ [LookedUp (host target) (port target)])).
  rewrite (bind_ok _ _ _ () r0) by done.
  assert (outward_acts (ru_acts r0) = outward_acts acts ++ [LookedUp (host target) (port target)]) as H0
    by (simpl; by rewrite outward_acts_app).
  destruct (v_lookup v (host target) (port target)) as [found|].
  2: { intros [Ho Hn]%fail_outward. split; [exists ""%string, 1%nat; rewrite Ho, H0; split_and!; [done|lia|lia]|].
       intros rdy. split; [by intros ?%Hn|]. by intros (_ & ? & ? & ? & ? & _). }
  destruct (resolve_one found) as [addr|e] eqn:Hone.
  2: { intros E. assert (∃ p e', fail_ (A:=Ready) p e' r0 = (res, r')) as (p & e' & E') by (destruct e; eauto).
       apply fail_outward in E' as [Ho Hn]. split; [exists ""%string, 1%nat; rewrite Ho, H0; split_and!; [done|lia|lia]|].
       intros rdy. split; [by intros ?%Hn|]. by intros (_ & ? & ? & ? & [= ->] & _). }
  apply resolve_one_ok in Hone as ->. erewrite bind_ok by reflexivity.
  destruct (record_open s target addr (v_open v) (v_before_open v a1)) as [opened a2] eqn:Hrec.
  set (r1 := mkRunning a2 (ru_acts r0)). rewrite (bind_ok _ _ _ opened r1) by (unfold on_running; simpl; by rewrite Hrec).
  destruct opened.
  - intros [[n Ho] Hr]%connect_server_run. split.
    + exists addr, (2 + n)%nat. rewrite Ho. cbn [ru_acts r1]. rewrite H0, Hrec, <-app_assoc. split_and!; [done|lia|done].
    + intros rdy. rewrite Hr. split.
      * intros (? & chain & confirm & ?). split; [done|]. exists addr, chain, confirm. by rewrite Hrec.
      * intros (? & addr' & chain & confirm & [= <-] & _ & ?). eauto.
  - intros [Ho Hn]%fail_outward. split; [exists ""%string, 1%nat; rewrite Ho; cbn [ru_acts r1]; rewrite H0; split_and!; [done|lia|lia]|].
    intros rdy. split; [by intros ?%Hn|]. intros (_ & addr' & chain & confirm & [= <-] & Hx & _). by rewrite Hrec in Hx.
Qed.

(** [serve] on a request, by whether it is admitted. *)
Lemma serve_run pongs tid auth x a r r' :
  asked pongs tid auth x → serve scanning_on s v (mkRunning a []) = (r, r') →
  match admit_session s tid auth (v_now v) (v_at v) (v_before_admit v a) with
  | (Err _, a1) => r = Err SRefused ∧ ru_acts r' = (Ponged <$> pongs) ++ told_refused
  | (Ok target, a1) => ∃ res, open_server scanning_on s v target x (mkRunning a1 (Ponged <$> pongs)) = (res, r') ∧
      ∀ rdy, r = Ok (Some rdy) ↔ res = Ok rdy
  end.
Proof.
  intros Has. pose proof (serve_asked _ _ _ _ a Has) as E.
  destruct (admit_session s tid auth (v_now v) (v_at v) (v_before_admit v a)) as [[target|e] a1]; rewrite E; clear E.
  - destruct (open_server scanning_on s v target x _) as [[rdy0|e] r1] eqn:Eo.
    + rewrite (bind_ok _ _ _ _ _ Eo). intros [= <- <-]. exists (Ok rdy0). split; [done|]. intros rdy. split; by intros [= ->].
    + rewrite (bind_err _ _ _ _ _ Eo). intros [= <- <-]. by exists (Err e).
  - unfold refuse_. rewrite fail_run. by intros [= <- <-].
Qed.

(** C5. A session reaches only the server it was admitted to. Whatever the client sends and whatever
    the network does: if the resolver or any machine is touched, the client's request was admitted to
    a server; what is then touched, in this order and no further, is the name of that server, the
    one address it resolved to, the X.224 request exactly as the client sent it, and a TLS handshake
    for that server's name; and no connection is made before the opening was recorded in the database
    that admitted it. *)
Theorem session_reaches_only_its_server (a a' : App) (r : result SessionError (option Ready)) (acts : list Act) :
  serve scanning_on s v (mkRunning a []) = (r, mkRunning a' acts) →
  outward_acts acts = [] ∨
  ∃ pongs tid auth x224 target a1 addr n, asked pongs tid auth x224 ∧
    admit_session s tid auth (v_now v) (v_at v) (v_before_admit v a) = (Ok target, a1) ∧
    outward_acts acts = take n (outward target addr x224) ∧
    ((1 < n)%nat → v_lookup v (host target) (port target) = InTime (Ok [addr]) ∧
       fst (record_open s target addr (v_open v) (v_before_open v a1)) = true).
Proof.
  intros E. destruct (serve_not_asked _ _ _ _ E) as [(pongs & tid & auth & x & Has)|[? _]]; [|by left].
  pose proof (serve_run _ _ _ _ _ _ _ Has E) as H.
  destruct (admit_session s tid auth (v_now v) (v_at v) (v_before_admit v a)) as [[target|e] a1] eqn:Ea.
  - right. destruct H as (res & Ho & _). apply open_server_run in Ho as [(addr & n & Ho & _ & Hn) _].
    exists pongs, tid, auth, x, target, a1, addr, n. split_and!; [done..| |done].
    simpl in Ho. by rewrite outward_pongs in Ho.
  - left. destruct H as [_ H]. simpl in H. rewrite H, outward_acts_app, outward_pongs. unfold told_refused.
    by destruct (to_der new_general_error).
Qed.

(** C23. A session is established exactly when the client asked for a server it is admitted to, the name
    resolved to one address, the opening was recorded, the server answered the X.224 request with a
    whole confirm that is no refusal, TLS succeeded for the server's name, the protocol the server
    chose can be framed where files are scanned, and the answer could be sent. *)
Theorem session_established_exactly (a : App) (rdy : Ready) :
  fst (serve scanning_on s v (mkRunning a [])) = Ok (Some rdy) ↔
  ∃ pongs tid auth x224 a1 addr chain confirm, asked pongs tid auth x224 ∧
    admit_session s tid auth (v_now v) (v_at v) (v_before_admit v a) = (Ok (rdy_target rdy), a1) ∧
    v_lookup v (host (rdy_target rdy)) (port (rdy_target rdy)) = InTime (Ok [addr]) ∧
    fst (record_open s (rdy_target rdy) addr (v_open v) (v_before_open v a1)) = true ∧
    establishes (rdy_target rdy) addr chain confirm (rdy_hybrid_ex rdy).
Proof.
  destruct (serve scanning_on s v (mkRunning a [])) as [r [a' acts]] eqn:E. simpl. split.
  - intros ->. destruct (serve_not_asked _ _ _ _ E) as [(pongs & tid & auth & x & Has)|[_ H]]; [|by destruct (H rdy)].
    pose proof (serve_run _ _ _ _ _ _ _ Has E) as H.
    destruct (admit_session s tid auth (v_now v) (v_at v) (v_before_admit v a)) as [[target|e] a1] eqn:Ea; [|by destruct H].
    destruct H as (res & Ho & Hr). apply open_server_run in Ho as [_ Ho].
    destruct (proj1 (Ho rdy) (proj1 (Hr rdy) eq_refl)) as (<- & addr & chain & confirm & ? & ? & ?).
    by exists pongs, tid, auth, x, a1, addr, chain, confirm.
  - intros (pongs & tid & auth & x & a1 & addr & chain & confirm & Has & Ha & Hl & Hrec & He).
    pose proof (serve_run _ _ _ _ _ _ _ Has E) as H. rewrite Ha in H. destruct H as (res & Ho & Hr).
    apply open_server_run in Ho as [_ Ho]. apply Hr, Ho. split; [done|]. by exists addr, chain, confirm.
Qed.

(** A denial: admission refused the request, or an import came between admission and the opening. *)
Definition denied (a : App) (pongs : list bytes) : Prop :=
  ∃ tid auth x, asked pongs tid auth x ∧
    match admit_session s tid auth (v_now v) (v_at v) (v_before_admit v a) with
    | (Err _, _) => True
    | (Ok target, a1) => ∃ addr, v_lookup v (host target) (port target) = InTime (Ok [addr]) ∧
        fst (record_open s target addr (v_open v) (v_before_open v a1)) = false
    end.

(** Every denial looks the same to the client: whichever of the reasons a request was denied for
    (ticket, sign-in, server, assignment, store, import), what the client is sent is the general
    error and a close, and the session ends as refused. *)
Theorem denials_look_alike (a a' : App) (pongs : list bytes) (r : result SessionError (option Ready)) (acts : list Act) :
  denied a pongs → serve scanning_on s v (mkRunning a []) = (r, mkRunning a' acts) →
  r = Err SRefused ∧ client_acts acts = (Ponged <$> pongs) ++ told_refused.
Proof.
  intros (tid & auth & x & Has & Hd) E. pose proof (serve_run _ _ _ _ _ _ _ Has E) as H.
  assert (client_acts told_refused = told_refused) as Htold by (unfold told_refused; by destruct (to_der new_general_error)).
  destruct (admit_session s tid auth (v_now v) (v_at v) (v_before_admit v a)) as [[target|e] a1] eqn:Ea.
  - clear H. destruct Hd as (addr & Hl & Hrec). pose proof (serve_asked _ _ _ _ a Has) as Es. rewrite Ea in Es.
    destruct (record_open s target addr (v_open v) (v_before_open v a1)) as [opened a2] eqn:Ho. simpl in Hrec. subst opened.
    assert (open_server scanning_on s v target x (mkRunning a1 (Ponged <$> pongs)) =
      (Err SRefused, mkRunning a2 (((Ponged <$> pongs) ++ [LookedUp (host target) (port target)]) ++ told_refused))) as Eo.
    { unfold open_server. rewrite (bind_ok _ _ _ () (mkRunning a1 ((Ponged <$> pongs) ++ [LookedUp (host target) (port target)]))) by done.
      rewrite Hl. cbn [resolve_one]. erewrite bind_ok by reflexivity. erewrite bind_ok by (unfold on_running; simpl; by rewrite Ho).
      cbv iota. unfold refuse_. by rewrite fail_run. }
    rewrite (bind_err _ _ _ _ _ Eo), E in Es. injection Es as -> _ ->.
    split; [done|]. rewrite !client_acts_app, client_pongs, Htold. simpl. by rewrite app_nil_r.
  - destruct H as [-> H]. simpl in H. rewrite H, client_acts_app, client_pongs, Htold. done.
Qed.
End facts.
