(* ===== verification/Web.v ===== *)
(** * The user's requests (src/src/web.rs)

    Errors and their statuses, who is asking, the guards every request passes, sign-in with a local
    or a directory account, sign-out, the list of servers, connect tickets and saved credentials. A
    request that leaves the gate for something slow is written as its parts, with what other
    requests did in between as an argument. The clocks and random bytes are arguments. *)

From S2P Require Import Prelude Tables Text Utf8 Store Policy Auth Live Settings Vault Directory App.
Local Open Scope Z_scope.

(** ** Errors *)

Record ApiError := mkApiError { status : Z; message : string }.

Definition BAD_REQUEST : Z := 400.
Definition UNAUTHORIZED : Z := 401.
Definition FORBIDDEN_ : Z := 403.
Definition NOT_FOUND : Z := 404.
Definition REQUEST_TIMEOUT : Z := 408.
Definition CONFLICT : Z := 409.
Definition PAYLOAD_TOO_LARGE : Z := 413.
Definition INTERNAL_SERVER_ERROR : Z := 500.
Definition SERVICE_UNAVAILABLE : Z := 503.

Definition bad_request (m : string) : ApiError := mkApiError BAD_REQUEST m.
Definition not_found : ApiError := mkApiError NOT_FOUND "not found".
Definition conflict (m : string) : ApiError := mkApiError CONFLICT m.
Definition internal : ApiError :=
  mkApiError INTERNAL_SERVER_ERROR "the proxy could not complete that request".

Definition from_store_error (e : StoreError) : ApiError :=
  match e with
  | NotFound => not_found
  | Conflict m => conflict m
  | Invalid m => bad_request m
  | _ => internal
  end.

Definition vault_error_text (e : VaultError) : string :=
  match e with
  | Locked => "the credential store is locked; an administrator must unlock it with the recovery passphrase"
  | WrongPassphrase => "the passphrase is not correct"
  | NoRecovery => "no recovery passphrase has been set"
  | Weak => "the passphrase must be at least " +:+ pretty (Z.of_nat MIN_PASSPHRASE) +:+ " characters"
  | _ => ""
  end.

Definition from_vault_error (e : VaultError) : ApiError :=
  match e with
  | Locked | NoRecovery => conflict (vault_error_text e)
  | WrongPassphrase | Weak => bad_request (vault_error_text e)
  | VStore s => from_store_error s
  | _ => internal
  end.

Definition dir_error_text (e : DirError) : string :=
  match e with
  | InvalidCredentials => "the username or password is not correct"
  | Refused r => refusal_text r
  | OtherDomain who => "the account " +:+ who +:+ " is not in the configured domain"
  | Unreachable why => "no domain controller could be reached: " +:+ why
  | Protocol why => "directory: " +:+ why
  | Config why => "directory configuration: " +:+ why
  end.

Definition from_dir_error (e : DirError) : ApiError :=
  match e with
  | InvalidCredentials | OtherDomain _ | Refused _ => mkApiError UNAUTHORIZED (dir_error_text e)
  | Unreachable _ =>
      mkApiError SERVICE_UNAVAILABLE "the directory could not be reached; try again shortly"
  | _ => internal
  end.

(** One answer for "no such server" and "not yours". *)
Definition from_policy_error (e : PolicyError) : ApiError :=
  match e with
  | PDenied _ => not_found
  | PStore s => from_store_error s
  end.

(** A handler acts on the running proxy and may return early with an error. *)
Abbreviation W := (M App ApiError).

Definition on_store {E A} (f : E → ApiError) (m : M Db E A) : W A := fun a =>
  let '(r, db) := m (store_ a) in
  (match r with Ok x => Ok x | Err e => Err (f e) end, with_store db a).
Definition sto {A} : store A → W A := on_store from_store_error.

Definition log (now : Z) (actor action detail : string) : W unit := sto (audit now actor action detail).

(** ** Who is asking *)

Section requests.
Context {U : Unicode} {C : Crypto} (sha256 : bytes → bytes) (from_slice : bytes → option Settings) (cfg : Cfg).

Definition sign_in_first : ApiError := mkApiError UNAUTHORIZED "sign in".

Definition session_of (token_hash : bytes) (now : Z) : W User :=
  u ← sto (session_user token_hash now);
  lift (ok_or sign_in_first u).

(** [CurrentUser]: the session named by the first [Cookie] header that names one. *)
Definition current_user (cookies : list string) (now : Z) : W (User * bytes) :=
  token ← lift (ok_or sign_in_first (find_map (fun h => cookie_value h COOKIE) cookies));
  let h := token_hash sha256 token in
  u ← session_of h now;
  mret (u, h).

Definition admin_only (u : User) : W User :=
  if app_is_admin cfg u then mret u else throw (mkApiError FORBIDDEN_ "administrators only").

(** [AdminUser], [AdminToken] and [revalidate_admin]. *)
Definition admin_user (cookies : list string) (now : Z) : W (User * bytes) :=
  uh ← current_user cookies now;
  _ ← admin_only uh.1;
  mret uh.

Definition revalidate_admin (token_hash : bytes) (now : Z) : W User :=
  u ← session_of token_hash now; admin_only u.

(** ** Guards *)

Fixpoint drop_slashes (l : chars) : chars :=
  match l with
  | "/"%char :: l' => drop_slashes l'
  | _ => l
  end.

(** [trim_end_matches('/')]. *)
Definition trim_end_slashes (l : chars) : chars := reverse (drop_slashes (reverse l)).

(** The Origin names the host the request was sent to. *)
Definition same_origin (host origin : option string) : bool :=
  match host, origin with
  | Some host, Some origin =>
      match split_str_once (to_chars "://") (to_chars origin) with
      | Some (_, rest) => nocase_eq (of_chars (trim_end_slashes rest)) host
      | None => false
      end
  | _, _ => false
  end.

Inductive Method := GET | HEAD | OPTIONS | POST | PUT | DELETE | OtherMethod (name : string).
#[export] Instance Method_eq : EqDecision Method.
Proof. solve_decision. Defined.

Definition method_text (m : Method) : string :=
  match m with
  | GET => "GET" | HEAD => "HEAD" | OPTIONS => "OPTIONS" | POST => "POST" | PUT => "PUT"
  | DELETE => "DELETE" | OtherMethod n => n
  end.

Definition safe_method (m : Method) : bool :=
  match m with GET | HEAD | OPTIONS => true | _ => false end.

Record Request := mkRequest {
  r_method : Method;
  r_path : string;
  r_host : option string;
  r_origin : option string;
  r_instance : option string;
  r_body_fits : bool;
}.

Definition SSO_POST : string := "/api/saml/acs".

Definition starts_with (p s : string) : bool := bool_decide (is_Some (strip_prefix (to_chars p) (to_chars s))).
Definition ends_with_slash (s : string) : bool := bool_decide (last (to_chars s) = Some "/"%char).

Definition SELF_GATED_ROUTES : list (string * string) :=
  [("POST", "/api/login"); ("POST", SSO_POST); ("POST", "/api/admin/users");
   ("POST", "/api/admin/settings/directory-password"); ("POST", "/api/admin/migration/export");
   ("POST", "/api/admin/migration/import"); ("POST", "/api/admin/migration/import/")]%string.

Definition MIGRATION_ROUTES : list (string * string) :=
  [("POST", "/api/admin/migration/export"); ("POST", "/api/admin/migration/import");
   ("POST", "/api/admin/migration/import/")]%string.

Definition route_in (routes : list (string * string)) (m : Method) (path : string) : bool :=
  existsb (fun mp => bool_decide (mp.1 = method_text m)
    && (if ends_with_slash mp.2 then starts_with mp.2 path else bool_decide (path = mp.2))) routes.

(** Seconds a request may take. *)
Definition REQUEST_DEADLINE : Z := 120.
Definition MIGRATION_DEADLINE : Z := 30 * 60.
Definition deadline (m : Method) (path : string) : Z :=
  if route_in MIGRATION_ROUTES m path then MIGRATION_DEADLINE else REQUEST_DEADLINE.

Definition needs_instance (m : Method) (path : string) : bool :=
  negb (safe_method m) && starts_with "/api/" path && negb (bool_decide (path = "/api/logout"%string))
  && negb (starts_with "/api/admin/migration/" path).

Definition origin_guard {A} (req : Request) (next : W A) : W A :=
  let sso := bool_decide (r_method req = POST) && bool_decide (r_path req = SSO_POST) in
  if safe_method (r_method req) || sso || same_origin (r_host req) (r_origin req) then next
  else throw (mkApiError FORBIDDEN_ "cross-origin request refused").

(** A request that does not take the gate itself runs under a shared hold; a change names the
    database its page was loaded from. *)
Definition gate_requests {A} (req : Request) (next : W A) : W A :=
  if route_in SELF_GATED_ROUTES (r_method req) (r_path req) then next
  else if negb (r_body_fits req) then throw (mkApiError PAYLOAD_TOO_LARGE "the request body is too large")
  else
    if needs_instance (r_method req) (r_path req) then
      current ← gets (fun a => instance (store_ a));
      if decide (current = ""%string ∨ r_instance req ≠ Some current)
      then throw (conflict "this proxy's data changed after the page was loaded; reload the page")
      else next
    else next.

(** The layers of the router, outermost first, around the handler of a route. *)
Definition guarded {A} (req : Request) (handler : W A) : W A :=
  origin_guard req (gate_requests req handler).

(** ** Sign-in *)

Record Me := mkMe {
  me_username : string;
  me_display_name : option string;
  me_is_admin : bool;
  remaining_secs : option Z;
  me_renew_below_secs : Z;
  me_max_file_bytes : option Z;
  me_scanning : bool;
}.

Definition me_of (u : User) (expires : option Z) (now : Z) : W Me :=
  settings ← sto (settings_read from_slice);
  mret (mkMe (username u) (display_name u) (app_is_admin cfg u)
          ((fun e => Z.max (e - now) 0) <$> expires)
          (renew_below_secs settings) (settings_max_file_bytes settings) (scanning cfg)).

Definition REFUSED : string :=
  "the username or password is not correct, or the account cannot sign in".
Definition CHANGED : string := "the account changed during sign-in".
Definition THROTTLED : string := "too many failed sign-ins; refused without checking the password".
Definition THROTTLED_ADDRESS : string :=
  "too many failed sign-ins from this address; refused without asking the directory".

(** [refused]: recorded, and answered without saying why. *)
Definition refuse_sign_in {A} (now : Z) (name why : string) : W A :=
  _ ← log now name "signin.refused" why;
  throw (mkApiError UNAUTHORIZED REFUSED).

Definition told (r : Directory.Refusal) : string := if proves_password r then refusal_text r else REFUSED.

(** What a password check decided, before anything is written. *)
Inductive Checked :=
  | CheckedLocal (user incarnation : Z) (hash : string)
  | CheckedDirectory (account : Account)
  | CheckedRefused (why : string)
  | CheckedTold (r : Directory.Refusal).

(** The three times a local check looks at the throttle, and what others did while it waited for a
    permit and while the hash ran. *)
Record LocalTimes := mkLocalTimes { t_first : Z; t_second : Z; t_done : Z }.

Definition check_local (name : string) (user incarnation : Z) (hash password : string)
    (t : LocalTimes) (waiting hashing : App → App) : W Checked :=
  if negb (allow_local_accounts cfg) then
    mret (CheckedRefused "local accounts are not allowed by config.toml")
  else fun a =>
    let '(b1, th) := blocked_at name (t_first t) (throttle a) in
    let a := with_throttle th a in
    if b1 : bool then (Ok (CheckedRefused THROTTLED), a)
    else
      let a := waiting a in
      let '(b2, th) := blocked_at name (t_second t) (throttle a) in
      let a := with_throttle th a in
      if b2 : bool then (Ok (CheckedRefused THROTTLED), a)
      else
        let a := hashing a in
        if verify_password password hash
        then (Ok (CheckedLocal user incarnation hash), with_throttle (clear_throttle name (throttle a)) a)
        else (Ok (CheckedRefused "local password did not match"),
              with_throttle (fail_at name (t_done t) (throttle a)) a).

(** An address: IPv4, or the eight groups of an IPv6 one. *)
Inductive Ip := V4 (a b c d : Z) | V6 (segments : list Z).

(** [IpAddr::to_canonical]: an IPv4-mapped address is the IPv4 one. *)
Definition to_canonical (ip : Ip) : Ip :=
  match ip with
  | V6 [0; 0; 0; 0; 0; 65535; x; y] => V4 (x / 256) (x mod 256) (y / 256) (y mod 256)
  | _ => ip
  end.

(** [{:x}] of a 16-bit group. *)
Definition hex_group (z : Z) : string :=
  let ds := (fun i => Z.land (Z.shiftr z (4 * i)) 15) <$> [3; 2; 1; 0] in
  of_chars (hex_digit <$>
    match drop_while (fun d => bool_decide (d = 0)) ds with [] => [0] | l => l end).

Definition client_key (peer : option Ip) : string :=
  match to_canonical <$> peer with
  | Some (V4 a b c d) => pretty a +:+ "." +:+ pretty b +:+ "." +:+ pretty c +:+ "." +:+ pretty d
  | Some (V6 s) =>
      match s with
      | s0 :: s1 :: s2 :: s3 :: _ =>
          hex_group s0 +:+ ":" +:+ hex_group s1 +:+ ":" +:+ hex_group s2 +:+ ":" +:+ hex_group s3 +:+ "::/64"
      | _ => ""
      end
  | None => "unknown"
  end.

(** The only answers that keep their place in the client's budget. *)
Definition guessed_wrong (r : result DirError Account) : bool :=
  match r with
  | Err InvalidCredentials => true
  | Err (Refused r) => negb (proves_password r)
  | _ => false
  end.

(** [net] is what the domain controllers answered; [asking] what others did meanwhile. *)
Definition check_directory (client typed password : string) (now at_ : Z) (net : Network)
    (asking : App → App) : W Checked := fun a =>
  match c_directory cfg with
  | None => (Ok (CheckedRefused "no directory is configured"), a)
  | Some d =>
      let '(taken, th) := take_at client at_ (address_throttle a) in
      let a := with_address_throttle th a in
      if negb taken then (Ok (CheckedRefused THROTTLED_ADDRESS), a)
      else
        let '(result, p) := authenticate d net typed password now (preferred a) in
        let a := asking (with_preferred p a) in
        let a := if guessed_wrong result then a
                 else with_address_throttle (refund client (address_throttle a)) a in
        (match result with
         | Ok account => Ok (CheckedDirectory account)
         | Err InvalidCredentials => Ok (CheckedRefused "directory refused the credentials")
         | Err (Refused r) => Ok (CheckedTold r)
         | Err (OtherDomain _) => Ok (CheckedRefused "the account is not in the configured domain")
         | Err e => Err (from_dir_error e)
         end, a)
  end.

(** A sign-in session for the row that was authenticated, and only that row. *)
Definition start_session (u : User) (now : Z) (random : bytes) : W (string * Z * Z) :=
  let token := random_token random in
  settings ← sto (settings_read from_slice);
  let lasts := signin_secs settings in
  let expires := now + lasts in
  made ← sto (session_create now (token_hash sha256 token) (user_id u) (incarnation u) expires);
  if made : bool then mret (token, expires, lasts) else refuse_sign_in now (username u) CHANGED.

Definition filter_opt {A} (p : A → bool) (o : option A) : option A :=
  match o with Some x => if p x then Some x else None | None => None end.

(** The account must still be the local account whose hash was checked. *)
Definition finish_local (name : string) (user inc : Z) (hash : string) (now : Z) (random : bytes) : W User :=
  found ← sto (user_by_id user);
  let u := filter_opt (fun u => local u && bool_decide (incarnation u = inc)) found in
  current ← sto (local_hash user);
  match filter_opt (fun _ => bool_decide (current = Some hash)) u with
  | None => refuse_sign_in now name CHANGED
  | Some u =>
      let sid_ := match sid u with
                  | Some s => s
                  | None => "local:" +:+ of_chars (take 32 (to_chars (random_token random)))
                  end in
      recorded ← sto (user_record_login now (user_id u) (incarnation u) sid_ None);
      if recorded : bool then mret u else refuse_sign_in now name CHANGED
  end.

(** [sid_mismatch]: the account signing in is not the one this row is bound to. *)
Definition refuse_mismatch {A} (u : User) (account : Account) (bound : string) (now : Z) : W A :=
  _ ← sto (user_flag_mismatch (user_id u));
  _ ← log now (acc_username account) "signin.refused"
        ("account SID " +:+ acc_sid account +:+ " does not match the registered " +:+ bound);
  throw (mkApiError FORBIDDEN_
    "this account does not match the one registered here; an administrator must confirm it").

(** The row for an account the directory vouched for: found by its name, renamed to it, or made. *)
Definition directory_row (account : Account) (now rnd : Z) : W User :=
  named ← sto (user_by_name (acc_username account));
  match named with
  | Some u => mret u
  | None =>
      bound ← sto (directory_user_by_sid (acc_sid account));
      match bound with
      | Some old =>
          renamed ← sto (user_rename (user_id old) (incarnation old) (acc_sid account) (acc_username account));
          if negb renamed then refuse_sign_in now (acc_username account) CHANGED
          else
            _ ← log now (acc_username account) "user.renamed"
                  ("renamed in the directory from " +:+ username old);
            u ← sto (user_by_id (user_id old));
            match filter_opt (fun u => bool_decide (incarnation u = incarnation old)) u with
            | Some u => mret u
            | None => refuse_sign_in now (acc_username account) CHANGED
            end
      | None => sto (user_create_returning now rnd (acc_username account) (acc_display_name account))
      end
  end.

Definition finish_directory (account : Account) (now rnd : Z) : W User :=
  u ← directory_row account now rnd;
  if local u then refuse_sign_in now (acc_username account) "a local account holds this name"
  else
    match filter_opt (fun bound => negb (bool_decide (bound = acc_sid account))) (sid u) with
    | Some bound => refuse_mismatch u account bound now
    | None =>
        recorded ← sto (user_record_login now (user_id u) (incarnation u) (acc_sid account)
                          (acc_display_name account));
        if recorded : bool then mret u
        else
          again ← sto (user_by_id (user_id u));
          match filter_opt (fun v => bool_decide (incarnation v = incarnation u)) again ≫= sid with
          | Some bound =>
              if decide (bound ≠ acc_sid account) then refuse_mismatch u account bound now
              else refuse_sign_in now (acc_username account) CHANGED
          | None => refuse_sign_in now (acc_username account) CHANGED
          end
    end.

(** ** The parts of [login] *)

(** Under a short hold: what to check against, and in which database. *)
Definition login_read (name : string) : W (Z * option (Z * Z * string)) :=
  found ← sto (user_by_name name);
  l ← match filter_opt local found with
      | Some u => h ← sto (local_hash (user_id u));
                  mret (Some (user_id u, incarnation u, default ""%string h))
      | None => mret None
      end;
  g ← gets generation;
  mret (g, l).

(** Under a hold again: recorded only in the database the check was made against. *)
Definition login_finish (g : Z) (checked : Checked) (name : string) (now rnd : Z) (r_sid r_token : bytes) :
    W (string * Me) :=
  current ← gets generation;
  if decide (current ≠ g) then
    throw (mkApiError SERVICE_UNAVAILABLE "the proxy's data was replaced while you signed in; sign in again")
  else
    u ← match checked with
        | CheckedRefused why => refuse_sign_in now name why
        | CheckedTold r =>
            _ ← log now name "signin.refused" ("directory: " +:+ refusal_text r +:+ " (data " +:+ code r +:+ ")");
            throw (mkApiError UNAUTHORIZED (told r))
        | CheckedLocal user inc hash => finish_local name user inc hash now r_sid
        | CheckedDirectory account => finish_directory account now rnd
        end;
    started ← start_session u now r_token;
    let '(token, expires, lasts) := started in
    _ ← sto (sessions_purge now);
    _ ← log now (username u) "signin" (if local u then "local account" else "");
    again ← sto (user_by_id (user_id u));
    u ← lift (ok_or not_found again);
    me ← me_of u (Some expires) now;
    mret (session_cookie token lasts (secure_cookies cfg), me).

(** [login]: [before] and [after] are what others did around the password check. *)
Record LoginRun := mkLoginRun {
  lr_peer : option Ip;
  lr_times : LocalTimes;
  lr_now : Z;
  lr_at : Z;
  lr_net : Network;
  lr_waiting : App → App;
  lr_hashing : App → App;
  lr_before : App → App;
  lr_after : App → App;
  lr_rnd : Z;
  lr_sid : bytes;
  lr_token : bytes;
}.

Definition login (typed password : string) (l : LoginRun) : W (string * Me) :=
  name ← lift (ok_or (bad_request "enter your username") (normalize_username typed));
  if decide (1024 < length (to_chars password))%nat then throw (bad_request "that password is too long")
  else
    gl ← login_read name;
    _ ← modify (lr_before l);
    checked ← match gl.2 with
              | Some (user, inc, hash) =>
                  check_local name user inc hash password (lr_times l) (lr_waiting l) (lr_hashing l)
              | None => check_directory (client_key (lr_peer l)) typed password (lr_now l) (lr_at l)
                          (lr_net l) (lr_hashing l)
              end;
    _ ← modify (lr_after l);
    login_finish gl.1 checked name (lr_now l) (lr_rnd l) (lr_sid l) (lr_token l).

(** ** Sign-out and the signed-in user *)

Definition logout (uh : User * bytes) (now : Z) : W string :=
  _ ← sto (session_delete uh.2);
  _ ← modify (fun a => with_live (snd (end_session uh.2 (live a))) a);
  _ ← log now (username uh.1) "signout" "";
  mret (clear_cookie (secure_cookies cfg)).

Definition me (uh : User * bytes) (now : Z) : W Me :=
  expires ← sto (session_expires uh.2);
  me_of uh.1 expires now.

(** ** The user's servers *)

Record ListedServerJson := mkListedJson {
  lj_id : Z; lj_name : string; lj_host : string; lj_domain : option string;
  lj_saved : bool; lj_connected : bool; lj_reconnect : bool;
}.
Record ListedGroup := mkListedGroup { lg_name : option string; lg_servers : list ListedServerJson }.

(** The loop's [groups.last_mut()]: the server joins the last group when that has its name. *)
Definition add_to_groups (groups : list ListedGroup) (name : option string) (item : ListedServerJson) :
    list ListedGroup :=
  match last groups with
  | Some g =>
      if decide (lg_name g = name)
      then take (length groups - 1) groups ++ [mkListedGroup (lg_name g) (lg_servers g ++ [item])]
      else groups ++ [mkListedGroup name [item]]
  | None => groups ++ [mkListedGroup name [item]]
  end.

Definition listed_json (saved connected : gset Z) (recent : gmap Z Z) (s : Server) : ListedServerJson :=
  mkListedJson (server_id s) (server_name s) (host s) (domain s)
    (bool_decide (server_id s ∈ saved)) (bool_decide (server_id s ∈ connected))
    (bool_decide (is_Some (recent !! server_id s)) && negb (bool_decide (server_id s ∈ connected))).

Definition my_servers (u : User) (now : Z) : W (list ListedGroup) :=
  l ← on_store from_policy_error (permitted (user_id u));
  saved ← sto (saved_server_ids (user_id u));
  connected ← gets (fun a => servers_for (user_id u) (live a));
  settings ← sto (settings_read from_slice);
  recent ← sto (recent_ends (user_id u) (now - signin_secs settings));
  mret (foldl (fun groups s => add_to_groups groups (listed_group s)
                                 (listed_json saved connected recent (listed s))) [] l).

(** ** Connecting *)

Record Credential := mkCredential { j_username : string; j_domain : option string; j_password : string }.

(** A ticket, and the saved credential for this connection, to its owner only. *)
Definition connect_ (u : User) (server : Z) (at_ : Z) (random : bytes) :
    W (string * (Z * string) * option Credential) :=
  s ← on_store from_policy_error (resolve (user_id u) (pretty server));
  let ticket := random_token random in
  _ ← modify (fun a => with_tickets (issue at_ ticket (user_id u) (server_id s) (tickets a)) a);
  stored ← sto (credential_get (user_id u) (server_id s));
  v ← gets vault_;
  mret (ticket, (server_id s, server_name s),
        match stored, sid u with
        | Some c, Some sid_ =>
            if is_unlocked v then
              match open v (credential_aad sid_ (server_id s)) (cred_nonce c) (cred_secret c) with
              | Ok password => Some (mkCredential (cred_username c) (cred_domain c) (from_utf8_lossy password))
              | Err _ => None
              end
            else None
        | _, _ => None
        end).

(** Why saving is unavailable right now, if it is. *)
Definition saving_blocked (a : App) : option string :=
  if frozen (store_ a) then Some "saving is paused while this proxy is being migrated"%string
  else if negb (match fst (recovery_set (store_ a)) with Ok b => b | Err _ => false end) then
    Some "saving credentials is not yet enabled on this proxy; an administrator must set the recovery passphrase"%string
  else if negb (is_unlocked (vault_ a)) then
    Some "the credential store is locked; an administrator must unlock it"%string
  else None.

Definition byte_length (s : string) : nat := length (to_chars s).

Definition save_credential (u : User) (server : Z) (name : string) (dom : option string) (password : string)
    (now : Z) (random : option bytes) : W unit :=
  blocked ← gets saving_blocked;
  match blocked with
  | Some why => throw (conflict why)
  | None =>
      s ← on_store from_policy_error (resolve (user_id u) (pretty server));
      let name := str_trim name in
      let dom := filter_opt (fun d => negb (bool_decide (d = ""%string))) (str_trim <$> dom) in
      if decide (name = ""%string ∨ (256 < byte_length name)%nat ∨ password = ""%string ∨
                 (1024 < byte_length password)%nat ∨
                 (256 < match dom with Some d => byte_length d | None => 0%nat end)%nat)
      then throw (bad_request "a username and password are required")
      else
        sid_ ← lift (ok_or (conflict "sign in again before saving") (sid u));
        v ← gets vault_;
        sealed ← lift (match seal v (credential_aad sid_ (server_id s)) (String.list_byte_of_string password) random with
                       | Ok x => Ok x
                       | Err e => Err (from_vault_error e)
                       end);
        _ ← sto (credential_put now (user_id u) (server_id s) (mkCred name dom sealed.1 sealed.2));
        log now (username u) "credential.save" (server_name s)
  end.

Definition forget_credential (u : User) (server : Z) (now : Z) : W unit :=
  stopped ← gets (fun a => frozen (store_ a));
  if stopped : bool then throw (conflict "changes are paused while this proxy is being migrated")
  else
    s ← on_store from_policy_error (resolve (user_id u) (pretty server));
    gone ← sto (credential_delete (user_id u) (server_id s));
    if gone : bool then log now (username u) "credential.forget" (server_name s) else mret ().

(** ** The WebSocket *)

(** The checks, and the entry made before anything is read from the socket; [accept] is whether the
    request carries a key. *)
Definition ws_upgrade (uh : User * bytes) (req : Request) (upgrade : option string) (accept : bool) : W Session :=
  if negb (same_origin (r_host req) (r_origin req)) then
    throw (mkApiError FORBIDDEN_ "cross-origin request refused")
  else
    let is_upgrade := match upgrade with Some v => nocase_eq v "websocket" | None => false end in
    if negb (is_upgrade && accept) then throw (bad_request "expected a WebSocket upgrade")
    else fun a =>
      let '(id, l) := register (user_id uh.1) uh.2 (generation a) (live a) in
      (Ok (mkSession (user_id uh.1) (username uh.1) uh.2 id), with_live l a).
End requests.
