(* ===== verification/WebFacts.v ===== *)
(** * What the user's requests guarantee

    Who a sign-in signs in, that a refused one leaves no session, what the guards let through, that
    a saved credential comes back to its owner, and that a ticket handed out opens the connection it
    was handed out for. *)

From S2P Require Import Prelude Tables Text Utf8 Store StoreInv StoreFacts Policy Auth Live Settings Vault VaultFacts Directory DirectoryFacts App AppFacts Web.
Local Open Scope Z_scope.

(** ** Steps of a handler *)

Lemma on_store_ok {E A} (f : E → ApiError) (m : M Db E A) a x a' :
  on_store f m a = (Ok x, a') ↔ ∃ db', m (store_ a) = (Ok x, db') ∧ a' = with_store db' a.
Proof. unfold on_store. destruct (m (store_ a)) as [[y|e] db']; naive_solver. Qed.

Lemma sto_ok {A} (m : store A) a x a' :
  sto m a = (Ok x, a') ↔ ∃ db', m (store_ a) = (Ok x, db') ∧ a' = with_store db' a.
Proof. apply on_store_ok. Qed.

Lemma with_store_id a : with_store (store_ a) a = a.
Proof. by destruct a. Qed.

Lemma refuse_sign_in_ok {A} now name why a (x : A) a' : refuse_sign_in now name why a ≠ (Ok x, a').
Proof. done. Qed.

Lemma refuse_mismatch_ok {A} u account bound now a (x : A) a' :
  refuse_mismatch u account bound now a ≠ (Ok x, a').
Proof.
  unfold refuse_mismatch. intros H. apply bind_ok_inv in H as (y & a1 & _ & H).
  by apply bind_ok_inv in H as (z & a2 & _ & H).
Qed.

(** What recording a sign-in wrote. *)
Lemma record_login_ok now id inc s display db db' :
  user_record_login now id inc s display db = (Ok true, db') →
  ∃ r, t_users db !! id = Some r ∧ u_incarnation r = inc ∧ (u_sid r = None ∨ u_sid r = Some s) ∧
    db' = set_users (<[id := with_login now s display r]>) db.
Proof.
  unfold user_record_login, update_user, mbind, M_bind. destruct (t_users db !! id) as [r|]; [|done].
  destruct (bool_decide (u_incarnation r = inc) && _) eqn:Hp; [|done].
  destruct (username_taken _ _ _); [done|]. intros [= <-].
  apply andb_true_iff in Hp as [Hi%bool_decide_eq_true Hs%orb_true_iff]. exists r. split_and!; try done.
  rewrite !bool_decide_eq_true in Hs. done.
Qed.

Lemma with_login_sid now s display r : u_sid r = None ∨ u_sid r = Some s → u_sid (with_login now s display r) = Some s.
Proof. unfold with_login. simpl. by intros [-> | ->]. Qed.

Section sign_in.
Context {U : Unicode} {C : Crypto} (sha256 : bytes → bytes) (from_slice : bytes → option Settings) (cfg : Cfg).

(** ** The row a sign-in ends up with *)

(** The row with this id is the one the handler holds. *)
Definition holds (u : User) (r : UserRec) (a : App) : Prop :=
  t_users (store_ a) !! user_id u = Some r ∧ u = user_from (user_id u) r.

(** Nothing but the database changed, and in it no session. *)
Definition no_session_made (a a' : App) : Prop :=
  t_sessions (store_ a') = t_sessions (store_ a) ∧ generation a' = generation a.

Lemma directory_row_ok account now rnd a u a' :
  directory_row account now rnd a = (Ok u, a') →
  no_session_made a a' ∧ ∃ r, holds u r a' ∧ u_username r = acc_username account.
Proof.
  unfold directory_row. intros H. apply bind_ok_inv in H as (named & a1 & H1 & H).
  apply sto_ok in H1 as (db1 & [= <- <-] & ->).
  destruct (select_one _ (t_users (store_ a))) as [[i r]|] eqn:Hs.
  - apply select_one_Some in Hs as [Hr Hn%bool_decide_eq_true]. injection H as <- <-.
    split; [done|]. exists r. split; [|done]. split; done.
  - cbn [fmap option_fmap option_map] in H. apply bind_ok_inv in H as (bound & a2 & H1 & H).
    apply sto_ok in H1 as (db2 & [= <- <-] & ->). cbn [store_ with_store] in H.
    match type of H with context [select_one ?P ?m] => destruct (select_one P m) as [[i r]|] eqn:Hb end;
      cbn [fmap option_fmap option_map] in H.
    + apply bind_ok_inv in H as (renamed & a3 & H1 & H). apply sto_ok in H1 as (db3 & H1 & ->).
      destruct renamed; [|by apply refuse_sign_in_ok in H]. cbn [negb] in H.
      apply bind_ok_inv in H as (y & a4 & H2 & H). apply sto_ok in H2 as (db4 & [= <- <-] & ->).
      apply bind_ok_inv in H as (found & a5 & H2 & H). apply sto_ok in H2 as (db5 & [= <- <-] & ->).
      unfold user_rename, update_user, mbind, M_bind in H1. simpl in H1.
      apply select_one_Some in Hb as [Hr _]. simpl in Hr. rewrite Hr in H1.
      destruct (_ && _) in H1; [|done]. destruct (username_taken _ _ _) in H1; [done|].
      injection H1 as <-. simpl in H. rewrite lookup_insert_eq in H. simpl in H.
      rewrite bool_decide_eq_true_2 in H by done. injection H as <- <-. split; [done|].
      eexists. split; [split; [simpl; by rewrite lookup_insert_eq|done]|done].
    + apply sto_ok in H as (db3 & H & ->). unfold user_create_returning in H.
      apply bind_ok_inv in H as (taken & d1 & [= <- <-] & H).
      destruct (username_taken _ _ _) eqn:Ht in H; [done|].
      apply bind_ok_inv in H as (id & d2 & H1 & H). unfold insert_user in H1. rewrite Ht in H1.
      destruct (next_rowid _) as [j|]; [|done]. injection H1 as <- <-.
      apply bind_ok_inv in H as (row & d3 & [= <- <-] & H). simpl in H. rewrite lookup_insert_eq in H.
      injection H as <- <-. split; [done|].
      eexists. split; [split; [simpl; by rewrite lookup_insert_eq|done]|done].
Qed.

Lemma finish_directory_ok account now rnd a u a' :
  finish_directory account now rnd a = (Ok u, a') →
  no_session_made a a' ∧ ∃ r, t_users (store_ a') !! user_id u = Some r ∧ u_incarnation r = incarnation u ∧
    u_sid r = Some (acc_sid account) ∧ u_local_hash r = None ∧ u_username r = acc_username account.
Proof.
  unfold finish_directory. intros H. apply bind_ok_inv in H as (u1 & a1 & H1 & H).
  apply directory_row_ok in H1 as ([Hses Hgen] & r & [Hr Hu] & Hname).
  destruct (local u1) eqn:Hl; [by apply refuse_sign_in_ok in H|].
  destruct (filter_opt _ (sid u1)); [by apply refuse_mismatch_ok in H|].
  apply bind_ok_inv in H as (recorded & a2 & H1 & H). apply sto_ok in H1 as (db2 & H1 & ->).
  destruct recorded; [injection H as <- <-|].
  - apply record_login_ok in H1 as (r' & Hr' & Hi & Hs & ->). rewrite Hr in Hr'. injection Hr' as <-.
    split; [by split|]. exists (with_login now (acc_sid account) (acc_display_name account) r).
    simpl store_. split; [simpl; by rewrite lookup_insert_eq|]. split; [done|].
    split; [by apply with_login_sid|]. split; [|done].
    rewrite Hu in Hl. simpl in *. apply bool_decide_eq_false in Hl. by destruct (u_local_hash r); [destruct Hl|].
  - exfalso. apply bind_ok_inv in H as (again & a3 & _ & H). destruct (_ ≫= sid).
    + case_decide; [by apply refuse_mismatch_ok in H|by apply refuse_sign_in_ok in H].
    + by apply refuse_sign_in_ok in H.
Qed.

Lemma finish_local_ok name user inc hash now random a u a' :
  finish_local name user inc hash now random a = (Ok u, a') →
  no_session_made a a' ∧ user_id u = user ∧ ∃ r, t_users (store_ a') !! user = Some r ∧
    u_incarnation r = inc ∧ incarnation u = inc ∧ u_local_hash r = Some hash.
Proof.
  unfold finish_local. intros H. apply bind_ok_inv in H as (found & a1 & H1 & H).
  apply sto_ok in H1 as (db1 & [= <- <-] & ->).
  apply bind_ok_inv in H as (current & a2 & H1 & H). apply sto_ok in H1 as (db2 & [= <- <-] & ->).
  cbn [store_ with_store] in H. destruct (t_users (store_ a) !! user) as [r|] eqn:Hr; [|done].
  cbn [fmap option_fmap option_map filter_opt mbind option_bind] in H.
  destruct (local (user_from user r) && _) eqn:Hl; [|done]. cbn [filter_opt] in H.
  apply andb_true_iff in Hl as [_ Hi%bool_decide_eq_true].
  destruct (bool_decide (u_local_hash r = Some hash)) eqn:Hh; [|done]. apply bool_decide_eq_true in Hh.
  apply bind_ok_inv in H as (recorded & a3 & H1 & H). apply sto_ok in H1 as (db3 & H1 & ->).
  destruct recorded; [|by apply refuse_sign_in_ok in H]. injection H as <- <-.
  apply record_login_ok in H1 as (r' & Hr' & _ & _ & ->). simpl in Hr'. rewrite Hr in Hr'. injection Hr' as <-.
  split; [done|]. split; [done|]. eexists. split; [simpl; by rewrite lookup_insert_eq|]. done.
Qed.

(** Settings in force give a sign-in time to last. *)
Lemma settings_read_lasts db : ∃ s, settings_read from_slice db = (Ok s, db) ∧ 0 < signin_secs s.
Proof.
  eexists. split; [reflexivity|].
  match goal with |- context [match ?o with Some _ => _ | None => _ end] => destruct o as [s|] end; [|reflexivity].
  unfold settings_check. destruct (negb _) eqn:Hn; simpl; [reflexivity|].
  apply negb_false_iff, bool_decide_eq_true in Hn.
  destruct (bool_decide _); simpl; [reflexivity|]. unfold signin_secs. lia.
Qed.

Lemma start_session_ok u now random a token expires lasts a' :
  start_session sha256 from_slice u now random a = (Ok (token, expires, lasts), a') →
  token = random_token random ∧ expires = now + lasts ∧ 0 < lasts ∧
  row_lives (user_id u) (incarnation u) (store_ a) = true ∧
  a' = with_store (set_sessions (<[token_hash sha256 token := mkSessionRec (user_id u) now expires]>) (store_ a)) a.
Proof.
  unfold start_session. intros H. apply bind_ok_inv in H as (s & a1 & H1 & H).
  destruct (settings_read_lasts (store_ a)) as (s' & Hs & Hl).
  apply sto_ok in H1 as (db1 & H1 & ->). rewrite Hs in H1. injection H1 as <- <-.
  apply bind_ok_inv in H as (made & a2 & H1 & H). apply sto_ok in H1 as (db2 & H1 & ->).
  destruct made; [|by apply refuse_sign_in_ok in H]. injection H as <- <- <- <-.
  unfold session_create in H1. simpl in H1. destruct (row_lives _ _ _) eqn:Hrow; [|done].
  destruct (t_sessions (store_ a) !! _); [done|]. injection H1 as <-. done.
Qed.

(** ** Finishing a sign-in *)

(** The session a sign-in made, and the row it is for. *)
Definition signed_in (token : string) (now : Z) (n : SessionRec) (r : UserRec) (a : App) : Prop :=
  t_sessions (store_ a) !! token_hash sha256 token = Some n ∧ n_created n = now ∧ now < n_expires n ∧
  t_users (store_ a) !! n_user_id n = Some r.

(** What the check of the password vouches for in the row. *)
Definition vouched (checked : Checked) (user : Z) (r : UserRec) : Prop :=
  match checked with
  | CheckedLocal u inc hash => user = u ∧ u_incarnation r = inc ∧ u_local_hash r = Some hash
  | CheckedDirectory account =>
      u_sid r = Some (acc_sid account) ∧ u_local_hash r = None ∧ u_username r = acc_username account
  | _ => False
  end.

Lemma login_finish_ok g checked name now rnd r_sid r_token a c a' :
  login_finish sha256 from_slice cfg g checked name now rnd r_sid r_token a = (Ok c, a') →
  generation a = g ∧ ∃ n r, signed_in (random_token r_token) now n r a' ∧ vouched checked (n_user_id n) r ∧
    ∀ h, h ≠ token_hash sha256 (random_token r_token) →
      t_sessions (store_ a') !! h = n ← t_sessions (store_ a) !! h; if decide (now < n_expires n) then Some n else None.
Proof.
  unfold login_finish. intros H. apply bind_ok_inv in H as (current & a0 & [= <- <-] & H).
  case_decide as Hg; [done|]. split; [done|].
  apply bind_ok_inv in H as (u & a1 & H1 & H).
  assert (no_session_made a a1 ∧ ∃ r, t_users (store_ a1) !! user_id u = Some r ∧
    u_incarnation r = incarnation u ∧ vouched checked (user_id u) r) as ([Hses _] & r & Hr & Hinc & Hv).
  { destruct checked as [user inc hash|account|why|rf].
    - apply finish_local_ok in H1 as (Hn & <- & r & Hr & Hi & Hu & Hh). split; [done|]. exists r.
      split_and!; [done|congruence|]. done.
    - apply finish_directory_ok in H1 as (Hn & r & Hr & Hi & Hs & Hl & Hname). split; [done|]. exists r. done.
    - by apply refuse_sign_in_ok in H1.
    - by apply bind_ok_inv in H1 as (? & ? & _ & ?). }
  apply bind_ok_inv in H as ([[token expires] lasts] & a2 & H2 & H).
  apply start_session_ok in H2 as (-> & -> & Hlasts & _ & ->).
  apply bind_ok_inv in H as (purged & a3 & H3 & H). apply sto_ok in H3 as (db3 & [= <- <-] & ->).
  apply bind_ok_inv in H as (y & a4 & H4 & H). apply sto_ok in H4 as (db4 & [= <- <-] & ->).
  apply bind_ok_inv in H as (again & a5 & H5 & H). apply sto_ok in H5 as (db5 & [= <- <-] & ->).
  apply bind_ok_inv in H as (u2 & a6 & H6 & H). injection H6 as _ <-.
  apply bind_ok_inv in H as (m & a7 & H7 & H). injection H as <- <-.
  unfold me_of in H7. apply bind_ok_inv in H7 as (s & a8 & H8 & [= <- <-]).
  apply sto_ok in H8 as (db8 & [= <- <-] & ->).
  exists (mkSessionRec (user_id u) now (now + lasts)), r. simpl store_. split_and!; [|done|].
  - unfold signed_in. simpl. rewrite map_lookup_filter, lookup_insert_eq. simpl.
    rewrite option_guard_True by (simpl; lia). split_and!; [done|done|simpl; lia|done].
  - intros h Hh. simpl. rewrite map_lookup_filter, lookup_insert_ne by done. rewrite Hses.
    destruct (t_sessions (store_ a) !! h) as [n|]; simpl; [|done].
    case_guard; case_decide; simpl in *; (done || lia).
Qed.

Lemma login_read_ok name a g o a' :
  login_read name a = (Ok (g, o), a') →
  a' = a ∧ g = generation a ∧
  ∀ user inc hash, o = Some (user, inc, hash) →
    ∃ r, t_users (store_ a) !! user = Some r ∧ u_username r = name ∧ u_incarnation r = inc ∧ u_local_hash r = Some hash.
Proof.
  unfold login_read. intros H. apply bind_ok_inv in H as (found & a1 & H1 & H).
  apply sto_ok in H1 as (db1 & [= <- <-] & ->). rewrite with_store_id in H.
  destruct (select_one _ (t_users (store_ a))) as [[i r]|] eqn:Hs; cbn [fmap option_fmap option_map filter_opt fst snd] in H.
  - apply select_one_Some in Hs as [Hr Hn%bool_decide_eq_true]. destruct (local (user_from i r)) eqn:Hl.
    + apply bind_ok_inv in H as (l & a2 & H1 & H). apply bind_ok_inv in H1 as (h & a3 & H2 & [= <- <-]).
      apply sto_ok in H2 as (db2 & [= <- <-] & ->). rewrite with_store_id in H. injection H as <- <- <-.
      split_and!; [done..|]. intros user inc hash [= <- <- <-]. exists r. split_and!; try done.
      simpl in *. apply bool_decide_eq_true in Hl as [h Hh]. rewrite Hr. simpl. by rewrite Hh.
    + by injection H as <- <- <-.
  - by injection H as <- <- <-.
Qed.

Lemma check_local_ok name user inc hash password t waiting hashing a checked a' :
  check_local cfg name user inc hash password t waiting hashing a = (Ok checked, a') →
  (∃ why, checked = CheckedRefused why) ∨
  (checked = CheckedLocal user inc hash ∧ verify_password password hash = true ∧ allow_local_accounts cfg = true).
Proof.
  unfold check_local. destruct (allow_local_accounts cfg); [|intros [= <- _]; eauto]. cbn [negb].
  destruct (blocked_at name (t_first t) (throttle a)) as [[] th]; [intros [= <- _]; eauto|].
  destruct (blocked_at _ _ _) as [[] th2]; [intros [= <- _]; eauto|].
  destruct (verify_password password hash); intros [= <- _]; eauto.
Qed.

Lemma check_directory_ok client typed password now at_ net asking a checked a' :
  check_directory cfg client typed password now at_ net asking a = (Ok checked, a') →
  (∃ why, checked = CheckedRefused why) ∨ (∃ r, checked = CheckedTold r) ∨
  ∃ d account p', checked = CheckedDirectory account ∧ c_directory cfg = Some d ∧
    authenticate d net typed password now (preferred a) = (Ok account, p').
Proof.
  unfold check_directory. destruct (c_directory cfg) as [d|]; [|intros [= <- _]; eauto].
  destruct (take_at _ _ _) as [[] th]; cbn [negb]; [|intros [= <- _]; eauto]. cbn [preferred with_address_throttle].
  destruct (authenticate d net typed password now (preferred a)) as [[account|e] p] eqn:Ha.
  - intros [= <- _]. right. right. eauto 10.
  - destruct e; intros [= <- _]; eauto.
Qed.

(** What the password proved of the row: it is the row that had this name and this hash, or it is
    bound to the account the directory authenticated. *)
Definition proved (typed password name : string) (l : LoginRun) (a : App) (user : Z) (r : UserRec) : Prop :=
  (allow_local_accounts cfg = true ∧ ∃ r0 hash, t_users (store_ a) !! user = Some r0 ∧ u_username r0 = name ∧
     u_incarnation r0 = u_incarnation r ∧ u_local_hash r = Some hash ∧ verify_password password hash = true) ∨
  (u_local_hash r = None ∧ ∃ d account p p', c_directory cfg = Some d ∧
     authenticate d (lr_net l) typed password (lr_now l) p = (Ok account, p') ∧
     u_sid r = Some (acc_sid account) ∧ u_username r = acc_username account).

(** C7. A sign-in signs in the account whose password was given. When [login] answers with a cookie,
    the database holds one new session under that token, made now and not yet expired; its user's
    row is either the local account that had the typed name when the request came in, still the
    same row with a hash this password matches, or a directory row bound to the SID of the account
    the directory authenticated with this password, under the name the directory gives it. Nothing
    other requests did while the password was checked (an account deleted and made again, a password
    reset, a rename, a database imported) changes that. *)
Theorem login_signs_in_who_proved_it (typed password : string) (l : LoginRun) (a : App) (c : string * Me) (a' : App) :
  login sha256 from_slice cfg typed password l a = (Ok c, a') →
  ∃ name n r, normalize_username typed = Some name ∧
    signed_in (random_token (lr_token l)) (lr_now l) n r a' ∧
    proved typed password name l a (n_user_id n) r.
Proof.
  unfold login. intros H. apply bind_ok_inv in H as (name & a1 & H1 & H).
  destruct (normalize_username typed) as [name'|]; [|done]. injection H1 as -> <-.
  case_decide; [done|]. apply bind_ok_inv in H as ([g o] & a2 & H1 & H).
  apply login_read_ok in H1 as (-> & -> & Ho). apply bind_ok_inv in H as ([] & a3 & _ & H).
  cbn [fst snd] in H. apply bind_ok_inv in H as (checked & a4 & H1 & H).
  apply bind_ok_inv in H as ([] & a5 & _ & H). apply login_finish_ok in H as (_ & n & r & Hin & Hv & _).
  exists name, n, r. split; [done|]. split; [done|]. destruct o as [[[user inc] hash]|].
  - apply check_local_ok in H1 as [[why ->]|(-> & Hp & Hallow)]; [done|]. left. split; [done|].
    destruct Hv as (-> & Hi & Hh). destruct (Ho _ _ _ eq_refl) as (r0 & Hr0 & Hn & Hi0 & _).
    exists r0, hash. split_and!; [done|done|congruence|done|done].
  - apply check_directory_ok in H1 as [[why ->]|[[rf ->]|(d & account & p' & -> & Hd & Ha)]]; [done..|].
    right. destruct Hv as (Hs & Hl & Hname). split; [done|]. eauto 10.
Qed.

(** ** A refused sign-in *)

(** Of these sessions, connections and tickets. *)
Definition kept (a a' : App) : Prop :=
  t_sessions (store_ a') = t_sessions (store_ a) ∧ live a' = live a ∧ tickets a' = tickets a.

Lemma sto_kept a {A} (m : store A) :
  preserves (fun db => t_sessions db = t_sessions (store_ a)) m → preserves (kept a) (sto m).
Proof.
  intros Hm a1 (Hs & Hl & Ht). unfold sto, on_store. specialize (Hm (store_ a1) Hs).
  by destruct (m (store_ a1)) as [[x|e] db].
Qed.

Lemma update_user_sessions ss id p f : preserves (fun db => t_sessions db = ss) (update_user id p f).
Proof. intros db Hs. unfold update_user. by repeat case_match. Qed.

Lemma insert_user_sessions ss rnd name display s now hash :
  preserves (fun db => t_sessions db = ss) (insert_user rnd name display s now hash).
Proof. intros db Hs. unfold insert_user. by repeat case_match. Qed.

Lemma audit_sessions ss now actor action detail :
  preserves (fun db => t_sessions db = ss) (audit now actor action detail).
Proof. by apply preserves_modify. Qed.

#[local] Hint Resolve sto_kept update_user_sessions insert_user_sessions audit_sessions : preserves.

Lemma log_kept a now actor action detail : preserves (kept a) (log now actor action detail).
Proof. unfold log. eauto with preserves. Qed.

Lemma refuse_kept a {A} now name why : preserves (kept a) (refuse_sign_in (A:=A) now name why).
Proof. unfold refuse_sign_in, log. solve_preserves. Qed.

Lemma record_login_kept a now id inc s display : preserves (kept a) (sto (user_record_login now id inc s display)).
Proof. apply sto_kept. unfold user_record_login. solve_preserves. Qed.

Lemma rename_kept a id inc s name : preserves (kept a) (sto (user_rename id inc s name)).
Proof. apply sto_kept. unfold user_rename. solve_preserves. Qed.

Lemma create_kept a now rnd name display : preserves (kept a) (sto (user_create_returning now rnd name display)).
Proof. apply sto_kept. unfold user_create_returning, user_by_id. solve_preserves. Qed.

Lemma mismatch_kept a {A} u account bound now : preserves (kept a) (refuse_mismatch (A:=A) u account bound now).
Proof.
  unfold refuse_mismatch, log, user_flag_mismatch. repeat apply preserves_bind; intros; eauto with preserves.
Qed.

Lemma read_kept a {A} (g : Db → A) : preserves (kept a) (sto (gets g)).
Proof. apply sto_kept. eauto with preserves. Qed.

#[local] Hint Resolve log_kept refuse_kept record_login_kept rename_kept create_kept mismatch_kept read_kept : preserves.

Lemma finish_local_kept a name user inc hash now random : preserves (kept a) (finish_local name user inc hash now random).
Proof. unfold finish_local, user_by_id, local_hash. solve_preserves. Qed.

Lemma finish_directory_kept a account now rnd : preserves (kept a) (finish_directory account now rnd).
Proof. unfold finish_directory, directory_row, user_by_name, user_by_id, directory_user_by_sid. solve_preserves. Qed.

Lemma start_session_err u now random a e a' :
  start_session sha256 from_slice u now random a = (Err e, a') → kept a a'.
Proof.
  unfold start_session. destruct (settings_read_lasts (store_ a)) as (s & Hs & _).
  assert (sto (settings_read from_slice) a = (Ok s, a)) as H by (apply sto_ok; eexists; by rewrite Hs, with_store_id).
  rewrite (bind_ok _ _ _ _ _ H). unfold sto at 1, on_store, session_create, mbind, M_bind. simpl.
  destruct (row_lives _ _ _); [destruct (t_sessions (store_ a) !! _)|].
  - by intros [= _ <-].
  - done.
  - intros [= _ <-]. done.
Qed.

(** A sign-in that is refused starts nothing: whatever the check decided, when the last part of
    [login] answers with an error there is no session, no ticket and no connection that was not
    there before. *)
Theorem refused_sign_in_starts_nothing (g : Z) (checked : Checked) (name : string) (now rnd : Z)
    (r_sid r_token : bytes) (a : App) (e : ApiError) (a' : App) :
  login_finish sha256 from_slice cfg g checked name now rnd r_sid r_token a = (Err e, a') →
  t_sessions (store_ a') = t_sessions (store_ a) ∧ live a' = live a ∧ tickets a' = tickets a.
Proof.
  unfold login_finish. rewrite bind_gets. case_decide as Hg; [by intros [= _ <-]|].
  match goal with |- (mbind ?f ?m) a = _ → _ => set (finish := m); set (rest := f) end.
  assert (preserves (kept a) finish) as Hk.
  { unfold finish. destruct checked; eauto using finish_local_kept, finish_directory_kept with preserves. }
  specialize (Hk a ltac:(done)). assert (∀ u a1, finish a = (Ok u, a1) → is_Some (t_users (store_ a1) !! user_id u)) as Hrow.
  { unfold finish. intros u a1 H. destruct checked as [user inc hash|account|why|rf].
    - apply finish_local_ok in H as (_ & <- & r & Hr & _). eauto.
    - apply finish_directory_ok in H as (_ & r & Hr & _). eauto.
    - by apply refuse_sign_in_ok in H.
    - by apply bind_ok_inv in H as (? & ? & _ & ?). }
  unfold mbind, M_bind. clearbody finish. destruct (finish a) as [[u|e1] a1]; [|by intros [= _ <-]].
  simpl in Hk. destruct (Hrow u a1 eq_refl) as [r Hr]. unfold rest, mbind, M_bind.
  destruct (start_session sha256 from_slice u now r_token a1) as [[[[token expires] lasts]|e1] a2] eqn:Hst.
  - apply start_session_ok in Hst as (_ & _ & _ & _ & ->). simpl. by rewrite Hr.
  - intros [= _ <-]. destruct (start_session_err _ _ _ _ _ _ Hst) as (H1 & H2 & H3).
    destruct Hk as (K1 & K2 & K3). by rewrite H1, H2, H3.
Qed.
End sign_in.

(** ** A sign-in, run *)

Definition sample_hash : string :=
  match hash_password (C:=sample_crypto) "hunter2" (Some [x11; x22]) with Ok h => h | Err _ => "" end.

Definition web_db : Db :=
  set_assigned (union {[(1, 1)]})
    (add_server 1 (mkServerRec "web" "10.0.0.1" 3389 None None 5)
      (add_user 1 (mkUserRec "amy" None (Some "local:1"%string) false false 0 None (Some sample_hash) 4) empty_db)).

Definition sample_app (db : Db) (key : option bytes) : App :=
  mkApp db live_default ∅ 0 (mkRevocation None None None 0 []) (mkVault key) throttle_default
    (throttle_new 10) 0 ∅.

Definition sample_cfg : Cfg := mkCfg (Some sample_dir) ["amy"%string] true true false [].
Definition sample_sha (b : bytes) : bytes := b.

(** Another user is deleted while the password is checked. *)
Definition sample_login : LoginRun :=
  mkLoginRun None (mkLocalTimes 0 1 2) 100 0 (sample_net sample_sid) id
    (fun a => with_store (snd (user_delete 7 (store_ a))) a) id id 9 [x01] [xaa; xbb].

Example login_witness :
  (∃ name n r a', normalize_username (U:=ascii_unicode) "Amy" = Some name ∧
     signed_in sample_sha "aabb" 100 n r a' ∧
     proved (U:=ascii_unicode) (C:=sample_crypto) sample_cfg "Amy" "hunter2" name sample_login
       (sample_app web_db None) (n_user_id n) r) ∧
  ∃ name n r a', normalize_username (U:=ascii_unicode) "jsmith" = Some name ∧
     signed_in sample_sha "aabb" 100 n r a' ∧
     proved (U:=ascii_unicode) (C:=sample_crypto) sample_cfg "jsmith" "pw" name sample_login
       (sample_app web_db None) (n_user_id n) r.
Proof.
  split.
  - destruct (login_signs_in_who_proved_it (U:=ascii_unicode) (C:=sample_crypto) sample_sha sample_from_slice sample_cfg
      "Amy" "hunter2" sample_login (sample_app web_db None) _ _ ltac:(vm_compute; reflexivity)) as (name & n & r & H1 & H2 & H3).
    eexists name, n, r, _. split; [exact H1|]. split; [exact H2|exact H3].
  - destruct (login_signs_in_who_proved_it (U:=ascii_unicode) (C:=sample_crypto) sample_sha sample_from_slice sample_cfg
      "jsmith" "pw" sample_login (sample_app web_db None) _ _ ltac:(vm_compute; reflexivity)) as (name & n & r & H1 & H2 & H3).
    eexists name, n, r, _. split; [exact H1|]. split; [exact H2|exact H3].
Defined.

Example refused_sign_in_witness :
  ∃ e a', login_finish (U:=ascii_unicode) sample_sha sample_from_slice sample_cfg 0 (CheckedLocal 1 3 sample_hash)
      "amy" 100 9 [x01] [xaa] (sample_app web_db None) = (Err e, a') ∧ e = mkApiError UNAUTHORIZED REFUSED ∧
    t_sessions (store_ a') = ∅.
Proof.
  eexists _, _. split; [vm_compute; reflexivity|]. split; [reflexivity|].
  refine (proj1 (refused_sign_in_starts_nothing (U:=ascii_unicode) sample_sha sample_from_slice sample_cfg 0
    (CheckedLocal 1 3 sample_hash) "amy" 100 9 [x01] [xaa] (sample_app web_db None)
    (mkApiError UNAUTHORIZED REFUSED) _ _)).
  vm_compute. reflexivity.
Defined.
