(* ===== verification/ProxySample.v ===== *)
(** * A session set up on concrete answers (src/src/proxy.rs) *)

From S2P Require Import Prelude Tables Text Utf8 Store Policy Auth Live Vault App AppFacts Proxy ProxyFacts WebFacts.
Local Open Scope Z_scope.

Definition sample_request : RDCleanPathPdu :=
  mkRdc VERSION_1 None (Some "1"%string) (Some "t1"%string) None None (Some [x0e; xe0]) None None.

Definition sample_proxy_lib : ProxyLib := {|
  from_der := fun b => if decide (b = [x30]) then Some sample_request else None;
  to_der := fun p => match rdc_error p with Some e => Ok [to_u8 (error_code e)] | None => Ok [x30; x30] end;
  octets_error := fun _ => None;
  confirm_protocol := fun _ => Some HYBRID;
  name_error := fun _ => None;
|}.

(** Amy is signed in and has opened a connection; [t1] is her ticket for the first server. *)
Definition sample_running : App :=
  let a := sample_app (set_sessions (<[[xee] := mkSessionRec 1 0 1000]>) web_db) None in
  with_tickets (issue 0 "t1" 1 1 ∅) (with_live (snd (register 1 [xee] 0 (live a))) a).
Definition sample_session : Session := mkSession 1 "amy" [xee] 0.

(** The server's confirm arrives with bytes of the handshake after it. *)
Definition sample_confirm : bytes := [x03; x00; x00; x0b; x06; xd0; x00; x00; x00; x00; x00].
Definition sample_visit (lookup : list string) : Visit :=
  mkVisit [WsPing [x01] None; WsOther; WsBinary [x30]] 5 6 (fun _ _ => InTime (Ok lookup)) 7 (fun _ => InTime (Ok ())) None
    (mkIncoming (sample_confirm ++ [x16; x03]) None) (InTime (Ok [[xce]])) None id id id.

Example reaches_witness :
  outward_acts (ru_acts (snd (serve (L:=sample_proxy_lib) true sample_session (sample_visit ["10.0.0.1:3389"%string]) (mkRunning sample_running []))))
    = outward (mkServer 1 "web" "10.0.0.1" 3389 None None) "10.0.0.1:3389" [x0e; xe0] ∧
  ∃ target a1, admit_session sample_session "1" "t1" 5 6 sample_running = (Ok target, a1) ∧ host target = "10.0.0.1"%string.
Proof.
  split; [vm_compute; reflexivity|].
  destruct (session_reaches_only_its_server (L:=sample_proxy_lib) true sample_session (sample_visit ["10.0.0.1:3389"%string]) sample_running
    (ru_app (snd (serve (L:=sample_proxy_lib) true sample_session (sample_visit ["10.0.0.1:3389"%string]) (mkRunning sample_running []))))
    (fst (serve (L:=sample_proxy_lib) true sample_session (sample_visit ["10.0.0.1:3389"%string]) (mkRunning sample_running [])))
    (ru_acts (snd (serve (L:=sample_proxy_lib) true sample_session (sample_visit ["10.0.0.1:3389"%string]) (mkRunning sample_running [])))))
    as [H|(pongs & tid & auth & x & target & a1 & addr & n & Has & Ha & Ho & _)].
  - vm_compute. reflexivity.
  - vm_compute in H. discriminate.
  - exists target, a1. destruct Has as (b & Hf & Hr). vm_compute in Hf. injection Hf as <- <-.
    vm_compute in Hr. injection Hr as <- <- <-. split; [exact Ha|]. destruct n as [|n]; [vm_compute in Ho; discriminate|].
    vm_compute in Ho. by injection Ho as ? ?.
Defined.

(** The ticket [t] is another user's: as [t1], a stolen ticket; as another, an unknown one. *)
Definition denied_run (t : string) : result SessionError (option Ready) * Running :=
  serve (L:=sample_proxy_lib) true sample_session (sample_visit []) (mkRunning (with_tickets (issue 0 t 2 1 ∅) sample_running) []).

Example denials_witness :
  fst (denied_run "t1") = Err SRefused ∧ fst (denied_run "t2") = Err SRefused ∧
  client_acts (ru_acts (snd (denied_run "t1"))) = [Ponged [x01]; SentClient [x01]; ClosedClient] ∧
  client_acts (ru_acts (snd (denied_run "t2"))) = [Ponged [x01]; SentClient [x01]; ClosedClient].
Proof.
  assert (∀ t, t = "t1"%string ∨ t = "t2"%string → fst (denied_run t) = Err SRefused ∧
    client_acts (ru_acts (snd (denied_run t))) = [Ponged [x01]; SentClient [x01]; ClosedClient]) as H.
  { intros t Ht. destruct (denied_run t) as [r [a' acts]] eqn:E.
    destruct (denials_look_alike (L:=sample_proxy_lib) true sample_session (sample_visit []) (with_tickets (issue 0 t 2 1 ∅) sample_running) a'
      [[x01]] r acts) as [-> H]; [|exact E|by split].
    exists "1"%string, "t1"%string, [x0e; xe0]. split; [exists [x30]; split; vm_compute; reflexivity|].
    destruct Ht as [->| ->]; vm_compute; exact I. }
  destruct (H "t1"%string) as [? ?]; [by left|]. destruct (H "t2"%string) as [? ?]; [by right|]. done.
Defined.
