(* ===== verification/WebServers.v ===== *)
(** * What a signed-in user's requests guarantee

    A ticket opens the connection it was handed out for, a saved credential comes back to its owner,
    signing out ends the sign-in and its connections, the list is the permitted servers in groups,
    and a page loaded before the data was replaced changes nothing. *)

From S2P Require Import Prelude Tables Text Utf8 Store StoreInv Policy Auth Live Settings Vault VaultFacts Directory App AppFacts Web WebFacts.
Local Open Scope Z_scope.

Section user_requests.
Context {U : Unicode} {C : Crypto} (sha256 : bytes → bytes) (from_slice : bytes → option Settings) (cfg : Cfg).

(** ** Handlers on the database *)

Lemma resolve_step user (server : Z) a s a' :
  on_store from_policy_error (resolve user (pretty server)) a = (Ok s, a') ↔
  a' = a ∧ fst (resolve user (pretty server) (store_ a)) = Ok s.
Proof.
  rewrite on_store_ok. split.
  - intros (db' & H & ->). pose proof H as H'. apply resolve_Ok in H' as [-> _]. rewrite H. by rewrite with_store_id.
  - intros [-> H]. exists (store_ a). rewrite with_store_id. split; [|done].
    apply resolve_Ok. split; [done|]. by apply resolve_fst.
Qed.

(** Reads of the database. *)
Lemma sto_read {A} (m : store A) x a : m (store_ a) = (Ok x, store_ a) → sto m a = (Ok x, a).
Proof. intros H. apply sto_ok. exists (store_ a). by rewrite with_store_id. Qed.

Lemma policy_read {A} (m : M Db PolicyError A) x a :
  m (store_ a) = (Ok x, store_ a) → on_store from_policy_error m a = (Ok x, a).
Proof. intros H. apply on_store_ok. exists (store_ a). by rewrite with_store_id. Qed.

(** Permission depends on two tables only. *)
Lemma resolve_frame user tid db db' :
  t_servers db' = t_servers db → t_assignments db' = t_assignments db → ∀ s,
  fst (resolve user tid db) = Ok s ↔ fst (resolve user tid db') = Ok s.
Proof. intros Hs Ha s. rewrite !resolve_fst. by rewrite Hs, Ha. Qed.

Lemma open_seal v aad plain r sealed :
  seal v aad plain r = Ok sealed → open v aad sealed.1 sealed.2 = Ok plain.
Proof.
  unfold seal, open, mbind, result_bind. destruct (vault_key v) as [k|]; [|done].
  destruct (seal_blob k aad plain r) as [blob|] eqn:Hb; [|done]. intros [= <-]. simpl.
  rewrite take_drop. by eapply open_seal_blob.
Qed.

Lemma bytes_of_string_roundtrip s : utf8_valid (String.list_byte_of_string s) = true →
  from_utf8_lossy (String.list_byte_of_string s) = s.
Proof.
  intros Hv. unfold from_utf8_lossy. rewrite lossy_valid by done. apply String.string_of_list_byte_of_string.
Qed.

(** ** Saved credentials *)

Definition trimmed (dom : option string) : option string :=
  filter_opt (fun d => negb (bool_decide (d = ""%string))) (str_trim <$> dom).

Lemma save_credential_ok u server name dom password now random a a' :
  save_credential u server name dom password now random a = (Ok (), a') →
  saving_blocked a = None ∧
  ∃ s sid_ sealed, fst (resolve (user_id u) (pretty server) (store_ a)) = Ok s ∧ sid u = Some sid_ ∧
    seal (vault_ a) (credential_aad sid_ (server_id s)) (String.list_byte_of_string password) random = Ok sealed ∧
    t_credentials (store_ a') = <[(user_id u, server_id s) :=
      mkCredRec (str_trim name) (trimmed dom) sealed.1 sealed.2 now]> (t_credentials (store_ a)).
Proof.
  unfold save_credential. rewrite bind_gets. destruct (saving_blocked a); [done|]. intros H. split; [done|].
  apply bind_ok_inv in H as (s & a1 & H1 & H). apply resolve_step in H1 as [-> Hs]. cbv zeta in H.
  case_decide; [done|]. destruct (sid u) as [sid_|]; [|done]. apply bind_ok_inv in H as (y & a1 & [= <- <-] & H).
  rewrite bind_gets in H. apply bind_ok_inv in H as (sealed & a1 & H1 & H).
  destruct (seal _ _ _ _) as [x|] eqn:Hseal in H1; [|done]. injection H1 as <- <-.
  apply bind_ok_inv in H as (y & a1 & H1 & H). apply sto_ok in H1 as (db1 & H1 & ->).
  apply sto_ok in H as (db2 & [= <-] & ->). exists s, sid_, x. split_and!; [done..|].
  unfold credential_put in H1. destruct (bool_decide (_ ∨ _)) in H1; [|done]. injection H1 as _ <-. done.
Qed.

(** C29. A saved credential comes back, to its owner. Saving is refused unless it could be recovered
    (a recovery passphrase is set, the vault is unlocked, the proxy is not being migrated); it
    writes the row of this user and this server and no other; and as long as that row and the
    master key stay, connecting to the server while permitted answers with the user name, the
    domain and the very password that were saved. *)
Theorem saved_credential_comes_back (u : User) (server : Z) (name : string) (dom : option string)
    (password : string) (now : Z) (random : option bytes) (a a' : App) :
  utf8_valid (String.list_byte_of_string password) = true →
  save_credential u server name dom password now random a = (Ok (), a') →
  frozen (store_ a) = false ∧ fst (recovery_set (store_ a)) = Ok true ∧ is_unlocked (vault_ a) = true ∧
  ∃ s, fst (resolve (user_id u) (pretty server) (store_ a)) = Ok s ∧
    (∀ k, k ≠ (user_id u, server_id s) → t_credentials (store_ a') !! k = t_credentials (store_ a) !! k) ∧
    ∀ later at_ r,
      vault_ later = vault_ a →
      t_credentials (store_ later) !! (user_id u, server_id s) = t_credentials (store_ a') !! (user_id u, server_id s) →
      fst (resolve (user_id u) (pretty server) (store_ later)) = Ok s →
      fst (connect_ u server at_ r later) =
        Ok (random_token r, (server_id s, server_name s), Some (mkCredential (str_trim name) (trimmed dom) password)).
Proof.
  intros Hv H. apply save_credential_ok in H as (Hb & s & sid_ & sealed & Hs & Hsid & Hseal & Hc).
  revert Hb. unfold saving_blocked. destruct (frozen (store_ a)); [done|].
  destruct (fst (recovery_set (store_ a))) as [[]|]; cbn [negb]; [|done..].
  destruct (is_unlocked (vault_ a)) eqn:Hu; [intros _|done]. split_and!; [done..|]. exists s. split_and!; [done|..].
  - intros k Hk. rewrite Hc. by rewrite lookup_insert_ne by done.
  - intros later at_ r Hvl Hrow Hres. rewrite Hc, lookup_insert_eq in Hrow. unfold connect_.
    rewrite (bind_ok _ _ _ s later) by by apply resolve_step. cbv zeta.
    unfold mbind, M_bind. simpl. rewrite Hrow. simpl.
    rewrite Hsid, Hvl, Hu, (open_seal _ _ _ _ _ Hseal). by rewrite bytes_of_string_roundtrip.
Qed.

(** ** Tickets *)

Lemma connect_ok u server at_ r a t sn c a' :
  connect_ u server at_ r a = (Ok (t, sn, c), a') →
  ∃ s, fst (resolve (user_id u) (pretty server) (store_ a)) = Ok s ∧ sn = (server_id s, server_name s) ∧
    t = random_token r ∧ a' = with_tickets (issue at_ t (user_id u) (server_id s) (tickets a)) a.
Proof.
  unfold connect_. intros H. apply bind_ok_inv in H as (s & a1 & H1 & H). apply resolve_step in H1 as [-> Hs].
  cbv zeta in H. apply bind_ok_inv in H as ([] & a1 & [= <-] & H).
  apply bind_ok_inv in H as (stored & a2 & H1 & H). apply sto_ok in H1 as (db & [= <- <-] & ->).
  injection H as <- <- _ <-. exists s. done.
Qed.

Lemma ws_upgrade_ok uh req upgrade accept a s a' :
  ws_upgrade uh req upgrade accept a = (Ok s, a') →
  s = mkSession (user_id uh.1) (username uh.1) uh.2 (next (live a)) ∧
  a' = with_live (snd (register (user_id uh.1) uh.2 (generation a) (live a))) a.
Proof.
  unfold ws_upgrade. destruct (same_origin _ _); [|done]. cbn [negb]. destruct (negb _); [done|].
  simpl. by intros [= <- <-].
Qed.

(** A ticket opens the connection it was handed out for. The user asked to connect and got a
    ticket; the WebSocket was then opened under the same sign-in, in the same database. Presented
    within its lifetime while the sign-in lasts, the ticket is accepted for the server it names, and
    no second presentation is. *)
Theorem connect_then_opens (u : User) (h : bytes) (server : Z) (at0 : Z) (r : bytes) (a a1 a2 : App)
    (t : string) (sn : Z * string) (c : option Credential) (req : Request) (upgrade : option string)
    (accept : bool) (s : Session) (now at_ : Z) :
  connect_ u server at0 r a = (Ok (t, sn, c), a1) →
  ws_upgrade (u, h) req upgrade accept a1 = (Ok s, a2) →
  sign_in_live (user_id u) h now (store_ a) →
  at_ < at0 + TICKET_TTL →
  ∃ target a3, admit_session s (pretty server) t now at_ a2 = (Ok target, a3) ∧ sn = (server_id target, server_name target) ∧
    ∀ s' tid now' at', fst (admit_session s' tid t now' at' a3) = Err TicketUnknown ∨
      fst (admit_session s' tid t now' at' a3) = Err Superseded.
Proof.
  intros H1 H2 Hlive Hat. apply connect_ok in H1 as (target & Hres & -> & -> & ->).
  apply ws_upgrade_ok in H2 as [-> ->]. set (a2 := with_live _ _). set (s := mkSession _ _ _ _).
  assert (fst (admit_session s (pretty server) (random_token r) now at_ a2) = Ok target) as Hok.
  { apply admit_ok_iff. split; [|split; [|split]].
    - unfold a2, s, generation_of. simpl. by rewrite lookup_insert_eq.
    - exists (mkIssued (mkTicket (user_id u) (server_id target)) at0). unfold a2. simpl. unfold issue.
      rewrite lookup_insert_eq. split_and!; [done..|]. unfold since, TICKET_TTL, second in *. simpl. lia.
    - done.
    - by apply resolve_fst in Hres. }
  pose proof (admit_state s (pretty server) (random_token r) now at_ a2) as Hst.
  destruct (admit_session s (pretty server) (random_token r) now at_ a2) as [o a3]. simpl in Hok. subst o.
  exists target, a3. split_and!; [done..|]. intros s' tid now' at'. destruct Hst as (_ & _ & _ & _ & Htk).
  unfold admit_session. case_decide; [by right|left]. unfold redeem_at. rewrite Htk.
  by rewrite lookup_delete_eq.
Qed.

(** ** Signing out *)

(** Signing out ends the sign-in and everything opened under it. It always succeeds; afterwards
    the cookie's token opens nothing, at any time; the connections opened under it are told to stop
    and those of other sign-ins keep running as they were, as do the other sign-ins. *)
Theorem logout_ends_the_sign_in (u : User) (h : bytes) (now : Z) (a : App) :
  ∃ a', logout cfg (u, h) now a = (Ok (clear_cookie (secure_cookies cfg)), a') ∧
    (∀ now', fst (session_of h now' a') = Err sign_in_first) ∧
    (∀ h', h' ≠ h → t_sessions (store_ a') !! h' = t_sessions (store_ a) !! h') ∧
    (∀ i l, inner (live a') !! i = Some l ∧ l_cancel l = true ↔
       inner (live a) !! i = Some l ∧ l_cancel l = true ∧ l_token_hash l ≠ h).
Proof.
  unfold logout. eexists. split; [reflexivity|]. simpl. split_and!.
  - intros now'. unfold session_of, sto, on_store, session_user, gets, mbind, M_bind. simpl. by rewrite lookup_delete_eq.
  - intros h' Hh. by rewrite lookup_delete_ne.
  - intros i l. unfold end_session. rewrite end_where_running, bool_decide_eq_false. done.
Qed.

(** ** The list of servers *)

Definition grouped (groups : list ListedGroup) : list (option string * ListedServerJson) :=
  groups ≫= fun g => (fun s => (lg_name g, s)) <$> lg_servers g.

Lemma add_to_groups_grouped groups name item : grouped (add_to_groups groups name item) = grouped groups ++ [(name, item)].
Proof.
  unfold add_to_groups, grouped. destruct (last groups) as [g|] eqn:Hl; [|by rewrite bind_app].
  case_decide as Hn; [|by rewrite bind_app]. apply last_Some in Hl as [gs ->].
  rewrite length_app. simpl. rewrite take_app_length' by lia. rewrite !bind_app. simpl.
  rewrite fmap_app, !app_nil_r, app_assoc. simpl. by rewrite Hn.
Qed.

Lemma add_to_groups_names groups name item :
  lg_name <$> add_to_groups groups name item =
  (lg_name <$> groups) ++ (if decide (last (lg_name <$> groups) = Some name) then [] else [name]).
Proof.
  unfold add_to_groups. rewrite fmap_last. destruct (last groups) as [g|] eqn:Hl; simpl.
  - apply last_Some in Hl as [gs ->]. rewrite length_app. simpl. rewrite take_app_length' by lia.
    case_decide; case_decide; try congruence; rewrite !fmap_app; simpl; by rewrite ?app_nil_r.
  - by rewrite fmap_app.
Qed.

(** Whether rows of one group are next to each other in a list ordered by [R]. *)
Definition contiguous {A} (R : relation A) (key : A → option string) (l : list A) : Prop :=
  ∀ x y z, x ∈ l → y ∈ l → z ∈ l → R x y → R y z → key x = key z → key y = key x.

Lemma groups_once {A} (R : relation A) (key : A → option string) (item : A → ListedServerJson) (l : list A) :
  StronglySorted R l → contiguous R key l →
  let groups := foldl (fun gs x => add_to_groups gs (key x) (item x)) [] l in
  grouped groups = (fun x => (key x, item x)) <$> l ∧ NoDup (lg_name <$> groups) ∧
  last (lg_name <$> groups) = key <$> last l ∧ (∀ n, n ∈ lg_name <$> groups → ∃ x, x ∈ l ∧ key x = n).
Proof.
  induction l as [|x l IH] using rev_ind; intros Hs Hc.
  - simpl. split_and!; try done; [constructor|]. intros n Hn. by apply not_elem_of_nil in Hn.
  - apply StronglySorted_app in Hs as (Hle & Hs & _).
    destruct IH as (Hg & Hnd & Hlast & Hin); [done| |].
    { intros a b c Ha Hb Hcc. apply Hc; apply elem_of_app; by left. }
    rewrite foldl_app. set (gs := foldl _ _ l) in *. simpl. split_and!.
    + rewrite add_to_groups_grouped, Hg, fmap_app. done.
    + rewrite add_to_groups_names. case_decide as Hd; [by rewrite app_nil_r|].
      apply NoDup_app. split_and!; [done| |apply NoDup_singleton].
      intros n Hn ->%list_elem_of_singleton. destruct (Hin _ Hn) as (y & Hy & Hk).
      destruct (last l) as [z|] eqn:Hz; [|apply last_None in Hz as ->; by apply not_elem_of_nil in Hy].
      rewrite Hlast in Hd. simpl in Hd. apply Hd. f_equal.
      apply last_Some in Hz as [l' ->].
      apply elem_of_app in Hy as [Hy|Hy]; [|apply list_elem_of_singleton in Hy as ->; done].
      rewrite <-Hk. apply (Hc y z x); [set_solver..| | |done].
      * apply StronglySorted_app in Hs as (Hle' & _). apply Hle'; set_solver.
      * apply Hle; set_solver.
    + rewrite add_to_groups_names, last_snoc. case_decide as Hd; [by rewrite app_nil_r|]. by rewrite last_snoc.
    + intros n. rewrite add_to_groups_names, elem_of_app. intros [Hn|Hn].
      * destruct (Hin n Hn) as (y & Hy & Hk). exists y. set_solver.
      * case_decide; [by apply not_elem_of_nil in Hn|]. apply list_elem_of_singleton in Hn as ->. exists x. set_solver.
Qed.

Lemma listed_row_group db p x :
  listed_row db p = Some x →
  (x.1 = None ∧ listed_group x.2 = None) ∨
  ∃ i g, t_groups db !! i = Some g ∧ x.1 = Some (g_sort g) ∧ listed_group x.2 = Some (g_name g).
Proof.
  unfold listed_row. destruct (t_servers db !! p.2) as [r|]; [|done]. simpl. intros [= <-]. simpl.
  destruct (s_group_id r) as [i|]; simpl; [|by left]. destruct (t_groups db !! i) as [g|] eqn:Hg; [|by left].
  right. eauto.
Qed.

Lemma listed_contiguous user db l :
  wf_db db → l ≡ₚ listed_rows user db → contiguous listed_le (fun x => listed_group x.2) l.
Proof.
  intros Hwf Hl x y z Hx Hy Hz Hxy Hyz Hk. rewrite Hl, elem_of_listed_rows in Hx, Hy, Hz.
  destruct Hx as (i & _ & Hx%listed_row_group), Hy as (j & _ & Hy%listed_row_group), Hz as (k & _ & Hz%listed_row_group).
  assert (x.1 = z.1) as Hsort.
  { destruct Hx as [[E1 E2]|(ix & gx & Hgx & E1 & E2)], Hz as [[E3 E4]|(iz & gz & Hgz & E3 & E4)]; try congruence.
    assert (ix = iz) as ->; [|congruence].
    apply (wf_group_names db Hwf _ _ _ _ Hgx Hgz). simpl. congruence. }
  destruct Hxy as [Hs1 Hn1], Hyz as [Hs2 Hn2]. unfold on in *. rewrite Hsort in Hs1, Hn1.
  destruct (Hn1 Hs2) as [Hn1' _]. destruct (Hn2 Hs1) as [Hn2' _]. unfold on in *. rewrite Hk in Hn1' |- *.
  destruct Hy as [[E1 E2]|(iy & gy & Hgy & E1 & E2)], Hz as [[E3 E4]|(iz & gz & Hgz & E3 & E4)];
    rewrite E2, E4 in Hn1', Hn2' |- *; try done.
  f_equal. assert (iy = iz) as ->; [|congruence]. apply (wf_group_names db Hwf _ _ _ _ Hgy Hgz).
  by apply (anti_symm String.le).
Qed.

Lemma saved_spec (m : gmap (Z * Z) CredRec) user i :
  i ∈ (set_map snd (filter (fun p => p.1 = user) (dom m)) : gset Z) ↔ is_Some (m !! (user, i)).
Proof.
  rewrite elem_of_map. split.
  - intros ([x y] & -> & [<- Hd%elem_of_dom]%elem_of_filter). done.
  - intros Hd. exists (user, i). split; [done|]. apply elem_of_filter. split; [done|]. by apply elem_of_dom.
Qed.

Lemma recent_ends_spec (m : gmap (Z * Z) Z) user since i :
  is_Some ((list_to_map ((fun kv => (kv.1.2, kv.2)) <$> map_to_list (filter (fun kv => kv.1.1 = user ∧ kv.2 > since) m))
    : gmap Z Z) !! i) ↔
  ∃ t, m !! (user, i) = Some t ∧ since < t.
Proof.
  rewrite <-elem_of_dom, dom_list_to_map_L, elem_of_list_to_set, <-list_fmap_compose, list_elem_of_fmap. split.
  - intros ([[x y] t] & -> & Ht%elem_of_map_to_list). apply map_lookup_filter_Some in Ht as [Ht [Hx Hs]].
    simpl in *. subst. exists t. split; [done|lia].
  - intros (t & Ht & Hs). exists ((user, i), t). split; [done|]. apply elem_of_map_to_list.
    apply map_lookup_filter_Some. split; [done|]. simpl. lia.
Qed.

(** The list a user sees is their servers, each group once. On a sound database the request
    changes nothing; read group by group the answer is the permitted list, in the administrator's
    order, each server under the name of its group, marked as saved when there is a saved
    credential, as connected when there is an established session, and for reconnecting when a
    session ended lately and none is established; no group name appears twice. *)
Theorem my_servers_are_the_permitted (u : User) (now : Z) (a : App) :
  wf_db (store_ a) →
  ∃ l settings saved recent groups, permitted (user_id u) (store_ a) = (Ok l, store_ a) ∧
    settings_read from_slice (store_ a) = (Ok settings, store_ a) ∧
    (∀ i, i ∈ saved ↔ is_Some (t_credentials (store_ a) !! (user_id u, i))) ∧
    (∀ i, is_Some (recent !! i) ↔
       ∃ t, t_session_log (store_ a) !! (user_id u, i) = Some t ∧ now - signin_secs settings < t) ∧
    my_servers from_slice u now a = (Ok groups, a) ∧ NoDup (lg_name <$> groups) ∧
    grouped groups = (fun s => (listed_group s,
      listed_json saved (servers_for (user_id u) (live a)) recent (listed s))) <$> l.
Proof.
  intros Hwf. set (k := merge_sort listed_le (listed_rows (user_id u) (store_ a))).
  assert (k ≡ₚ listed_rows (user_id u) (store_ a)) as Hk by apply merge_sort_Permutation.
  assert (StronglySorted listed_le k) as Hs by (apply StronglySorted_merge_sort; apply _).
  destruct (settings_read_lasts from_slice (store_ a)) as (settings & Hset & _).
  eexists (snd <$> k), settings, _, _, _. split; [done|]. split; [done|]. split; [|split; [|split]].
  3: { unfold my_servers. erewrite bind_ok; [|apply (policy_read _ (snd <$> k)); done].
       erewrite bind_ok; [|by apply sto_read]. rewrite bind_gets. erewrite bind_ok; [|by apply sto_read].
       erewrite bind_ok; [|by apply sto_read]. reflexivity. }
  - intros i. apply saved_spec.
  - intros i. apply recent_ends_spec.
  - rewrite foldl_fmap.
    match goal with |- context [listed_json ?sv ?co ?re] => set (json := listed_json sv co re) end.
    destruct (groups_once listed_le (fun x => listed_group x.2) (fun x => json (listed x.2)) k Hs) as (Hg & Hnd & _);
      [by eapply listed_contiguous|]. split; [exact Hnd|]. rewrite <-list_fmap_compose. exact Hg.
Qed.
End user_requests.

(** ** The guards *)

(** The name a database was given when it came into use. *)
Definition instance_text (random : bytes) : string := of_chars (take 32 (to_chars (random_token random))).

Lemma hex_byte_ascii b : Forall (fun c => N_of_ascii c < 128)%N (hex_byte b).
Proof. destruct b; repeat constructor; vm_compute; reflexivity. Qed.

Lemma instance_new random db : instance (snd (new_instance random db)) = instance_text random.
Proof.
  unfold instance, new_instance, meta_get, meta_set. simpl. rewrite lookup_insert_eq. unfold from_utf8_lossy.
  assert (Forall (fun c => N_of_ascii c < 128)%N (to_chars (random_token random))) as Ha.
  { unfold random_token. rewrite to_of_chars. induction random as [|b l IH]; [constructor|].
    rewrite bind_cons. apply Forall_app. split; [apply hex_byte_ascii|done]. }
  unfold String.list_byte_of_string, instance_text, to_chars, of_chars in *.
  rewrite <-fmap_take, lossy_valid.
  - unfold String.string_of_list_byte. f_equal. rewrite <-list_fmap_compose. rewrite <-list_fmap_id. apply list_fmap_ext.
    intros i c _. simpl. apply ascii_of_byte_of_ascii.
  - apply utf8_valid_ascii, Forall_fmap, Forall_take. eapply Forall_impl; [exact Ha|]. intros c Hc. simpl.
    unfold N_of_ascii in Hc. by destruct c as [[] [] [] [] [] [] [] []].
Qed.

(** A page loaded before the data was replaced changes nothing. Once a database was given a new
    instance, a change sent to any route that runs under the gate is passed to its handler exactly
    when it comes from this site, fits, and names that instance; a request from another site, one
    that is too large, and one from a page that names another database or none are refused, and the
    proxy is as it was. *)
Theorem stale_page_changes_nothing {A} (req : Request) (handler : W A) (random : bytes) (a : App) :
  random ≠ [] →
  route_in SELF_GATED_ROUTES (r_method req) (r_path req) = false →
  needs_instance (r_method req) (r_path req) = true →
  let a' := with_store (snd (new_instance random (store_ a))) a in
  guarded req handler a' =
    if negb (same_origin (r_host req) (r_origin req)) then
      (Err (mkApiError FORBIDDEN_ "cross-origin request refused"), a')
    else if negb (r_body_fits req) then (Err (mkApiError PAYLOAD_TOO_LARGE "the request body is too large"), a')
    else if decide (r_instance req = Some (instance_text random)) then handler a'
    else (Err (conflict "this proxy's data changed after the page was loaded; reload the page"), a').
Proof.
  intros Hr Hgate Hneeds. cbv zeta. unfold guarded, origin_guard, gate_requests.
  assert (safe_method (r_method req) = false) as ->.
  { unfold needs_instance in Hneeds. by destruct (safe_method (r_method req)). }
  assert (bool_decide (r_method req = POST) && bool_decide (r_path req = SSO_POST) = false) as ->.
  { destruct (bool_decide (r_method req = POST)) eqn:Hm; [|done].
    destruct (bool_decide (r_path req = SSO_POST)) eqn:Hp; [|done].
    apply bool_decide_eq_true in Hm, Hp. rewrite Hm, Hp in Hgate. vm_compute in Hgate. done. }
  rewrite Hgate, Hneeds. cbn [orb]. destruct (same_origin _ _); [|done]. destruct (r_body_fits req); [|done].
  cbn [negb]. rewrite bind_gets. cbn [store_ with_store]. rewrite instance_new.
  assert (instance_text random ≠ ""%string) as Hne.
  { destruct random as [|b l]; [done|]. by destruct b. }
  case_decide as Hd; case_decide; try done; [|naive_solver]. destruct Hd as [Hd|Hd]; naive_solver.
Qed.

(** ** Requests, run *)

Definition page (m : Method) (path : string) (inst : option string) : Request :=
  mkRequest m path (Some "proxy.corp"%string) (Some "https://proxy.corp"%string) inst true.

Example stale_page_witness :
  let a' := with_store (snd (new_instance [xab; xcd] web_db)) (sample_app web_db None) in
  guarded (page PUT "/api/credentials/1" (Some "0123"%string)) (gets (fun _ => ())) a' =
    (Err (conflict "this proxy's data changed after the page was loaded; reload the page"), a') ∧
  guarded (page PUT "/api/credentials/1" (Some "abcd"%string)) (gets (fun _ => ())) a' = (Ok (), a').
Proof.
  split.
  - refine (stale_page_changes_nothing (page PUT "/api/credentials/1" (Some "0123"%string)) (gets (fun _ => ())) [xab; xcd]
      (sample_app web_db None) _ _ _); [discriminate|vm_compute; reflexivity..].
  - refine (stale_page_changes_nothing (page PUT "/api/credentials/1" (Some "abcd"%string)) (gets (fun _ => ())) [xab; xcd]
      (sample_app web_db None) _ _ _); [discriminate|vm_compute; reflexivity..].
Defined.

Definition amy : User := user_from 1 (mkUserRec "amy" None (Some "local:1"%string) false false 0 None None 4).

(** With a recovery passphrase set and the key in memory. *)
Definition vault_app : App :=
  sample_app (set_meta (<[META_RECOVERY := [x00]]>) (set_sessions (<[[xee] := mkSessionRec 1 0 1000]>) web_db))
    (Some (replicate 32 x2a)).

Example saved_credential_witness :
  ∃ a' c, save_credential (C:=sample_crypto) amy 1 " amy " (Some " "%string) "hunter2" 5 (Some [x01]) vault_app = (Ok (), a') ∧
    fst (connect_ (C:=sample_crypto) amy 1 0 [xcc] a') = Ok ("cc"%string, (1, "web"%string), Some c) ∧
    c = mkCredential "amy" None "hunter2".
Proof.
  destruct (save_credential (C:=sample_crypto) amy 1 " amy " (Some " "%string) "hunter2" 5 (Some [x01]) vault_app)
    as [r a'] eqn:E.
  assert (r = Ok ()) as -> by (apply (f_equal fst) in E; vm_compute in E; by rewrite <-E).
  exists a'. eexists. split; [reflexivity|]. split; [|reflexivity].
  destruct (saved_credential_comes_back (C:=sample_crypto) amy 1 " amy " (Some " "%string) "hunter2" 5 (Some [x01])
    vault_app a' ltac:(vm_compute; reflexivity) E) as (_ & _ & _ & s & Hs & _ & H).
  vm_compute in Hs. injection Hs as <-. apply (f_equal snd) in E. simpl in E.
  refine (H a' 0 [xcc] _ _ _); [subst a'; vm_compute; reflexivity|reflexivity|subst a'; vm_compute; reflexivity].
Defined.

Example connect_then_opens_witness :
  ∃ a1 a2 s c target a3,
    connect_ (C:=sample_crypto) amy 1 0 [xcc] vault_app = (Ok ("cc"%string, (1, "web"%string), c), a1) ∧
    ws_upgrade (amy, [xee]) (page GET "/ws" None) (Some "WebSocket"%string) true a1 = (Ok s, a2) ∧
    admit_session s "1" "cc" 10 (TICKET_TTL - 1) a2 = (Ok target, a3) ∧ server_name target = "web"%string.
Proof.
  destruct (connect_ (C:=sample_crypto) amy 1 0 [xcc] vault_app) as [r1 a1] eqn:E1.
  assert (r1 = Ok ("cc"%string, (1, "web"%string), None)) as -> by (apply (f_equal fst) in E1; vm_compute in E1; by rewrite <-E1).
  destruct (ws_upgrade (amy, [xee]) (page GET "/ws" None) (Some "WebSocket"%string) true a1) as [r2 a2] eqn:E2.
  assert (∃ s, r2 = Ok s) as [s ->] by (apply (f_equal fst) in E2; vm_compute in E2; rewrite <-E2; eauto).
  destruct (connect_then_opens (C:=sample_crypto) amy [xee] 1 0 [xcc] vault_app a1 a2 "cc" (1, "web"%string) None
    (page GET "/ws" None) (Some "WebSocket"%string) true s 10 (TICKET_TTL - 1) E1 E2) as (target & a3 & H & [= Hn1 Hn2] & _).
  - exists (mkSessionRec 1 0 1000). split; [vm_compute; reflexivity|]. split; [reflexivity|]. split; [reflexivity|].
    eexists. vm_compute. reflexivity.
  - reflexivity.
  - exists a1, a2, s, None, target, a3. split; [reflexivity|]. split; [exact E2|]. split; [exact H|done].
Defined.

Lemma web_db_wf : wf_db web_db.
Proof.
  apply wf_assign; [apply wf_add_server; [apply wf_add_user; [apply wf_empty|..]|..]|];
    try (vm_compute; reflexivity).
  intros u s [= -> ->]%elem_of_singleton. split; eexists; vm_compute; reflexivity.
Qed.

Example my_servers_witness :
  ∃ groups, my_servers sample_from_slice amy 5 (sample_app web_db None) = (Ok groups, sample_app web_db None) ∧
    NoDup (lg_name <$> groups) ∧ groups = [mkListedGroup None [mkListedJson 1 "web" "10.0.0.1" None false false false]].
Proof.
  destruct (my_servers_are_the_permitted sample_from_slice amy 5 (sample_app web_db None) web_db_wf)
    as (l & settings & saved & recent & groups & _ & _ & _ & _ & H & Hnd & _).
  exists groups. split; [exact H|]. split; [exact Hnd|].
  apply (f_equal fst) in H. vm_compute in H. by injection H as <-.
Defined.
