(* ===== verification/Instant.v ===== *)
(** * SAML times (src/src/saml.rs)

    Days to calendar dates and back, Unix seconds to [YYYY-MM-DDThh:mm:ss[.fraction]Z] and back.
    Integer division is the language's, which truncates. *)

From S2P Require Import Prelude Text.
Local Open Scope Z_scope.

Definition days_from_civil (y m d : Z) : Z :=
  let y := if decide (m ≤ 2) then y - 1 else y in
  let era := Z.quot (if decide (0 ≤ y) then y else y - 399) 400 in
  let yoe := y - era * 400 in
  let mp := Z.rem (m + 9) 12 in
  let doy := Z.quot (153 * mp + 2) 5 + d - 1 in
  let doe := yoe * 365 + Z.quot yoe 4 - Z.quot yoe 100 + doy in
  era * 146097 + doe - 719468.

Definition civil_from_days (z : Z) : Z * Z * Z :=
  let z := z + 719468 in
  let era := Z.quot (if decide (0 ≤ z) then z else z - 146096) 146097 in
  let doe := z - era * 146097 in
  let yoe := Z.quot (doe - Z.quot doe 1460 + Z.quot doe 36524 - Z.quot doe 146096) 365 in
  let doy := doe - (365 * yoe + Z.quot yoe 4 - Z.quot yoe 100) in
  let mp := Z.quot (5 * doy + 2) 153 in
  let d := wrap 32 (doy - Z.quot (153 * mp + 2) 5 + 1) in
  let m := wrap 32 (if decide (mp < 10) then mp + 3 else mp - 9) in
  let y := yoe + era * 400 in
  (if decide (m ≤ 2) then y + 1 else y, m, d).

(** [s.len() == n && s.bytes().all(|b| b.is_ascii_digit())]. *)
Definition is_digit (c : ascii) : bool := bool_decide (is_Some (digit_of c)).
Definition digits (n : nat) (s : chars) : bool := bool_decide (length s = n) && forallb is_digit s.

(** [strip_suffix('Z')]. *)
Definition strip_last (c : ascii) (l : chars) : option chars :=
  match last l with
  | Some c' => if decide (c' = c) then Some (take (length l - 1) l) else None
  | None => None
  end.

(** The seconds without their fraction, which must have digits. *)
Definition whole_seconds (time : chars) : option chars :=
  match split_once "."%char time with
  | Some (t, frac) => if negb (bool_decide (frac = [])) && forallb is_digit frac then Some t else None
  | None => Some time
  end.

Definition parse_instant (s : string) : option Z :=
  stem ← strip_last "Z"%char (to_chars s);
  dt ← split_once "T"%char stem;
  time ← whole_seconds dt.2;
  match split_on "-"%char dt.1, split_on ":"%char time with
  | [d0; d1; d2], [t0; t1; t2] =>
      if negb (digits 4 d0 && digits 2 d1 && digits 2 d2) then None
      else if negb (digits 2 t0 && digits 2 t1 && digits 2 t2) then None
      else
        y ← parse_i64 (of_chars d0); m ← parse_u32 (of_chars d1); day ← parse_u32 (of_chars d2);
        h ← parse_i64 (of_chars t0); mi ← parse_i64 (of_chars t1); sec ← parse_i64 (of_chars t2);
        if bool_decide (1 ≤ m ≤ 12) && bool_decide (h ≤ 23) && bool_decide (mi ≤ 59) && bool_decide (sec ≤ 59) then
          let days := days_from_civil y m day in
          if decide (civil_from_days days = (y, m, day))
          then Some (days * 86400 + h * 3600 + mi * 60 + sec) else None
        else None
  | _, _ => None
  end.

(** [{z:0w}]: at least [w] characters, zeros after the sign. *)
Definition zero_pad (w : nat) (z : Z) : chars :=
  let s := to_chars (pretty (Z.abs z)) in
  let sign := if decide (z < 0) then ["-"%char] else [] in
  sign ++ replicate (w - length sign - length s) "0"%char ++ s.

Definition instant (unix : Z) : string :=
  let '(y, m, d) := civil_from_days (unix / 86400) in
  let s := unix mod 86400 in
  of_chars (zero_pad 4 y ++ ["-"%char] ++ zero_pad 2 m ++ ["-"%char] ++ zero_pad 2 d ++ ["T"%char]
    ++ zero_pad 2 (s / 3600) ++ [":"%char] ++ zero_pad 2 (s mod 3600 / 60) ++ [":"%char] ++ zero_pad 2 (s mod 60)
    ++ ["Z"%char]).

(** ** Days and dates *)

(** Days of a 400-year era: the year of the era and the day of that year, from March. *)
Lemma year_of_era doe :
  0 ≤ doe < 146097 →
  let yoe := Z.quot (doe - Z.quot doe 1460 + Z.quot doe 36524 - Z.quot doe 146096) 365 in
  let doy := doe - (365 * yoe + Z.quot yoe 4 - Z.quot yoe 100) in
  0 ≤ yoe ≤ 399 ∧ 0 ≤ doy ≤ 365 ∧ (146037 ≤ doe ↔ yoe = 399 ∧ 306 ≤ doy).
Proof. intros H. cbv zeta. split_and!; Z.to_euclidean_division_equations; lia. Qed.

(** The month, from March, and the day of the month. *)
Lemma month_of_year doy :
  0 ≤ doy ≤ 365 →
  let mp := Z.quot (5 * doy + 2) 153 in
  0 ≤ mp ≤ 11 ∧ 1 ≤ doy - Z.quot (153 * mp + 2) 5 + 1 ≤ 31 ∧ (10 ≤ mp ↔ 306 ≤ doy).
Proof. intros H. cbv zeta. split_and!; Z.to_euclidean_division_equations; lia. Qed.

Lemma era_of_days z : Z.quot (if decide (0 ≤ z) then z else z - 146096) 146097 = z / 146097.
Proof. case_decide; Z.to_euclidean_division_equations; lia. Qed.

Lemma era_of_year y : Z.quot (if decide (0 ≤ y) then y else y - 399) 400 = y / 400.
Proof. case_decide; Z.to_euclidean_division_equations; lia. Qed.

(** The days whose year has four digits. *)
Definition four_digit_day (z : Z) : Prop := -719528 ≤ z ≤ 2932896.

Lemma days_of_parts era yoe mp d :
  0 ≤ yoe ≤ 399 → 0 ≤ mp ≤ 11 →
  days_from_civil (if decide (mp < 10) then yoe + era * 400 else yoe + era * 400 + 1)
    (if decide (mp < 10) then mp + 3 else mp - 9) d =
  era * 146097 + (yoe * 365 + Z.quot yoe 4 - Z.quot yoe 100 + (Z.quot (153 * mp + 2) 5 + d - 1)) - 719468.
Proof.
  intros Hy Hm. unfold days_from_civil. cbv zeta. rewrite era_of_year.
  assert ((if decide ((if decide (mp < 10) then mp + 3 else mp - 9) ≤ 2)
    then (if decide (mp < 10) then yoe + era * 400 else yoe + era * 400 + 1) - 1
    else if decide (mp < 10) then yoe + era * 400 else yoe + era * 400 + 1) = yoe + era * 400) as ->
    by (repeat case_decide; lia).
  assert ((yoe + era * 400) / 400 = era) as -> by (Z.to_euclidean_division_equations; lia).
  assert (Z.rem ((if decide (mp < 10) then mp + 3 else mp - 9) + 9) 12 = mp) as ->
    by (case_decide; Z.to_euclidean_division_equations; lia).
  replace (yoe + era * 400 - era * 400) with yoe by lia. done.
Qed.

Lemma civil_spec z y m d :
  civil_from_days z = (y, m, d) →
  1 ≤ m ≤ 12 ∧ 1 ≤ d ≤ 31 ∧ days_from_civil y m d = z ∧ (four_digit_day z ↔ 0 ≤ y ≤ 9999).
Proof.
  unfold civil_from_days. cbv zeta. rewrite era_of_days. set (era := (z + 719468) / 146097).
  set (doe := z + 719468 - era * 146097).
  assert (0 ≤ doe < 146097) as Hdoe by (unfold doe, era; Z.to_euclidean_division_equations; lia).
  destruct (year_of_era doe Hdoe) as (Hyoe & Hdoy & Hlast). cbv zeta in Hlast, Hdoy.
  set (yoe := Z.quot (_ - _) 365) in *. set (doy := doe - (_ - _)) in *.
  destruct (month_of_year doy Hdoy) as (Hmp & Hd & Hjan). cbv zeta in Hd, Hjan, Hmp.
  set (mp := Z.quot (5 * doy + 2) 153) in *.
  assert (0 ≤ (if decide (mp < 10) then mp + 3 else mp - 9) < 2 ^ 32) by (case_decide; lia).
  rewrite !wrap_small by lia.
  assert ((if decide ((if decide (mp < 10) then mp + 3 else mp - 9) ≤ 2) then yoe + era * 400 + 1 else yoe + era * 400) =
    if decide (mp < 10) then yoe + era * 400 else yoe + era * 400 + 1) as -> by (repeat case_decide; lia).
  intros [= <- <- <-]. split; [case_decide; lia|]. split; [lia|].
  rewrite days_of_parts by done. split; [unfold doy, doe; lia|].
  unfold four_digit_day. clearbody yoe doy mp era. unfold doe in *. case_decide; lia.
Qed.

(** ** Numbers of a fixed width *)

Lemma digit_of_range c d : digit_of c = Some d → 0 ≤ d < 10 ∧ Z.of_N (N_of_ascii c) = 48 + d.
Proof. unfold digit_of. case_decide; [|done]. intros [= <-]. lia. Qed.

Lemma digits_value_bound acc l :
  Forall (fun c => is_Some (digit_of c)) l →
  ∃ v, digits_value acc l = Some (acc * 10 ^ len l + v) ∧ 0 ≤ v < 10 ^ len l.
Proof.
  intros Hl. revert acc. induction Hl as [|c l [d Hd] _ IH]; intros acc.
  - exists 0. change (10 ^ len (@nil ascii)) with 1. simpl. split; [f_equal; lia|done].
  - simpl. rewrite Hd. destruct (IH (acc * 10 + d)) as (v & -> & Hv). apply digit_of_range in Hd as [Hd _].
    assert (10 ^ len (c :: l) = 10 * 10 ^ len l) as Hp.
    { unfold len. simpl length. rewrite Nat2Z.inj_succ, Z.pow_succ_r by lia. done. }
    exists (d * 10 ^ len l + v). rewrite Hp. split; [f_equal; ring|]. nia.
Qed.

(** Digits of one length are the same when their value is. *)
Lemma digits_value_inj a b l k v :
  length l = length k → digits_value a l = Some v → digits_value b k = Some v → a = b ∧ l = k.
Proof.
  revert a b k. induction l as [|c l IH]; intros a b [|e k]; simpl; try done.
  - intros _ [= ->] [= ->]. done.
  - intros [= Hlen]. destruct (digit_of c) as [d|] eqn:Hc; [|done]. destruct (digit_of e) as [x|] eqn:He; [|done].
    intros H1 H2. destruct (IH _ _ _ Hlen H1 H2) as [Hab ->].
    apply digit_of_range in Hc as [Hd Hc], He as [Hx He]. assert (d = x) as -> by lia.
    split; [lia|]. f_equal. rewrite <-(ascii_N_embedding c), <-(ascii_N_embedding e). f_equal. lia.
Qed.

Lemma pretty_go_length n (x : N) s :
  Z.of_N x < 10 ^ Z.of_nat n → (length (to_chars (pretty_N_go x s)) ≤ n + length (to_chars s))%nat.
Proof.
  revert x s. induction n as [|n IH]; intros x s Hx.
  - assert (x = 0%N) as -> by (simpl in Hx; lia). by rewrite pretty_N_go_0.
  - destruct (decide (x = 0)%N) as [->|Hne]; [rewrite pretty_N_go_0; lia|].
    rewrite pretty_N_go_step by lia. etrans; [apply IH|unfold to_chars; simpl; lia].
    rewrite Nat2Z.inj_succ, Z.pow_succ_r in Hx by lia. rewrite N2Z.inj_div.
    apply Z.div_lt_upper_bound; lia.
Qed.

Lemma pretty_length n z : (0 < n)%nat → 0 ≤ z < 10 ^ Z.of_nat n → (length (to_chars (pretty z)) ≤ n)%nat.
Proof.
  intros Hn Hz. destruct z as [|p|p]; [simpl; lia| |lia].
  change (pretty (Z.pos p)) with (pretty (N.pos p)). unfold pretty, pretty_N. rewrite decide_False by done.
  etrans; [apply (pretty_go_length n); by destruct Hz|simpl; lia].
Qed.

Lemma zero_pad_spec n z :
  (0 < n)%nat → 0 ≤ z < 10 ^ Z.of_nat n →
  length (zero_pad n z) = n ∧ digits_value 0 (zero_pad n z) = Some z.
Proof.
  intros Hn Hz. unfold zero_pad. rewrite decide_False by lia. rewrite Z.abs_eq by lia. simpl.
  pose proof (pretty_length n z Hn Hz) as Hl. split; [rewrite length_app, length_replicate; lia|].
  rewrite Nat.sub_0_r.
  assert (∀ k l, digits_value 0 (replicate k "0"%char ++ l) = digits_value 0 l) as Hz0.
  { induction k as [|k IH]; intros l; [done|]. simpl. by rewrite IH. }
  rewrite Hz0. destruct z as [|p|p]; [done|apply digits_value_pretty_pos|lia].
Qed.

Lemma digits_spec n l : digits n l = true ↔ length l = n ∧ Forall (fun c => is_Some (digit_of c)) l.
Proof.
  unfold digits. rewrite andb_true_iff, bool_decide_eq_true, forallb_forall, Forall_forall.
  unfold is_digit. setoid_rewrite bool_decide_eq_true. setoid_rewrite list_elem_of_In. done.
Qed.

(** A field of [n] digits is the padded form of its value, and parses to it. *)
Lemma digits_zero_pad n l :
  (0 < n)%nat → digits n l = true ↔ ∃ v, 0 ≤ v < 10 ^ Z.of_nat n ∧ l = zero_pad n v.
Proof.
  intros Hn. rewrite digits_spec. split.
  - intros [Hl Hd]. destruct (digits_value_bound 0 l Hd) as (v & Hv & Hr). unfold len in *. rewrite Hl in *.
    exists v. split; [done|]. destruct (zero_pad_spec n v Hn Hr) as [Hl' Hv'].
    eapply digits_value_inj; [congruence|exact Hv|]. by rewrite Z.mul_0_l.
  - intros (v & Hr & ->). destruct (zero_pad_spec n v Hn Hr) as [Hl Hv]. split; [done|]. by eapply digits_value_digits.
Qed.

Lemma parse_zero_pad lo hi n v :
  (0 < n)%nat → lo ≤ 0 → 0 ≤ v < 10 ^ Z.of_nat n → v ≤ hi → parse_int lo hi (of_chars (zero_pad n v)) = Some v.
Proof.
  intros Hn Hlo Hr Hhi. destruct (zero_pad_spec n v Hn Hr) as [Hl Hv]. unfold parse_int. rewrite to_of_chars.
  destruct (zero_pad n v) as [|c l]; [simpl in Hl; lia|].
  assert (match c :: l with
          | "+"%char :: l => (1, l)
          | "-"%char :: l => if decide (lo < 0) then (-1, l) else (1, c :: l)
          | l => (1, l)
          end = (1, c :: l)) as ->.
  { apply digits_value_digits in Hv. apply Forall_cons in Hv as [[d Hd] _]. clear -Hd.
    destruct c as [[] [] [] [] [] [] [] []]; done. }
  rewrite Hv. cbn [mbind option_bind]. rewrite Z.mul_1_l, decide_True by lia. done.
Qed.

Lemma zero_pad_no c n v : (0 < n)%nat → 0 ≤ v < 10 ^ Z.of_nat n → digit_of c = None → c ∉ zero_pad n v.
Proof.
  intros Hn Hr Hc Hin. destruct (zero_pad_spec n v Hn Hr) as [_ Hv]. apply digits_value_digits in Hv.
  rewrite Forall_forall in Hv. specialize (Hv c Hin). rewrite Hc in Hv. by destruct Hv.
Qed.

(** ** Text of a time *)

(** The seconds of a time, without the zone. *)
Definition seconds_text (y m d h mi sec : Z) : chars :=
  (zero_pad 4 y ++ "-"%char :: zero_pad 2 m ++ "-"%char :: zero_pad 2 d) ++ "T"%char ::
  zero_pad 2 h ++ ":"%char :: zero_pad 2 mi ++ ":"%char :: zero_pad 2 sec.

Definition fields_ok (y m d h mi sec : Z) : Prop :=
  0 ≤ y ≤ 9999 ∧ 1 ≤ m ≤ 12 ∧ 1 ≤ d ≤ 31 ∧ 0 ≤ h ≤ 23 ∧ 0 ≤ mi ≤ 59 ∧ 0 ≤ sec ≤ 59.

Definition fraction (frac : chars) : Prop :=
  frac = [] ∨ ∃ f, frac = "."%char :: f ∧ f ≠ [] ∧ Forall (fun c => is_Some (digit_of c)) f.

Lemma strip_last_spec c l k : strip_last c l = Some k ↔ l = k ++ [c].
Proof.
  unfold strip_last. split.
  - destruct (last l) as [x|] eqn:Hl; [|done]. case_decide as Hc; [|done]. apply last_Some in Hl as [k' ->].
    rewrite length_app. simpl. rewrite take_app_length' by lia. intros [= <-]. by subst.
  - intros ->. rewrite last_snoc, decide_True by done. rewrite length_app. simpl. by rewrite take_app_length' by lia.
Qed.

Lemma split_once_Some c l a b : split_once c l = Some (a, b) ↔ c ∉ a ∧ l = a ++ c :: b.
Proof.
  split; [|intros [Ha ->]; by apply split_once_app].
  revert a. induction l as [|x l IH]; intros a; simpl; [done|]. case_decide as Hx.
  - intros [= <- <-]. subst. split; [set_solver|done].
  - destruct (split_once c l) as [[a' b']|]; [|done]. intros [= <- <-].
    destruct (IH a' eq_refl) as [Ha ->]. split; [set_solver|done].
Qed.

Lemma split_once_None c l : split_once c l = None ↔ c ∉ l.
Proof.
  split.
  - induction l as [|x l IH]; simpl; [set_solver|]. case_decide; [done|]. destruct (split_once c l) as [[]|]; [done|].
    intros _. specialize (IH eq_refl). set_solver.
  - intros Hc. destruct (split_once c l) as [[a b]|] eqn:E; [|done]. apply split_once_Some in E as [_ ->]. set_solver.
Qed.

Lemma split_on_join c l : join [c] (split_on c l) = l.
Proof.
  induction l as [|x l IH]; simpl; [done|]. case_decide as Hx.
  - subst. destruct (split_on c l) as [|p ps] eqn:E; [by destruct l; simpl in E; repeat case_match|].
    change (c :: join [c] (p :: ps) = c :: l). by rewrite IH.
  - destruct (split_on c l) as [|p [|q ps]] eqn:E; simpl in *; by subst.
Qed.

Lemma whole_seconds_spec tm time :
  "."%char ∉ time → whole_seconds tm = Some time ↔ ∃ frac, fraction frac ∧ tm = time ++ frac.
Proof.
  intros Hdot. unfold whole_seconds. split.
  - destruct (split_once "."%char tm) as [[t f]|] eqn:E.
    + apply split_once_Some in E as [_ ->]. case_bool_decide as Hf; [done|]. simpl.
      destruct (forallb is_digit f) eqn:Hd; [|done]. intros [= ->]. exists ("."%char :: f). split; [|done].
      right. exists f. split_and!; [done..|]. by apply (digits_spec (length f)); unfold digits; rewrite bool_decide_eq_true_2.
    + intros [= ->]. exists []. rewrite app_nil_r. split; [by left|done].
  - intros (frac & [->|(f & -> & Hf & Hd)] & ->).
    + rewrite app_nil_r. by rewrite (proj2 (split_once_None _ _)).
    + rewrite split_once_app by done. rewrite bool_decide_eq_false_2 by done. simpl.
      assert (digits (length f) f = true) as H by by apply digits_spec. unfold digits in H.
      apply andb_true_iff in H as [_ ->]. done.
Qed.

(** Fields of two and of four digits. *)
Lemma two_digits v : 0 ≤ v ≤ 99 → 0 ≤ v < 10 ^ Z.of_nat 2.
Proof. change (10 ^ Z.of_nat 2) with 100. lia. Qed.
Lemma four_digits v : 0 ≤ v ≤ 9999 → 0 ≤ v < 10 ^ Z.of_nat 4.
Proof. change (10 ^ Z.of_nat 4) with 10000. lia. Qed.

Ltac field :=
  first [apply two_digits; lia | apply four_digits; lia | lia | vm_compute; reflexivity].

(** What parsing does with the text of a time. *)
Lemma parse_seconds_text y m d h mi sec frac :
  fields_ok y m d h mi sec → fraction frac →
  parse_instant (of_chars (seconds_text y m d h mi sec ++ frac ++ ["Z"%char])) =
  (if decide (civil_from_days (days_from_civil y m d) = (y, m, d))
   then Some (days_from_civil y m d * 86400 + h * 3600 + mi * 60 + sec) else None).
Proof.
  intros (Hy & Hm & Hd & Hh & Hmi & Hs) Hfrac. unfold parse_instant. rewrite to_of_chars, app_assoc.
  rewrite (proj2 (strip_last_spec _ _ _) eq_refl). cbn [mbind option_bind].
  assert (∀ c n v, (0 < n)%nat → 0 ≤ v < 10 ^ Z.of_nat n → digit_of c = None → c ∉ zero_pad n v) as Hno
    by (intros; by apply zero_pad_no).
  unfold seconds_text. rewrite <-app_assoc. cbn [app]. rewrite split_once_app.
  2: { rewrite !not_elem_of_app, !not_elem_of_cons, !not_elem_of_app, !not_elem_of_cons.
       split_and!; try apply Hno; try done; field. }
  cbn [mbind option_bind fst snd].
  set (time := zero_pad 2 h ++ ":"%char :: zero_pad 2 mi ++ ":"%char :: zero_pad 2 sec).
  assert ("."%char ∉ time) as Hdot.
  { unfold time. rewrite !not_elem_of_app, !not_elem_of_cons, !not_elem_of_app, !not_elem_of_cons.
    split_and!; try apply Hno; try done; field. }
  rewrite (proj2 (whole_seconds_spec (time ++ frac) time Hdot)) by eauto. cbn [mbind option_bind].
  rewrite split_on_app by (apply Hno; field). rewrite split_on_app by (apply Hno; field).
  rewrite split_on_none by (apply Hno; field).
  unfold time. rewrite split_on_app by (apply Hno; field). rewrite split_on_app by (apply Hno; field).
  rewrite split_on_none by (apply Hno; field).
  assert (∀ n v, (0 < n)%nat → 0 ≤ v < 10 ^ Z.of_nat n → digits n (zero_pad n v) = true) as Hdig.
  { intros n v Hn Hv. apply digits_zero_pad; eauto. }
  rewrite !Hdig by field. cbn [andb negb].
  unfold parse_i64, parse_u32. rewrite !parse_zero_pad by (unfold i64_min, i64_max, u32_max; field).
  cbn [mbind option_bind]. rewrite !bool_decide_eq_true_2 by lia. done.
Qed.

(** Every text that is accepted is the text of some fields. *)
Lemma parse_instant_fields s t :
  parse_instant s = Some t →
  ∃ y m d h mi sec frac, fields_ok y m d h mi sec ∧ fraction frac ∧
    to_chars s = seconds_text y m d h mi sec ++ frac ++ ["Z"%char].
Proof.
  unfold parse_instant. destruct (strip_last _ _) as [stem|] eqn:Hz; [|done]. apply strip_last_spec in Hz.
  cbn [mbind option_bind]. destruct (split_once _ stem) as [[date tm]|] eqn:Ht; [|done].
  apply split_once_Some in Ht as [_ ->]. cbn [mbind option_bind fst snd].
  destruct (whole_seconds tm) as [time|] eqn:Hw; [|done]. cbn [mbind option_bind].
  pose proof (split_on_join "-"%char date) as Hdate. pose proof (split_on_join ":"%char time) as Htime.
  destruct (split_on "-"%char date) as [|d0 [|d1 [|d2 [|]]]]; try done.
  destruct (split_on ":"%char time) as [|t0 [|t1 [|t2 [|]]]]; try done.
  destruct (digits 4 d0) eqn:D0; [|done]. destruct (digits 2 d1) eqn:D1; [|done]. destruct (digits 2 d2) eqn:D2; [|done].
  destruct (digits 2 t0) eqn:T0; [|done]. destruct (digits 2 t1) eqn:T1; [|done]. destruct (digits 2 t2) eqn:T2; [|done].
  cbn [andb negb].
  apply digits_zero_pad in D0 as (y & Hy & ->); [|lia]. apply digits_zero_pad in D1 as (m & Hm & ->); [|lia].
  apply digits_zero_pad in D2 as (d & Hd & ->); [|lia]. apply digits_zero_pad in T0 as (h & Hh & ->); [|lia].
  apply digits_zero_pad in T1 as (mi & Hmi & ->); [|lia]. apply digits_zero_pad in T2 as (sec & Hsec & ->); [|lia].
  change (10 ^ Z.of_nat 4) with 10000 in *. change (10 ^ Z.of_nat 2) with 100 in *.
  unfold parse_i64, parse_u32. rewrite !parse_zero_pad by (unfold i64_min, i64_max, u32_max; field).
  cbn [mbind option_bind].
  destruct (bool_decide (1 ≤ m ≤ 12)) eqn:B1; [|done]. destruct (bool_decide (h ≤ 23)) eqn:B2; [|done].
  destruct (bool_decide (mi ≤ 59)) eqn:B3; [|done]. destruct (bool_decide (sec ≤ 59)) eqn:B4; [|done]. cbn [andb].
  apply bool_decide_eq_true in B1, B2, B3, B4. case_decide as Hc; [|done]. intros _.
  apply civil_spec in Hc as (_ & Hd' & _).
  assert ("."%char ∉ time) as Hdot.
  { rewrite <-Htime. simpl. rewrite !not_elem_of_app, !not_elem_of_cons, !not_elem_of_app, !not_elem_of_cons.
    split_and!; try done; apply zero_pad_no; field. }
  apply whole_seconds_spec in Hw as (frac & Hfrac & ->); [|done].
  exists y, m, d, h, mi, sec, frac. split; [unfold fields_ok; lia|]. split; [done|].
  rewrite Hz, <-Hdate, <-Htime. unfold seconds_text. by repeat (simpl; rewrite <-?app_assoc).
Qed.

(** The text of a time has the fields of its day and second. *)
Lemma instant_fields t :
  four_digit_day (t / 86400) →
  ∃ y m d h mi sec, fields_ok y m d h mi sec ∧ civil_from_days (t / 86400) = (y, m, d) ∧
    t = t / 86400 * 86400 + h * 3600 + mi * 60 + sec ∧
    to_chars (instant t) = seconds_text y m d h mi sec ++ ["Z"%char].
Proof.
  intros Hday. unfold instant. destruct (civil_from_days (t / 86400)) as [[y m] d] eqn:Hc.
  destruct (civil_spec _ _ _ _ Hc) as (Hm & Hd & _ & Hy). apply Hy in Hday.
  exists y, m, d, (t mod 86400 / 3600), (t mod 86400 mod 3600 / 60), (t mod 86400 mod 60).
  split; [unfold fields_ok; split_and!; Z.to_euclidean_division_equations; lia|]. split; [done|].
  split; [Z.to_euclidean_division_equations; lia|]. rewrite to_of_chars. unfold seconds_text.
  by repeat (simpl; rewrite <-?app_assoc).
Qed.

(** Times are read exactly as they are written. A text is read as the second [t] exactly when
    [t] lies in a four-digit year and the text is what [instant] writes for [t], with or without a
    fraction of a second before its [Z]; in particular every such second is read back from what was
    written for it, and a date that is not in the calendar is refused. *)
Theorem parse_instant_exact (s : string) (t : Z) :
  parse_instant s = Some t ↔
  four_digit_day (t / 86400) ∧
  ∃ stem frac, to_chars (instant t) = stem ++ ["Z"%char] ∧ fraction frac ∧ to_chars s = stem ++ frac ++ ["Z"%char].
Proof.
  split.
  - intros H. destruct (parse_instant_fields s t H) as (y & m & d & h & mi & sec & frac & Hok & Hfrac & Hs).
    rewrite <-(of_to_chars s), Hs, parse_seconds_text in H by done. case_decide as Hc; [|done].
    destruct (civil_spec _ _ _ _ Hc) as (_ & _ & _ & Hday). set (days := days_from_civil y m d) in *.
    destruct Hok as (Hy & Hm & Hd & Hh & Hmi & Hsec). injection H as Ht.
    assert (t / 86400 = days) as Htd by (Z.to_euclidean_division_equations; lia).
    assert (four_digit_day (t / 86400)) as Hfour by (rewrite Htd; by apply Hday). split; [done|].
    destruct (instant_fields t Hfour) as (y' & m' & d' & h' & mi' & sec' & Hok' & Hc' & Ht' & Hi).
    rewrite Htd in Hc', Ht'. rewrite Hc in Hc'. injection Hc' as <- <- <-. exists (seconds_text y m d h mi sec), frac.
    split_and!; [|done..]. rewrite Hi. unfold fields_ok in Hok'.
    assert (h' = h ∧ mi' = mi ∧ sec' = sec) as (-> & -> & ->) by lia. done.
  - intros (Hday & stem & frac & Hi & Hfrac & Hs).
    destruct (instant_fields t Hday) as (y & m & d & h & mi & sec & Hok & Hc & Ht & Hi'). rewrite Hi in Hi'.
    apply (inj (.++ _)) in Hi'. subst stem. rewrite <-(of_to_chars s), Hs, parse_seconds_text by done.
    destruct (civil_spec _ _ _ _ Hc) as (_ & _ & Hdays & _). rewrite Hdays, Hc, decide_True by done. f_equal. lia.
Qed.

Example instant_examples :
  instant 0 = "1970-01-01T00:00:00Z"%string ∧ instant 951782400 = "2000-02-29T00:00:00Z"%string ∧
  parse_instant "2026-07-01T08:09:10.123Z" = Some 1782893350 ∧
  parse_instant "2025-02-29T00:00:00Z" = None ∧ parse_instant "2025-02-28T00:00:00.Z" = None ∧
  parse_instant "2025-02-28T24:00:00Z" = None.
Proof. vm_compute. done. Qed.
