(* ===== verification/ServerList.v ===== *)
(** * Servers as an administrator writes them (src/src/admin.rs)

    The checks of a server's name, host, port and domain, and the text format of the server import:
    one server per line, comma separated, with quotes. Quotes and commas are ASCII, which the bytes
    of no other character contain, so lines are split byte by byte. [debug] writes text as [{:?}]
    does, which looks characters up in Unicode tables. *)

From S2P Require Import Prelude Text Utf8 Store Instant.
Local Open Scope Z_scope.

(** ** Fields *)

Definition comma : ascii := ","%char.
Definition newline : ascii := "010"%char.
Definition carriage_return : ascii := "013"%char.

Definition count_char (c : ascii) (l : chars) : nat := length (filter (fun x => x = c) l).

Definition is_ascii_alphanumeric (c : ascii) : bool :=
  let n := Z.of_N (N_of_ascii c) in
  bool_decide (48 ≤ n ≤ 57 ∨ 65 ≤ n ≤ 90 ∨ 97 ≤ n ≤ 122).

Definition valid_name (name : string) : result string string :=
  let name := str_trim name in
  if bool_decide (name = ""%string) || bool_decide (100 < char_count name)%nat
     || existsb is_control (utf8_chars (to_chars name))
  then Err "a name is 1 to 100 characters"%string
  else Ok name.

Definition host_char (c : ascii) : bool :=
  is_ascii_alphanumeric c || bool_decide (c ∈ to_chars ".-_:").

Section fields.
Context (debug : string → string).

(** A DNS name or an IP address. *)
Definition valid_host (host : string) : result string string :=
  let host := str_trim host in
  if decide (count_char ":"%char (to_chars host) = 1%nat) then
    Err (debug host +:+ " includes a port; give the host alone and the port in its own field")
  else if negb (bool_decide (host = ""%string)) && bool_decide (length (to_chars host) ≤ 253)%nat
          && forallb host_char (to_chars host)
  then Ok host
  else Err (debug host +:+ " is not a host name or address").

Definition domain_char (p : chars) : bool :=
  negb (is_whitespace p) && negb (is_control p)
  && negb (bool_decide (p = [backslash] ∨ p = ["@"%char] ∨ p = ["/"%char])).

(** Empty is no default. *)
Definition valid_domain (domain : string) : result string (option string) :=
  let domain := str_trim domain in
  if decide (domain = ""%string) then Ok None
  else if bool_decide (length (to_chars domain) ≤ 255)%nat
          && forallb domain_char (utf8_chars (to_chars domain))
  then Ok (Some domain)
  else Err (debug domain +:+ " is not a domain name").
End fields.

Definition valid_port (port : option Z) : result string Z :=
  let p := default 3389 port in
  if decide (p = 0) then Err "port must be 1 to 65535"%string else Ok p.

(** ** Lines *)

(** [str::lines]: split at line feeds, each with a carriage return before it. *)
Definition str_lines (l : chars) : list chars :=
  match reverse (split_on newline l) with
  | [] => []
  | rest :: whole =>
      ((fun x => default x (strip_last carriage_return x)) <$> reverse whole)
      ++ (if decide (rest = []) then [] else [rest])
  end.

Definition is_blank (cur : chars) : bool := bool_decide (str_trim (of_chars cur) = ""%string).

(** The loop of [csv_fields]. *)
Fixpoint csv_go (fields : list chars) (cur : chars) (quoted : bool) (l : chars) :
    result string (list chars) :=
  match l with
  | [] => if quoted then Err "unterminated quote"%string else Ok (fields ++ [cur])
  | c :: l1 =>
      if decide (c = quote) then
        if quoted then
          match l1 with
          | d :: l2 =>
              if decide (d = quote) then csv_go fields (cur ++ [quote]) true l2
              else csv_go fields cur false l1
          | [] => csv_go fields cur false l1
          end
        else if is_blank cur then csv_go fields [] true l1
        else csv_go fields (cur ++ [c]) false l1
      else if bool_decide (c = comma) && negb quoted then csv_go (fields ++ [cur]) [] false l1
      else csv_go fields (cur ++ [c]) quoted l1
  end.

Definition csv_fields (line : string) : result string (list string) :=
  match csv_go [] [] false (to_chars line) with
  | Err e => Err e
  | Ok fields => Ok ((fun f => str_trim (of_chars f)) <$> fields)
  end.

(** ** The import *)

Definition with_prefix {A} (p : string) (r : result string A) : result string A :=
  match r with Ok a => Ok a | Err e => Err (p +:+ e) end.

Section import.
Context {U : Unicode} (debug : string → string).

Definition import_port (cell : option string) : result string (option Z) :=
  let p := default ""%string (str_trim <$> cell) in
  if decide (p = ""%string) then Ok None
  else match parse_u16 p with
       | Some n => if decide (0 < n) then Ok (Some n)
                   else Err ("port " +:+ debug p +:+ " is not 1 to 65535")
       | None => Err ("port " +:+ debug p +:+ " is not 1 to 65535")
       end.

(** An absent column keeps the group a server has; an empty cell ungroups it. *)
Definition import_group_cell (cell : option string) : result string (option (option string)) :=
  match str_trim <$> cell with
  | None => Ok None
  | Some g =>
      if decide (g = ""%string) then Ok (Some None)
      else v ← with_prefix "group: " (valid_name g); mret (Some (Some v))
  end.

(** The same for the default domain. *)
Definition import_domain_cell (cell : option string) : result string (option (option string)) :=
  match cell with
  | None => Ok None
  | Some d => v ← with_prefix "domain: " (valid_domain debug d); mret (Some v)
  end.

(** The columns of a line, before the name is compared with those of earlier lines. *)
Definition line_row (line : string) : result string ImportRow :=
  fields ← csv_fields line;
  if decide (length fields < 2 ∨ 5 < length fields)%nat then
    Err "expected name,host[,port[,group[,domain]]]"%string
  else
    name ← valid_name (default ""%string (fields !! 0%nat));
    host ← valid_host debug (default ""%string (fields !! 1%nat));
    port ← import_port (fields !! 2%nat);
    group ← import_group_cell (fields !! 3%nat);
    domain ← import_domain_cell (fields !! 4%nat);
    mret (mkImportRow name host port group domain).

(** What the loop has so far. *)
Record Importing := mkImporting {
  im_rows : list ImportRow;
  im_errors : list string;
  im_seen : gset string;
  im_first : bool;
}.

Definition skips (line : string) : bool :=
  bool_decide (line = ""%string) || bool_decide (head (to_chars line) = Some "#"%char).

Definition is_header (line : string) : bool :=
  bool_decide (is_Some (strip_prefix (to_chars "name,") (to_chars (to_ascii_lowercase line)))).

Definition import_error (n : nat) (e : string) (s : Importing) : Importing :=
  mkImporting (im_rows s) (im_errors s ++ ["line " +:+ pretty (Z.of_nat n) +:+ ": " +:+ e])
    (im_seen s) (im_first s).

(** One round of the loop, on the line numbered [n]. *)
Definition import_line (s : Importing) (n : nat) (raw : chars) : Importing :=
  let line := str_trim (of_chars raw) in
  if skips line then s
  else
    let was_first := im_first s in
    let s := mkImporting (im_rows s) (im_errors s) (im_seen s) false in
    if was_first && is_header line then s
    else
      match line_row line with
      | Err e => import_error n e s
      | Ok row =>
          let key := to_lowercase (i_name row) in
          if decide (key ∈ im_seen s) then import_error n (i_name row +:+ " appears more than once") s
          else mkImporting (im_rows s ++ [row]) (im_errors s) ({[key]} ∪ im_seen s) (im_first s)
      end.

Fixpoint import_lines (s : Importing) (n : nat) (l : list chars) : Importing :=
  match l with
  | [] => s
  | raw :: l' => import_lines (import_line s n raw) (S n) l'
  end.

Definition parse_import (text : string) : result (list string) (list ImportRow) :=
  let s := import_lines (mkImporting [] [] ∅ true) 1 (str_lines (to_chars text)) in
  if decide (im_errors s = []) then Ok (im_rows s) else Err (im_errors s).
End import.
