(* ===== verification/ServerListFacts.v ===== *)
(** * The server import reads what was written (src/src/admin.rs)

    An import is accepted when every line it has is a server and no name comes twice, and otherwise
    every bad line is reported; servers written out with quotes are read back. *)

From S2P Require Import Prelude Text Utf8 Store Instant ServerList.
Local Open Scope Z_scope.

Section import.
Context {U : Unicode} (debug : string → string).

(** ** What the lines of a file say *)

(** The lines that count, numbered as the file has them: not blank, no comment, no header. *)
Fixpoint content (first : bool) (n : nat) (l : list chars) : list (nat * string) :=
  match l with
  | [] => []
  | raw :: l' =>
      let line := str_trim (of_chars raw) in
      if skips line then content first (S n) l'
      else if first && is_header line then content false (S n) l'
      else (n, line) :: content false (S n) l'
  end.

Definition content_of (text : string) : list (nat * string) :=
  content true 1 (str_lines (to_chars text)).

Definition name_key (r : ImportRow) : string := to_lowercase (i_name r).
Definition message (n : nat) (e : string) : string := "line " +:+ pretty (Z.of_nat n) +:+ ": " +:+ e.

(** Each line of the content gives one row or one message. *)
Inductive judged : gset string → list (nat * string) → list ImportRow → list string → Prop :=
  | judged_nil seen : judged seen [] [] []
  | judged_row seen n line row c rows es :
      line_row debug line = Ok row → name_key row ∉ seen →
      judged ({[name_key row]} ∪ seen) c rows es →
      judged seen ((n, line) :: c) (row :: rows) es
  | judged_bad seen n line e c rows es :
      line_row debug line = Err e → judged seen c rows es →
      judged seen ((n, line) :: c) rows (message n e :: es)
  | judged_again seen n line row c rows es :
      line_row debug line = Ok row → name_key row ∈ seen → judged seen c rows es →
      judged seen ((n, line) :: c) rows (message n (i_name row +:+ " appears more than once") :: es).

Lemma import_lines_judged s n l :
  ∃ rows es, im_rows (import_lines debug s n l) = im_rows s ++ rows ∧
    im_errors (import_lines debug s n l) = im_errors s ++ es ∧
    judged (im_seen s) (content (im_first s) n l) rows es.
Proof.
  revert s n. induction l as [|raw l IH]; intros s n; simpl.
  { exists [], []. rewrite !app_nil_r. split_and!; [done..|constructor]. }
  unfold import_line. set (line := str_trim (of_chars raw)).
  destruct (skips line); [apply IH|].
  destruct (im_first s && is_header line).
  { apply (IH (mkImporting (im_rows s) (im_errors s) (im_seen s) false) (S n)). }
  destruct (line_row debug line) as [row|e] eqn:Hl; [case_decide as Hk|]; simpl in *.
  - destruct (IH (import_error n (i_name row +:+ " appears more than once")
        (mkImporting (im_rows s) (im_errors s) (im_seen s) false)) (S n)) as (rows & es & -> & -> & Hj).
    eexists rows, (_ :: es). split_and!; [done|simpl; by rewrite <-app_assoc|]. by eapply judged_again.
  - edestruct IH as (rows & es & -> & -> & Hj).
    exists (row :: rows), es. split_and!; [simpl; by rewrite <-app_assoc|done|]. by apply judged_row.
  - destruct (IH (import_error n e (mkImporting (im_rows s) (im_errors s) (im_seen s) false)) (S n))
      as (rows & es & -> & -> & Hj).
    eexists rows, (_ :: es). split_and!; [done|simpl; by rewrite <-app_assoc|]. by apply judged_bad.
Qed.

Lemma parse_import_judged text :
  ∃ rows es, judged ∅ (content_of text) rows es ∧
    parse_import debug text = if decide (es = []) then Ok rows else Err es.
Proof.
  unfold parse_import. edestruct (import_lines_judged (mkImporting [] [] ∅ true) 1) as (rows & es & -> & -> & Hj).
  by exists rows, es.
Qed.

(** Judging is a function of the lines. *)
Lemma judged_det seen c rows es rows' es' :
  judged seen c rows es → judged seen c rows' es' → rows = rows' ∧ es = es'.
Proof.
  intros H. revert rows' es'. induction H; inversion 1; simplify_eq;
    repeat match goal with H : line_row _ ?l = _, H' : line_row _ ?l = _ |- _ => rewrite H in H'; simplify_eq end;
    try done;
    match goal with IH : ∀ rows' es', judged _ ?c _ _ → _, H : judged _ ?c _ _ |- _ => destruct (IH _ _ H); by subst end.
Qed.

(** Without messages: every line is its row, and the names are new and different. *)
Lemma judged_clean seen c rows :
  judged seen c rows [] ↔
  Forall2 (fun nl r => line_row debug nl.2 = Ok r) c rows ∧ NoDup (name_key <$> rows) ∧
  Forall (fun r => name_key r ∉ seen) rows.
Proof.
  revert seen rows. induction c as [|[n line] c IH]; intros seen rows; split.
  - inversion 1; subst. split_and!; constructor.
  - intros (H & _). inversion H; subst. constructor.
  - inversion 1; simplify_eq. match goal with H : judged _ c _ [] |- _ => apply IH in H as (Hf & Hn & Ho) end.
    rewrite Forall_forall in Ho. rewrite fmap_cons, NoDup_cons. split_and!; [by constructor| |done|].
    + rewrite list_elem_of_fmap. intros (r & Hk & Hr). apply (Ho r Hr). set_solver.
    + constructor; [done|]. apply Forall_forall. intros r Hr. specialize (Ho r Hr). set_solver.
  - intros (Hf & Hn & Ho). inversion Hf as [|? row ? rows' Hl Hf']; simplify_eq.
    rewrite fmap_cons, NoDup_cons in Hn. destruct Hn as [Hk Hn]. inversion Ho; simplify_eq.
    apply judged_row; [done..|]. apply IH. split_and!; [done..|].
    apply Forall_forall. intros r Hr. rewrite not_elem_of_union, elem_of_singleton. split.
    + intros E. apply Hk. rewrite <-E. by apply list_elem_of_fmap_2.
    + eapply Forall_forall in Hr; [|done]. done.
Qed.

(** A line that is no server has its message, and every message is one of these. *)
Lemma judged_messages seen c rows es :
  judged seen c rows es →
  (∀ n line e, (n, line) ∈ c → line_row debug line = Err e → message n e ∈ es) ∧
  (∀ m, m ∈ es → ∃ n line e, (n, line) ∈ c ∧ m = message n e ∧
     (line_row debug line = Err e ∨
      ∃ row, line_row debug line = Ok row ∧ (name_key row ∈ seen ∨ ∃ r, r ∈ rows ∧ name_key r = name_key row))) ∧
  length c = (length rows + length es)%nat.
Proof.
  induction 1 as [seen|seen n line row c rows es Hl Hk H IH|seen n line e c rows es Hl H IH|seen n line row c rows es Hl Hk H IH].
  - split_and!; [set_solver..|done].
  - destruct IH as (Hm & Ho & Hlen). split_and!; [intros n' line' e' [[= -> ->]|?]%elem_of_cons ?; [congruence|eauto]| |simpl; lia].
    intros m Hin. destruct (Ho m Hin) as (n' & line' & e & Hin' & -> & Hw).
    exists n', line', e. split_and!; [set_solver|done|]. destruct Hw as [?|(row' & Hr & [Hs|(r & ? & ?)])]; [by left| |].
    + right. exists row'. split; [done|]. apply elem_of_union in Hs as [Hs|Hs]; [right|by left].
      apply elem_of_singleton in Hs. exists row. split; [left|done].
    + right. exists row'. split; [done|]. right. exists r. split; [by right|done].
  - destruct IH as (Hm & Ho & Hlen). split_and!; [intros n' line' e' [[= -> ->]|?]%elem_of_cons ?; [replace e' with e by congruence; left|right; eauto]| |simpl; lia].
    intros m [->|Hin]%elem_of_cons.
    + exists n, line, e. split_and!; [left|done|by left].
    + destruct (Ho m Hin) as (n' & line' & e' & Hin' & -> & Hw). exists n', line', e'. split_and!; [by right|done|done].
  - destruct IH as (Hm & Ho & Hlen). split_and!; [intros n' line' e' [[= -> ->]|?]%elem_of_cons ?; [congruence|right; eauto]| |simpl; lia].
    intros m [->|Hin]%elem_of_cons.
    + exists n, line, (i_name row +:+ " appears more than once"). split_and!; [left|done|].
      right. exists row. split; [done|by left].
    + destruct (Ho m Hin) as (n' & line' & e' & Hin' & -> & Hw). exists n', line', e'. split_and!; [by right|done|done].
Qed.

(** ** Servers written out *)

(** A cell in quotes, with quotes inside it doubled. *)
Definition doubled (l : chars) : chars := l ≫= (fun c => if decide (c = quote) then [quote; quote] else [c]).
Definition quoted_cell (s : string) : chars := [quote] ++ doubled (to_chars s) ++ [quote].

(** The columns of a row: those before the first one that is absent. *)
Definition row_cells (r : ImportRow) : list string :=
  [i_name r; i_host r] ++
  match i_group r with
  | None => match i_port r with None => [] | Some p => [pretty p] end
  | Some g =>
      [match i_port r with None => ""%string | Some p => pretty p end; default ""%string g]
      ++ match i_domain r with None => [] | Some d => [default ""%string d] end
  end.

Definition csv_line (r : ImportRow) : chars := join [comma] (quoted_cell <$> row_cells r).
Definition csv_text (rows : list ImportRow) : string :=
  of_chars (rows ≫= (fun r => csv_line r ++ [newline])).

(** A row the checks accept as it is, whose absent columns are the last ones. *)
Record row_ok (r : ImportRow) : Prop := {
  ok_name : valid_name (i_name r) = Ok (i_name r);
  ok_host : valid_host debug (i_host r) = Ok (i_host r);
  ok_port : ∀ p, i_port r = Some p → 1 ≤ p ≤ 65535;
  ok_group : ∀ g, i_group r = Some (Some g) → valid_name g = Ok g;
  ok_domain : ∀ d, i_domain r = Some (Some d) → valid_domain debug d = Ok (Some d);
  ok_columns : is_Some (i_domain r) → is_Some (i_group r);
  ok_one_line : Forall (fun c => newline ∉ to_chars c) (row_cells r);
}.

Lemma csv_go_quoted fs cur l rest :
  head rest ≠ Some quote →
  csv_go fs cur true (doubled l ++ quote :: rest) = csv_go fs (cur ++ l) false rest.
Proof.
  intros Hr. revert cur. induction l as [|c l IH]; intros cur.
  - rewrite app_nil_r. simpl. destruct rest as [|d rest]; [done|]. by rewrite decide_False by naive_solver.
  - unfold doubled in *. rewrite bind_cons, <-app_assoc. destruct (decide (c = quote)) as [->|Hc].
    + cbn [app csv_go]. rewrite !decide_True by done. by rewrite IH, <-app_assoc.
    + cbn [app csv_go]. rewrite decide_False, andb_false_r by done. by rewrite IH, <-app_assoc.
Qed.

Lemma csv_go_cells fs cells :
  cells ≠ [] →
  csv_go fs [] false (join [comma] (quoted_cell <$> cells)) = Ok (fs ++ (to_chars <$> cells)).
Proof.
  revert fs. induction cells as [|s cells IH]; intros fs H; [done|]. clear H.
  assert (∀ rest, head rest ≠ Some quote →
    csv_go fs [] false (quoted_cell s ++ rest) = csv_go fs (to_chars s) false rest) as Hgo.
  { intros rest Hr. unfold quoted_cell. rewrite <-!app_assoc. cbn [app csv_go].
    rewrite decide_True by done. by apply (csv_go_quoted fs [] (to_chars s) rest). }
  destruct cells as [|s' cells].
  - specialize (Hgo [] ltac:(done)). rewrite app_nil_r in Hgo. done.
  - change (join [comma] (quoted_cell <$> s :: s' :: cells)) with
      (quoted_cell s ++ [comma] ++ join [comma] (quoted_cell <$> s' :: cells)).
    rewrite Hgo by done. cbn [app csv_go]. rewrite decide_False, bool_decide_eq_true_2 by done.
    rewrite IH by done. by rewrite <-app_assoc.
Qed.

(** Cells that are trimmed already come back. *)
Lemma csv_fields_cells cells :
  cells ≠ [] → Forall (fun s => str_trim s = s) cells →
  csv_fields (of_chars (join [comma] (quoted_cell <$> cells))) = Ok cells.
Proof.
  intros Hne Ht. unfold csv_fields. rewrite to_of_chars, csv_go_cells by done. f_equal. simpl.
  rewrite <-list_fmap_compose. rewrite <-(list_fmap_id cells) at 2.
  apply list_fmap_ext. intros i s Hs. simpl. rewrite of_to_chars. eapply Forall_lookup_1 in Ht; done.
Qed.

Lemma drop_while_false {A} (p : A → bool) x l : p x = false → drop_while p (x :: l) = x :: l.
Proof. simpl. by intros ->. Qed.

Lemma utf8_chars_snoc l c : continues c = false → utf8_chars (l ++ [c]) = utf8_chars l ++ [[c]].
Proof.
  intros Hc. induction l as [|a l IH]; [done|]. simpl. rewrite IH.
  destruct (utf8_chars l) as [|[|d p] ps]; simpl; [by rewrite Hc|done|by destruct (continues d)].
Qed.

Lemma utf8_chars_cons c l : ∃ p ps, utf8_chars (c :: l) = (c :: p) :: ps.
Proof. simpl. destruct (utf8_chars l) as [|[|d p] ps]; [eauto..|]. destruct (continues d); eauto. Qed.

(** Text that begins and ends with a quote is not trimmed. *)
Lemma str_trim_quoted l : str_trim (of_chars (quote :: l ++ [quote])) = of_chars (quote :: l ++ [quote]).
Proof.
  unfold str_trim. rewrite to_of_chars, app_comm_cons, utf8_chars_snoc by done.
  destruct (utf8_chars_cons quote l) as (p & ps & E). rewrite E.
  assert (∀ q, is_whitespace (quote :: q) = false) as Hw.
  { intros q. unfold is_whitespace. rewrite fmap_cons. change (N_of_ascii quote) with 34%N.
    by destruct q as [|? [|? [|??]]]. }
  change (((quote :: p) :: ps) ++ [[quote]]) with ((quote :: p) :: ps ++ [[quote]]).
  rewrite drop_while_false by done. rewrite app_comm_cons, reverse_snoc.
  rewrite drop_while_false by done. rewrite reverse_cons, reverse_involutive.
  f_equal. rewrite <-E, join_app, utf8_chars_join. done.
Qed.

Lemma str_trim_digits s : Forall (fun c => is_Some (digit_of c)) (to_chars s) → str_trim s = s.
Proof.
  intros H. assert (∀ c, is_Some (digit_of c) → (N_of_ascii c < 128)%N ∧ is_whitespace [c] = false) as Hd.
  { intros c Hc. unfold digit_of in Hc. case_decide; [|by destruct Hc]. split; [lia|].
    assert (is_whitespace [c] = bool_decide ((9 ≤ N_of_ascii c ∧ N_of_ascii c ≤ 13)%N ∨ N_of_ascii c = 32%N)) as ->.
    { by destruct c as [[] [] [] [] [] [] [] []]. }
    apply bool_decide_eq_false. lia. }
  assert (∀ l, Forall (fun c => is_Some (digit_of c)) l →
    drop_while is_whitespace ((fun c => [c]) <$> l) = (fun c => [c]) <$> l) as Hw.
  { intros [|c l]; [done|]. intros [Hc _]%Forall_cons. rewrite fmap_cons. apply drop_while_false. by apply Hd. }
  unfold str_trim. rewrite utf8_chars_ascii by (eapply Forall_impl; [done|]; intros c Hc; by apply Hd).
  rewrite Hw by done. rewrite <-fmap_reverse, Hw by by apply Forall_reverse.
  rewrite <-fmap_reverse, reverse_involutive.
  rewrite <-utf8_chars_ascii by (eapply Forall_impl; [done|]; intros c Hc; by apply Hd).
  by rewrite utf8_chars_join, of_to_chars.
Qed.

Lemma valid_name_trim s : valid_name s = Ok s → str_trim s = s ∧ s ≠ ""%string.
Proof.
  unfold valid_name. destruct (bool_decide (str_trim s = ""%string)) eqn:E; [done|]. simpl.
  destruct (_ || _); [done|]. intros [= H]. apply bool_decide_eq_false in E. by rewrite H in E.
Qed.

Lemma valid_host_trim s : valid_host debug s = Ok s → str_trim s = s.
Proof. unfold valid_host. case_decide; [done|]. destruct (_ && _); [|done]. by intros [= ->]. Qed.

Lemma valid_domain_trim s : valid_domain debug s = Ok (Some s) → str_trim s = s ∧ s ≠ ""%string.
Proof.
  unfold valid_domain. case_decide as E; [done|]. destruct (_ && _); [|done]. intros [= H]. by rewrite H in E.
Qed.

Lemma port_trim p : 1 ≤ p ≤ 65535 → str_trim (pretty p) = pretty p ∧ pretty p ≠ ""%string.
Proof.
  intros Hp. split; [apply str_trim_digits, pretty_nonneg_chars; lia|].
  intros E. pose proof (parse_pretty 0 u16_max p ltac:(lia)) as H. rewrite E in H.
  unfold u16_max in H. specialize (H ltac:(lia)). done.
Qed.

Lemma row_cells_trim r : row_ok r → Forall (fun s => str_trim s = s) (row_cells r).
Proof.
  intros [Hn Hh Hp Hg Hd Hc _]. unfold row_cells. apply valid_name_trim in Hn as [Hn _].
  apply valid_host_trim in Hh. constructor; [done|]. constructor; [done|].
  assert (str_trim ""%string = ""%string) as He by done.
  destruct (i_group r) as [g|].
  - apply Forall_app. split; [constructor; [|constructor; [|constructor]]|].
    + destruct (i_port r) as [p|]; [by apply port_trim, Hp|done].
    + destruct g as [g|]; [by apply valid_name_trim, Hg|done].
    + destruct (i_domain r) as [[d|]|]; [|by repeat constructor..].
      constructor; [by apply valid_domain_trim, Hd|constructor].
  - destruct (i_port r) as [p|]; [|constructor]. constructor; [by apply port_trim, Hp|constructor].
Qed.

Lemma import_port_text p : 1 ≤ p ≤ 65535 → import_port debug (Some (pretty p)) = Ok (Some p).
Proof.
  intros Hp. destruct (port_trim p Hp) as [Ht Hne]. unfold import_port. simpl. rewrite Ht, decide_False by done.
  unfold parse_u16. rewrite parse_pretty by (unfold u16_max; lia). by rewrite decide_True by lia.
Qed.

Lemma import_group_text g : valid_name g = Ok g → import_group_cell (Some g) = Ok (Some (Some g)).
Proof.
  intros Hg. destruct (valid_name_trim g Hg) as [Ht Hne]. unfold import_group_cell. simpl.
  rewrite Ht, decide_False by done. by rewrite Hg.
Qed.

(** A row written out is read back. *)
Lemma line_row_csv r : row_ok r → line_row debug (of_chars (csv_line r)) = Ok r.
Proof.
  intros Hok. unfold line_row, csv_line. rewrite csv_fields_cells by (done || by apply row_cells_trim).
  destruct Hok as [Hn Hh Hp Hg Hd Hc _]. unfold row_cells. destruct r as [n h p g d]. simpl in *.
  destruct g as [g|]; [|destruct d as [d|]; [by destruct Hc|]].
  - assert (import_port debug (Some match p with None => ""%string | Some p => pretty p end) = Ok p) as Ep.
    { destruct p as [p|]; [by apply import_port_text, Hp|done]. }
    assert (import_group_cell (Some (default ""%string g)) = Ok (Some g)) as Eg.
    { destruct g as [g|]; [by apply import_group_text, Hg|done]. }
    destruct d as [d|]; simpl; rewrite Hn; simpl; rewrite Hh; simpl; rewrite Ep; simpl; rewrite Eg; simpl; [|done].
    destruct d as [d|]; [|done]. simpl. by rewrite (Hd d eq_refl).
  - destruct p as [p|]; simpl; rewrite Hn; simpl; rewrite Hh; simpl; [|done]. by rewrite import_port_text by auto.
Qed.

Lemma csv_line_quoted r : ∃ l, csv_line r = quote :: l ++ [quote].
Proof.
  unfold csv_line.
  assert (∀ cells s, ∃ l, join [comma] (quoted_cell <$> s :: cells) = quote :: l ++ [quote]) as H.
  { induction cells as [|s' cells IH]; intros s; [by exists (doubled (to_chars s))|].
    destruct (IH s') as [l Hl]. exists (doubled (to_chars s) ++ [quote; comma] ++ quote :: l).
    change (join [comma] (quoted_cell <$> s :: s' :: cells)) with
      (quoted_cell s ++ [comma] ++ join [comma] (quoted_cell <$> s' :: cells)).
    rewrite Hl. unfold quoted_cell. simpl. by rewrite <-!app_assoc. }
  unfold row_cells. apply H.
Qed.

Lemma csv_line_one_line r : row_ok r → newline ∉ csv_line r.
Proof.
  intros Hok. pose proof (ok_one_line r Hok) as H. unfold csv_line. induction H as [|s cells Hs _ IH]; [set_solver|].
  assert (newline ∉ quoted_cell s) as Hq.
  { unfold quoted_cell, doubled. rewrite !not_elem_of_app, list_elem_of_bind. split_and!; [set_solver| |set_solver].
    intros (c & Hc & Hin). destruct (decide (c = quote)); [set_solver|]. by apply list_elem_of_singleton in Hc as <-. }
  destruct cells as [|s' cells]; [done|].
  change (join [comma] (quoted_cell <$> s :: s' :: cells)) with
    (quoted_cell s ++ [comma] ++ join [comma] (quoted_cell <$> s' :: cells)).
  rewrite !not_elem_of_app. split_and!; [done|set_solver|done].
Qed.

Lemma split_text rows : Forall row_ok rows →
  split_on newline (rows ≫= (fun r => csv_line r ++ [newline])) = (csv_line <$> rows) ++ [[]].
Proof.
  induction 1 as [|r rows Hr _ IH]; [done|]. rewrite bind_cons, <-app_assoc. change ([newline] ++ ?l) with (newline :: l).
  rewrite (split_on_app newline (csv_line r)) by by apply csv_line_one_line. by rewrite IH.
Qed.

Lemma str_lines_text rows : Forall row_ok rows →
  str_lines (to_chars (csv_text rows)) = csv_line <$> rows.
Proof.
  intros H. unfold csv_text, str_lines. rewrite to_of_chars, split_text, reverse_snoc by done.
  rewrite reverse_involutive, decide_True, app_nil_r by done. rewrite <-list_fmap_compose.
  apply list_fmap_ext. intros i r _. simpl. destruct (csv_line_quoted r) as [l ->].
  unfold strip_last. by rewrite app_comm_cons, last_snoc.
Qed.

Lemma content_text first n rows : Forall row_ok rows →
  Forall2 (fun nl r => nl.2 = of_chars (csv_line r)) (content first n (csv_line <$> rows)) rows.
Proof.
  intros H. revert first n. induction H as [|r rows Hr _ IH]; intros first n; [constructor|].
  destruct (csv_line_quoted r) as [l Hl]. rewrite fmap_cons. cbn [content]. rewrite Hl, str_trim_quoted.
  assert (skips (of_chars (quote :: l ++ [quote])) = false) as -> by done.
  assert (is_header (of_chars (quote :: l ++ [quote])) = false) as -> by done.
  rewrite andb_false_r. constructor; [by rewrite <-Hl|apply IH].
Qed.

(** Servers that the checks accept, written one per line with every cell in quotes, are read
    back as they were: quotes and commas inside names, absent ports, and the difference between a
    column that is absent and one that is empty all survive. *)
Theorem import_reads_what_was_written (rows : list ImportRow) :
  Forall row_ok rows → NoDup (name_key <$> rows) → parse_import debug (csv_text rows) = Ok rows.
Proof.
  intros Hok Hn. destruct (parse_import_judged (csv_text rows)) as (rows' & es & Hj & ->).
  assert (judged ∅ (content_of (csv_text rows)) rows []) as Hj'.
  { apply judged_clean. split_and!; [|done|apply Forall_forall; set_solver].
    unfold content_of. rewrite str_lines_text by done.
    pose proof (content_text true 1 rows Hok) as Hc. clear Hn Hj. induction Hc as [|nl r ? ? E ? IH]; [constructor|].
    apply Forall_cons in Hok as [Hr Hok]. constructor; [rewrite E; by apply line_row_csv|by apply IH]. }
  destruct (judged_det _ _ _ _ _ _ Hj Hj') as [-> ->]. by rewrite decide_True.
Qed.

(** C31. A file of servers is accepted exactly when each of its lines (blank lines, comments and a
    header aside) is a server and no two have the same name, and then the import is those servers in
    order. Otherwise there is a message for each line that is not a server, with its number, and no
    message about any line that is a server whose name does not repeat an accepted one's; lines,
    accepted servers and messages add up. *)
Theorem parse_import_exact (text : string) :
  (∀ rows, parse_import debug text = Ok rows ↔
     Forall2 (fun nl r => line_row debug nl.2 = Ok r) (content_of text) rows ∧ NoDup (name_key <$> rows)) ∧
  (∀ es, parse_import debug text = Err es → es ≠ [] ∧
     (∀ n line e, (n, line) ∈ content_of text → line_row debug line = Err e → message n e ∈ es) ∧
     ∃ rows, (∀ m, m ∈ es → ∃ n line e, (n, line) ∈ content_of text ∧ m = message n e ∧
                (line_row debug line = Err e ∨
                 ∃ row r, line_row debug line = Ok row ∧ r ∈ rows ∧ name_key r = name_key row)) ∧
       length (content_of text) = (length rows + length es)%nat).
Proof.
  destruct (parse_import_judged text) as (rows & es & Hj & ->). split.
  - intros rows'. split.
    + case_decide; [|done]. intros [= <-]. subst. apply judged_clean in Hj as (? & ? & _). done.
    + intros [Hf Hn]. assert (judged ∅ (content_of text) rows' []) as Hj'.
      { apply judged_clean. split_and!; [done..|]. apply Forall_forall. set_solver. }
      destruct (judged_det _ _ _ _ _ _ Hj Hj') as [-> ->]. by rewrite decide_True.
  - intros es'. case_decide as He; [done|]. intros [= <-].
    apply judged_messages in Hj as (Hm & Ho & Hlen). split_and!; [done..|].
    exists rows. split; [|done]. intros m Hin. destruct (Ho m Hin) as (n & line & e & ? & ? & Hw).
    exists n, line, e. split_and!; [done..|]. destruct Hw as [?|(row & ? & [[]%elem_of_empty|(r & ? & ?)])];
      [by left|right; by exists row, r].
Qed.
End import.
