(* ===== verification/Admin.v ===== *)
(** * The administrator's requests (src/src/admin.rs)

    Users and their servers, servers, groups, settings, the activity log, the credential store and
    the directory's password. Each handler is given the administrator its extractor found; the two
    that leave the gate to ask the directory are given the token, find the administrator again, and
    take what other requests did meanwhile ([away]). *)

From S2P Require Import Prelude Tables Text Utf8 Store Policy Auth Live Settings Vault Directory App Web Instant ServerList.
Local Open Scope Z_scope.

Section admin.
Context {U : Unicode} {C : Crypto} {K : KeyProtector} (debug : string → string)
  (from_slice : bytes → option Settings) (to_vec : Settings → bytes) (cfg : Cfg) (host_name : string).

Definition FROZEN_MESSAGE : string :=
  "this proxy is frozen for migration; unfreeze it on the Migration page to make changes".

(** Edits made on a frozen proxy would be lost at cutover, so they are refused. *)
Definition not_frozen : W unit :=
  f ← gets (fun a => frozen (store_ a));
  if f : bool then throw (conflict FROZEN_MESSAGE) else mret ().

(** Refused when an import replaced the database while a route was away from the gate. *)
Definition same_generation (g : Z) : W unit :=
  current ← gets generation;
  if decide (current = g) then mret ()
  else throw (conflict "this proxy's data was replaced while that request ran; try it again").

(** [map_err(ApiError::bad_request)] and the vault's errors. *)
Definition checked {A} (r : result string A) : W A :=
  lift (match r with Ok a => Ok a | Err e => Err (bad_request e) end).

Definition on_app {A} (m : M App VaultError A) : W A := map_err from_vault_error m.

(** Ends connections in the registry. *)
Definition ending (f : LiveSessions → nat * LiveSessions) : W unit :=
  modify (fun a => with_live (snd (f (live a))) a).

(** ** Users *)

Record UserJson := mkUserJson {
  uj_id : Z; uj_username : string; uj_display_name : option string; uj_is_admin : bool;
  uj_bootstrap_admin : bool; uj_sid_bound : bool; uj_sid_mismatch : bool; uj_local : bool;
  uj_created : Z; uj_last_login : option Z; uj_servers : Z; uj_saved : Z;
}.

Definition users : W (list UserJson) :=
  rows ← sto users_list;
  mret ((fun r =>
    let u := ur_user r in
    mkUserJson (user_id u) (username u) (display_name u) (is_admin u) (is_bootstrap_admin cfg (username u))
      (bool_decide (is_Some (sid u))) (sid_mismatch u) (local u) (created u) (last_login u)
      (ur_server_count r) (ur_saved_count r)) <$> rows).

(** What the directory said of a name, asked without the gate held. *)
Definition ask_directory (password : option string) (username : string) (net : Network) (now : Z) :
    W (bool * option string) := fun a =>
  match lookup_directory cfg, password with
  | Some d, Some pw =>
      let '(r, p) := lookup_many d net pw [username] now (preferred a) in
      let a := with_preferred p a in
      match r with
      | Ok found =>
          match head found ≫= snd with
          | Some account => (Ok (true, acc_display_name account), a)
          | None => (Err (mkApiError NOT_FOUND ("the directory has no account named " +:+ username)), a)
          end
      | Err _ => (Ok (false, None), a)
      end
  | _, _ => (Ok (false, None), a)
  end.

(** What a request that leaves the gate meets: the times it looks at the clock, what the directory
    answers, and what other requests do meanwhile. *)
Record Away := mkAway { aw_first : Z; aw_now : Z; aw_net : Network; aw_others : App → App }.

Definition service_password : W (option string) :=
  gets (fun a => match lookup_directory cfg with
                 | Some _ => match directory_password a with Ok p => p | Err _ => None end
                 | None => None
                 end).

Definition add_user (token : bytes) (typed : string) (w : Away) (rnd : Z) : W (Z * bool) :=
  name ← lift (ok_or (bad_request "that is not a valid username") (normalize_username typed));
  _ ← revalidate_admin cfg token (aw_first w);
  _ ← not_frozen;
  password ← service_password;
  g ← gets generation;
  found ← ask_directory password name (aw_net w) (aw_first w);
  _ ← modify (aw_others w);
  _ ← same_generation g;
  admin ← revalidate_admin cfg token (aw_now w);
  _ ← not_frozen;
  id ← sto (user_create (aw_now w) rnd name found.2);
  _ ← log (aw_now w) (username admin) "user.add" name;
  mret (id, found.1).

Definition user_or_404 (id : Z) : W User :=
  u ← sto (user_by_id id);
  lift (ok_or not_found u).

Definition update_user (admin : User) (now id : Z) (is_admin : bool) : W unit :=
  _ ← not_frozen;
  u ← user_or_404 id;
  _ ← sto (user_set_admin id is_admin);
  log now (username admin) (if is_admin then "user.admin.grant" else "user.admin.revoke") (username u).

Definition remove_user (admin : User) (now id : Z) : W unit :=
  _ ← not_frozen;
  u ← user_or_404 id;
  _ ← sto (user_delete id);
  _ ← ending (end_user id);
  log now (username admin) "user.remove" (username u).

Definition user_servers (id : Z) : W (list Z) :=
  _ ← user_or_404 id;
  sto (assignment_ids id).

(** The loop over [before.difference(&wanted)], in the order [elements] has. *)
Definition end_removed (user : Z) (gone : list Z) : W unit :=
  foldM (fun _ server => ending (end_user_server user server)) () gone.

Definition set_user_servers (admin : User) (now id : Z) (server_ids : list Z) : W (Z * Z) :=
  _ ← not_frozen;
  u ← user_or_404 id;
  before ← sto (assignment_ids id);
  counts ← sto (set_assignments id server_ids);
  let wanted : gset Z := list_to_set server_ids in
  _ ← end_removed id (elements (list_to_set before ∖ wanted));
  _ ← (if decide (0 < counts.1 + counts.2) then
         log now (username admin) "user.servers"
           (username u +:+ ": +" +:+ pretty counts.1 +:+ " -" +:+ pretty counts.2)
       else mret ());
  mret counts.

Definition copy_from (admin : User) (now id from : Z) : W Z :=
  _ ← not_frozen;
  to ← user_or_404 id;
  src ← user_or_404 from;
  added ← sto (copy_assignments from id);
  _ ← log now (username admin) "user.servers.copy"
        (username to +:+ " <- " +:+ username src +:+ ": +" +:+ pretty added);
  mret added.

Definition clear_sid (admin : User) (now id : Z) : W unit :=
  _ ← not_frozen;
  u ← user_or_404 id;
  _ ← sto (user_clear_sid id);
  _ ← ending (end_user id);
  log now (username admin) "user.sid.reset" (username u).

(** ** Settings *)

Definition get_settings : W Settings := sto (settings_read from_slice).

Definition put_settings (admin : User) (now : Z) (req : Settings) : W unit :=
  _ ← not_frozen;
  _ ← checked (settings_check req);
  _ ← sto (settings_write to_vec req);
  log now (username admin) "settings.change" (settings_describe req).

(** ** Servers *)

Definition servers : W (list ServerRow) := sto servers_list.

Record ServerForm := mkServerForm {
  f_name : string; f_host : string; f_port : option Z; f_group_id : option Z; f_domain : option string;
}.

Definition server_fields (req : ServerForm) : W (string * string * Z * option string) :=
  name ← checked (valid_name (f_name req));
  host ← checked (valid_host debug (f_host req));
  port ← checked (valid_port (f_port req));
  domain ← checked (valid_domain debug (default ""%string (f_domain req)));
  mret (name, host, port, domain).

Definition server_text (name host : string) (port : Z) : string :=
  name +:+ " (" +:+ host +:+ ":" +:+ pretty port +:+ ")".

Definition add_server (admin : User) (now rnd : Z) (req : ServerForm) : W Z :=
  _ ← not_frozen;
  fields ← server_fields req;
  let '(name, host, port, domain) := fields in
  id ← sto (server_create rnd name host port (f_group_id req) domain);
  _ ← log now (username admin) "server.add" (server_text name host port);
  mret id.

Definition update_server (admin : User) (now id : Z) (req : ServerForm) : W unit :=
  _ ← not_frozen;
  fields ← server_fields req;
  let '(name, host, port, domain) := fields in
  _ ← sto (server_update id name host port (f_group_id req) domain);
  log now (username admin) "server.edit" (server_text name host port).

Definition remove_server (admin : User) (now id : Z) : W unit :=
  _ ← not_frozen;
  found ← sto (server_by_id id);
  server ← lift (ok_or not_found found);
  _ ← sto (server_delete id);
  _ ← ending (end_server id);
  log now (username admin) "server.remove" (server_name server).

(** What an import answers: the servers created and updated, or the lines to fix. *)
Inductive ImportAnswer := Imported (created updated : Z) | FixTheseLines (lines : list string).

Definition import_servers (admin : User) (now : Z) (rnds : nat → Z) (csv : string) : W ImportAnswer :=
  _ ← not_frozen;
  match parse_import debug csv with
  | Ok [] => throw (bad_request "the file has no rows")
  | Ok rows =>
      counts ← sto (servers_import (imap (fun i row => (rnds i, row)) rows));
      _ ← log now (username admin) "server.import"
            (pretty counts.1 +:+ " created, " +:+ pretty counts.2 +:+ " updated");
      mret (Imported counts.1 counts.2)
  | Err errors => mret (FixTheseLines errors)
  end.

(** ** Groups *)

Definition groups : W (list Group) := sto groups_list.

Definition add_group (admin : User) (now : Z) (typed : string) : W Z :=
  _ ← not_frozen;
  name ← checked (valid_name typed);
  id ← sto (group_create name);
  _ ← log now (username admin) "group.add" name;
  mret id.

Definition rename_group (admin : User) (now id : Z) (typed : string) : W unit :=
  _ ← not_frozen;
  name ← checked (valid_name typed);
  _ ← sto (group_rename id name);
  log now (username admin) "group.rename" name.

Definition order_groups (admin : User) (now : Z) (ids : list Z) : W unit :=
  _ ← not_frozen;
  _ ← sto (group_order ids);
  log now (username admin) "group.order" "".

Definition remove_group (admin : User) (now id : Z) : W unit :=
  _ ← not_frozen;
  _ ← sto (group_delete id);
  log now (username admin) "group.remove" (pretty id).

(** ** Activity *)

(** [clamp]. *)
Definition clamp (lo hi x : Z) : Z := if decide (x < lo) then lo else if decide (hi < x) then hi else x.

Definition audit_handler (lim before : option Z) (q : option string) : W (list AuditRow) :=
  sto (audit_search (clamp 1 1000 (default 200 lim)) before (str_trim <$> q)).

(** ** The credential store and the directory's password *)

Definition set_recovery_handler (admin : User) (now : Z) (current : option string) (new : string)
    (r1 r2 : option bytes) : W unit :=
  _ ← not_frozen;
  changing ← sto recovery_set;
  _ ← on_app (on_vault (set_recovery current new r1 r2));
  log now (username admin) (if changing : bool then "recovery.change" else "recovery.set") "".

(** The one change, with [unfreeze], that a frozen proxy takes. *)
Definition unlock_handler (admin : User) (now : Z) (passphrase : string) (random : option bytes) : W unit :=
  key ← on_app (on_vault (adopt passphrase random));
  _ ← on_app (on_vault (install key));
  log now (username admin) "vault.unlock" "".

Definition reset_handler (admin : User) (now : Z) (confirm_host : string) (r_key r_wrap : option bytes) : W Z :=
  _ ← not_frozen;
  if negb (nocase_eq (str_trim confirm_host) host_name) then
    throw (bad_request ("type this proxy's host name, " +:+ host_name +:+ ", to confirm"))
  else
    removed ← on_app (reset_credential_store r_key r_wrap);
    _ ← log now (username admin) "vault.reset" (pretty removed +:+ " saved credential(s) deleted");
    mret removed.

(** A wrong password would silently disable every lookup, so it is tried first. *)
Definition try_service_password (d : DirectoryConfig) (password probe : string) (net : Network) (now : Z) :
    W bool := fun a =>
  let '(r, p) := lookup_many d net password [probe] now (preferred a) in
  (match r with
   | Ok _ => Ok true
   | Err (Config m) => Err (bad_request m)
   | Err _ => Ok false
   end, with_preferred p a).

Definition set_directory_password_handler (token : bytes) (password : string) (w : Away)
    (random : option bytes) : W bool :=
  match lookup_directory cfg with
  | None => throw (bad_request "no service_account is configured in config.toml")
  | Some d =>
      if decide (password = ""%string) then throw (bad_request "enter the service account's password")
      else
        _ ← revalidate_admin cfg token (aw_first w);
        _ ← not_frozen;
        g ← gets generation;
        let probe := default ""%string (d_service_account d ≫= normalize_username) in
        verified ← try_service_password d password probe (aw_net w) (aw_first w);
        _ ← modify (aw_others w);
        _ ← same_generation g;
        admin ← revalidate_admin cfg token (aw_now w);
        _ ← not_frozen;
        _ ← on_app (set_directory_password password random);
        _ ← log (aw_now w) (username admin) "directory.password" "";
        mret verified
  end.

Definition unfreeze (admin : User) (now : Z) : W unit :=
  _ ← sto (set_flag META_FROZEN false);
  _ ← sto (set_flag META_FREEZE_PENDING false);
  log now (username admin) "unfreeze" "".
End admin.
