(* ===== verification/AdminFacts.v ===== *)
(** * What an administrator's request does (src/src/admin.rs)

    Who may make one, that a frozen proxy takes no edits, and that access taken away ends the
    connections that used it. *)

From S2P Require Import Prelude Tables Text Utf8 Store StoreInv StoreFacts Policy Auth Live Settings Vault VaultFacts Directory App AppFacts Web WebFacts WebServers Instant ServerList Admin.
Local Open Scope Z_scope.

(** The requests that act under the gate from beginning to end. *)
Inductive admin_call :=
  | AUpdateUser (id : Z) (is_admin : bool)
  | ARemoveUser (id : Z)
  | ASetUserServers (id : Z) (server_ids : list Z)
  | ACopyFrom (id from : Z)
  | AClearSid (id : Z)
  | APutSettings (req : Settings)
  | AAddServer (rnd : Z) (req : ServerForm)
  | AUpdateServer (id : Z) (req : ServerForm)
  | ARemoveServer (id : Z)
  | AImportServers (rnds : nat → Z) (csv : string)
  | AAddGroup (name : string)
  | ARenameGroup (id : Z) (name : string)
  | AOrderGroups (ids : list Z)
  | ARemoveGroup (id : Z)
  | ASetRecovery (current : option string) (new : string) (r1 r2 : option bytes)
  | AReset (confirm_host : string) (r_key r_wrap : option bytes)
  | AUnlock (passphrase : string) (random : option bytes)
  | AUnfreeze.

Definition done_ {A} (m : W A) : W unit := _ ← m; mret ().

Lemma not_frozen_run a :
  not_frozen a = (if frozen (store_ a) then Err (conflict FROZEN_MESSAGE) else Ok (), a).
Proof. unfold not_frozen. rewrite bind_gets. by destruct (frozen (store_ a)). Qed.

Section admin.
Context {U : Unicode} {C : Crypto} {K : KeyProtector} (sha256 : bytes → bytes) (debug : string → string)
  (from_slice : bytes → option Settings) (to_vec : Settings → bytes) (cfg : Cfg) (host_name : string).

Definition admin_exec (admin : User) (now : Z) (c : admin_call) : W unit :=
  match c with
  | AUpdateUser id b => update_user admin now id b
  | ARemoveUser id => remove_user admin now id
  | ASetUserServers id ids => done_ (set_user_servers admin now id ids)
  | ACopyFrom id from => done_ (copy_from admin now id from)
  | AClearSid id => clear_sid admin now id
  | APutSettings s => put_settings to_vec admin now s
  | AAddServer rnd f => done_ (add_server debug admin now rnd f)
  | AUpdateServer id f => update_server debug admin now id f
  | ARemoveServer id => remove_server admin now id
  | AImportServers rnds csv => done_ (import_servers debug admin now rnds csv)
  | AAddGroup n => done_ (add_group admin now n)
  | ARenameGroup id n => rename_group admin now id n
  | AOrderGroups ids => order_groups admin now ids
  | ARemoveGroup id => remove_group admin now id
  | ASetRecovery c n r1 r2 => set_recovery_handler admin now c n r1 r2
  | AReset h r1 r2 => done_ (reset_handler host_name admin now h r1 r2)
  | AUnlock p r => unlock_handler admin now p r
  | AUnfreeze => unfreeze admin now
  end.

(** The two that leave the gate to ask the directory. *)
Inductive away_call :=
  | AAddUser (typed : string) (rnd : Z)
  | ASetDirectoryPassword (password : string) (random : option bytes).

Definition away_exec (token : bytes) (w : Away) (c : away_call) : W unit :=
  match c with
  | AAddUser typed rnd => done_ (add_user cfg token typed w rnd)
  | ASetDirectoryPassword password random => done_ (set_directory_password_handler cfg token password w random)
  end.

(** ** Who may make a request *)

Definition administrator (db : Db) (hash : bytes) (now : Z) (u : User) : Prop :=
  ∃ n r, t_sessions db !! hash = Some n ∧ now < n_expires n ∧
    t_users db !! n_user_id n = Some r ∧ u = user_from (n_user_id n) r ∧
    (u_is_admin r = true ∨ is_bootstrap_admin cfg (u_username r) = true).

(** The administrator holding the session, or nothing happens. *)
Lemma revalidate_admin_run h now a :
  (∃ e, revalidate_admin cfg h now a = (Err e, a)) ∨
  ∃ u, revalidate_admin cfg h now a = (Ok u, a) ∧ administrator (store_ a) h now u.
Proof.
  destruct (session_user_is_ok h now (store_ a)) as [o Ho].
  assert (session_of h now a = (ok_or sign_in_first o, a)) as Hsess.
  { unfold session_of, mbind, M_bind, sto, on_store, session_user, gets in *. simpl in *. rewrite with_store_id.
    injection Ho as ->. done. }
  unfold revalidate_admin. destruct o as [u|]; [|left; eexists; by erewrite bind_err].
  erewrite bind_ok by exact Hsess. unfold admin_only. destruct (app_is_admin cfg u) eqn:Hadm; [right|left; by eexists].
  exists u. split; [done|]. apply session_user_Some in Ho as (n & r & ? & ? & ? & ->). exists n, r. split_and!; [done..|].
  by apply orb_true_iff in Hadm.
Qed.

(** The extractor finds an administrator's live session, or nothing happens. *)
Lemma admin_user_run cookies now a :
  (∃ e, admin_user sha256 cfg cookies now a = (Err e, a)) ∨
  ∃ token u, find_map (fun h => cookie_value h COOKIE) cookies = Some token ∧
    admin_user sha256 cfg cookies now a = (Ok (u, token_hash sha256 token), a) ∧
    administrator (store_ a) (token_hash sha256 token) now u.
Proof.
  unfold admin_user, current_user. destruct (find_map _ cookies) as [token|]; [|by left; eexists].
  cbn [ok_or]. set (h := token_hash sha256 token).
  destruct (revalidate_admin_run h now a) as [[e He]|(u & Hu & Hadm)]; unfold revalidate_admin in *.
  - left. destruct (session_of h now a) as [[u|e1] a1] eqn:Hs.
    + rewrite (bind_ok _ _ _ _ _ Hs) in He. exists e. erewrite bind_ok.
      2: { erewrite bind_ok by reflexivity. by erewrite bind_ok by exact Hs. }
      cbn [fst]. by rewrite (bind_err _ _ _ _ _ He).
    + rewrite (bind_err _ _ _ _ _ Hs) in He. injection He as -> ->. exists e. erewrite bind_err; [done|].
      erewrite bind_ok by reflexivity. by erewrite bind_err.
  - right. apply bind_ok_inv in Hu as (u' & a1 & Hs & Ha). exists token, u. split; [done|].
    assert (u' = u ∧ a1 = a) as [-> ->]. { unfold admin_only in Ha. destruct (app_is_admin cfg u'); [|done]. injection Ha as -> ->. done. }
    split; [|done]. erewrite bind_ok; [|erewrite bind_ok by reflexivity; by erewrite bind_ok by exact Hs].
    cbn [fst]. by rewrite (bind_ok _ _ _ _ _ Ha).
Qed.

(** ** Requests away from the gate *)

(** What became of a request that leaves the gate: refused before it left; refused by what the directory
    said; refused when it was back, in the database as others left it; or let act there. *)
Inductive away_outcome {A} (token : bytes) (w : Away) (a : App) : result ApiError A → App → Prop :=
  | refused_first e : away_outcome token w a (Err e) a
  | refused_away e p u :
      administrator (store_ a) token (aw_first w) u → frozen (store_ a) = false →
      away_outcome token w a (Err e) (with_preferred p a)
  | refused_back e p u :
      administrator (store_ a) token (aw_first w) u → frozen (store_ a) = false →
      away_outcome token w a (Err e) (aw_others w (with_preferred p a))
  | acted p u u' r a' :
      administrator (store_ a) token (aw_first w) u → frozen (store_ a) = false →
      generation (aw_others w (with_preferred p a)) = generation a →
      administrator (store_ (aw_others w (with_preferred p a))) token (aw_now w) u' →
      frozen (store_ (aw_others w (with_preferred p a))) = false →
      away_outcome token w a r a'.

Lemma with_preferred_id a : with_preferred (preferred a) a = a.
Proof. by destruct a. Qed.

(** The part both have from the directory's answer on. *)
Lemma back_from_away {A} token w a p u (act : User → W A) r a' :
  administrator (store_ a) token (aw_first w) u → frozen (store_ a) = false →
  (_ ← modify (aw_others w); _ ← same_generation (generation a);
   admin ← revalidate_admin cfg token (aw_now w); _ ← not_frozen; act admin) (with_preferred p a) = (r, a') →
  away_outcome token w a r a'.
Proof.
  intros Hu Hf E. set (b := aw_others w (with_preferred p a)).
  erewrite bind_ok in E by reflexivity. fold b in E. unfold same_generation in E.
  destruct (decide (generation b = generation a)) as [Hg|Hg].
  2: { erewrite bind_err in E by (rewrite bind_gets, decide_False by done; done). injection E as <- <-. by eapply refused_back. }
  erewrite bind_ok in E by (rewrite bind_gets, decide_True by done; done).
  destruct (revalidate_admin_run token (aw_now w) b) as [[e He]|(u' & Hu' & Hadm)].
  { rewrite (bind_err _ _ _ _ _ He) in E. injection E as <- <-. by eapply refused_back. }
  rewrite (bind_ok _ _ _ _ _ Hu') in E. destruct (frozen (store_ b)) eqn:Hfb.
  { erewrite bind_err in E by (by rewrite not_frozen_run, Hfb). injection E as <- <-. by eapply refused_back. }
  by eapply acted.
Qed.

(** ... and the part before. *)
Lemma off_to_ask {A} token w a (rest : unit → W A) r a' :
  (_ ← revalidate_admin cfg token (aw_first w); not_frozen ≫= rest) a = (r, a') →
  (∀ u, administrator (store_ a) token (aw_first w) u → frozen (store_ a) = false → rest () a = (r, a') → away_outcome token w a r a') →
  away_outcome token w a r a'.
Proof.
  intros E Hrest. destruct (revalidate_admin_run token (aw_first w) a) as [[e He]|(u & Hu & Hadm)].
  { rewrite (bind_err _ _ _ _ _ He) in E. injection E as <- <-. apply refused_first. }
  rewrite (bind_ok _ _ _ _ _ Hu) in E. destruct (frozen (store_ a)) eqn:Hf.
  { erewrite bind_err in E by (by rewrite not_frozen_run, Hf). injection E as <- <-. apply refused_first. }
  erewrite bind_ok in E by (by rewrite not_frozen_run, Hf). eauto.
Qed.

Lemma add_user_away token typed w rnd a r a' : add_user cfg token typed w rnd a = (r, a') → away_outcome token w a r a'.
Proof.
  unfold add_user. destruct (normalize_username typed) as [name|]; [|intros [= <- <-]; apply refused_first].
  erewrite bind_ok by reflexivity. intros E. eapply off_to_ask; [exact E|]. intros u Hu Hf. clear E.
  cbv beta. unfold service_password. rewrite !bind_gets. set (pw := match lookup_directory cfg with Some _ => _ | None => _ end).
  assert (∃ x p, ask_directory cfg pw name (aw_net w) (aw_first w) a = (x, with_preferred p a)) as (x & p & Hask).
  { unfold ask_directory. destruct (lookup_directory cfg) as [d|]; [|by eexists _, (preferred a); rewrite with_preferred_id].
    destruct pw as [pw|]; [|by eexists _, (preferred a); rewrite with_preferred_id].
    destruct (lookup_many d (aw_net w) pw [name] (aw_first w) (preferred a)) as [[found|e] p]; [|by eexists _, p].
    destruct (head found ≫= snd); by eexists _, p. }
  destruct x as [found|e]; [|rewrite (bind_err _ _ _ _ _ Hask); intros [= <- <-]; by eapply refused_away].
  rewrite (bind_ok _ _ _ _ _ Hask). intros E.
  refine (back_from_away token w a p u (fun admin => id ← sto (user_create (aw_now w) rnd name found.2);
    _ ← log (aw_now w) (username admin) "user.add" name; mret (id, found.1)) r a' Hu Hf E).
Qed.

Lemma set_directory_password_away token password w random a r a' :
  set_directory_password_handler cfg token password w random a = (r, a') → away_outcome token w a r a'.
Proof.
  unfold set_directory_password_handler. destruct (lookup_directory cfg) as [d|]; [|intros [= <- <-]; apply refused_first].
  case_decide; [intros [= <- <-]; apply refused_first|]. intros E. eapply off_to_ask; [exact E|]. intros u Hu Hf. clear E.
  cbv beta. rewrite bind_gets. cbv zeta. set (probe := default _ _).
  assert (∃ x p, try_service_password d password probe (aw_net w) (aw_first w) a = (x, with_preferred p a)) as (x & p & Htry).
  { unfold try_service_password. destruct (lookup_many _ _ _ _ _ _) as [r1 p]. by eexists _, p. }
  destruct x as [v|e]; [|rewrite (bind_err _ _ _ _ _ Htry); intros [= <- <-]; by eapply refused_away].
  rewrite (bind_ok _ _ _ _ _ Htry). intros E.
  refine (back_from_away token w a p u (fun admin => _ ← on_app (set_directory_password password random);
    _ ← log (aw_now w) (username admin) "directory.password" ""; mret v) r a' Hu Hf E).
Qed.

Lemma away_done {A} token w a (m : W A) :
  (∀ r a', m a = (r, a') → away_outcome token w a r a') → ∀ r a', done_ m a = (r, a') → away_outcome token w a r a'.
Proof.
  intros Hm r a'. unfold done_, mbind, M_bind. destruct (m a) as [x a1] eqn:E. destruct (Hm _ _ eq_refl); intros Ed.
  1-3: injection Ed as <- <-; by econstructor. by eapply acted.
Qed.

Lemma away_exec_outcome token w c a r a' : away_exec token w c a = (r, a') → away_outcome token w a r a'.
Proof.
  destruct c; apply away_done; intros; [by eapply add_user_away|by eapply set_directory_password_away].
Qed.

(** Where it could not act: nothing happened but what others did, and the domain controller that
    answered is remembered. *)
Lemma away_refused token w c a :
  (∀ p u', frozen (store_ a) = false → generation (aw_others w (with_preferred p a)) = generation a →
     administrator (store_ (aw_others w (with_preferred p a))) token (aw_now w) u' →
     frozen (store_ (aw_others w (with_preferred p a))) = false → False) →
  ∃ e a', away_exec token w c a = (Err e, a') ∧
    (a' = a ∨ ∃ p, frozen (store_ a) = false ∧ (a' = with_preferred p a ∨ a' = aw_others w (with_preferred p a))).
Proof.
  intros H. destruct (away_exec token w c a) as [r a'] eqn:E. apply away_exec_outcome in E.
  destruct E; [by eauto|by eauto 10|by eauto 10|]. exfalso. eauto.
Qed.

(** ** A frozen proxy *)

(** Unlocking the credential store and lifting the freeze are the two changes it takes. *)
Definition edits (c : admin_call) : bool :=
  match c with AUnlock _ _ | AUnfreeze => false | _ => true end.

(** C20. A proxy frozen for migration takes no edit: whatever an administrator asks to change (users,
    assignments, servers, imports of servers, groups, settings, the recovery passphrase, a reset of the
    credential store) is refused as a conflict and nothing at all changes; adding a user and setting the
    directory's password, which leave the gate to ask the directory, are refused too, and one that was
    away while the proxy was frozen is refused when it is back: it changes nothing of the frozen proxy.
    So what was exported stays what is there. *)
Theorem frozen_takes_no_edit (admin : User) (now : Z) (c : admin_call) (a : App) :
  frozen (store_ a) = true →
  (edits c = true → admin_exec admin now c a = (Err (conflict FROZEN_MESSAGE), a)) ∧
  (∀ token w e, ∃ why, away_exec token w e a = (Err why, a)) ∧
  (∀ token w e b, (∀ p, aw_others w (with_preferred p b) = a) →
     ∃ why b', away_exec token w e b = (Err why, b') ∧ (b' = a ∨ b' = b ∨ ∃ p, b' = with_preferred p b)).
Proof.
  intros Hf. split_and!.
  - intros He. assert (not_frozen a = (Err (conflict FROZEN_MESSAGE), a)) as Hn by by rewrite not_frozen_run, Hf.
    assert (∀ A B (f : unit → W A) (g : A → W B), (not_frozen ≫= f) a = (Err (conflict FROZEN_MESSAGE), a) ∧
      ((not_frozen ≫= f) ≫= g) a = (Err (conflict FROZEN_MESSAGE), a)) as Hb.
    { intros A B f g. split; [by apply bind_err|]. apply bind_err. by apply bind_err. }
    destruct c; try done; eapply (Hb _ unit _ (fun _ => mret ())).
  - intros token w e. destruct (away_refused token w e a) as (why & a' & E & [->|(p & ? & _)]); [congruence|eauto|congruence].
  - intros token w e b Hb. destruct (away_refused token w e b) as (why & b' & E & H).
    { intros p u' _ _ _ Hx. rewrite Hb in Hx. congruence. }
    exists why, b'. split; [done|]. destruct H as [->|(p & _ & [->| ->])]; [by auto|by eauto|left; apply Hb].
Qed.
End admin.

(** ** Access taken away *)

Lemma ending_run (f : LiveSessions → nat * LiveSessions) a :
  ending f a = (Ok (), with_live (snd (f (live a))) a).
Proof. done. Qed.

Lemma end_user_server_running user server s i l :
  inner (snd (end_user_server user server s)) !! i = Some l ∧ l_cancel l = true ↔
  inner s !! i = Some l ∧ l_cancel l = true ∧ ¬ (l_user l = user ∧ l_server l = Some server).
Proof. unfold end_user_server. rewrite end_where_running, bool_decide_eq_false. naive_solver. Qed.

Lemma end_removed_run user gone a :
  ∃ l', end_removed user gone a = (Ok (), with_live l' a) ∧
    ∀ i l, inner l' !! i = Some l ∧ l_cancel l = true ↔
      inner (live a) !! i = Some l ∧ l_cancel l = true ∧
      ¬ (l_user l = user ∧ ∃ s, s ∈ gone ∧ l_server l = Some s).
Proof.
  revert a. induction gone as [|s gone IH]; intros a.
  - exists (live a). split; [by destruct a|]. set_solver.
  - destruct (IH (with_live (snd (end_user_server user s (live a))) a)) as (l' & E & H).
    exists l'. split; [unfold end_removed; simpl; erewrite bind_ok by reflexivity; exact E|].
    intros i l. rewrite H. cbn [with_live live]. pose proof (end_user_server_running user s (live a) i l).
    split; [intros (? & ? & Hno)|intros (? & ? & Hno)]; set_solver.
Qed.

Lemma assignment_ids_run id db : ∃ l, assignment_ids id db = (Ok l, db) ∧ ∀ s, s ∈ l ↔ s ∈ assigned_ids id db.
Proof.
  eexists. split; [reflexivity|]. intros s. rewrite merge_sort_Permutation, elem_of_elements. done.
Qed.

Lemma user_or_404_ok id a u a' :
  user_or_404 id a = (Ok u, a') → a' = a ∧ ∃ r, t_users (store_ a) !! id = Some r ∧ u = user_from id r.
Proof.
  unfold user_or_404, mbind, M_bind, sto, on_store, user_by_id, gets. simpl. rewrite with_store_id.
  destruct (t_users (store_ a) !! id) as [r|]; [|done]. intros [= <- <-]. eauto.
Qed.

Lemma log_run now actor action detail a :
  log now actor action detail a = (Ok (), with_store (snd (audit now actor action detail (store_ a))) a).
Proof. done. Qed.

(** What a change of a user's servers that succeeded went through. *)
Lemma set_user_servers_ok admin now id ids a counts a' :
  set_user_servers admin now id ids a = (Ok counts, a') →
  let wanted : gset Z := list_to_set ids in
  ∃ l' f, a' = with_live l' (with_store (set_audit f (assigned_exactly id wanted (store_ a))) a) ∧
    ∀ i l, inner l' !! i = Some l ∧ l_cancel l = true ↔
      inner (live a) !! i = Some l ∧ l_cancel l = true ∧
      ¬ (l_user l = id ∧ ∃ s, s ∈ assigned_ids id (store_ a) ∖ wanted ∧ l_server l = Some s).
Proof.
  intros E wanted. unfold set_user_servers in E.
  apply bind_ok_inv in E as ([] & a1 & E1 & E). rewrite not_frozen_run in E1.
  destruct (frozen (store_ a)); [done|]. injection E1 as <-.
  apply bind_ok_inv in E as (u & a1 & E1 & E). apply user_or_404_ok in E1 as [-> _].
  apply bind_ok_inv in E as (before & a1 & E1 & E).
  destruct (assignment_ids_run id (store_ a)) as (bl & Hbl & Hin).
  rewrite (sto_read _ bl _ Hbl) in E1. injection E1 as <- <-.
  apply bind_ok_inv in E as (cs & a2 & E2 & E).
  apply sto_ok in E2 as (db & Hset & ->). apply set_assignments_ok in Hset as ->.
  assert (list_to_set bl = assigned_ids id (store_ a)) as Hbs.
  { apply set_eq. intros s. by rewrite elem_of_list_to_set. }
  rewrite Hbs in E. fold wanted in E. destruct (end_removed_run id (elements (assigned_ids id (store_ a) ∖ wanted))
    (with_store (assigned_exactly id wanted (store_ a)) a)) as (l' & Er & Hl).
  rewrite (bind_ok _ _ _ _ _ Er) in E. apply bind_ok_inv in E as ([] & a3 & E3 & E). injection E as <- <-.
  assert (∀ i l, inner l' !! i = Some l ∧ l_cancel l = true ↔
      inner (live a) !! i = Some l ∧ l_cancel l = true ∧
      ¬ (l_user l = id ∧ ∃ s, s ∈ assigned_ids id (store_ a) ∖ wanted ∧ l_server l = Some s)) as Hl'.
  { intros i l. rewrite Hl. cbn [with_store live]. by setoid_rewrite elem_of_elements. }
  case_decide.
  - rewrite log_run in E3. injection E3 as <-. eexists l', _. split; [reflexivity|done].
  - injection E3 as <-. exists l', (fun x => x). split; [by destruct a|done].
Qed.

(** One that failed changed nothing. *)
Lemma set_user_servers_err admin now id ids a e a' :
  set_user_servers admin now id ids a = (Err e, a') → a' = a.
Proof.
  unfold set_user_servers. destruct (frozen (store_ a)) eqn:Hf.
  { erewrite bind_err; [|rewrite not_frozen_run, Hf; reflexivity]. by intros [= _ ->]. }
  erewrite bind_ok; [|rewrite not_frozen_run, Hf; reflexivity].
  destruct (user_or_404 id a) as [[u|e1] a1] eqn:E1; last first.
  { rewrite (bind_err _ _ _ _ _ E1). intros [= _ <-]. revert E1.
    unfold user_or_404, mbind, M_bind, sto, on_store, user_by_id, gets. simpl. rewrite with_store_id.
    by destruct (t_users (store_ a) !! id) as [r|]; intros [= ? ->]. }
  rewrite (bind_ok _ _ _ _ _ E1). apply user_or_404_ok in E1 as [-> _].
  destruct (assignment_ids_run id (store_ a)) as (bl & Hbl & _).
  rewrite (bind_ok _ _ _ _ _ (sto_read _ bl _ Hbl)).
  destruct (set_assignments id ids (store_ a)) as [[cs|e2] db] eqn:E2.
  - erewrite bind_ok; [|by apply sto_ok; exists db]. 
    destruct (end_removed_run id (elements (list_to_set bl ∖ (list_to_set ids : gset Z))) (with_store db a)) as (l' & Er & _).
    rewrite (bind_ok _ _ _ _ _ Er). by case_decide.
  - erewrite bind_err; [|by unfold sto, on_store; rewrite E2]. intros [= _ <-].
    unfold set_assignments in E2. apply transaction_err in E2 as ->. by rewrite with_store_id.
Qed.

(** Changing a user's servers changes exactly that. When it succeeds, the user's assignments are
    the servers asked for and everyone else's are as they were; the running connections of the user
    to servers taken away have been told to end, every other connection runs on unchanged, and
    tickets, the vault and the database's other users and servers are untouched. *)
Theorem set_user_servers_exact (admin : User) (now id : Z) (ids : list Z) (a a' : App) (counts : Z * Z) :
  set_user_servers admin now id ids a = (Ok counts, a') →
  (∀ s, (id, s) ∈ t_assignments (store_ a') ↔ s ∈ ids) ∧
  (∀ u s, u ≠ id → (u, s) ∈ t_assignments (store_ a') ↔ (u, s) ∈ t_assignments (store_ a)) ∧
  (∀ i l, inner (live a') !! i = Some l ∧ l_cancel l = true ↔
     inner (live a) !! i = Some l ∧ l_cancel l = true ∧
     ¬ (l_user l = id ∧ ∃ s, (id, s) ∈ t_assignments (store_ a) ∧ s ∉ ids ∧ l_server l = Some s)) ∧
  tickets a' = tickets a ∧ vault_ a' = vault_ a ∧
  t_users (store_ a') = t_users (store_ a) ∧ t_servers (store_ a') = t_servers (store_ a).
Proof.
  intros E. apply set_user_servers_ok in E as (l' & f & -> & Hl). cbn.
  split_and!; [| | |done..].
  - intros s. rewrite elem_of_union, elem_of_filter, elem_of_map. set_solver.
  - intros u s Hu. rewrite elem_of_union, elem_of_filter, elem_of_map. set_solver.
  - intros i l. rewrite Hl. setoid_rewrite elem_of_difference. setoid_rewrite elem_of_assigned_ids.
    setoid_rewrite elem_of_list_to_set. naive_solver.
Qed.
