(* ===== verification/Migrate.v ===== *)
(** * Moving an installation (src/src/migrate.rs)

    An export is an archive of a manifest and the database, encrypted under the recovery passphrase;
    an import holds an uploaded archive until it is confirmed, and then swaps the database in. The
    database's file format, the archive format, JSON and SHA-256 are the class [MigrateLib]. The
    state is the running proxy and the files of the data directory; a temporary file, which is gone
    however the function that made it returns, is not in it. Clocks, random bytes and the failures
    of the file system are arguments. *)

From S2P Require Import Prelude Tables Text Utf8 Store Auth Live Vault Directory App Web Instant Pruning.
Local Open Scope Z_scope.

Definition EXPORT_FORMAT : Z := 1.
Definition SCHEMA_VERSION : Z := 6.
Definition AAD_EXPORT : bytes := String.list_byte_of_string "web-access export v1".
Definition MANIFEST : string := "manifest.json".
Definition DATA : string := "data.db.enc".
(** Half an hour, in the milliseconds of the monotonic clock. *)
Definition PENDING_TTL : Z := 30 * 60 * 1000.
Definition MAX_PENDING : nat := 2.
Definition KEEP_BACKUPS : nat := 5.

Record Manifest := mkManifest {
  m_format : Z;
  m_schema : Z;
  m_source_host : string;
  m_exported_at : Z;
  m_data_sha256 : string;
  m_counts : Counts;
}.

Inductive MigrateError :=
  | MNoRecovery
  | MWrongPassphrase
  | MBadArchive (why : string)
  | MNewer (schema : Z)
  | MConfirm (why : string)
  | MExpired
  | MIntegrity (why : string)
  | MVault (e : VaultError)
  | MStore (e : StoreError)
  | MIo (why : string).

Definition from_vault (e : VaultError) : MigrateError :=
  match e with
  | WrongPassphrase => MWrongPassphrase
  | NoRecovery => MNoRecovery
  | other => MVault other
  end.

Definition in_vault {A} (r : result VaultError A) : result MigrateError A :=
  match r with Ok a => Ok a | Err e => Err (from_vault e) end.
Definition in_store {A} (r : result StoreError A) : result MigrateError A :=
  match r with Ok a => Ok a | Err e => Err (MStore e) end.
Definition in_archive {A} (r : result string A) : result MigrateError A :=
  match r with Ok a => Ok a | Err e => Err (MBadArchive e) end.

(** A manifest as the program's integer types hold it. *)
Definition i64_range (z : Z) : Prop := i64_min ≤ z ≤ i64_max.
Definition manifest_fits (m : Manifest) : Prop :=
  0 ≤ m_format m ≤ u32_max ∧ i64_range (m_schema m) ∧ i64_range (m_exported_at m) ∧
  i64_range (c_users (m_counts m)) ∧ i64_range (c_servers (m_counts m)) ∧
  i64_range (c_assignments (m_counts m)) ∧ i64_range (c_credentials (m_counts m)).

(** ** What the crates provide *)

Class MigrateLib := {
  (** what [VACUUM INTO] writes, and what opening such a file gives, its schema brought up to date *)
  db_file : Db → bytes;
  open_file : bytes → result StoreError Db;
  open_db_file : ∀ db, open_file (db_file db) = Ok db;
  (** [PRAGMA integrity_check] of the database opened from a file: its first complaint *)
  integrity_check : bytes → option string;
  integrity_of_copy : ∀ db, integrity_check (db_file db) = None;
  (** [zip::DateTime::from_date_and_time] *)
  zip_time : Z * Z * Z * Z * Z * Z → option bytes;
  (** stored entries, in order, with the time given them *)
  zip_write : option bytes → list (string * bytes) → result string bytes;
  (** [ZipArchive::new], then an entry by its name: missing, unreadable or its bytes *)
  zip_open : bytes → result string (string → option (result string bytes));
  zip_open_write : ∀ t n1 b1 n2 b2 z, n1 ≠ n2 → zip_write t [(n1, b1); (n2, b2)] = Ok z →
    ∃ archive, zip_open z = Ok archive ∧ archive n1 = Some (Ok b1) ∧ archive n2 = Some (Ok b2);
  to_vec_pretty : Manifest → bytes;
  manifest_from_slice : bytes → result string Manifest;
  manifest_json : ∀ m, manifest_fits m → manifest_from_slice (to_vec_pretty m) = Ok m;
  digest_sha256 : bytes → bytes;
}.

(** ** Times in file names *)

(** (year, month, day, hour, minute, second) in UTC; [div_euclid] and [rem_euclid] of a positive
    divisor are [Z.div] and [Z.modulo], the other divisions truncate. *)
Definition utc_parts (secs : Z) : Z * Z * Z * Z * Z * Z :=
  let days := secs / 86400 in
  let rem := secs mod 86400 in
  let z := days + 719468 in
  let era := z / 146097 in
  let doe := z mod 146097 in
  let yoe := Z.quot (doe - Z.quot doe 1460 + Z.quot doe 36524 - Z.quot doe 146096) 365 in
  let doy := doe - (365 * yoe + Z.quot yoe 4 - Z.quot yoe 100) in
  let mp := Z.quot (5 * doy + 2) 153 in
  let d := doy - Z.quot (153 * mp + 2) 5 + 1 in
  let m := if decide (mp < 10) then mp + 3 else mp - 9 in
  let y := yoe + era * 400 + (if decide (m <= 2) then 1 else 0) in
  (y, m, d, Z.quot rem 3600, Z.quot (Z.rem rem 3600) 60, Z.rem rem 60).

Definition utc_stamp (secs : Z) : string :=
  let '(y, m, d, h, mi, s) := utc_parts secs in
  of_chars (zero_pad 4 y ++ zero_pad 2 m ++ zero_pad 2 d ++ ["T"%char]
    ++ zero_pad 2 h ++ zero_pad 2 mi ++ zero_pad 2 s ++ ["Z"%char]).

(** ** The files of the data directory *)

Abbreviation Files := (gmap string bytes).
Abbreviation G := (M (App * Files) MigrateError).

Definition ends_with (p s : string) : bool :=
  bool_decide (is_Some (strip_prefix (reverse (to_chars p)) (reverse (to_chars s)))).

(** [n.starts_with("backup-2") && n.ends_with(".db")]: copies kept before a schema migration are
    named differently. *)
Definition is_import_backup (n : string) : bool := starts_with "backup-2" n && ends_with ".db" n.

(** The backups in time order, which is the order of their names. *)
Definition import_backups (files : Files) : list string := oldest_first is_import_backup files.

(** Keep the newest [keep]; [stuck] are files that cannot be deleted. *)
Definition prune_backups (keep : nat) (stuck : string → bool) (files : Files) : Files :=
  keep_newest is_import_backup keep stuck files.

(** Temporary files an export or import left behind: [age] is how old a file is, where known. *)
Definition is_temporary (n : string) : bool :=
  (starts_with "export-" n || starts_with "import-" n)
  && existsb (fun e => ends_with e n) [".tmp"; ".tmp-wal"; ".tmp-shm"; ".tmp-journal"]%string.

Definition sweep_temp_files (min_age : Z) (age : string → option Z) (stuck : string → bool) (files : Files) : Files :=
  filter (fun kv => is_temporary kv.1 && negb (stuck kv.1)
    && match age kv.1 with Some x => bool_decide (min_age ≤ x) | None => false end = false) files.

Section migrate.
Context {C : Crypto} {K : KeyProtector} {L : MigrateLib} (host_name : string).

(** ** Export *)

Record Export := mkExport { file_name : string; export_bytes : bytes; manifest : Manifest }.

Definition build_zip (m : Manifest) (blob : bytes) : result MigrateError bytes :=
  in_archive (zip_write (zip_time (utc_parts (m_exported_at m))) [(MANIFEST, to_vec_pretty m); (DATA, blob)]).

(** [snapshot_verified]: a copy of the database, which the passphrase opens. [io] is the error of
    making or reading the copy, if any. *)
Definition snapshot_verified (passphrase : string) (io : option MigrateError) (db : Db) :
    result MigrateError (bytes * Counts) :=
  match io with
  | Some e => Err e
  | None =>
      copy ← in_store (open_file (db_file db));
      counts_ ← in_store (fst (counts copy));
      _ ← in_vault (fst (verify_recovery passphrase (copy, mkVault None)));
      mret (db_file db, counts_)
  end.

Definition package (passphrase : string) (db : bytes) (counts_ : Counts) (now : Z)
    (r_salt r_nonce : option bytes) : result MigrateError Export :=
  blob ← in_vault (encrypt_with_passphrase passphrase AAD_EXPORT db r_salt r_nonce);
  let m := mkManifest EXPORT_FORMAT SCHEMA_VERSION host_name now (hex (digest_sha256 blob)) counts_ in
  zipped ← build_zip m blob;
  mret (mkExport ("web-access-export-" +:+ host_name +:+ "-" +:+ utc_stamp now +:+ ".zip") zipped m).

Definition export_ (passphrase : string) (db : Db) (now : Z) (io : option MigrateError)
    (r_salt r_nonce : option bytes) : result MigrateError Export :=
  dc ← snapshot_verified passphrase io db;
  package passphrase dc.1 dc.2 now r_salt r_nonce.

(** ** Import *)

Definition zip_entry (archive : string → option (result string bytes)) (name : string) :
    result MigrateError bytes :=
  match archive name with
  | None => Err (MBadArchive (name +:+ " is missing"))
  | Some (Err e) => Err (MBadArchive (name +:+ " could not be read; the file is damaged or incomplete: " +:+ e))
  | Some (Ok b) => Ok b
  end.

(** Everything that can be checked without the passphrase. *)
Definition read_zip (b : bytes) : result MigrateError (Manifest * bytes) :=
  match zip_open b with
  | Err e => Err (MBadArchive ("this is not a complete export; the file is damaged or incomplete: " +:+ e))
  | Ok archive =>
      json ← zip_entry archive MANIFEST;
      m ← match manifest_from_slice json with
          | Ok m => Ok m
          | Err e => Err (MBadArchive (MANIFEST +:+ ": " +:+ e))
          end;
      blob ← zip_entry archive DATA;
      if decide (m_format m ≠ EXPORT_FORMAT) then
        Err (MBadArchive ("format " +:+ pretty (m_format m) +:+ " is not " +:+ pretty EXPORT_FORMAT))
      else if decide (SCHEMA_VERSION < m_schema m) then Err (MNewer (m_schema m))
      else if decide (hex (digest_sha256 blob) ≠ m_data_sha256 m) then
        Err (MBadArchive "the data does not match its checksum; the file is damaged or was altered")
      else mret (m, blob)
  end.

(** A fresh host holds exactly the administrator who signed in to run the import. *)
Definition holds_data (c : Counts) : bool := bool_decide (0 < c_servers c) || bool_decide (1 < c_users c).

(** [elapsed] and [saturating_duration_since]: never negative. *)
Definition waited (at_ : Z) (p : PendingImport) : Z := Z.max 0 (at_ - uploaded p).
Definition fresh (at_ : Z) (p : PendingImport) : Prop := waited at_ p < PENDING_TTL.
#[export] Instance fresh_dec at_ p : Decision (fresh at_ p) := decide (waited at_ p < PENDING_TTL).

(** [min_by_key]: the first of those uploaded earliest, in the order the map is walked. *)
Definition earliest (best : option (string * PendingImport)) (ip : string * PendingImport) :
    option (string * PendingImport) :=
  match best with
  | Some b => if decide (uploaded ip.2 < uploaded b.2) then Some ip else best
  | None => Some ip
  end.
Definition oldest (pending : gmap string PendingImport) : option string :=
  fst <$> foldl earliest None (map_to_list pending).

(** The loop of [stage]: each round removes one, so as many rounds as there are uploads suffice. *)
Fixpoint make_room (fuel : nat) (pending : gmap string PendingImport) : gmap string PendingImport :=
  match fuel with
  | O => pending
  | S fuel =>
      if decide (MAX_PENDING ≤ size pending)%nat then
        match oldest pending with
        | None => pending
        | Some id => make_room fuel (delete id pending)
        end
      else pending
  end.

Definition stage (b : bytes) (at_ : Z) (random : bytes) (a : App) : result MigrateError (string * Manifest) * App :=
  match read_zip b with
  | Err e => (Err e, a)
  | Ok (m, blob) =>
      let id := random_token random in
      let pending := filter (fun ip => fresh at_ ip.2) (imports a) in
      let pending := make_room (size pending) pending in
      (Ok (id, m), with_imports (<[id := mkPending blob at_]> pending) a)
  end.

(** The number dropped. *)
Definition sweep_pending (at_ : Z) (a : App) : nat * App :=
  let kept := filter (fun ip => fresh at_ ip.2) (imports a) in
  ((size (imports a) - size kept)%nat, with_imports kept a).

Definition cancel_ (upload : string) (a : App) : bool * App :=
  (bool_decide (is_Some (imports a !! upload)), with_imports (delete upload (imports a)) a).

(** What the file system and the clock did during an import: the error of writing the staged copy;
    the error of making the backup, with what was left under its name; the error of putting the file
    in place, if any; files that cannot be deleted; what is left of the staged copy and SQLite's files
    beside it when they cannot be removed; random bytes for the wrapped key and the instance. *)
Record ApplyRun := mkApplyRun {
  ar_now : Z;
  ar_staged : option string;
  ar_backup : option (StoreError * option bytes);
  ar_swap : option string;
  ar_stuck : string → bool;
  ar_left : Files;
  ar_wrap : option bytes;
  ar_instance : bytes;
}.

(** The staged database made this host's: its key, and what it holds. *)
Definition prepare (file : bytes) (db : Db) (passphrase : string) (w : ApplyRun) : result MigrateError (bytes * Counts * Db) :=
  match integrity_check file with
  | Some problem => Err (MIntegrity problem)
  | None =>
      let '(r, (db, _)) := adopt passphrase (ar_wrap w) (db, mkVault None) in
      key ← in_vault r;
      let db := snd (set_flag META_FROZEN false db) in
      let db := snd (set_flag META_FREEZE_PENDING false db) in
      let db := snd (new_instance (ar_instance w) db) in
      counts_ ← in_store (fst (counts db));
      mret (key, counts_, db)
  end.

Definition backup_name (now : Z) : string := "backup-" +:+ utc_stamp now +:+ ".db".

(** [VACUUM INTO], and what follows it: the copy must not exist yet. A failure may leave a copy, whole
    or not: it can come while the copy is made, or after. *)
Definition vacuum_into (name : string) (copy : bytes) (io : option (StoreError * option bytes)) : M Files StoreError unit := fun files =>
  match files !! name, io with
  | Some _, Some (e, _) => (Err e, files)
  | Some _, None => (Err (Sql OutputExists), files)
  | None, Some (e, kept) => (Err e, match kept with Some b => <[name := b]> files | None => files end)
  | None, None => (Ok (), <[name := copy]> files)
  end.

(** [snapshot_to]: the copy is then opened and counted. *)
Definition snapshot_to (name : string) (io : option (StoreError * option bytes)) : G unit := fun s =>
  let '(r, files) := vacuum_into name (db_file (store_ s.1)) io s.2 in (in_store r, (s.1, files)).

(** [remove_file], its failure ignored. *)
Definition remove_file (stuck : string → bool) (name : string) (files : Files) : Files :=
  if stuck name then files else delete name files.

(** [TempFile]: however it returns, the staged copy is removed; what cannot be removed is left. *)
Definition with_temp_file {A} (w : ApplyRun) (m : G A) : G A := fun s =>
  match m s with
  | (Err e, s') => (Err e, (s'.1, s'.2 ∪ filter (fun kv => is_temporary kv.1) (ar_left w)))
  | (Ok x, s') => (Ok x, s')
  end.

Definition SWAP_REFUSED (e : string) : string :=
  "the database file is in use and could not be replaced; stop other tools using it and retry (" +:+ e +:+ ")".

(** What follows the swap. *)
Definition installed (key : bytes) (db : Db) (a : App) : App :=
  let a := bump_generation (with_store db a) in
  let a := with_vault (mkVault (Some key)) a in
  let a := with_tickets ∅ a in
  with_live (snd (end_all (live a))) a.

Definition apply_ (blob : bytes) (passphrase : string) (w : ApplyRun) : G Counts :=
  db ← lift (in_vault (decrypt_with_passphrase passphrase AAD_EXPORT blob));
  with_temp_file w (
    _ ← lift (match ar_staged w with Some e => Err (MIo e) | None => Ok () end);
    staged ← lift (in_store (open_file db));
    kcd ← lift (prepare db staged passphrase w);
    let '(key, counts_, staged) := kcd in
    let backup := backup_name (ar_now w) in
    _ ← snapshot_to backup (ar_backup w);
    match ar_swap w with
    | Some e =>
        _ ← modify (fun s => (s.1, remove_file (ar_stuck w) backup s.2));
        throw (MStore (Invalid (SWAP_REFUSED e)))
    | None =>
        _ ← modify (fun s => (installed key staged s.1, prune_backups KEEP_BACKUPS (ar_stuck w) s.2));
        mret counts_
    end).

(** A host that already holds data needs its own name typed. *)
Definition confirm_text (c : Counts) : string :=
  "this proxy already holds " +:+ pretty (c_users c) +:+ " user(s) and " +:+ pretty (c_servers c)
    +:+ " server(s); type its name, " +:+ host_name +:+ ", to replace them".

Definition confirm_ (upload passphrase : string) (confirm_host : option string) (at_ : Z) (w : ApplyRun) : G Counts :=
  found ← gets (fun s => imports s.1 !! upload);
  p ← lift (ok_or MExpired (filter_opt (fun p => bool_decide (fresh at_ p)) found));
  current ← gets (fun s => fst (counts (store_ s.1)));
  current ← lift (in_store current);
  let confirmed := match confirm_host with Some h => nocase_eq (str_trim h) host_name | None => false end in
  if holds_data current && negb confirmed then throw (MConfirm (confirm_text current))
  else
    counts_ ← apply_ (blob p) passphrase w;
    _ ← modify (fun s => (with_imports (delete upload (imports s.1)) s.1, s.2));
    mret counts_.
End migrate.
