(* ===== verification/Stamp.v ===== *)
(** * Stamps in file names sort in time order (src/src/migrate.rs)

    The calendar of [utc_parts] is the one of the SAML times, later days have later dates, and the
    stamps of two times compare, as text, the way the times do. *)

From S2P Require Import Prelude Text Instant Migrate.
Local Open Scope Z_scope.

(** ** Dates grow with days *)

Lemma year_mono a b :
  0 ≤ a < b → b < 146097 →
  Z.quot (a - Z.quot a 1460 + Z.quot a 36524 - Z.quot a 146096) 365 ≤
  Z.quot (b - Z.quot b 1460 + Z.quot b 36524 - Z.quot b 146096) 365.
Proof. intros. apply Z.quot_le_mono; [lia|]. Z.to_euclidean_division_equations; lia. Qed.

Lemma month_mono a b : 0 ≤ a < b → b ≤ 365 → Z.quot (5 * a + 2) 153 ≤ Z.quot (5 * b + 2) 153.
Proof. intros. apply Z.quot_le_mono; lia. Qed.

Definition date_value (ymd : Z * Z * Z) : Z := ymd.1.1 * 10000 + ymd.1.2 * 100 + ymd.2.

Lemma civil_mono z1 z2 : z1 < z2 → date_value (civil_from_days z1) < date_value (civil_from_days z2).
Proof.
  intros Hz. unfold civil_from_days. cbv zeta. rewrite !era_of_days.
  set (era1 := (z1 + 719468) / 146097). set (era2 := (z2 + 719468) / 146097).
  set (doe1 := z1 + 719468 - era1 * 146097). set (doe2 := z2 + 719468 - era2 * 146097).
  assert (0 ≤ doe1 < 146097) as H1 by (unfold doe1, era1; Z.to_euclidean_division_equations; lia).
  assert (0 ≤ doe2 < 146097) as H2 by (unfold doe2, era2; Z.to_euclidean_division_equations; lia).
  assert (era1 < era2 ∨ era1 = era2 ∧ doe1 < doe2) as He by (unfold doe1, doe2 in *; lia).
  destruct (year_of_era doe1 H1) as (Hy1 & Hd1 & _). destruct (year_of_era doe2 H2) as (Hy2 & Hd2 & _).
  cbv zeta in Hy1, Hd1, Hy2, Hd2.
  assert (doe1 < doe2 → Z.quot (doe1 - Z.quot doe1 1460 + Z.quot doe1 36524 - Z.quot doe1 146096) 365 ≤
    Z.quot (doe2 - Z.quot doe2 1460 + Z.quot doe2 36524 - Z.quot doe2 146096) 365) as Hmono
    by (intros; apply year_mono; lia).
  set (yoe1 := Z.quot (doe1 - _ + _ - _) 365) in *. set (yoe2 := Z.quot (doe2 - _ + _ - _) 365) in *.
  set (doy1 := doe1 - (_ - _)) in *. set (doy2 := doe2 - (_ - _)) in *.
  assert (yoe1 = yoe2 → doe1 < doe2 → doy1 < doy2) as Hdoy by (intros Hy; unfold doy1, doy2; rewrite Hy; lia).
  destruct (month_of_year doy1 Hd1) as (Hm1 & Hdd1 & _). destruct (month_of_year doy2 Hd2) as (Hm2 & Hdd2 & _).
  cbv zeta in Hm1, Hdd1, Hm2, Hdd2.
  assert (doy1 < doy2 → Z.quot (5 * doy1 + 2) 153 ≤ Z.quot (5 * doy2 + 2) 153) as Hmm
    by (intros; apply month_mono; lia).
  set (mp1 := Z.quot (5 * doy1 + 2) 153) in *. set (mp2 := Z.quot (5 * doy2 + 2) 153) in *.
  set (d1 := doy1 - Z.quot (153 * mp1 + 2) 5 + 1) in *. set (d2 := doy2 - Z.quot (153 * mp2 + 2) 5 + 1) in *.
  assert (mp1 = mp2 → doy1 < doy2 → d1 < d2) as Hdd by (intros Hm; unfold d1, d2; rewrite Hm; lia).
  rewrite !wrap_small by (repeat case_decide; lia). unfold date_value. simpl.
  clearbody d1 d2 mp1 mp2 doy1 doy2 yoe1 yoe2 doe1 doe2 era1 era2.
  repeat case_decide; lia.
Qed.

(** [utc_parts] has the same calendar. *)
Lemma utc_parts_civil secs y m d :
  civil_from_days (secs / 86400) = (y, m, d) →
  utc_parts secs = (y, m, d, secs mod 86400 / 3600, secs mod 86400 mod 3600 / 60, secs mod 86400 mod 60).
Proof.
  unfold civil_from_days, utc_parts. cbv zeta. rewrite era_of_days. set (z := secs / 86400 + 719468).
  rewrite (Z.mod_eq z 146097) by lia. rewrite (Z.mul_comm 146097).
  set (era := z / 146097). set (doe := z - era * 146097).
  assert (0 ≤ doe < 146097) as Hdoe by (unfold doe, era; Z.to_euclidean_division_equations; lia).
  destruct (year_of_era doe Hdoe) as (Hyoe & Hdoy & _). cbv zeta in Hdoy, Hyoe.
  set (yoe := Z.quot (doe - _ + _ - _) 365) in *. set (doy := doe - (_ - _)) in *.
  destruct (month_of_year doy Hdoy) as (Hmp & Hd & _). cbv zeta in Hd, Hmp.
  set (mp := Z.quot (5 * doy + 2) 153) in *.
  rewrite !wrap_small by (repeat case_decide; lia). intros [= <- <- <-].
  pose proof (Z.mod_pos_bound secs 86400 ltac:(lia)) as Hr. set (r := secs mod 86400) in *.
  rewrite (Z.rem_mod_nonneg r 3600), (Z.rem_mod_nonneg r 60) by lia.
  pose proof (Z.mod_pos_bound r 3600 ltac:(lia)). rewrite !Z.quot_div_nonneg by lia.
  do 5 f_equal. case_decide; lia.
Qed.

(** ** Digits compare as numbers *)

(** The order of text, and its strict part. *)
Fixpoint chars_lt (l k : chars) : Prop :=
  match l, k with
  | c :: l', d :: k' => (N_of_ascii c < N_of_ascii d)%N ∨ c = d ∧ chars_lt l' k'
  | [], _ :: _ => True
  | _, [] => False
  end.

Lemma chars_lt_le l k : chars_lt l k → String.le (of_chars l) (of_chars k) ∧ of_chars l ≠ of_chars k.
Proof.
  unfold String.le, String.leb. intros H.
  assert (String.compare (of_chars l) (of_chars k) = Lt) as E.
  { revert k H. induction l as [|c l IH]; intros [|d k]; simpl; try done. intros [Hlt|[-> Hlt]].
    - unfold Ascii.compare. apply N.compare_lt_iff in Hlt. by rewrite Hlt.
    - unfold Ascii.compare. rewrite N.compare_refl. by apply IH. }
  rewrite E. split; [done|]. intros Heq. rewrite Heq in E.
  assert (∀ s, String.compare s s = Eq) as Hr.
  { induction s as [|c s IH]; [done|]. simpl. unfold Ascii.compare. by rewrite N.compare_refl. }
  by rewrite Hr in E.
Qed.

Lemma chars_lt_app_l p l k : chars_lt l k → chars_lt (p ++ l) (p ++ k).
Proof. induction p as [|c p IH]; simpl; [done|]. right. auto. Qed.

Lemma digits_lt l k a b v w r1 r2 :
  length l = length k → digits_value a l = Some v → digits_value b k = Some w → a ≤ b → v < w →
  a < b ∨ chars_lt (l ++ r1) (k ++ r2).
Proof.
  revert a b k. induction l as [|c l IH]; intros a b [|e k]; simpl; try done.
  - intros _ [= ->] [= ->]. lia.
  - intros [= Hlen]. destruct (digit_of c) as [d|] eqn:Hc; [|done]. destruct (digit_of e) as [x|] eqn:He; [|done].
    intros Hv Hw Hab Hlt. apply digit_of_range in Hc as [Hd Hc], He as [Hx He].
    destruct (decide (a < b)) as [|Hn]; [by left|]. right. assert (a = b) as <- by lia.
    destruct (decide (d < x)) as [Hdx|Hdx]; [left; lia|].
    destruct (decide (d = x)) as [<-|Hne].
    + right. split; [rewrite <-(ascii_N_embedding c), <-(ascii_N_embedding e); f_equal; lia|].
      destruct (IH _ _ _ Hlen Hv Hw) as [?|?]; [lia|done|lia|done].
    + exfalso. assert (Forall (fun c => is_Some (digit_of c)) l ∧ Forall (fun c => is_Some (digit_of c)) k) as [Hl Hk]
        by (split; by eapply digits_value_digits).
      destruct (digits_value_bound (a * 10 + d) l Hl) as (v' & Hv' & Hb1).
      destruct (digits_value_bound (a * 10 + x) k Hk) as (w' & Hw' & Hb2).
      unfold len in *. rewrite Hlen in *. rewrite Hv in Hv'. rewrite Hw in Hw'. simplify_eq.
      assert (0 < 10 ^ Z.of_nat (length k)) by (apply Z.pow_pos_nonneg; lia). nia.
Qed.

(** Texts that begin with as many digits, of different value. *)
Lemma digits_first l k v w r1 r2 :
  length l = length k → digits_value 0 l = Some v → digits_value 0 k = Some w → v < w → chars_lt (l ++ r1) (k ++ r2).
Proof. intros H Hv Hw Hlt. destruct (digits_lt l k 0 0 v w r1 r2 H Hv Hw) as [?|?]; [lia..|done]. Qed.

Lemma digits_value_shift a b l v :
  digits_value a l = Some v → digits_value b l = Some (v + (b - a) * 10 ^ len l).
Proof.
  revert a b. induction l as [|c l IH]; intros a b; simpl.
  - intros [= ->]. change (10 ^ len (@nil ascii)) with 1. f_equal. lia.
  - destruct (digit_of c) as [d|]; [|done]. intros Hv. rewrite (IH _ (b * 10 + d) Hv). f_equal.
    unfold len. simpl length. rewrite Nat2Z.inj_succ, Z.pow_succ_r by lia. ring.
Qed.

Lemma digits_value_pad n v acc :
  (0 < n)%nat → 0 ≤ v < 10 ^ Z.of_nat n → digits_value acc (zero_pad n v) = Some (acc * 10 ^ Z.of_nat n + v).
Proof.
  intros Hn Hv. destruct (zero_pad_spec n v Hn Hv) as [Hl Hd].
  rewrite (digits_value_shift 0 acc _ v Hd). unfold len. rewrite Hl. f_equal. lia.
Qed.

(** The digits of three numbers side by side. *)
Lemma three_fields n x y z :
  (0 < n)%nat → 0 ≤ x < 10 ^ Z.of_nat n → 0 ≤ y < 100 → 0 ≤ z < 100 →
  let l := zero_pad n x ++ zero_pad 2 y ++ zero_pad 2 z in
  length l = (n + 4)%nat ∧ digits_value 0 l = Some (x * 10000 + y * 100 + z).
Proof.
  intros Hn Hx Hy Hz. cbv zeta.
  assert (∀ v, 0 ≤ v < 100 → 0 ≤ v < 10 ^ Z.of_nat 2) as H2 by done.
  split.
  - rewrite !length_app. destruct (zero_pad_spec n x Hn Hx) as [-> _].
    destruct (zero_pad_spec 2 y ltac:(lia) (H2 y Hy)) as [-> _]. by destruct (zero_pad_spec 2 z ltac:(lia) (H2 z Hz)) as [-> _].
  - rewrite !digits_value_app, digits_value_pad by done. simpl. rewrite digits_value_app, digits_value_pad by (lia || auto).
    simpl. rewrite digits_value_pad by (lia || auto). f_equal. change (10 ^ Z.of_nat 2) with 100. change (Z.pow_pos 10 2) with 100. lia.
Qed.

(** The time of day in seconds, as the number its digits write. *)
Lemma clock_mono r1 r2 :
  0 ≤ r1 < r2 → r2 < 86400 →
  r1 / 3600 * 10000 + r1 mod 3600 / 60 * 100 + r1 mod 60 < r2 / 3600 * 10000 + r2 mod 3600 / 60 * 100 + r2 mod 60.
Proof.
  intros H H'. assert (∀ r, r mod 60 = r mod 3600 mod 60) as E.
  { intros r. change 3600 with (60 * 60). by rewrite Z.rem_mul_r, Z.mul_comm, Z.mod_add, Z.mod_mod by lia. }
  rewrite (E r1), (E r2). Z.to_euclidean_division_equations; lia.
Qed.

Lemma clock_fields r :
  0 ≤ r < 86400 →
  let l := zero_pad 2 (r / 3600) ++ zero_pad 2 (r mod 3600 / 60) ++ zero_pad 2 (r mod 60) in
  length l = 6%nat ∧ digits_value 0 l = Some (r / 3600 * 10000 + r mod 3600 / 60 * 100 + r mod 60).
Proof. intros Hr. apply (three_fields 2); [lia|..]; change (10 ^ Z.of_nat 2) with 100; Z.to_euclidean_division_equations; lia. Qed.

Lemma utc_stamp_text t y m d :
  civil_from_days (t / 86400) = (y, m, d) →
  utc_stamp t = of_chars ((zero_pad 4 y ++ zero_pad 2 m ++ zero_pad 2 d) ++ ["T"%char]
    ++ (zero_pad 2 (t mod 86400 / 3600) ++ zero_pad 2 (t mod 86400 mod 3600 / 60) ++ zero_pad 2 (t mod 86400 mod 60))
    ++ ["Z"%char]).
Proof. intros E. unfold utc_stamp. rewrite (utc_parts_civil _ _ _ _ E). by rewrite <-!app_assoc. Qed.

(** Stamps sort in time order: for times whose year has four digits, one comes before another
    exactly when its stamp is smaller as text, so the newest backups are those whose names come
    last. *)
Theorem stamps_sort (t1 t2 : Z) :
  four_digit_day (t1 / 86400) → four_digit_day (t2 / 86400) →
  t1 < t2 ↔ String.le (utc_stamp t1) (utc_stamp t2) ∧ utc_stamp t1 ≠ utc_stamp t2.
Proof.
  assert (∀ t1 t2, four_digit_day (t1 / 86400) → four_digit_day (t2 / 86400) → t1 < t2 →
    String.le (utc_stamp t1) (utc_stamp t2) ∧ utc_stamp t1 ≠ utc_stamp t2) as Hlt.
  { clear. intros t1 t2 Hf1 Hf2 Ht.
    destruct (civil_from_days (t1 / 86400)) as [[y1 m1] d1] eqn:E1. rewrite (utc_stamp_text _ _ _ _ E1).
    destruct (civil_from_days (t2 / 86400)) as [[y2 m2] d2] eqn:E2. rewrite (utc_stamp_text _ _ _ _ E2).
    pose proof (civil_spec _ _ _ _ E1) as (Hm1 & Hd1 & _ & Hy1). pose proof (civil_spec _ _ _ _ E2) as (Hm2 & Hd2 & _ & Hy2).
    apply Hy1 in Hf1. apply Hy2 in Hf2. clear Hy1 Hy2. apply chars_lt_le.
    destruct (three_fields 4 y1 m1 d1) as [Hl1 Hv1]; [lia..|]. destruct (three_fields 4 y2 m2 d2) as [Hl2 Hv2]; [lia..|].
    destruct (decide (t1 / 86400 = t2 / 86400)) as [Hday|Hday].
    - rewrite Hday, E2 in E1. simplify_eq. apply chars_lt_app_l, chars_lt_app_l.
      pose proof (Z.mod_pos_bound t1 86400 ltac:(lia)). pose proof (Z.mod_pos_bound t2 86400 ltac:(lia)).
      pose proof (Z.div_mod t1 86400 ltac:(lia)). pose proof (Z.div_mod t2 86400 ltac:(lia)).
      set (r1 := t1 mod 86400) in *. set (r2 := t2 mod 86400) in *.
      destruct (clock_fields r1) as [Hk1 Hw1]; [done|]. destruct (clock_fields r2) as [Hk2 Hw2]; [done|].
      eapply digits_first; [by rewrite Hk1, Hk2|exact Hw1|exact Hw2|]. apply clock_mono; lia.
    - eapply digits_first; [by rewrite Hl1, Hl2|exact Hv1|exact Hv2|].
      pose proof (civil_mono (t1 / 86400) (t2 / 86400)) as Hm. rewrite E1, E2 in Hm. apply Hm.
      pose proof (Z.div_le_mono t1 t2 86400). lia. }
  intros H1 H2. split; [by apply Hlt|]. intros [Hle Hne].
  destruct (decide (t1 < t2)) as [|Hn]; [done|]. exfalso.
  destruct (decide (t1 = t2)) as [->|Hne']; [done|].
  destruct (Hlt t2 t1 H2 H1 ltac:(lia)) as [Hle' _]. apply Hne. by apply (anti_symm String.le).
Qed.
