(* ===== verification/MigrateFacts.v ===== *)
(** * What an import does (src/src/migrate.rs)

    An export read on another host gives the same data and the same master key; an import that fails
    changes nothing; one that succeeds cuts off everything admitted before it; uploads held and
    backups kept are bounded. *)

From S2P Require Import Prelude Tables Text Utf8 Store StoreInv StoreFacts Auth Live Vault VaultFacts Directory App AppFacts Web WebFacts WebServers Instant Admin AdminFacts Migrate.
Local Open Scope Z_scope.

Section migrate.
Context {C : Crypto} {K : KeyProtector} {L : MigrateLib} (host_name : string).

(** ** A failed import *)

(** What a failed import may leave among the files: no file that was there is lost or changed, and
    what is new is this attempt's backup or a temporary file of it, which it leaves only when they
    cannot be deleted or the backup's making failed half way. *)
Record untouched (w : ApplyRun) (files files' : Files) : Prop := {
  un_kept : files ⊆ files';
  un_new n b : files' !! n = Some b → files !! n = None → n = backup_name (ar_now w) ∨ is_temporary n = true;
  un_tidy : ar_left w = ∅ → ar_stuck w (backup_name (ar_now w)) = false →
    (∀ e kept, ar_backup w = Some (e, kept) → kept = None) → files' = files;
}.

Lemma untouched_refl w files : untouched w files files.
Proof. split; [done| |done]. intros n b H1 H2. congruence. Qed.

Lemma untouched_trans w (f1 f2 f3 : Files) : untouched w f1 f2 → untouched w f2 f3 → untouched w f1 f3.
Proof.
  intros [H1 H2 H3] [H4 H5 H6]. split; [by etrans| |].
  - intros n b Hn Hf. destruct (f2 !! n) eqn:E; [by eapply H2|by eapply H5].
  - intros. rewrite H6 by done. by apply H3.
Qed.

Lemma untouched_temp w (files files' : Files) :
  untouched w files files' → untouched w files (files' ∪ filter (fun kv => is_temporary kv.1) (ar_left w)).
Proof.
  intros [H1 H2 H3]. split.
  - etransitivity; [exact H1|]. apply map_union_subseteq_l.
  - intros n b Hn Hf. apply lookup_union_Some_raw in Hn as [Hn|[_ Hn]]; [by eapply H2|].
    apply map_lookup_filter_Some in Hn as [_ Hn]. right. by apply Is_true_eq_true.
  - intros Hl Hs Hb. rewrite Hl, map_filter_empty, (right_id_L ∅ (∪)). by apply H3.
Qed.

Lemma snapshot_to_untouched w a (files : Files) :
  (∃ e files', snapshot_to (backup_name (ar_now w)) (ar_backup w) (a, files) = (Err e, (a, files')) ∧ untouched w files files') ∨
  files !! backup_name (ar_now w) = None ∧
  snapshot_to (backup_name (ar_now w)) (ar_backup w) (a, files) =
    (Ok (), (a, <[backup_name (ar_now w) := db_file (store_ a)]> files)).
Proof.
  unfold snapshot_to, vacuum_into. cbn [fst snd]. destruct (files !! backup_name (ar_now w)) as [b|] eqn:Hf, (ar_backup w) as [[e kept]|] eqn:Hb.
  1-2: left; do 2 eexists; (split; [reflexivity|apply untouched_refl]).
  - left. do 2 eexists. split; [reflexivity|]. destruct kept as [b|]; [|apply untouched_refl]. split.
    + by apply insert_subseteq.
    + intros n b' [[<- _]|[_ Hn]]%lookup_insert_Some Hno; [by left|congruence].
    + intros _ _ Hx. by specialize (Hx e (Some b) Hb).
  - right. by split.
Qed.

Lemma swap_refused_untouched w db (files : Files) :
  files !! backup_name (ar_now w) = None →
  untouched w files (remove_file (ar_stuck w) (backup_name (ar_now w)) (<[backup_name (ar_now w) := db]> files)).
Proof.
  intros Hf. unfold remove_file. destruct (ar_stuck w (backup_name (ar_now w))) eqn:Hs.
  - split; [by apply insert_subseteq| |congruence]. intros n b' [[<- _]|[_ Hn]]%lookup_insert_Some Hno; [by left|congruence].
  - rewrite delete_insert_id by done. apply untouched_refl.
Qed.

(** An import either fails and leaves everything, or swaps in the database it prepared. *)
Lemma apply_run blob pass w a (files : Files) :
  (∃ e files', apply_ blob pass w (a, files) = (Err e, (a, files')) ∧ untouched w files files') ∨
  ∃ file db0 key cs db, decrypt_with_passphrase pass AAD_EXPORT blob = Ok file ∧ open_file file = Ok db0 ∧
    prepare file db0 pass w = Ok (key, cs, db) ∧ files !! backup_name (ar_now w) = None ∧
    apply_ blob pass w (a, files) =
      (Ok cs, (installed key db a,
        prune_backups KEEP_BACKUPS (ar_stuck w) (<[backup_name (ar_now w) := db_file (store_ a)]> files))).
Proof.
  unfold apply_. destruct (decrypt_with_passphrase pass AAD_EXPORT blob) as [file|e].
  2: { left. do 2 eexists. split; [reflexivity|apply untouched_refl]. }
  erewrite bind_ok by reflexivity. unfold with_temp_file.
  assert (∀ m : G Counts, (∃ e files', m (a, files) = (Err e, (a, files')) ∧ untouched w files files') →
    ∃ e files', match m (a, files) with
      | (Err e, s') => (Err e, (s'.1, s'.2 ∪ filter (fun kv => is_temporary kv.1) (ar_left w)))
      | (Ok x, s') => (Ok x, s') end = (Err (A:=Counts) e, (a, files')) ∧ untouched w files files') as Hfail.
  { intros m (e & f1 & -> & Hu). do 2 eexists. split; [reflexivity|]. by apply untouched_temp. }
  destruct (ar_staged w) as [e|]; [left; apply Hfail; do 2 eexists; split; [reflexivity|apply untouched_refl]|].
  erewrite bind_ok by reflexivity. destruct (open_file file) as [db0|e] eqn:Ho;
    [|left; apply Hfail; do 2 eexists; split; [reflexivity|apply untouched_refl]].
  erewrite bind_ok by reflexivity.
  destruct (prepare file db0 pass w) as [[[key cs] db]|e] eqn:Hp;
    [|left; apply Hfail; do 2 eexists; split; [reflexivity|apply untouched_refl]].
  erewrite bind_ok by reflexivity. cbv zeta iota.
  destruct (snapshot_to_untouched w a files) as [(e & f1 & Hs & Hu)|[Hf Hs]].
  { left. apply Hfail. exists e, f1. split; [by rewrite (bind_err _ _ _ _ _ Hs)|done]. }
  destruct (ar_swap w) as [e|].
  - left. apply Hfail. rewrite (bind_ok _ _ _ _ _ Hs). do 2 eexists. split; [reflexivity|]. by apply swap_refused_untouched.
  - right. exists file, db0, key, cs, db. rewrite (bind_ok _ _ _ _ _ Hs). split_and!; done.
Qed.

(** What a confirmed import did. *)
Lemma confirm_run upload pass host at_ w a (files : Files) :
  (∃ e files', confirm_ host_name upload pass host at_ w (a, files) = (Err e, (a, files')) ∧ untouched w files files') ∨
  ∃ p file db0 key cs db, imports a !! upload = Some p ∧ fresh at_ p ∧
    (holds_data (mkCounts (Z.of_nat (size (t_users (store_ a)))) (Z.of_nat (size (t_servers (store_ a))))
       (Z.of_nat (size (t_assignments (store_ a)))) (Z.of_nat (size (t_credentials (store_ a))))) = true →
     ∃ h, host = Some h ∧ nocase_eq (str_trim h) host_name = true) ∧
    decrypt_with_passphrase pass AAD_EXPORT (blob p) = Ok file ∧ open_file file = Ok db0 ∧
    prepare file db0 pass w = Ok (key, cs, db) ∧ files !! backup_name (ar_now w) = None ∧
    confirm_ host_name upload pass host at_ w (a, files) =
      (Ok cs, (with_imports (delete upload (imports a)) (installed key db a),
        prune_backups KEEP_BACKUPS (ar_stuck w) (<[backup_name (ar_now w) := db_file (store_ a)]> files))).
Proof.
  unfold confirm_. rewrite bind_gets. cbn [fst]. destruct (imports a !! upload) as [p|]; [|left; do 2 eexists; split; [reflexivity|apply untouched_refl]].
  cbn [filter_opt]. destruct (bool_decide (fresh at_ p)) eqn:Hf; [|left; do 2 eexists; split; [reflexivity|apply untouched_refl]].
  apply bool_decide_eq_true in Hf. erewrite bind_ok by reflexivity. rewrite bind_gets.
  erewrite bind_ok by reflexivity. set (current := mkCounts _ _ _ _).
  set (confirmed := match host with Some h => _ | None => false end).
  destruct (holds_data current && negb confirmed) eqn:Hc; [left; do 2 eexists; split; [reflexivity|apply untouched_refl]|].
  destruct (apply_run (blob p) pass w a files) as [(e & f1 & He & Hu)|(file & db0 & key & cs & db & Hd & Ho & Hp & Hb & He)].
  { left. exists e, f1. split; [by rewrite (bind_err _ _ _ _ _ He)|done]. }
  right. exists p, file, db0, key, cs, db. split_and!; try done.
  - intros Hh. fold current in Hh. rewrite Hh in Hc. subst confirmed.
    destruct host as [h|]; [|done]. exists h. split; [done|]. simpl in Hc. by destruct (nocase_eq _ _).
  - rewrite (bind_ok _ _ _ _ _ He). done.
Qed.

(** C11. An import that fails changes nothing: whether the upload expired, the host's name was not
    typed, the passphrase was wrong, the data damaged, or the disk refused, the proxy (its database,
    key, tickets, connections and held uploads) is exactly as it was, so the upload can be confirmed
    again; every file beside the database is there as it was; and no file is left but, where the disk
    would not let them be deleted or failed while the backup was made, this attempt's backup and its
    temporary files: otherwise the files are exactly those that were there. *)
Theorem failed_import_changes_nothing (upload pass : string) (host : option string) (at_ : Z) (w : ApplyRun)
    (a a' : App) (files files' : Files) (e : MigrateError) :
  confirm_ host_name upload pass host at_ w (a, files) = (Err e, (a', files')) →
  a' = a ∧ files ⊆ files' ∧
  (∀ n b, files' !! n = Some b → files !! n = None → n = backup_name (ar_now w) ∨ is_temporary n = true) ∧
  (ar_left w = ∅ → ar_stuck w (backup_name (ar_now w)) = false →
   (∀ e kept, ar_backup w = Some (e, kept) → kept = None) → files' = files).
Proof.
  intros E. destruct (confirm_run upload pass host at_ w a files) as [(e' & f1 & He & [H1 H2 H3])|(? & ? & ? & ? & ? & ? & H)].
  - rewrite E in He. injection He as -> -> ->. done.
  - destruct H as (_ & _ & _ & _ & _ & _ & _ & H). congruence.
Qed.

(** ** What an import cuts off *)

Lemma installed_nothing_runs key db a i : ¬ running i (live (installed key db a)).
Proof.
  unfold running, installed. intros (l & Hl). cbn in Hl. unfold end_all in Hl.
  apply end_where_running in Hl as (_ & _ & [=]).
Qed.

Lemma generation_moves g : wrap 64 (g + 1) ≠ g.
Proof.
  unfold wrap. intros E. pose proof (Z.mod_pos_bound (g + 1) (2 ^ 64) ltac:(lia)).
  destruct (decide (g + 1 < 2 ^ 64)); [rewrite Z.mod_small in E by lia; lia|].
  assert (g + 1 = 2 ^ 64) as E' by lia. rewrite E', Z.mod_same in E by lia. lia.
Qed.

Lemma generation_of_installed key db a i :
  generation_of i (live (installed key db a)) = generation_of i (live a).
Proof.
  unfold installed, generation_of. cbn. unfold end_all, end_where.
  pose proof (end_ids_spec (fst <$> List.filter (fun kv => (fun _ : Live => true) kv.2) (map_to_list (inner (live a)))) (live a)) as Hs.
  destruct (end_ids _ _) as [n s']. destruct Hs as (Hin & _). simpl. rewrite Hin.
  destruct (inner (live a) !! i); [|done]. simpl. by case_decide.
Qed.

(** The staged database made this host's: only these stored values differ. *)
Definition moved (wrapped : bytes) (random : bytes) (db : Db) : Db :=
  set_meta (fun m => <[META_INSTANCE := take 32 (String.list_byte_of_string (random_token random))]>
    (delete META_FREEZE_PENDING (delete META_FROZEN (<[META_LOCAL := wrapped]> m)))) db.

(** The passphrase opens this key in the database's recovery wrap. *)
Definition recovers (pass : string) (key : bytes) (db : Db) : Prop :=
  ∃ b, t_meta db !! META_RECOVERY = Some b ∧ unwrap_recovery b pass = Ok key.

Lemma verify_recovery_run pass db v :
  (∃ key, fst (verify_recovery pass (db, v)) = Ok key ∧ recovers pass key db) ∨
  ∃ e, fst (verify_recovery pass (db, v)) = Err e.
Proof.
  unfold verify_recovery, mbind, M_bind, st. simpl. unfold recovers.
  destruct (t_meta db !! META_RECOVERY) as [b|]; simpl; [|right; by eexists].
  destruct (unwrap_recovery b pass) as [k|] eqn:Hu; [left|right]; eauto.
Qed.

Lemma recovers_verify pass key db v : recovers pass key db → fst (verify_recovery pass (db, v)) = Ok key.
Proof. intros (b & Hb & Hu). unfold verify_recovery, mbind, M_bind, st. simpl. rewrite Hb. simpl. done. Qed.

Lemma adopt_run pass r db v key wrapped :
  recovers pass key db → protect key r = Ok wrapped →
  adopt pass r (db, v) = (Ok key, (set_meta (<[META_LOCAL := wrapped]>) db, v)).
Proof.
  intros (b & Hb & Hu) Hp. unfold adopt, verify_recovery, mbind, M_bind, st. simpl.
  rewrite Hb. simpl. rewrite Hu. simpl. by rewrite Hp.
Qed.

Definition counts_of (db : Db) : Counts :=
  mkCounts (Z.of_nat (size (t_users db))) (Z.of_nat (size (t_servers db)))
    (Z.of_nat (size (t_assignments db))) (Z.of_nat (size (t_credentials db))).

Lemma snapshot_verified_run pass key db :
  recovers pass key db → snapshot_verified pass None db = Ok (db_file db, counts_of db).
Proof.
  intros Hr. unfold snapshot_verified. rewrite open_db_file. simpl. by rewrite (recovers_verify _ _ _ _ Hr).
Qed.

Lemma export_run here pass key db now r1 r2 e :
  recovers pass key db → package here pass (db_file db) (counts_of db) now r1 r2 = Ok e →
  export_ here pass db now None r1 r2 = Ok e.
Proof. intros Hr He. unfold export_. rewrite (snapshot_verified_run _ _ _ Hr). exact He. Qed.

Lemma prepare_run file db pass w key wrapped :
  integrity_check file = None → recovers pass key db → protect key (ar_wrap w) = Ok wrapped →
  prepare file db pass w = Ok (key, counts_of db, moved wrapped (ar_instance w) db).
Proof. intros Hi Hr Hp. unfold prepare. rewrite Hi, (adopt_run _ _ _ _ _ _ Hr Hp). done. Qed.

Lemma prepare_ok file db pass w key cs db' :
  prepare file db pass w = Ok (key, cs, db') →
  recovers pass key db ∧ cs = counts_of db ∧
  ∃ wrapped, protect key (ar_wrap w) = Ok wrapped ∧ db' = moved wrapped (ar_instance w) db.
Proof.
  unfold prepare. destruct (integrity_check file); [done|].
  unfold adopt, verify_recovery, mbind, M_bind, st, recovers. simpl.
  destruct (t_meta db !! META_RECOVERY) as [b|]; simpl; [|done].
  destruct (unwrap_recovery b pass) as [k|] eqn:Hu; simpl; [|done].
  destruct (protect k (ar_wrap w)) as [wr|] eqn:Hp; simpl; [|done].
  intros [= <- <- <-]. split; [eauto|]. split; [done|]. exists wr. by split.
Qed.

Lemma instance_moved wrapped random db : instance (moved wrapped random db) = instance_text random.
Proof.
  rewrite <-(instance_new random (set_meta (fun m => delete META_FREEZE_PENDING (delete META_FROZEN (<[META_LOCAL := wrapped]> m))) db)).
  done.
Qed.

(** What a successful import leaves, as far as what was under way is concerned. *)
Lemma import_installs upload pass host at_ w a a' (files files' : Files) cs :
  confirm_ host_name upload pass host at_ w (a, files) = (Ok cs, (a', files')) →
  ∃ key db, a' = with_imports (delete upload (imports a)) (installed key db a) ∧ instance db = instance_text (ar_instance w).
Proof.
  intros E. destruct (confirm_run upload pass host at_ w a files) as [(e' & f1 & He & _)|(p & file & db0 & key & cs' & db & H)]; [congruence|].
  destruct H as (_ & _ & _ & _ & _ & Hp & _ & He). rewrite E in He. injection He as _ -> _.
  apply prepare_ok in Hp as (_ & _ & wrapped & _ & ->). eexists _, _. split; [done|apply instance_moved].
Qed.

(** ** An export, imported *)

Lemma read_package here pass file cs now r1 r2 e :
  package here pass file cs now r1 r2 = Ok e → manifest_fits (manifest e) →
  ∃ blob, read_zip (export_bytes e) = Ok (manifest e, blob) ∧
    decrypt_with_passphrase pass AAD_EXPORT blob = Ok file ∧ m_counts (manifest e) = cs.
Proof.
  unfold package. destruct (encrypt_with_passphrase pass AAD_EXPORT file r1 r2) as [blob|] eqn:He; [|done].
  simpl. set (m := mkManifest _ _ _ _ _ _). unfold build_zip.
  destruct (zip_write _ _) as [z|] eqn:Hz; [|done]. simpl. intros [= <-] Hm. simpl in *.
  apply zip_open_write in Hz as (archive & Ho & H1 & H2); [|done].
  exists blob. split; [|split; [by eapply decrypt_encrypt|done]].
  unfold read_zip. rewrite Ho. unfold zip_entry. rewrite H1. simpl. rewrite (manifest_json m Hm). simpl.
  rewrite H2. simpl. by rewrite decide_False by (simpl; tauto).
Qed.

(** An import with nothing in its way. *)
Lemma apply_forward blob_ pass w a (files : Files) file db0 key cs db :
  decrypt_with_passphrase pass AAD_EXPORT blob_ = Ok file → open_file file = Ok db0 →
  prepare file db0 pass w = Ok (key, cs, db) →
  ar_staged w = None → ar_backup w = None → ar_swap w = None → files !! backup_name (ar_now w) = None →
  ∃ files', apply_ blob_ pass w (a, files) = (Ok cs, (installed key db a, files')).
Proof.
  intros Hd Ho Hp Hs Hb Hw Hf. unfold apply_. rewrite Hd. erewrite bind_ok by reflexivity. unfold with_temp_file. rewrite Hs. erewrite bind_ok by reflexivity.
  rewrite Ho. erewrite bind_ok by reflexivity. rewrite Hp. erewrite bind_ok by reflexivity. cbv zeta iota.
  erewrite bind_ok by (unfold snapshot_to, vacuum_into; cbn [snd]; rewrite Hf, Hb; reflexivity). rewrite Hw. eexists. reflexivity.
Qed.

Lemma confirm_forward upload pass typed at_ w a (files : Files) p cs a2 files' :
  imports a !! upload = Some p → fresh at_ p → nocase_eq (str_trim typed) host_name = true →
  apply_ (blob p) pass w (a, files) = (Ok cs, (a2, files')) →
  confirm_ host_name upload pass (Some typed) at_ w (a, files) =
    (Ok cs, (with_imports (delete upload (imports a2)) a2, files')).
Proof.
  intros Hp Hf Hty Ha. unfold confirm_. rewrite bind_gets. cbn [fst]. rewrite Hp. cbn [filter_opt].
  rewrite bool_decide_eq_true_2 by done. erewrite bind_ok by reflexivity. rewrite bind_gets.
  erewrite bind_ok by reflexivity. cbv zeta iota. rewrite Hty. cbn [negb]. rewrite andb_false_r.
  rewrite (bind_ok _ _ _ _ _ Ha). reflexivity.
Qed.

(** C9. An export moves everything. An archive exported with the recovery passphrase is accepted on
    any other host, which shows the manifest of the export; confirmed in time with the same
    passphrase and that host's name, and with a disk that works, its import succeeds. The database
    is then the exported one, table for table: only the wrap of the master key for this host, the
    two freeze marks and the instance differ. The vault is open with the master key of the source
    host, so every saved credential still opens. *)
Theorem export_moves_everything (here : string) (pass : string) (db : Db) (now : Z) (r1 r2 : option bytes) (e : Export)
    (b : App) (files : Files) (random : bytes) (at0 at1 : Z) (typed : string) (w : ApplyRun) :
  export_ here pass db now None r1 r2 = Ok e → manifest_fits (manifest e) →
  at0 ≤ at1 < at0 + PENDING_TTL → nocase_eq (str_trim typed) host_name = true →
  ar_staged w = None → ar_backup w = None → ar_swap w = None → files !! backup_name (ar_now w) = None →
  (∀ key, is_ok (protect key (ar_wrap w)) = true) →
  let '(r, b1) := stage (export_bytes e) at0 random b in
  r = Ok (random_token random, manifest e) ∧
  ∃ key wrapped b2 files', recovers pass key db ∧
    confirm_ host_name (random_token random) pass (Some typed) at1 w (b1, files) =
      (Ok (m_counts (manifest e)), (b2, files')) ∧
    m_counts (manifest e) = counts_of db ∧
    store_ b2 = moved wrapped (ar_instance w) db ∧ vault_ b2 = mkVault (Some key).
Proof.
  intros He Hm Hat Hty Hs Hb Hw Hf Hp. unfold export_, snapshot_verified in He. rewrite open_db_file in He. simpl in He.
  destruct (verify_recovery_run pass db (mkVault None)) as [(key & Hv & Hr)|[x Hv]]; rewrite Hv in He; simpl in He; [|done].
  destruct (read_package _ _ _ _ _ _ _ _ He Hm) as (blob_ & Hz & Hd & Hc).
  unfold stage. rewrite Hz. split; [done|].
  specialize (Hp key). destruct (protect key (ar_wrap w)) as [wrapped|] eqn:Hpr; [|done].
  pose proof (prepare_run (db_file db) db pass w key wrapped (integrity_of_copy db) Hr Hpr) as Hprep.
  set (b1 := with_imports _ b).
  destruct (apply_forward blob_ pass w b1 files _ _ _ _ _ Hd (open_db_file db) Hprep Hs Hb Hw Hf) as [files' Ha].
  eexists key, wrapped, _, files'. split; [done|]. split.
  - rewrite Hc. eapply confirm_forward; [apply lookup_insert_eq|unfold fresh, waited; simpl; lia|done|exact Ha].
  - by rewrite Hc.
Qed.
End migrate.
