(* ===== verification/MigrateLimits.v ===== *)
(** * What migration holds on to (src/src/migrate.rs)

    Uploaded archives waiting for a confirmation, each a whole database in memory, and the backups
    imports leave beside the database. *)

From S2P Require Import Prelude Tables Text Utf8 Store StoreInv StoreFacts Auth Live Vault VaultFacts Directory App AppFacts Web WebFacts WebServers Instant Admin AdminFacts Pruning Migrate MigrateFacts.
Local Open Scope Z_scope.

(** ** Uploads *)

Abbreviation uploads := (gmap string PendingImport).
Implicit Types m : uploads.

Lemma earliest_least l best :
  match foldl earliest best l with
  | Some b => (best = Some b ∨ b ∈ l) ∧
      (∀ ip, ip ∈ l ∨ best = Some ip → uploaded b.2 ≤ uploaded ip.2)
  | None => l = [] ∧ best = None
  end.
Proof.
  revert best. induction l as [|x l IH]; intros best; simpl.
  - destruct best as [b|]; [|done]. split; [by left|]. intros ip [H|[= ->]]; [set_solver|lia].
  - specialize (IH (earliest best x)). destruct (foldl earliest (earliest best x) l) as [b|].
    + destruct IH as [Hb Hle]. assert (best = Some b ∨ b ∈ x :: l) as Hin.
      { destruct Hb as [Hb|]; [|by right; right]. unfold earliest in Hb.
        destruct best as [y|]; [case_decide|]; simplify_eq; [right|by left|right]; left. }
      split; [done|]. intros ip Hip. unfold earliest in Hle.
      destruct Hip as [[->|Hip]%elem_of_cons|Hip]; [|by apply Hle; left|].
      * destruct best as [y|]; [case_decide|]; [by apply Hle; right| |by apply Hle; right].
        specialize (Hle y (or_intror eq_refl)). lia.
      * destruct best as [y|]; [|done]. injection Hip as <-. case_decide; [|by apply Hle; right].
        specialize (Hle x (or_intror eq_refl)). lia.
    + destruct IH as [_ IH]. unfold earliest in IH. destruct best; [case_decide|]; done.
Qed.

(** The upload that gives way is one that came first. *)
Lemma oldest_spec m :
  match oldest m with
  | Some id => ∃ p, m !! id = Some p ∧ ∀ k q, m !! k = Some q → uploaded p ≤ uploaded q
  | None => m = ∅
  end.
Proof.
  unfold oldest. pose proof (earliest_least (map_to_list m) None) as H.
  destruct (foldl earliest None (map_to_list m)) as [[id p]|]; simpl.
  - destruct H as [[?|Hin] Hle]; [done|]. exists p. split; [by apply elem_of_map_to_list|].
    intros k q Hk%elem_of_map_to_list. apply (Hle (k, q)). by left.
  - apply map_to_list_empty_iff. tauto.
Qed.

Lemma make_room_spec fuel m :
  (size m ≤ fuel)%nat →
  (size (make_room fuel m) < MAX_PENDING)%nat ∧ make_room fuel m ⊆ m ∧
  ∀ k p j q, make_room fuel m !! k = Some p → m !! j = Some q → make_room fuel m !! j = None →
    uploaded q ≤ uploaded p.
Proof.
  revert m. induction fuel as [|fuel IH]; intros m Hf; simpl.
  - split_and!; [unfold MAX_PENDING; lia|done|]. intros. congruence.
  - case_decide as Hd; [|split_and!; [lia|done|intros; congruence]].
    pose proof (oldest_spec m) as Ho. destruct (oldest m) as [id|].
    + destruct Ho as (p0 & Hp0 & Hle). destruct (IH (delete id m)) as (Hs & Hsub & Hold).
      { rewrite map_size_delete, Hp0. lia. }
      split_and!; [done|by etrans; [|apply delete_subseteq]|].
      intros k p j q Hk Hj Hno. destruct (decide (j = id)) as [->|Hne].
      * rewrite Hp0 in Hj. injection Hj as <-. apply (Hle k).
        eapply lookup_weaken; [done|]. etrans; [done|apply delete_subseteq].
      * eapply (Hold k p j q); [done| |done]. by rewrite lookup_delete_ne.
    + subst m. rewrite map_size_empty in Hd. unfold MAX_PENDING in Hd. lia.
Qed.

Section limits.
Context {C : Crypto} {K : KeyProtector} {L : MigrateLib} (host_name : string).

(** The requests and the sweep that change which uploads are held. *)
Inductive upload_op :=
  | UStage (b : bytes) (at_ : Z) (random : bytes)
  | USweep (at_ : Z)
  | UCancel (upload : string)
  | UConfirm (upload pass : string) (host : option string) (at_ : Z) (w : ApplyRun).

Definition upload_exec (s : App * Files) (op : upload_op) : App * Files :=
  match op with
  | UStage b at_ random => (snd (stage b at_ random s.1), s.2)
  | USweep at_ => (snd (sweep_pending at_ s.1), s.2)
  | UCancel upload => (snd (cancel_ upload s.1), s.2)
  | UConfirm upload pass host at_ w => snd (confirm_ host_name upload pass host at_ w s)
  end.

Lemma filter_size_le (P : string * PendingImport → Prop) `{!∀ x, Decision (P x)} m : (size (filter P m) ≤ size m)%nat.
Proof. apply map_subseteq_size, map_filter_subseteq. Qed.

Lemma delete_size_le k m : (size (delete k m) ≤ size m)%nat.
Proof. apply map_subseteq_size, delete_subseteq. Qed.

Lemma stage_size b at_ random a : (size (imports a) ≤ MAX_PENDING)%nat → (size (imports (snd (stage b at_ random a))) ≤ MAX_PENDING)%nat.
Proof.
  intros H. unfold stage. destruct (read_zip b) as [[m blob_]|]; [|done]. simpl.
  set (kept := filter _ (imports a)). destruct (make_room_spec (size kept) kept) as (Hs & _); [done|].
  rewrite map_size_insert. destruct (make_room (size kept) kept !! random_token random); simpl; lia.
Qed.

Lemma upload_exec_size s op :
  (size (imports s.1) ≤ MAX_PENDING)%nat → (size (imports (upload_exec s op).1) ≤ MAX_PENDING)%nat.
Proof.
  intros H. destruct op as [b at_ random|at_|upload|upload pass host at_ w]; simpl.
  - by apply stage_size.
  - etrans; [apply filter_size_le|done].
  - etrans; [apply delete_size_le|done].
  - destruct s as [a files]. destruct (confirm_run host_name upload pass host at_ w a files)
      as [(e & f1 & -> & _)|(? & ? & ? & ? & ? & ? & _ & _ & _ & _ & _ & _ & _ & ->)]; [done|].
    simpl in *. etrans; [apply delete_size_le|done].
Qed.

(** Uploads waiting for a confirmation are bounded, and the newest are the ones held. However
    archives are uploaded, cancelled, confirmed and swept, at most two are ever held. An archive that
    is accepted is held under its id; what gave way for it had expired, or came no later than any
    other upload still held. *)
Theorem uploads_bounded (ops : list upload_op) (s : App * Files) (b : bytes) (at_ : Z) (random : bytes)
    (id : string) (mf : Manifest) (a' : App) :
  imports s.1 = ∅ →
  let a := (foldl upload_exec s ops).1 in
  (size (imports a) ≤ MAX_PENDING)%nat ∧
  (stage b at_ random a = (Ok (id, mf), a') →
   (∃ p, imports a' !! id = Some p ∧ uploaded p = at_) ∧
   (∀ k p, k ≠ id → imports a' !! k = Some p → imports a !! k = Some p ∧ fresh at_ p) ∧
   ∀ k p j q, k ≠ id → j ≠ id → imports a' !! k = Some p → imports a !! j = Some q → imports a' !! j = None →
     ¬ fresh at_ q ∨ uploaded q ≤ uploaded p).
Proof.
  intros H0 a. split.
  - subst a. assert (size (imports s.1) ≤ MAX_PENDING)%nat as H by (rewrite H0, map_size_empty; lia).
    clear H0. revert s H. induction ops as [|op ops IH]; intros s H; [done|]. apply IH. by apply upload_exec_size.
  - clearbody a. unfold stage. destruct (read_zip b) as [[m blob_]|]; [|done]. intros [= <- <- <-]. simpl.
    set (kept := filter _ (imports a)). destruct (make_room_spec (size kept) kept) as (_ & Hsub & Hold); [done|].
    split_and!.
    + eexists. by rewrite lookup_insert_eq.
    + intros k p Hk Hp. rewrite lookup_insert_ne in Hp by done.
      eapply lookup_weaken in Hp; [|exact Hsub]. apply map_lookup_filter_Some in Hp. done.
    + intros k p j q Hk Hj Hp Hq Hno. rewrite lookup_insert_ne in Hp, Hno by done.
      destruct (decide (fresh at_ q)) as [Hq'|]; [right|by left].
      eapply Hold; [done| |done]. by apply map_lookup_filter_Some.
Qed.

(** ** Backups *)

(** Pruning keeps the newest backups and touches nothing else. A file is gone afterwards exactly
    when it was one of the backups an import makes, was not among the newest [keep] of them in the
    order of their names, and could be deleted; everything kept is as it was. When nothing resists
    deletion, the backups left are the last [keep], so their number never grows past it. *)
Theorem prune_keeps_the_newest (keep : nat) (stuck : string → bool) (files : Files) :
  let backups := import_backups files in
  let old := take (length backups - keep) backups in
  (∀ n, prune_backups keep stuck files !! n = if decide (n ∈ old ∧ stuck n = false) then None else files !! n) ∧
  (∀ n, n ∈ old → is_import_backup n = true ∧ ∀ k, k ∈ drop (length backups - keep) backups → String.le n k) ∧
  ((∀ n, stuck n = false) →
   import_backups (prune_backups keep stuck files) ≡ₚ drop (length backups - keep) backups ∧
   (length (import_backups (prune_backups keep stuck files)) ≤ keep)%nat).
Proof.
  intros backups old. destruct (oldest_first_split is_import_backup keep files) as (Hs & _ & Hle & Hlen).
  split; [intros n; apply keep_newest_lookup|]. split.
  - intros n Hn. split; [|intros k; by apply Hle].
    assert (n ∈ import_backups files) as H by (apply Hs; by left). by apply elem_of_oldest_first in H as [_ H].
  - intros Hst. pose proof (keep_newest_left is_import_backup keep stuck files Hst) as Hp. split; [done|].
    unfold import_backups, prune_backups. by rewrite Hp.
Qed.
End limits.
