(* ===== verification/Export.v ===== *)
(** * Exports, and the freeze one sets (src/src/admin.rs)

    An export that freezes the proxy marks the freeze as pending until its archive is handed over.
    The undo travels with the archive, with the export lock: an archive dropped anywhere short of the
    response lifts the freeze it set. The parts of [export_task] that run under a hold of the gate
    are definitions on the running proxy; what happens between them is the step relation [estep]. *)

From S2P Require Import Prelude Tables Text Utf8 Store Auth Live Settings Vault Directory App Web Instant ServerList Admin AdminFacts Migrate MigrateFacts WebFacts.
Local Open Scope Z_scope.

(** The texts that are answered; the other errors are logged, or have the texts of their own kind. *)
Definition migrate_error_text (e : MigrateError) : string :=
  match e with
  | MNoRecovery => "set a recovery passphrase before exporting"
  | MWrongPassphrase => "the passphrase is not correct"
  | MBadArchive why => "not a web-access export: " +:+ why
  | MNewer schema =>
      "this export is from a newer version (schema " +:+ pretty schema +:+ "); upgrade this proxy first"
  | MConfirm why => why
  | MExpired => "that upload has expired; upload the file again"
  | MIntegrity why => "the imported database failed its integrity check: " +:+ why
  | _ => ""
  end.

Definition from_migrate_error (e : MigrateError) : ApiError :=
  match e with
  | MNoRecovery => conflict (migrate_error_text e)
  | MWrongPassphrase | MBadArchive _ | MNewer _ | MConfirm _ | MExpired | MIntegrity _ =>
      bad_request (migrate_error_text e)
  | MVault v => from_vault_error v
  | MStore s => from_store_error s
  | MIo _ => internal
  end.

Definition in_migrate {A} (r : result MigrateError A) : W A :=
  lift (match r with Ok a => Ok a | Err e => Err (from_migrate_error e) end).

(** A requester that left before an operation got the gate has abandoned it. *)
Definition still_wanted (gone : bool) : W unit :=
  if gone then throw (mkApiError REQUEST_TIMEOUT "the request ended before it could start") else mret ().

Section export.
Context {U : Unicode} {C : Crypto} {K : KeyProtector} {L : MigrateLib} (cfg : Cfg) (host_name : string).

(** ** The parts of [export_task] *)

(** The check made before anything waits. *)
Definition export_check (passphrase : string) : W unit :=
  db ← gets store_;
  _ ← in_migrate (in_vault (fst (verify_recovery passphrase (db, mkVault None))));
  mret ().

Record Snapshot := mkSnapshot { sn_admin : User; sn_db : bytes; sn_counts : Counts; sn_generation : Z; sn_froze : bool }.

(** Under the gate: held exclusively when the export freezes, shared otherwise. *)
Definition export_snapshot (token : bytes) (passphrase : string) (freeze gone : bool) (now : Z)
    (io : option MigrateError) : W Snapshot :=
  _ ← still_wanted gone;
  admin ← revalidate_admin cfg token now;
  if freeze then
    was ← gets (fun a => frozen (store_ a));
    let froze := negb was in
    _ ← (if froze then
           _ ← sto (set_flag META_FREEZE_PENDING true);
           sto (set_flag META_FROZEN true)
         else mret ());
    db ← gets store_;
    match snapshot_verified passphrase io db with
    | Ok s => g ← gets generation; mret (mkSnapshot admin s.1 s.2 g froze)
    | Err e =>
        _ ← (if froze then
               _ ← sto (set_flag META_FROZEN false);
               sto (set_flag META_FREEZE_PENDING false)
             else mret ());
        throw (from_migrate_error e)
    end
  else
    db ← gets store_;
    s ← in_migrate (snapshot_verified passphrase io db);
    g ← gets generation;
    mret (mkSnapshot admin s.1 s.2 g false).

(** Recorded under a hold, only in the database the snapshot came from, and only while someone is
    waiting for the archive. *)
Definition export_record (s : Snapshot) (file : string) (freeze gone : bool) (now : Z) : W unit :=
  _ ← still_wanted gone;
  g ← gets generation;
  if decide (g = sn_generation s) then
    log now (username (sn_admin s)) (if freeze then "export.freeze" else "export") file
  else mret ().

(** [Delivery::hand_over]: a freeze the export set stops being pending, and stays. *)
Definition hand_over (undo : option Z) : W unit :=
  match undo with
  | Some generation_ =>
      g ← gets generation;
      if decide (g = generation_) then sto (set_flag META_FREEZE_PENDING false) else mret ()
  | None => mret ()
  end.

(** Undo an export's freeze, unless an import has replaced the database it was set in. *)
Definition unfreeze_if_current (generation_ : Z) : W unit :=
  g ← gets generation;
  if decide (g = generation_) then
    _ ← sto (set_flag META_FROZEN false);
    sto (set_flag META_FREEZE_PENDING false)
  else mret ().

(** ** Imports *)

Definition upload_import (token b : bytes) (now at_ : Z) (random : bytes) : W (string * Manifest * Counts) :=
  admin ← revalidate_admin cfg token now;
  staged ← (fun a => let '(r, a) := stage b at_ random a in
                     (match r with Ok x => Ok x | Err e => Err (from_migrate_error e) end, a));
  current ← sto counts;
  _ ← log now (username admin) "import.upload"
        ("from " +:+ m_source_host staged.2 +:+ " exported " +:+ pretty (m_exported_at staged.2));
  mret (staged.1, staged.2, current).

Definition cancel_import (token : bytes) (upload : string) (now : Z) : W unit :=
  _ ← revalidate_admin cfg token now;
  modify (fun a => snd (cancel_ upload a)).

(** A handler that also touches the files beside the database. *)
Definition on_files {A} (m : W A) : M (App * Files) ApiError A := fun s =>
  let '(r, a) := m s.1 in (r, (a, s.2)).

(** The swap, with the gate held exclusively from beginning to end; the record is written into the
    imported database. *)
Definition import_exclusive (token : bytes) (upload passphrase : string) (confirm_host : option string)
    (gone : bool) (now at_ : Z) (w : ApplyRun) : M (App * Files) ApiError Counts :=
  _ ← on_files (still_wanted gone);
  admin ← on_files (revalidate_admin cfg token now);
  c ← map_err from_migrate_error (confirm_ host_name upload passphrase confirm_host at_ w);
  _ ← on_files (log now (username admin) "import"
        (pretty (c_users c) +:+ " users, " +:+ pretty (c_servers c) +:+ " servers, " +:+
         pretty (c_assignments c) +:+ " assignments, " +:+ pretty (c_credentials c) +:+ " saved credentials"));
  mret c.

(** ** Exports among other requests *)

(** Who has the export lock: nobody, an export or its delivery with the generation of the freeze it
    set, or the task that lifts the freeze of a delivery that was dropped. *)
Inductive Holder := Free | Holding (undo : option Z) | Undoing (generation_ : Z).

Record World := mkWorld { w_app : App; w_holder : Holder }.

Definition pending (a : App) : Prop := t_meta (store_ a) !! META_FREEZE_PENDING = Some b_one.

(** A change that leaves the freeze marks and the database alone. *)
Definition same_freeze (a a' : App) : Prop :=
  generation a' = generation a ∧
  t_meta (store_ a') !! META_FROZEN = t_meta (store_ a) !! META_FROZEN ∧
  t_meta (store_ a') !! META_FREEZE_PENDING = t_meta (store_ a) !! META_FREEZE_PENDING.

(** One step; the label says whether a freeze was handed over. *)
Inductive estep : bool → World → World → Prop :=
  | step_snapshot token pass freeze gone now io a s a' :
      export_snapshot token pass freeze gone now io a = (Ok s, a') →
      estep false (mkWorld a Free) (mkWorld a' (Holding (if sn_froze s then Some (sn_generation s) else None)))
  | step_no_snapshot token pass freeze gone now io a e a' :
      export_snapshot token pass freeze gone now io a = (Err e, a') →
      estep false (mkWorld a Free) (mkWorld a' Free)
  | step_record s file freeze gone now a r a' u :
      export_record s file freeze gone now a = (r, a') →
      estep false (mkWorld a (Holding u)) (mkWorld a' (Holding u))
  | step_dropped a g : estep false (mkWorld a (Holding (Some g))) (mkWorld a (Undoing g))
  | step_dropped_none a : estep false (mkWorld a (Holding None)) (mkWorld a Free)
  | step_undo a g a' : unfreeze_if_current g a = (Ok (), a') → estep false (mkWorld a (Undoing g)) (mkWorld a' Free)
  | step_hand_over a u a' :
      hand_over u a = (Ok (), a') →
      estep (bool_decide (is_Some u)) (mkWorld a (Holding u)) (mkWorld a' Free)
  | step_unfreeze admin now a a' h :
      unfreeze admin now a = (Ok (), a') → estep false (mkWorld a h) (mkWorld a' h)
  | step_import token upload pass host gone now at_ w a files c a' files' h :
      import_exclusive token upload pass host gone now at_ w (a, files) = (Ok c, (a', files')) →
      estep false (mkWorld a h) (mkWorld a' h)
  | step_other a a' h : same_freeze a a' → estep false (mkWorld a h) (mkWorld a' h)
  | step_restart now a a' h db b :
      lift_stranded_freeze now (store_ a) = (Ok b, db) → store_ a' = db →
      estep false (mkWorld a h) (mkWorld a' Free)
  (** stopped between the two writes that freeze *)
  | step_stopped now a a' h db b :
      lift_stranded_freeze now (snd (set_flag META_FREEZE_PENDING true (store_ a))) = (Ok b, db) → store_ a' = db →
      frozen (store_ a) = false →
      estep false (mkWorld a h) (mkWorld a' Free).

(** Worlds reached from one in which nothing is frozen; [true] once a freeze was handed over. *)
Inductive reached : bool → World → Prop :=
  | reached_start a : frozen (store_ a) = false → ¬ pending a → reached false (mkWorld a Free)
  | reached_step d b w w' : reached d w → estep b w w' → reached (d || b) w'.

(** ** A freeze not handed over is not left behind *)

Lemma frozen_lookup db : frozen db = bool_decide (t_meta db !! META_FROZEN = Some b_one).
Proof. done. Qed.

(** What a world reached without a delivery keeps: a freeze is pending, and a pending freeze is one
    the lock's holder set in this database. *)
Definition einv (d : bool) (w : World) : Prop :=
  (pending (w_app w) →
     w_holder w = Holding (Some (generation (w_app w))) ∨ w_holder w = Undoing (generation (w_app w))) ∧
  (d = false → frozen (store_ (w_app w)) = true → pending (w_app w)).

(** No freeze at all. *)
Lemma einv_clear d w :
  t_meta (store_ (w_app w)) !! META_FROZEN = None → t_meta (store_ (w_app w)) !! META_FREEZE_PENDING = None → einv d w.
Proof. intros Hf Hp. split; [unfold pending; by rewrite Hp|]. intros _. by rewrite frozen_lookup, Hf. Qed.

Lemma einv_same d h a a' : same_freeze a a' → einv d (mkWorld a h) → einv d (mkWorld a' h).
Proof.
  intros (Hg & Hf & Hp) [H1 H2]. unfold einv, pending in *. simpl in *.
  rewrite frozen_lookup, Hf, Hp, Hg, <-frozen_lookup. done.
Qed.

Lemma same_freeze_log now actor action detail a :
  same_freeze a (snd (log now actor action detail a)).
Proof. done. Qed.

Lemma same_freeze_refl a : same_freeze a a.
Proof. done. Qed.

Lemma revalidate_run token now a : ∃ r, revalidate_admin cfg token now a = (r, a).
Proof.
  unfold revalidate_admin, session_of, mbind, M_bind, sto, on_store, session_user, gets. simpl.
  rewrite with_store_id. unfold lift, ok_or. destruct (_ ≫= _) as [u|]; [|by eexists].
  unfold admin_only. destruct (app_is_admin cfg u); by eexists.
Qed.

Lemma snapshot_verified_ok pass io db b c : snapshot_verified pass io db = Ok (b, c) → b = db_file db.
Proof.
  unfold snapshot_verified. destruct io; [done|]. rewrite open_db_file. simpl.
  destruct (fst (verify_recovery _ _)); [|done]. by intros [= <- _].
Qed.

(** What taking the snapshot did to the freeze. *)
Definition froze_here (a a' : App) : Prop :=
  frozen (store_ a) = false ∧ generation a' = generation a ∧
  t_meta (store_ a') !! META_FROZEN = Some b_one ∧ t_meta (store_ a') !! META_FREEZE_PENDING = Some b_one.

Lemma export_snapshot_run token pass freeze gone now io a r a' :
  export_snapshot token pass freeze gone now io a = (r, a') →
  match r with
  | Ok s => sn_generation s = generation a' ∧ sn_db s = db_file (store_ a') ∧
      (freeze = true → frozen (store_ a') = true) ∧ if sn_froze s then froze_here a a' else a' = a
  | Err _ => a' = a ∨ t_meta (store_ a') !! META_FROZEN = None ∧ t_meta (store_ a') !! META_FREEZE_PENDING = None
  end.
Proof.
  unfold export_snapshot. destruct gone; [intros [= <- <-]; by left|]. rewrite (bind_ok (still_wanted false) _ a () a) by done.
  destruct (revalidate_run token now a) as [[admin|e] Ha]; [|rewrite (bind_err _ _ _ _ _ Ha); intros [= <- <-]; by left].
  rewrite (bind_ok _ _ _ _ _ Ha). destruct freeze.
  - rewrite bind_gets. destruct (frozen (store_ a)) eqn:Hf; cbn [negb].
    + erewrite bind_ok by reflexivity. rewrite bind_gets.
      destruct (snapshot_verified pass io (store_ a)) as [[b c]|e] eqn:Hs; intros [= <- <-]; [|by left].
      split_and!; [done|by eapply snapshot_verified_ok|done..].
    + set (a1 := with_store (set_meta (<[META_FROZEN := b_one]>) (set_meta (<[META_FREEZE_PENDING := b_one]>) (store_ a))) a).
      rewrite (bind_ok _ _ a () a1) by (by destruct a). rewrite bind_gets.
      destruct (snapshot_verified pass io (store_ a1)) as [[b c]|e] eqn:Hs; intros [= <- <-].
      * split_and!; [done|by eapply snapshot_verified_ok| |].
        { intros _. rewrite frozen_lookup. apply bool_decide_eq_true. simpl. by rewrite lookup_insert_eq. }
        split_and!; [done..| |]; simpl; [by rewrite lookup_insert_eq|].
        rewrite lookup_insert_ne by done. by rewrite lookup_insert_eq.
      * right. simpl. rewrite lookup_delete_ne, !lookup_delete_eq by done. done.
  - rewrite bind_gets. unfold in_migrate.
    destruct (snapshot_verified pass io (store_ a)) as [[b c]|e] eqn:Hs; intros [= <- <-]; [|by left].
    split_and!; [done|by eapply snapshot_verified_ok|done..].
Qed.

(** A freezing export with nothing in its way. *)
Lemma export_snapshot_forward token pass now a admin key :
  revalidate_admin cfg token now a = (Ok admin, a) → frozen (store_ a) = false →
  let a' := with_store (set_meta (<[META_FROZEN := b_one]>) (set_meta (<[META_FREEZE_PENDING := b_one]>) (store_ a))) a in
  recovers pass key (store_ a') →
  export_snapshot token pass true false now None a =
    (Ok (mkSnapshot admin (db_file (store_ a')) (counts_of (store_ a')) (generation a) true), a').
Proof.
  intros Ha Hf a' Hr. unfold export_snapshot. rewrite (bind_ok (still_wanted false) _ a () a) by done.
  rewrite (bind_ok _ _ _ _ _ Ha), bind_gets, Hf. cbn [negb]. rewrite (bind_ok _ _ a () a') by (by destruct a).
  rewrite bind_gets, (snapshot_verified_run _ _ _ Hr). done.
Qed.

Lemma lift_clear now db b db' :
  lift_stranded_freeze now db = (Ok b, db') →
  if bool_decide (t_meta db !! META_FREEZE_PENDING = Some b_one)
  then t_meta db' !! META_FROZEN = None ∧ t_meta db' !! META_FREEZE_PENDING = None
  else db' = db.
Proof.
  unfold lift_stranded_freeze, flag, meta_get. simpl. unfold mbind, M_bind, gets. simpl.
  destruct (bool_decide _); simpl; intros [= <- <-]; [|done]. simpl.
  rewrite lookup_delete_ne, !lookup_delete_eq by done. done.
Qed.

Lemma import_exclusive_clear token upload pass host gone now at_ w a files c a' files' :
  import_exclusive token upload pass host gone now at_ w (a, files) = (Ok c, (a', files')) →
  t_meta (store_ a') !! META_FROZEN = None ∧ t_meta (store_ a') !! META_FREEZE_PENDING = None.
Proof.
  unfold import_exclusive. intros E. apply bind_ok_inv in E as ([] & s1 & E1 & E).
  assert (s1 = (a, files)) as ->. { destruct gone; [done|]. by injection E1 as <-. }
  apply bind_ok_inv in E as (admin & s2 & E2 & E). unfold on_files in E2. simpl in E2.
  destruct (revalidate_run token now a) as [r Hr]. rewrite Hr in E2. injection E2 as -> <-.
  apply bind_ok_inv in E as (c' & s3 & E3 & E). unfold map_err in E3.
  destruct (confirm_run host_name upload pass host at_ w a files) as [(e & f1 & He & _)|(p & file & db0 & key & cs & db & H)].
  { by rewrite He in E3. }
  destruct H as (_ & _ & _ & _ & _ & Hp & _ & He). rewrite He in E3. injection E3 as <- <-.
  apply prepare_ok in Hp as (_ & _ & wrapped & _ & ->).
  apply bind_ok_inv in E as ([] & s4 & E4 & E). injection E as _ ->.
  unfold on_files in E4. simpl in E4. injection E4 as <- _. cbn.
  rewrite !(lookup_insert_ne _ META_INSTANCE) by done.
  rewrite lookup_delete_ne, !lookup_delete_eq by done. done.
Qed.

Lemma estep_inv b d w w' : estep b w w' → einv d w → einv (d || b) w'.
Proof.
  intros Hs. destruct Hs as [token pass freeze gone now io a s a' E|token pass freeze gone now io a e a' E
    |s file freeze gone now a r a' u E|a g|a|a g a' E|a u a' E|admin now a a' h E|token upload pass host gone now at_ w a files c a' files' h E
    |a a' h E|now a a' h db b E Ha|now a a' h db b E Ha Hf]; rewrite ?orb_false_r; intros Hi.
  - apply export_snapshot_run in E as (Hg & _ & _ & E). destruct (sn_froze s).
    + destruct E as (_ & _ & Hf & Hp). split; [intros _; left; simpl; by rewrite Hg|]. by intros _ _.
    + subst a'. destruct Hi as [H1 H2]. split; [|done]. simpl. intros Hp. by destruct (H1 Hp).
  - apply export_snapshot_run in E as [->|[Hf Hp]]; [done|by apply einv_clear].
  - eapply einv_same; [|exact Hi]. unfold export_record in E. destruct gone; [by injection E as <- <-|].
    rewrite (bind_ok (still_wanted false) _ a () a), bind_gets in E by done.
    case_decide; [|by injection E as <- <-]. injection E as <- <-. apply same_freeze_log.
  - destruct Hi as [H1 H2]. split; [|done]. simpl in *. intros Hp. destruct (H1 Hp) as [[= ->]|?]; [by right|done].
  - destruct Hi as [H1 H2]. split; [|done]. simpl in *. intros Hp. by destruct (H1 Hp).
  - unfold unfreeze_if_current in E. rewrite bind_gets in E. case_decide as Hg.
    + injection E as <-. apply einv_clear; simpl; rewrite ?lookup_delete_eq; [|done].
      rewrite lookup_delete_ne, lookup_delete_eq by done. done.
    + injection E as <-. destruct Hi as [H1 H2]. split; [|done]. simpl in *. intros Hp.
      destruct (H1 Hp) as [?|[= ?]]; [done|congruence].
  - unfold hand_over in E. destruct u as [g|]; simpl.
    + rewrite bind_gets in E. rewrite orb_true_r. split; [|done]. destruct Hi as [H1 H2]. simpl in *.
      case_decide as Hg; injection E as <-.
      * unfold pending. simpl. by rewrite lookup_delete_eq.
      * intros Hp. destruct (H1 Hp) as [[= ?]|?]; [congruence|done].
    + injection E as <-. rewrite orb_false_r. destruct Hi as [H1 H2]. split; [|done]. simpl in *.
      intros Hp. by destruct (H1 Hp).
  - injection E as <-. apply einv_clear; simpl; rewrite ?lookup_delete_eq; [|done].
    rewrite lookup_delete_ne, lookup_delete_eq by done. done.
  - apply import_exclusive_clear in E as [Hf Hp]. by apply einv_clear.
  - by eapply einv_same.
  - apply lift_clear in E. destruct (bool_decide _) eqn:Hp.
    + apply einv_clear; simpl; rewrite Ha; tauto.
    + apply bool_decide_eq_false in Hp. subst db. destruct Hi as [_ H2]. split; simpl in *; unfold pending in *; by rewrite Ha.
  - apply lift_clear in E. simpl in E. rewrite lookup_insert_eq, bool_decide_eq_true_2 in E by done.
    apply einv_clear; simpl; rewrite Ha; tauto.
Qed.

Lemma reached_inv d w : reached d w → einv d w.
Proof.
  induction 1 as [a Hf Hp|d b w w' _ IH Hs]; [|by eapply estep_inv].
  split; simpl; [done|]. by rewrite Hf.
Qed.

(** C10. An export that was not delivered leaves no freeze behind. However exports begin, fail, are
    abandoned or dropped, among edits, unfreezes, imports, restarts and stops between the two writes
    that freeze: whenever no export holds the lock, no freeze is pending, and if no freeze was ever
    handed over with its archive, the proxy is not frozen. While one is pending, the export that set
    it holds the lock, in the database it froze, so no other export can mistake it for an earlier
    one. *)
Theorem undelivered_export_leaves_no_freeze (d : bool) (w : World) :
  reached d w →
  (w_holder w = Free → ¬ pending (w_app w) ∧ (d = false → frozen (store_ (w_app w)) = false)) ∧
  (pending (w_app w) → w_holder w = Holding (Some (generation (w_app w))) ∨ w_holder w = Undoing (generation (w_app w))).
Proof.
  intros H%reached_inv. destruct H as [H1 H2]. split; [|done]. intros Hf.
  assert (¬ pending (w_app w)) as Hp by (intros Hp; destruct (H1 Hp); congruence).
  split; [done|]. intros Hd. destruct (frozen (store_ (w_app w))) eqn:E; [|done]. by destruct (Hp (H2 Hd eq_refl)).
Qed.

(** Nothing acknowledged is missing from a freezing export: when the snapshot is taken, the proxy
    is frozen and the copy is exactly the database in place at that moment; and the copy opens to
    it. *)
Theorem freezing_export_is_complete (token : bytes) (pass : string) (gone : bool) (now : Z) (io : option MigrateError)
    (a a' : App) (s : Snapshot) :
  export_snapshot token pass true gone now io a = (Ok s, a') →
  frozen (store_ a') = true ∧ open_file (sn_db s) = Ok (store_ a') ∧ sn_generation s = generation a'.
Proof.
  intros (Hg & Hd & Hf & _)%export_snapshot_run. split_and!; [by apply Hf| |done]. rewrite Hd. apply open_db_file.
Qed.
End export.
