(* ===== verification/Access.v ===== *)
(** * No connection outlives its assignment

    The live connections ([Live]), admission ([App]), the administrator's requests ([Admin]),
    sign-out, revocation and imports together. Requests and admissions hold only the shared side of
    the gate, so they run at the same time on the threads of the runtime: what is one step is one call
    of the store, or one of the registry, each under its own lock. An import holds the gate alone. A
    request that takes an assignment away first writes the store and then ends the connections that
    used it; an admission first puts its server in the registry, then reads the assignment. The steps
    are those parts, in any order; each request is proved to be a run of them. *)

From S2P Require Import Prelude Tables Text Utf8 Store StoreInv StoreFacts Policy Auth Live Settings Vault VaultFacts Directory App AppFacts Web WebFacts WebServers Instant ServerList Admin AdminFacts Migrate MigrateFacts Export.
Local Open Scope Z_scope.

(** ** Changes of the database that take no assignment away *)

Section keeps.
Context (X : gset (Z * Z)).
Definition assigned_still (db : Db) : Prop := X ⊆ t_assignments db.

Ltac keeps := intros db; unfold assigned_still; simpl; repeat case_match; simpl; try done; try set_solver.

Lemma insert_user_keeps rnd name d s c k : preserves assigned_still (insert_user rnd name d s c k).
Proof. unfold insert_user. keeps. Qed.
Lemma insert_group_keeps name sort : preserves assigned_still (insert_group name sort).
Proof. unfold insert_group. keeps. Qed.
Lemma insert_server_keeps rnd name h p g d : preserves assigned_still (insert_server rnd name h p g d).
Proof. unfold insert_server. keeps. Qed.
Lemma update_user_keeps id p f : preserves assigned_still (Store.update_user id p f).
Proof. unfold Store.update_user. keeps. Qed.
Lemma update_group_keeps id f : preserves assigned_still (update_group id f).
Proof. unfold update_group. keeps. Qed.
Lemma update_server_keeps id f : preserves assigned_still (Store.update_server id f).
Proof. unfold Store.update_server. keeps. Qed.
Lemma delete_group_keeps id :
  preserves assigned_still (fun db => match t_groups db !! id with
    | Some _ => (Ok (), delete_group_row id db) | None => (Err NotFound, db) end).
Proof. keeps. Qed.
Lemma copy_assignments_keeps from to : preserves assigned_still (copy_assignments from to).
Proof. unfold copy_assignments. keeps. Qed.
Lemma audit_keeps now a b c : preserves assigned_still (audit now a b c).
Proof. keeps. Qed.
Lemma meta_set_keeps key v : preserves assigned_still (meta_set key v).
Proof. keeps. Qed.
Lemma meta_delete_keeps key : preserves assigned_still (meta_delete key).
Proof. keeps. Qed.
Lemma credentials_keeps f : preserves assigned_still (modify (E:=StoreError) (set_credentials f)).
Proof. keeps. Qed.
Lemma sessions_keeps f : preserves assigned_still (modify (E:=StoreError) (set_sessions f)).
Proof. keeps. Qed.
End keeps.
Create HintDb keeps discriminated.
#[export] Hint Resolve insert_user_keeps insert_group_keeps insert_server_keeps update_user_keeps update_group_keeps
  update_server_keeps delete_group_keeps copy_assignments_keeps audit_keeps meta_set_keeps meta_delete_keeps
  credentials_keeps sessions_keeps : preserves.

(** The store's methods that the administrator's edits use, those that remove access aside. *)
Lemma store_keeps X :
  (∀ id b, preserves (assigned_still X) (user_set_admin id b)) ∧
  (∀ id, preserves (assigned_still X) (user_clear_sid id)) ∧
  (∀ rnd n h p g d, preserves (assigned_still X) (server_create rnd n h p g d)) ∧
  (∀ id n h p g d, preserves (assigned_still X) (server_update id n h p g d)) ∧
  (∀ rows, preserves (assigned_still X) (servers_import rows)) ∧
  (∀ n, preserves (assigned_still X) (group_create n)) ∧
  (∀ id n, preserves (assigned_still X) (group_rename id n)) ∧
  (∀ ids, preserves (assigned_still X) (group_order ids)) ∧
  (∀ id, preserves (assigned_still X) (group_delete id)) ∧
  (∀ key on, preserves (assigned_still X) (set_flag key on)).
Proof.
  split_and!; intros; unfold user_set_admin, user_clear_sid, server_create, server_update, servers_import,
    group_create, group_rename, group_order, group_delete, set_flag, name_free, group_exists, or_not_found, import_row,
    import_group, group_insert; solve_preserves.
Qed.

Lemma vault_keeps `{Crypto} `{KeyProtector} X :
  (∀ c n r1 r2, preserves (fun s : Db * Vault => assigned_still X s.1) (set_recovery c n r1 r2)) ∧
  (∀ p r, preserves (fun s : Db * Vault => assigned_still X s.1) (adopt p r)) ∧
  (∀ k, preserves (fun s : Db * Vault => assigned_still X s.1) (install k)) ∧
  (∀ f r1 r2, preserves (fun s : Db * Vault => assigned_still X s.1) (vault_reset f r1 r2)).
Proof.
  assert (∀ A (m : store A), preserves (assigned_still X) m → preserves (fun s : Db * Vault => assigned_still X s.1) (st m)) as Hst.
  { intros A m Hm [db v] Hs. unfold st. simpl in *. specialize (Hm db Hs). by destruct (m db) as [[]]. }
  assert (∀ k, preserves (fun s : Db * Vault => assigned_still X s.1) (install k)) as Hi by (intros k [db v]; done).
  unfold set_recovery, adopt, verify_recovery, vault_reset, replace_secrets, key_, meta_get.
  split_and!; intros; solve_preserves; first [apply Hi|eapply Hst; solve_preserves].
Qed.

(** ** How the registry moves *)

(** Nothing is added, and an entry is only told to end or marked as established. *)
Definition evolves (s s' : LiveSessions) : Prop :=
  next s' = next s ∧
  ∀ i x', inner s' !! i = Some x' → ∃ x, inner s !! i = Some x ∧
    l_user x' = l_user x ∧ l_server x' = l_server x ∧ l_incarnations x' = l_incarnations x ∧
    (l_cancel x' = true → l_cancel x = true).

Lemma evolves_refl s : evolves s s.
Proof. split; [done|]. eauto 10. Qed.

Lemma evolves_trans s1 s2 s3 : evolves s1 s2 → evolves s2 s3 → evolves s1 s3.
Proof.
  intros [Hn1 H1] [Hn2 H2]. split; [congruence|]. intros i x3 (x2 & Hx2 & ? & ? & ? & ?)%H2.
  apply H1 in Hx2 as (x1 & ? & ? & ? & ? & ?). exists x1. split_and!; [done|congruence..|auto].
Qed.

Lemma evolves_end_ids ids s : evolves s (snd (end_ids ids s)).
Proof.
  pose proof (end_ids_spec ids s) as H. destruct (end_ids ids s) as [n s']. destruct H as (Hin & Hn & _).
  split; [done|]. simpl. intros i x' Hx. rewrite Hin in Hx. apply fmap_Some in Hx as (x & Hx & ->).
  exists x. split; [done|]. by case_decide.
Qed.

Lemma evolves_remove id s : evolves s (snd (remove id s)).
Proof. split; [done|]. simpl. intros i x [_ Hx]%lookup_delete_Some. eauto 10. Qed.

Lemma evolves_established id s : evolves s (set_established id s).
Proof.
  split; [done|]. simpl. intros i x' Hx. rewrite lookup_alter in Hx. case_decide; [|eauto 10].
  apply fmap_Some in Hx as (x & Hx & ->). exists x. by subst.
Qed.

(** ** The system *)

(** What a request that took assignments away has still to end. *)
Inductive Ending := EUser (user : Z) | EServer (server : Z) | EUserServer (user server : Z).
Definition end_them (e : Ending) : LiveSessions → nat * LiveSessions :=
  match e with EUser u => end_user u | EServer s => end_server s | EUserServer u s => end_user_server u s end.
Definition covers (e : Ending) (user server : Z) : bool :=
  match e with
  | EUser u => bool_decide (user = u)
  | EServer s => bool_decide (server = s)
  | EUserServer u s => bool_decide (user = u ∧ server = s)
  end.

(** How far an admission is: its ticket, for this server, is spent; the server is in the registry; the
    assignment was read. *)
Inductive Stage := Ticketed (server : Z) | Placed (server : Z) | Resolved (server : Z).

(** The running proxy; the connections that were registered and have not asked to be admitted; the
    admissions under way; the requests that have read a user's servers and are about to replace them;
    what is still to be ended; and the assignments such a request took away that were made after it
    read. *)
Record System := mkSystem {
  y_app : App;
  y_waiting : list Session;
  y_admitting : list (Session * Stage);
  y_replacing : list (Z * list Z);
  y_ends : list Ending;
  y_missed : gset (Z * Z);
}.

(** No request or admission is under way. *)
Definition quiet (ws : list Session) (m : gset (Z * Z)) (a : App) : System := mkSystem a ws [] [] [] m.

Section system.
Context {U : Unicode} {C : Crypto} {K : KeyProtector} {L : MigrateLib} (cfg : Cfg) (host_name : string).

(** Checks that only refuse are left out: a step may be taken where the code would have stopped. *)
Inductive astep : System → System → Prop :=
  (** a call that takes no assignment away, of any request, and what else it keeps *)
  | as_data a a' ws ad rp es m :
      live a' = live a → generation a' = generation a → t_assignments (store_ a) ⊆ t_assignments (store_ a') →
      astep (mkSystem a ws ad rp es m) (mkSystem a' ws ad rp es m)
  (** [remove_user]: [user_delete] *)
  | as_user_delete id r db a ws ad rp es m :
      user_delete id (store_ a) = (Ok r, db) →
      astep (mkSystem a ws ad rp es m) (mkSystem (with_store db a) ws ad rp (EUser id :: es) m)
  (** [remove_server]: [server_delete] *)
  | as_server_delete id r db a ws ad rp es m :
      server_delete id (store_ a) = (Ok r, db) →
      astep (mkSystem a ws ad rp es m) (mkSystem (with_store db a) ws ad rp (EServer id :: es) m)
  (** [set_user_servers]: [assignment_ids], and later [set_assignments] or an error *)
  | as_read_servers id before db a ws ad rp es m :
      assignment_ids id (store_ a) = (Ok before, db) →
      astep (mkSystem a ws ad rp es m) (mkSystem a ws ad ((id, before) :: rp) es m)
  | as_replace id before ids counts db a ws ad rp1 rp2 es m :
      set_assignments id ids (store_ a) = (Ok counts, db) →
      let wanted : gset Z := list_to_set ids in
      let seen : gset Z := list_to_set before in
      astep (mkSystem a ws ad (rp1 ++ (id, before) :: rp2) es m)
        (mkSystem (with_store db a) ws ad (rp1 ++ rp2)
           ((EUserServer id <$> elements (seen ∖ wanted)) ++ es)
           (m ∪ set_map (pair id) (assigned_ids id (store_ a) ∖ wanted ∖ seen)))
  | as_not_replaced id before a ws ad rp1 rp2 es m :
      astep (mkSystem a ws ad (rp1 ++ (id, before) :: rp2) es m) (mkSystem a ws ad (rp1 ++ rp2) es m)
  (** the connections a request has still to end *)
  | as_end e a ws ad rp es1 es2 m :
      astep (mkSystem a ws ad rp (es1 ++ e :: es2) m)
        (mkSystem (with_live (snd (end_them e (live a))) a) ws ad rp (es1 ++ es2) m)
  (** connections ended for another reason: sign-out, a sign-in that ended, revocation, a SID reset *)
  | as_end_ids ids a ws ad rp es m :
      astep (mkSystem a ws ad rp es m) (mkSystem (with_live (snd (end_ids ids (live a))) a) ws ad rp es m)
  (** a WebSocket is opened, established and closed *)
  | as_upgrade uh req upgrade accept a s a' ws ad rp es m :
      next (live a) + 1 < 2 ^ 64 → ws_upgrade uh req upgrade accept a = (Ok s, a') →
      astep (mkSystem a ws ad rp es m) (mkSystem a' (s :: ws) ad rp es m)
  | as_established id a ws ad rp es m :
      astep (mkSystem a ws ad rp es m) (mkSystem (with_live (set_established id (live a)) a) ws ad rp es m)
  | as_removed id a ws ad rp es m :
      astep (mkSystem a ws ad rp es m) (mkSystem (with_live (snd (remove id (live a))) a) ws ad rp es m)
  (** admission: its ticket is spent, its server is put in the registry, the assignment is read, and
      the rows it is admitted with are recorded; it may be refused at any point *)
  | as_superseded s a ws1 ws2 ad rp es m :
      astep (mkSystem a (ws1 ++ s :: ws2) ad rp es m) (mkSystem a (ws1 ++ ws2) ad rp es m)
  | as_ticket s auth at_ t ts a ws1 ws2 ad rp es m :
      generation_of (s_live_id s) (live a) = Some (generation a) →
      redeem_at auth at_ (tickets a) = (Some t, ts) → ticket_user t = s_user s →
      astep (mkSystem a (ws1 ++ s :: ws2) ad rp es m)
        (mkSystem (with_tickets ts a) (ws1 ++ ws2) ((s, Ticketed (ticket_server t)) :: ad) rp es m)
  | as_place s server a ws ad1 ad2 rp es m :
      astep (mkSystem a ws (ad1 ++ (s, Ticketed server) :: ad2) rp es m)
        (mkSystem (with_live (set_server (s_live_id s) server (live a)) a) ws (ad1 ++ (s, Placed server) :: ad2) rp es m)
  | as_resolve s server a ws ad1 ad2 rp es m :
      fst (is_assigned (s_user s) server (store_ a)) = Ok true →
      astep (mkSystem a ws (ad1 ++ (s, Placed server) :: ad2) rp es m)
        (mkSystem a ws (ad1 ++ (s, Resolved server) :: ad2) rp es m)
  | as_admitted s server rows a ws ad1 ad2 rp es m :
      fst (incarnations (s_user s) server (store_ a)) = Ok (Some rows) →
      astep (mkSystem a ws (ad1 ++ (s, Resolved server) :: ad2) rp es m)
        (mkSystem (with_live (set_incarnations (s_live_id s) rows (live a)) a) ws (ad1 ++ ad2) rp es m)
  | as_refused s st a ws ad1 ad2 rp es m :
      astep (mkSystem a ws (ad1 ++ (s, st) :: ad2) rp es m) (mkSystem a ws (ad1 ++ ad2) rp es m)
  (** an import, with the gate to itself *)
  | as_import token upload pass host gone now at_ w a files r a' files' ws m :
      import_exclusive cfg host_name token upload pass host gone now at_ w (a, files) = (r, (a', files')) →
      astep (quiet ws m a) (quiet ws m a').

Inductive areached : System → Prop :=
  | areached_start a : live a = live_default → areached (quiet [] ∅ a)
  | areached_step y y' : areached y → astep y y' → areached y'.

Lemma areached_run y y' : areached y → rtc astep y y' → areached y'.
Proof. intros Hy Hr. induction Hr as [|y1 y2 y3 Hs _ IH]; [done|]. apply IH. by eapply areached_step. Qed.

(** ** The invariant *)

(** A pair a connection may still run under: it is assigned, its end is on its way, or it was missed. *)
Definition accounted (y : System) (user server : Z) : Prop :=
  (user, server) ∈ t_assignments (store_ (y_app y)) ∨
  (∃ e, e ∈ y_ends y ∧ covers e user server = true) ∨ (user, server) ∈ y_missed y.

Definition access_ok (y : System) : Prop :=
  ∀ i l server, inner (live (y_app y)) !! i = Some l → l_cancel l = true → is_Some (l_incarnations l) →
    l_server l = Some server → accounted y (l_user l) server.

(** The entry of a connection that waits, or of an admission under way, in the registry. *)
Definition not_admitted (s : LiveSessions) (ss : Session) : Prop :=
  s_live_id ss < next s ∧
  ∀ x, inner s !! s_live_id ss = Some x → l_user x = s_user ss ∧ l_incarnations x = None.
Definition on_the_way (y : System) (ad : Session * Stage) : Prop :=
  not_admitted (live (y_app y)) ad.1 ∧
  ∀ x, inner (live (y_app y)) !! s_live_id ad.1 = Some x →
    match ad.2 with
    | Ticketed _ => True
    | Placed server => l_server x = Some server
    | Resolved server => l_server x = Some server ∧ (l_cancel x = true → accounted y (s_user ad.1) server)
    end.

Definition ids_under_way (y : System) : list Z := s_live_id <$> (y_waiting y ++ (y_admitting y).*1).

Record sys_inv (y : System) : Prop := {
  si_access : access_ok y;
  si_waiting : Forall (not_admitted (live (y_app y))) (y_waiting y);
  si_admitting : Forall (on_the_way y) (y_admitting y);
  si_ids : NoDup (ids_under_way y);
  si_next : 0 ≤ next (live (y_app y));
}.

Lemma accounted_same y y' u srv :
  store_ (y_app y') = store_ (y_app y) → y_ends y' = y_ends y → y_missed y' = y_missed y →
  accounted y' u srv ↔ accounted y u srv.
Proof. unfold accounted. by intros -> -> ->. Qed.

(** A step that leaves admissions alone: the registry moves on, and what still runs stays accounted
    for. *)
Lemma inv_moves y y' :
  sys_inv y → y_waiting y' = y_waiting y → y_admitting y' = y_admitting y → evolves (live (y_app y)) (live (y_app y')) →
  (∀ i x server, inner (live (y_app y')) !! i = Some x → l_cancel x = true → l_server x = Some server →
     accounted y (l_user x) server → accounted y' (l_user x) server) →
  sys_inv y'.
Proof.
  intros [H1 H2 H3 H4 H5] Hw Had [Hn He] Hacc.
  assert (∀ ss, not_admitted (live (y_app y)) ss → not_admitted (live (y_app y')) ss) as Hna.
  { intros ss [Hlt Hx]. split; [lia|]. intros x' (x & Hx' & -> & _ & -> & _)%He. by apply Hx. }
  split; unfold ids_under_way in *; rewrite ?Hw, ?Had; try done; [..|lia].
  - intros i x' server Hi Hc Hinc Hs. destruct (He i x' Hi) as (x & Hx & Hu & Hsv & Hin & Hcx).
    eapply Hacc; [done..|]. rewrite Hu. eapply H1; [done|auto|by rewrite <-Hin|by rewrite <-Hsv].
  - eapply Forall_impl; [exact H2|apply Hna].
  - eapply Forall_impl; [exact H3|]. intros [ss st] [Hs Hst]. split; [by apply Hna|]. simpl in *.
    intros x' Hx'. destruct (He _ x' Hx') as (x & Hx & Hu & Hsv & Hin & Hcx). specialize (Hst x Hx).
    destruct st as [srv|srv|srv]; [done|by rewrite Hsv|]. rewrite Hsv. destruct Hst as [Hst Ha]. split; [done|].
    intros Hc. destruct (proj2 Hs x Hx) as [Hus _]. rewrite <-Hus, <-Hu. eapply Hacc; [done..|by rewrite Hsv|].
    rewrite Hu, Hus. auto.
Qed.

(** A step of one admission: only its own entry changes. *)
Lemma inv_own a a' ws ad1 s st ad2 mid rp es m :
  store_ a' = store_ a → next (live a') = next (live a) →
  (∀ i, i ≠ s_live_id s → inner (live a') !! i = inner (live a) !! i) →
  (mid = [] ∨ ∃ st', mid = [(s, st')]) →
  (∀ x server, inner (live a') !! s_live_id s = Some x → l_cancel x = true → is_Some (l_incarnations x) →
     l_server x = Some server → accounted (mkSystem a ws (ad1 ++ (s, st) :: ad2) rp es m) (l_user x) server) →
  Forall (on_the_way (mkSystem a' ws (ad1 ++ mid ++ ad2) rp es m)) mid →
  sys_inv (mkSystem a ws (ad1 ++ (s, st) :: ad2) rp es m) → sys_inv (mkSystem a' ws (ad1 ++ mid ++ ad2) rp es m).
Proof.
  intros Hst Hn Hne Hmid Hs Hnew [H1 H2 H3 H4 H5]. set (y := mkSystem a ws _ rp es m) in *. set (y' := mkSystem a' ws _ rp es m) in *.
  assert (∀ u srv, accounted y' u srv ↔ accounted y u srv) as Hacc by (intros; by apply accounted_same).
  assert (ids_under_way y ≡ₚ s_live_id s :: (s_live_id <$> (ws ++ (ad1 ++ ad2).*1))) as Hp.
  { unfold ids_under_way, y. simpl. rewrite !fmap_app. simpl. solve_Permutation. }
  rewrite Hp in H4. apply NoDup_cons in H4 as [Hout Hnd].
  assert (∀ ss, ss ∈ ws ∨ ss ∈ (ad1 ++ ad2).*1 → s_live_id ss ≠ s_live_id s) as Hother.
  { intros ss Hss Heq. apply Hout. rewrite <-Heq. apply list_elem_of_fmap_2. by apply elem_of_app. }
  assert (∀ ss, ss ∈ ws ∨ ss ∈ (ad1 ++ ad2).*1 → not_admitted (live a) ss → not_admitted (live a') ss) as Hna.
  { intros ss Hss [Hlt Hx]. split; [lia|]. rewrite Hne; [done|by apply Hother]. }
  apply Forall_app in H3 as [H3 [_ H3']%Forall_cons].
  assert (∀ l, (∀ x, x ∈ l → x ∈ ad1 ++ ad2) → Forall (on_the_way y) l → Forall (on_the_way y') l) as Hrest.
  { intros l Hl Hall. apply Forall_forall. intros x Hx. rewrite Forall_forall in Hall. destruct (Hall x Hx) as [Hx1 Hx2].
    assert (x.1 ∈ (ad1 ++ ad2).*1) as Hin by by apply list_elem_of_fmap_2, Hl. split; [apply Hna; auto|]. simpl.
    rewrite Hne by (apply Hother; auto). intros z Hz. specialize (Hx2 z Hz). destruct (x.2); try done. by rewrite Hacc. }
  split; simpl.
  - intros i x server Hi Hc Hinc Hsrv. apply Hacc. destruct (decide (i = s_live_id s)) as [->|Hi']; [by eapply Hs|].
    simpl in Hi. rewrite Hne in Hi by done. by eapply H1.
  - apply Forall_forall. intros ss Hss. rewrite Forall_forall in H2. apply Hna; [auto|by apply H2].
  - rewrite !Forall_app. split_and!; [|done|]; apply Hrest; try done; set_solver.
  - unfold ids_under_way, y'. simpl. destruct Hmid as [->|[st' ->]]; [done|].
    eapply NoDup_Permutation_proper; [|apply NoDup_cons_2; [exact Hout|exact Hnd]].
    rewrite !fmap_app. simpl. rewrite ?fmap_app. solve_Permutation.
  - rewrite Hn. done.
Qed.
(** Ending is done for those it covers: what still runs is not one of them. *)
Lemma end_them_uncovered e s i x server :
  inner (snd (end_them e s)) !! i = Some x → l_cancel x = true → l_server x = Some server →
  covers e (l_user x) server = false.
Proof.
  intros Hi Hc Hs. destruct e; simpl in *;
    [pose proof (proj1 (end_where_running (fun l => bool_decide (l_user l = user)) s i x) (conj Hi Hc)) as (_ & _ & H)
    |pose proof (proj1 (end_where_running (fun l => bool_decide (l_server l = Some server0)) s i x) (conj Hi Hc)) as (_ & _ & H)
    |pose proof (proj1 (end_where_running (fun l => bool_decide (l_user l = user ∧ l_server l = Some server0)) s i x) (conj Hi Hc)) as (_ & _ & H)];
    apply bool_decide_eq_false in H; apply bool_decide_eq_false; rewrite ?Hs in H; naive_solver.
Qed.
Lemma evolves_end_them e s : evolves s (snd (end_them e s)).
Proof. destruct e; apply evolves_end_ids. Qed.

(** Deleting a user or a server, or replacing a user's servers, takes only pairs away whose end is
    then on its way or that were missed. *)
Lemma user_delete_takes id r db db' u srv :
  user_delete id db = (Ok r, db') → (u, srv) ∈ t_assignments db → (u, srv) ∈ t_assignments db' ∨ u = id.
Proof.
  unfold user_delete. destruct (t_users db !! id); [|done]. intros [= _ <-] H. simpl.
  destruct (decide (u = id)); [by right|left]. by apply elem_of_filter.
Qed.
Lemma server_delete_takes id r db db' u srv :
  server_delete id db = (Ok r, db') → (u, srv) ∈ t_assignments db → (u, srv) ∈ t_assignments db' ∨ srv = id.
Proof.
  unfold server_delete. destruct (t_servers db !! id); [|done]. intros [= _ <-] H. simpl.
  destruct (decide (srv = id)); [by right|left]. by apply elem_of_filter.
Qed.
Lemma set_assignments_takes id ids r db db' u srv :
  set_assignments id ids db = (Ok r, db') → (u, srv) ∈ t_assignments db →
  (u, srv) ∈ t_assignments db' ∨ u = id ∧ srv ∈ assigned_ids id db ∖ list_to_set ids.
Proof.
  intros ->%set_assignments_ok H. simpl. rewrite elem_of_union, elem_of_filter, elem_of_map.
  destruct (decide (u = id)) as [->|]; [|auto]. destruct (decide (srv ∈ (list_to_set ids : gset Z))); [eauto|].
  right. split; [done|]. apply elem_of_difference. split; [by apply elem_of_assigned_ids|done].
Qed.

Lemma import_moves token upload pass host gone now at_ w a files r a' files' :
  import_exclusive cfg host_name token upload pass host gone now at_ w (a, files) = (r, (a', files')) →
  a' = a ∨ evolves (live a) (live a') ∧ ∀ i, ¬ running i (live a').
Proof.
  unfold import_exclusive. destruct gone; [intros [= <- <- <-]; by left|].
  rewrite (bind_ok (on_files (still_wanted false)) _ (a, files) () (a, files)) by done.
  destruct (revalidate_run cfg token now a) as [[admin|e] Hr]; last first.
  { erewrite bind_err by (unfold on_files; simpl; by rewrite Hr). intros [= <- <- <-]. by left. }
  erewrite bind_ok by (unfold on_files; simpl; by rewrite Hr).
  destruct (confirm_run host_name upload pass host at_ w a files) as [(e & f1 & He & _)|(p & file & db0 & key & cs & db & H)].
  { erewrite bind_err by (unfold map_err; by rewrite He). intros [= <- <- <-]. by left. }
  destruct H as (_ & _ & _ & _ & _ & _ & _ & He). erewrite bind_ok by (unfold map_err; by rewrite He).
  intros [= <- <- <-]. right. split; [apply (evolves_end_ids _ (live a))|]. intros i. apply (installed_nothing_runs key db a).
Qed.

Lemma upgrade_inv uh req upgrade accept a s a' ws ad rp es m :
  next (live a) + 1 < 2 ^ 64 → ws_upgrade uh req upgrade accept a = (Ok s, a') →
  sys_inv (mkSystem a ws ad rp es m) → sys_inv (mkSystem a' (s :: ws) ad rp es m).
Proof.
  intros Hb E [H1 H2 H3 H4 H5]. apply ws_upgrade_ok in E as [-> ->]. simpl in *.
  assert (∀ i, i ≠ next (live a) → inner (snd (register (user_id uh.1) uh.2 (generation a) (live a))) !! i = inner (live a) !! i) as Hne.
  { intros i Hi. simpl. by rewrite lookup_insert_ne. }
  assert (∀ ss, not_admitted (live a) ss → not_admitted (snd (register (user_id uh.1) uh.2 (generation a) (live a))) ss) as Hna.
  { intros ss [Hlt Hx]. split; [simpl; rewrite wrap_small; lia|]. rewrite Hne by lia. done. }
  split; simpl.
  - intros i x server Hi Hc Hinc Hs. simpl in Hi. apply lookup_insert_Some in Hi as [[<- <-]|[_ Hi]]; [by destruct Hinc|].
    by apply (H1 i x server).
  - constructor; [|eapply Forall_impl; [exact H2|apply Hna]]. split; simpl; [rewrite wrap_small; lia|].
    rewrite lookup_insert_eq. by intros x [= <-].
  - eapply Forall_impl; [exact H3|]. intros [ss st] [Hs Hst]. split; [by apply Hna|]. simpl in *.
    rewrite lookup_insert_ne by (destruct Hs; simpl in *; lia). done.
  - unfold ids_under_way. simpl. apply NoDup_cons. split; [|done]. rewrite list_elem_of_fmap. intros (ss & Heq & Hin).
    assert (not_admitted (live a) ss) as [Hlt _]; [|lia].
    apply elem_of_app in Hin as [Hin|(x & -> & Hx)%list_elem_of_fmap]; [by eapply Forall_forall in H2|].
    eapply Forall_forall in H3 as [H3 _]; [exact H3|done].
  - apply wrap_range. lia.
Qed.

Lemma ticket_inv s auth at_ t ts a ws1 ws2 ad rp es m :
  redeem_at auth at_ (tickets a) = (Some t, ts) →
  sys_inv (mkSystem a (ws1 ++ s :: ws2) ad rp es m) →
  sys_inv (mkSystem (with_tickets ts a) (ws1 ++ ws2) ((s, Ticketed (ticket_server t)) :: ad) rp es m).
Proof.
  intros _ [H1 H2 H3 H4 H5]. simpl in *. apply Forall_app in H2 as [H2 [Hs H2']%Forall_cons]. split; simpl; try done.
  - by apply Forall_app.
  - constructor; [by split|]. eapply Forall_impl; [exact H3|]. by intros [ss st].
  - eapply NoDup_Permutation_proper; [|exact H4]. unfold ids_under_way. simpl. rewrite !fmap_app. simpl. solve_Permutation.
Qed.

Lemma waiting_less_inv s a ws1 ws2 ad rp es m :
  sys_inv (mkSystem a (ws1 ++ s :: ws2) ad rp es m) → sys_inv (mkSystem a (ws1 ++ ws2) ad rp es m).
Proof.
  intros [H1 H2 H3 H4 H5]. simpl in *. apply Forall_app in H2 as [H2 [Hs H2']%Forall_cons]. split; simpl; try done.
  - by apply Forall_app.
  - unfold ids_under_way in *. simpl in *. eapply (NoDup_cons (s_live_id s)). eapply NoDup_Permutation_proper; [|exact H4].
    rewrite !fmap_app. simpl. solve_Permutation.
Qed.

(** The steps of an admission. *)
Lemma place_inv s server a ws ad1 ad2 rp es m :
  sys_inv (mkSystem a ws (ad1 ++ (s, Ticketed server) :: ad2) rp es m) →
  sys_inv (mkSystem (with_live (set_server (s_live_id s) server (live a)) a) ws (ad1 ++ (s, Placed server) :: ad2) rp es m).
Proof.
  intros Hi. pose proof (si_admitting _ Hi) as [_ [[[Hlt Hx] _] _]%Forall_cons]%Forall_app. simpl in *.
  assert (∀ x, inner (set_server (s_live_id s) server (live a)) !! s_live_id s = Some x →
    l_user x = s_user s ∧ l_incarnations x = None ∧ l_server x = Some server) as Hown.
  { intros x Hy. simpl in Hy. rewrite alter_lookup_same in Hy. apply fmap_Some in Hy as (z & Hz & ->).
    destruct (Hx z Hz). done. }
  change (ad1 ++ (s, Placed server) :: ad2) with (ad1 ++ [(s, Placed server)] ++ ad2).
  apply (inv_own a _ _ _ s (Ticketed server)); [done|done| |eauto| | |exact Hi].
  - intros i Hne. simpl. by rewrite lookup_alter_ne.
  - intros x srv Hy _ [? Hinc] _. destruct (Hown x Hy) as (_ & ? & _). congruence.
  - constructor; [|done]. split; simpl; [split; [done|]|]; intros x Hy; destruct (Hown x Hy) as (? & ? & ?); done.
Qed.

Lemma resolve_inv s server a ws ad1 ad2 rp es m :
  fst (is_assigned (s_user s) server (store_ a)) = Ok true →
  sys_inv (mkSystem a ws (ad1 ++ (s, Placed server) :: ad2) rp es m) →
  sys_inv (mkSystem a ws (ad1 ++ (s, Resolved server) :: ad2) rp es m).
Proof.
  intros Hr Hi. pose proof (si_admitting _ Hi) as [_ [[Hna Hst] _]%Forall_cons]%Forall_app. simpl in *.
  injection Hr as Hr%bool_decide_eq_true.
  change (ad1 ++ (s, Resolved server) :: ad2) with (ad1 ++ [(s, Resolved server)] ++ ad2).
  apply (inv_own a _ _ _ s (Placed server)); [done|done|done|eauto| | |exact Hi].
  - intros x srv Hy _ [? Hinc] _. destruct (proj2 Hna x Hy). congruence.
  - constructor; [|done]. split; [done|]. simpl. intros x Hy. split; [by apply Hst|]. intros _. by left.
Qed.

Lemma admitted_inv s server rows a ws ad1 ad2 rp es m :
  sys_inv (mkSystem a ws (ad1 ++ (s, Resolved server) :: ad2) rp es m) →
  sys_inv (mkSystem (with_live (set_incarnations (s_live_id s) rows (live a)) a) ws (ad1 ++ ad2) rp es m).
Proof.
  intros Hi. pose proof (si_admitting _ Hi) as [_ [[Hna Hst] _]%Forall_cons]%Forall_app. simpl in *.
  change (ad1 ++ ad2) with (ad1 ++ [] ++ ad2). apply (inv_own a _ _ _ s (Resolved server)); [done|done| |by left| |constructor|exact Hi].
  - intros i Hne. simpl. by rewrite lookup_alter_ne.
  - intros x srv Hy Hc _ Hsrv. simpl in Hy. rewrite alter_lookup_same in Hy. apply fmap_Some in Hy as (z & Hz & ->).
    destruct (proj2 Hna z Hz) as [Hu _], (Hst z Hz) as [Hs Ha]. simpl in *. simplify_eq. rewrite Hu. auto.
Qed.

Lemma refused_inv s st a ws ad1 ad2 rp es m :
  sys_inv (mkSystem a ws (ad1 ++ (s, st) :: ad2) rp es m) → sys_inv (mkSystem a ws (ad1 ++ ad2) rp es m).
Proof.
  intros Hi. change (ad1 ++ ad2) with (ad1 ++ [] ++ ad2). apply (inv_own a _ _ _ s st); [done|done|done|by left| |constructor|exact Hi].
  intros x server Hx Hc Hinc Hs. by eapply (si_access _ Hi).
Qed.

Lemma astep_inv y y' : astep y y' → sys_inv y → sys_inv y'.
Proof.
  intros Hs Hi. destruct Hs as [a a' ws ad rp es m Hl Hg Ha|id r db a ws ad rp es m E|id r db a ws ad rp es m E|id before db a ws ad rp es m E
    |id before ids counts db a ws ad rp1 rp2 es m E wanted seen|id before a ws ad rp1 rp2 es m|e a ws ad rp es1 es2 m|ids a ws ad rp es m
    |uh req upgrade accept a s a' ws ad rp es m Hb E|id a ws ad rp es m|id a ws ad rp es m|s a ws1 ws2 ad rp es m
    |s auth at_ t ts a ws1 ws2 ad rp es m Hg E Hu|s server a ws ad1 ad2 rp es m|s server a ws ad1 ad2 rp es m Hr
    |s server rows a ws ad1 ad2 rp es m Hr|s st a ws ad1 ad2 rp es m|token upload pass host gone now at_ w a files r a' files' ws m E].
  - apply (inv_moves _ _ Hi); [done|done|..]; simpl; [rewrite Hl; apply evolves_refl|].
    intros i x srv _ _ _ [?|[?|?]]; [left; by apply Ha|right; by left|right; by right].
  - apply (inv_moves _ _ Hi); [done|done|..]; [apply evolves_refl|]. intros i x srv _ _ _ [H|[(e & He & Hc)|H]].
    + eapply user_delete_takes in H as [H|H]; [by left| |exact E]. right. left. exists (EUser id). split; [by left|].
      by apply bool_decide_eq_true.
    + right. left. exists e. split; [by right|done].
    + right. by right.
  - apply (inv_moves _ _ Hi); [done|done|..]; [apply evolves_refl|]. intros i x srv _ _ _ [H|[(e & He & Hc)|H]].
    + eapply server_delete_takes in H as [H|H]; [by left| |exact E]. right. left. exists (EServer id). split; [by left|].
      by apply bool_decide_eq_true.
    + right. left. exists e. split; [by right|done].
    + right. by right.
  - by apply (inv_moves _ _ Hi); [done|done|..]; [apply evolves_refl|].
  - apply (inv_moves _ _ Hi); [done|done|..]; [apply evolves_refl|]. intros i x srv _ _ _ [H|[(e & He & Hc)|H]].
    + eapply set_assignments_takes in H as [H|[Hid Hgone]]; [by left| |exact E]. right.
      destruct (decide (srv ∈ seen)) as [Hsn|Hsn]; [left|right].
      * exists (EUserServer id srv). split; [|by apply bool_decide_eq_true]. apply elem_of_app. left.
        apply list_elem_of_fmap_2, elem_of_elements. set_solver.
      * simpl. apply elem_of_union_r, elem_of_map. exists srv. rewrite Hid. split; [done|]. set_solver.
    + right. left. exists e. split; [apply elem_of_app; by right|done].
    + right. right. simpl. by apply elem_of_union_l.
  - by apply (inv_moves _ _ Hi); [done|done|..]; [apply evolves_refl|].
  - apply (inv_moves _ _ Hi); [done|done|..]; [apply evolves_end_them|]. simpl. intros i x srv Hx Hc Hsv [H|[(e' & He & Hcov)|H]].
    + by left.
    + right. left. exists e'. split; [|done]. simpl in *. pose proof (end_them_uncovered e (live a) i x srv Hx Hc Hsv) as Hno.
      apply elem_of_app in He as [He|[->|He]%elem_of_cons]; [apply elem_of_app; by left|congruence|apply elem_of_app; by right].
    + right. by right.
  - by apply (inv_moves _ _ Hi); [done|done|..]; [apply evolves_end_ids|].
  - by eapply upgrade_inv.
  - by apply (inv_moves _ _ Hi); [done|done|..]; [apply (evolves_established id (live a))|].
  - by apply (inv_moves _ _ Hi); [done|done|..]; [apply (evolves_remove id (live a))|].
  - by eapply waiting_less_inv.
  - by eapply ticket_inv.
  - by apply place_inv.
  - by apply resolve_inv.
  - by eapply admitted_inv.
  - by eapply refused_inv.
  - apply import_moves in E as [->|[He Hno]]; [done|]. apply (inv_moves _ _ Hi); [done|done|..]; [exact He|].
    intros i x srv Hx Hc. destruct (Hno i). by exists x.
Qed.

Lemma areached_inv y : areached y → sys_inv y.
Proof.
  induction 1 as [a Hl|y y' _ IH Hs]; [|by eapply astep_inv].
  split; try by constructor.
  - intros i l server Hi. simpl in Hi. by rewrite Hl in Hi.
  - simpl. by rewrite Hl.
Qed.
(** ** Each request is a run of these steps *)

Context (debug : string → string) (to_vec : Settings → bytes) (ws : list Session) (m : gset (Z * Z)).

Definition run_to (a0 a : App) : Prop := rtc astep (quiet ws m a0) (quiet ws m a).

Lemma run_more a0 a a' : run_to a0 a → astep (quiet ws m a) (quiet ws m a') → run_to a0 a'.
Proof. intros Hr Hs. by eapply rtc_r. Qed.

Section runs.
Context (a0 : App).
Abbreviation runs := (preserves (run_to a0)).

Lemma sto_runs {A} (f : store A) : (∀ X, preserves (assigned_still X) f) → runs (sto f).
Proof.
  intros Hf a Ha. unfold sto, on_store. specialize (Hf (t_assignments (store_ a)) (store_ a)).
  destruct (f (store_ a)) as [r db]. simpl in *. specialize (Hf (reflexivity _)). eapply run_more; [exact Ha|]. by apply as_data.
Qed.
Lemma vault_runs {A} (f : V A) :
  (∀ X, preserves (fun s : Db * Vault => assigned_still X s.1) f) → runs (on_app (on_vault f)).
Proof.
  intros Hf a Ha. unfold on_app, map_err, on_vault. specialize (Hf (t_assignments (store_ a)) (store_ a, vault_ a)).
  specialize (Hf (reflexivity _)). destruct (f (store_ a, vault_ a)) as [[r|e] [db v]]; simpl in *;
    (eapply run_more; [exact Ha|]; by apply as_data).
Qed.
Lemma ending_runs p : runs (ending (end_where p)).
Proof. intros a Ha. eapply run_more; [exact Ha|]. apply as_end_ids. Qed.
Lemma log_runs now actor action detail : runs (log now actor action detail).
Proof. apply sto_runs. intros X. apply audit_keeps. Qed.
Lemma not_frozen_runs : runs not_frozen.
Proof. intros a Ha. by rewrite not_frozen_run. Qed.
Lemma checked_runs {A} (r : result string A) : runs (checked r).
Proof. apply preserves_lift. Qed.
Lemma read_runs {A} (f : Db → A) : runs (sto (gets f)).
Proof. apply sto_runs. intros X. apply preserves_gets. Qed.
Lemma user_or_404_runs id : runs (user_or_404 id).
Proof. unfold user_or_404, user_by_id. apply preserves_bind; [apply read_runs|intros; apply preserves_lift]. Qed.

Lemma settings_write_runs req : runs (sto (settings_write to_vec req)).
Proof. apply sto_runs. intros. apply meta_set_keeps. Qed.
Lemma copy_assignments_runs from to : runs (sto (copy_assignments from to)).
Proof. apply sto_runs. intros. apply copy_assignments_keeps. Qed.

(** Deleting a user or a server, and then ending what used it. *)
Lemma user_delete_runs id (f : unit → W unit) :
  (∀ x, runs (f x)) → runs (_ ← sto (user_delete id); _ ← ending (end_user id); f ()).
Proof.
  intros Hf a Ha. unfold sto, on_store, mbind, M_bind. destruct (user_delete id (store_ a)) as [[r|e] db] eqn:E; simpl.
  - apply Hf. eapply rtc_r; [eapply rtc_r; [exact Ha|by apply (as_user_delete id r db)]|].
    apply (as_end (EUser id) (with_store db a) ws [] [] [] []).
  - unfold user_delete in E. destruct (t_users (store_ a) !! id); simplify_eq. by rewrite with_store_id.
Qed.
Lemma server_delete_runs id (f : unit → W unit) :
  (∀ x, runs (f x)) → runs (_ ← sto (server_delete id); _ ← ending (end_server id); f ()).
Proof.
  intros Hf a Ha. unfold sto, on_store, mbind, M_bind. destruct (server_delete id (store_ a)) as [[r|e] db] eqn:E; simpl.
  - apply Hf. eapply rtc_r; [eapply rtc_r; [exact Ha|by apply (as_server_delete id r db)]|].
    apply (as_end (EServer id) (with_store db a) ws [] [] [] []).
  - unfold server_delete in E. destruct (t_servers (store_ a) !! id); simplify_eq. by rewrite with_store_id.
Qed.

Lemma end_removed_runs id gone a :
  ∃ a', end_removed id gone a = (Ok (), a') ∧
    rtc astep (mkSystem a ws [] [] (EUserServer id <$> gone) m) (quiet ws m a').
Proof.
  revert a. induction gone as [|s gone IH]; intros a; [by exists a|].
  destruct (IH (with_live (snd (end_user_server id s (live a))) a)) as (a' & Ha' & Hr). exists a'. split; [exact Ha'|].
  eapply rtc_l; [|exact Hr]. exact (as_end (EUserServer id s) a ws [] [] [] (EUserServer id <$> gone) m).
Qed.

Lemma set_user_servers_runs admin now id ids : runs (set_user_servers admin now id ids).
Proof.
  unfold set_user_servers. apply preserves_bind; [apply not_frozen_runs|intros _].
  apply preserves_bind; [apply user_or_404_runs|intros u]. intros a Ha.
  destruct (assignment_ids_run id (store_ a)) as (bl & Hbl & Hin).
  rewrite (bind_ok _ _ _ _ _ (sto_read _ bl _ Hbl)).
  destruct (set_assignments id ids (store_ a)) as [[cs|e] db] eqn:E; last first.
  { erewrite bind_err by (unfold sto, on_store; by rewrite E). simpl.
    unfold set_assignments in E. apply transaction_err in E as ->. by rewrite with_store_id. }
  erewrite bind_ok by (by apply sto_ok; exists db).
  destruct (end_removed_runs id (elements (list_to_set bl ∖ (list_to_set ids : gset Z))) (with_store db a)) as (a' & Hend & Hr).
  rewrite (bind_ok _ _ _ _ _ Hend).
  refine ((_ : runs _) a' _); [apply preserves_bind; [case_decide; [apply log_runs|apply preserves_ret]|intros; apply preserves_ret]|].
  assert (run_to a0 a') as Hgoal; [|exact Hgoal].
  etransitivity; [exact Ha|]. eapply rtc_l; [by apply (as_read_servers id bl (store_ a))|].
  eapply rtc_l; [apply (as_replace id bl ids cs db a ws [] [] []); exact E|]. cbv zeta.
  assert (list_to_set bl = assigned_ids id (store_ a)) as Hb by (apply set_eq; intros; by rewrite elem_of_list_to_set).
  replace (m ∪ _) with m; [rewrite (app_nil_r (EUserServer id <$> _)); exact Hr|]. rewrite Hb. apply leibniz_equiv. set_solver.
Qed.
End runs.
#[local] Hint Resolve log_runs not_frozen_runs checked_runs read_runs user_or_404_runs settings_write_runs copy_assignments_runs : preserves.
#[local] Hint Extern 1 (preserves (run_to _) (sto _)) => apply sto_runs; intros ?; by apply store_keeps : preserves.
#[local] Hint Extern 1 (preserves (run_to _) (ending _)) => apply ending_runs : preserves.
#[local] Hint Extern 1 (preserves (run_to _) (on_app (on_vault _))) => apply vault_runs; intros ?; by apply vault_keeps : preserves.

Lemma admin_exec_runs a0 admin now c : preserves (run_to a0) (admin_exec debug to_vec host_name admin now c).
Proof.
  destruct c; simpl; unfold done_, Admin.update_user, remove_user, copy_from, clear_sid, put_settings, Admin.add_server,
    Admin.update_server, remove_server, import_servers, Admin.add_group, rename_group, order_groups, remove_group,
    set_recovery_handler, reset_handler, unlock_handler, unfreeze, server_fields, recovery_set, meta_get, server_by_id,
    reset_credential_store.
  - solve_preserves.
  - do 2 (apply preserves_bind; [solve_preserves|intros]). apply (user_delete_runs a0 _ (fun _ => _)). solve_preserves.
  - apply preserves_bind; [apply set_user_servers_runs|solve_preserves].
  - solve_preserves.
  - solve_preserves.
  - solve_preserves.
  - solve_preserves.
  - solve_preserves.
  - do 3 (apply preserves_bind; [solve_preserves|intros]). apply (server_delete_runs a0 _ (fun _ => _)). solve_preserves.
  - solve_preserves.
  - solve_preserves.
  - solve_preserves.
  - solve_preserves.
  - solve_preserves.
  - solve_preserves. apply sto_runs. solve_preserves.
  - solve_preserves.
  - solve_preserves.
  - solve_preserves.
Qed.

(** What else ends connections, or records what became of one. *)
Lemma data_step a a' :
  live a' = live a → generation a' = generation a → t_assignments (store_ a) ⊆ t_assignments (store_ a') → run_to a a'.
Proof. intros. apply rtc_once. by apply as_data. Qed.
Lemma end_ids_step ids a : run_to a (with_live (snd (end_ids ids (live a))) a).
Proof. apply rtc_once, as_end_ids. Qed.

Lemma logout_runs uh now a r a' : logout cfg uh now a = (r, a') → run_to a a'.
Proof.
  intros [= _ <-]. etransitivity; [apply (data_step a (with_store (snd (session_delete uh.2 (store_ a))) a)); done|].
  etransitivity; [apply end_ids_step|]. by apply data_step.
Qed.

Lemma apply_lookup_runs now checked name looked p a : run_to a (snd (apply_lookup now checked name looked (p, a))).
Proof.
  unfold apply_lookup. destruct looked as [account|]; [|apply rtc_refl].
  destruct (fst (user_by_id _ _)) as [[u|]|]; [|apply rtc_refl..]. destruct (_ && _); [|apply rtc_refl].
  destruct (revocation_reason u account) as [reason|]; [|apply rtc_refl].
  destruct (end_user (user_id u) (live a)) as [n l] eqn:E.
  etransitivity; [apply (data_step a (with_store (snd (sessions_delete_user (user_id u) (store_ a))) a)); done|].
  etransitivity; [apply end_ids_step|]. simpl. unfold end_user, end_where in E. erewrite E. by apply data_step.
Qed.
Lemma revocation_runs now g users found a : run_to a (snd (apply_lookups now g users found a)).
Proof.
  unfold apply_lookups. case_decide; [apply rtc_refl|]. generalize pass_default as p. generalize a.
  induction (zip users found) as [|ur l IH]; intros a1 p; [apply rtc_refl|]. cbn [foldl].
  pose proof (apply_lookup_runs now ur.1 ur.2.1 ur.2.2 p a1) as Hr.
  destruct (apply_lookup now ur.1 ur.2.1 ur.2.2 (p, a1)) as [p1 a2]. etransitivity; [exact Hr|apply IH].
Qed.
Lemma orphans_runs now a : run_to a (snd (end_orphaned_connections now a)).
Proof.
  unfold end_orphaned_connections. set (stale := _ <$> _). pose proof (end_ids_step stale a) as Hr.
  by destruct (end_ids stale (live a)).
Qed.
Lemma close_runs s now a : run_to a (close s now a).
Proof.
  unfold close. pose proof (as_removed (s_live_id s) a ws [] [] [] m) as Hr.
  destruct (remove (s_live_id s) (live a)) as [[e|] l]; [|by apply rtc_once]. simpl in Hr. eapply rtc_l; [exact Hr|].
  unfold record_end. destruct (e_established e), (e_server e), (e_incarnations e) as [[]|]; try apply rtc_refl.
  case_decide; [apply rtc_refl|]. apply data_step; try done. unfold session_ended. simpl. by destruct (_ && _).
Qed.
End system.

(** An admission, from the connections that wait. *)
Lemma admit_runs {U : Unicode} {C : Crypto} {K : KeyProtector} {L : MigrateLib} cfg host_name m s tid auth now at_ a r a' ws1 ws2 :
  admit_session s tid auth now at_ a = (r, a') →
  rtc (astep cfg host_name) (quiet (ws1 ++ s :: ws2) m a) (quiet (ws1 ++ ws2) m a').
Proof.
  unfold admit_session. destruct (decide (generation_of (s_live_id s) (live a) = Some (generation a))) as [Hg|Hg].
  2: { rewrite decide_True by done. intros [= _ <-]. apply rtc_once. by apply as_superseded. }
  rewrite decide_False by tauto. destruct (redeem_at auth at_ (tickets a)) as [[t|] ts] eqn:Et.
  2: { intros [= _ <-]. eapply rtc_l; [by apply as_superseded|]. apply rtc_once. by apply as_data. }
  case_decide as Hu.
  { intros [= _ <-]. eapply rtc_l; [by apply as_superseded|]. apply rtc_once. by apply as_data. }
  intros E. eapply rtc_l; [by apply (as_ticket _ _ s auth at_ t ts); [..|lia]|].
  eapply rtc_l; [apply (as_place _ _ s (ticket_server t) _ _ [] [])|]. cbn [app] in *.
  set (a1 := with_live _ _) in *.
  assert (rtc (astep cfg host_name) (mkSystem a1 (ws1 ++ ws2) [(s, Placed (ticket_server t))] [] [] m) (quiet (ws1 ++ ws2) m a1)) as Hno
    by (apply rtc_once, (as_refused _ _ s (Placed (ticket_server t)) a1 (ws1 ++ ws2) [] [])).
  destruct (fst (session_user _ _ _)) as [[u|]|]; [|by injection E as _ <-..].
  case_decide; [by injection E as _ <-|].
  destruct (fst (resolve (s_user s) tid (store_ a1))) as [sv|[[]|]] eqn:Hr; [|by injection E as _ <-..].
  case_decide as Hsv; [by injection E as _ <-|].
  destruct (fst (incarnations (s_user s) (server_id sv) (store_ a1))) as [[rows|]|] eqn:Hi; [|by injection E as _ <-..].
  injection E as _ <-. apply resolve_fst in Hr as (id & row & _ & _ & Has & ->). simpl in Hsv, Hi.
  assert (id = ticket_server t) as -> by lia.
  eapply rtc_l; [apply (as_resolve _ _ s (ticket_server t) a1 (ws1 ++ ws2) [] []); simpl; f_equal; by apply bool_decide_eq_true|].
  apply rtc_once. exact (as_admitted _ _ s (ticket_server t) rows a1 (ws1 ++ ws2) [] [] [] [] m Hi).
Qed.

