(* ===== verification/MigrateSample.v ===== *)
(** * Administration and migration, run

    Formats that keep what is written, so that the theorems about administrators' requests, exports
    and imports can be applied to concrete hosts. *)

From S2P Require Import Prelude Tables Text Utf8 Store StoreInv StoreFacts Policy Auth Live Settings Vault VaultFacts Directory DirectoryFacts App AppFacts Web WebFacts WebServers Instant ServerList ServerListFacts Admin AdminFacts Migrate Stamp MigrateFacts MigrateLimits Export Access.
Local Open Scope Z_scope.

(** ** Files that keep what they are given *)

Fixpoint pos_bits (p : positive) : bytes :=
  match p with xH => [] | xO p => x00 :: pos_bits p | xI p => x01 :: pos_bits p end.
Fixpoint bits_pos (b : bytes) : option positive :=
  match b with
  | [] => Some xH
  | x00 :: b => xO <$> bits_pos b
  | x01 :: b => xI <$> bits_pos b
  | _ => None
  end.

Lemma bits_pos_bits p : bits_pos (pos_bits p) = Some p.
Proof. induction p as [p IH|p IH|]; simpl; rewrite ?IH; done. Qed.

Definition write {A} `{Countable A} (x : A) : bytes := pos_bits (encode x).
Definition read {A} `{Countable A} (b : bytes) : option A := bits_pos b ≫= decode.

Lemma read_write {A} `{Countable A} (x : A) : read (write x) = Some x.
Proof. unfold read, write. rewrite bits_pos_bits. simpl. apply decode_encode. Qed.

#[export] Instance UserRec_countable : Countable UserRec :=
  inj_countable' (fun r => (u_username r, u_display_name r, u_sid r, u_is_admin r, u_sid_mismatch r, u_created r,
                           u_last_login r, u_local_hash r, u_incarnation r))
    (fun '(a, b, c, d, e, f, g, h, i) => mkUserRec a b c d e f g h i) ltac:(by intros []).
#[export] Instance GroupRec_eq : EqDecision GroupRec.
Proof. solve_decision. Defined.
#[export] Instance GroupRec_countable : Countable GroupRec :=
  inj_countable' (fun r => (g_name r, g_sort r)) (fun '(a, b) => mkGroupRec a b) ltac:(by intros []).
#[export] Instance ServerRec_countable : Countable ServerRec :=
  inj_countable' (fun r => (Store.s_name r, s_host r, s_port r, s_group_id r, s_domain r, s_incarnation r))
    (fun '(a, b, c, d, e, f) => mkServerRec a b c d e f) ltac:(by intros []).
#[export] Instance CredRec_countable : Countable CredRec :=
  inj_countable' (fun r => (k_username r, k_domain r, k_nonce r, k_secret r, k_updated r))
    (fun '(a, b, c, d, e) => mkCredRec a b c d e) ltac:(by intros []).
#[export] Instance SessionRec_countable : Countable SessionRec :=
  inj_countable' (fun r => (n_user_id r, n_created r, n_expires r)) (fun '(a, b, c) => mkSessionRec a b c) ltac:(by intros []).
#[export] Instance AuditRec_eq : EqDecision AuditRec.
Proof. solve_decision. Defined.
#[export] Instance AuditRec_countable : Countable AuditRec :=
  inj_countable' (fun r => (a_at r, a_actor r, a_action r, a_detail r)) (fun '(a, b, c, d) => mkAuditRec a b c d) ltac:(by intros []).
#[export] Instance Db_eq : EqDecision Db.
Proof. solve_decision. Defined.
#[export] Instance Db_countable : Countable Db :=
  inj_countable' (fun d => (t_meta d, t_users d, users_seq d, t_groups d, groups_seq d, t_servers d, servers_seq d,
                           t_assignments d, t_credentials d, t_sessions d, t_session_log d, t_audit d))
    (fun '(a, b, c, d, e, f, g, h, i, j, k, l) => mkDb a b c d e f g h i j k l) ltac:(by intros []).
#[export] Instance Counts_eq : EqDecision Counts.
Proof. solve_decision. Defined.
#[export] Instance Counts_countable : Countable Counts :=
  inj_countable' (fun c => (c_users c, c_servers c, c_assignments c, c_credentials c)) (fun '(a, b, c, d) => mkCounts a b c d) ltac:(by intros []).
#[export] Instance Manifest_eq : EqDecision Manifest.
Proof. solve_decision. Defined.
#[export] Instance Manifest_countable : Countable Manifest :=
  inj_countable' (fun m => (m_format m, m_schema m, m_source_host m, m_exported_at m, m_data_sha256 m, m_counts m))
    (fun '(a, b, c, d, e, f) => mkManifest a b c d e f) ltac:(by intros []).

Definition entry_of (l : list (string * bytes)) (name : string) : option (result string bytes) :=
  (fun x => Ok x.2.2) <$> list_find (fun nb => nb.1 = name) l.

Lemma sample_zip (t : option bytes) n1 b1 n2 b2 z :
  n1 ≠ n2 → Ok (E:=string) (write [(n1, b1); (n2, b2)]) = Ok z →
  ∃ archive, ok_or "damaged"%string (entry_of <$> read z) = Ok archive ∧ archive n1 = Some (Ok b1) ∧ archive n2 = Some (Ok b2).
Proof.
  intros Hne [= <-]. rewrite read_write. eexists. split; [reflexivity|]. unfold entry_of. simpl.
  rewrite (decide_True (P := n1 = n1)), (decide_True (P := n2 = n2)), (decide_False (P := n1 = n2)) by done. done.
Qed.

Definition sample_fits (m : Manifest) : manifest_fits m → ok_or "no manifest"%string (read (write m)) = Ok m :=
  fun _ => f_equal (ok_or "no manifest"%string) (read_write m).

Definition sample_migrate : MigrateLib := {|
  db_file := write;
  open_file := fun b => ok_or Store.Io (read b);
  open_db_file := fun db => f_equal (ok_or Store.Io) (read_write db);
  integrity_check := fun b => match read (A:=Db) b with Some _ => None | None => Some "malformed"%string end;
  integrity_of_copy := fun db => f_equal (fun o => match o with Some _ => None | None => Some "malformed"%string end) (read_write db);
  zip_time := fun _ => None;
  zip_write := fun _ l => Ok (write l);
  zip_open := fun b => ok_or "damaged"%string (entry_of <$> read b);
  zip_open_write := sample_zip;
  to_vec_pretty := write;
  manifest_from_slice := fun b => ok_or "no manifest"%string (read b);
  manifest_json := sample_fits;
  digest_sha256 := fun b => b;
|}.

#[local] Existing Instances sample_crypto sample_protector sample_migrate ascii_unicode.

(** ** Servers written and read *)

Definition sample_rows : list ImportRow :=
  [mkImportRow "web, east" "10.0.0.1" None None None;
   mkImportRow "files" "files.corp.example" (Some 3390) (Some (Some "Storage"%string)) (Some None);
   mkImportRow "db" "fe80::1" None (Some None) (Some (Some "CORP"%string))].

Lemma sample_rows_ok : Forall (row_ok id) sample_rows.
Proof.
  unfold sample_rows. rewrite !Forall_cons, Forall_nil.
  split_and!; [..|exact I]; (split; [vm_compute; reflexivity|vm_compute; reflexivity|intros ?; simpl; intros [= <-]; lia|
    intros ?; simpl; intros [= <-]; vm_compute; reflexivity|intros ?; simpl; intros [= <-]; vm_compute; reflexivity|
    simpl; eauto; by intros [??]|]); repeat (constructor; [by apply (bool_decide_unpack _)|]); constructor.
Qed.

Example import_rows_witness : parse_import id (csv_text sample_rows) = Ok sample_rows.
Proof.
  apply (import_reads_what_was_written id sample_rows sample_rows_ok).
  apply (bool_decide_unpack _). vm_compute. exact I.
Defined.

(** ** Administrators *)

(** The hash of the session token "aabb". *)
Definition sample_token : bytes := token_hash sample_sha "aabb".

(** A host where amy, whom the configuration makes an administrator, is signed in, with a recovery
    passphrase set. *)
Definition sample_master : bytes := replicate 32 x2a.
Definition sample_wrap : bytes :=
  match wrap_recovery sample_master sample_pass (Some []) (Some []) with Ok b => b | Err _ => [] end.
Definition admin_db : Db :=
  set_meta (<[META_RECOVERY := sample_wrap]>)
    (set_sessions (<[sample_token := mkSessionRec 1 0 1000]>) (snd (new_instance [xab; xcd] web_db))).
Definition admin_app : App := sample_app admin_db (Some sample_master).
Definition amy_cookies : list string := ["theme=dark; wa_session=aabb"%string].

Lemma admin_db_recovers f :
  (∀ m, t_meta (f m) !! META_RECOVERY = t_meta m !! META_RECOVERY) → recovers sample_pass sample_master (f admin_db).
Proof.
  intros Hf. exists sample_wrap. split; [rewrite Hf; unfold admin_db; simpl; apply lookup_insert_eq|].
  by apply (unwrap_wrap_recovery sample_master sample_pass (Some []) (Some [])).
Qed.

Lemma admin_recovers : recovers sample_pass sample_master admin_db.
Proof. exact (admin_db_recovers id (fun _ => eq_refl)). Qed.

Example frozen_witness :
  let a := with_store (set_meta (<[META_FROZEN := b_one]>) admin_db) admin_app in
  admin_exec id sample_to_vec "proxy" amy 5 (ARemoveUser 1) a = (Err (conflict FROZEN_MESSAGE), a).
Proof.
  cbv zeta. apply (frozen_takes_no_edit id sample_to_vec sample_cfg "proxy" amy 5 (ARemoveUser 1)); [|reflexivity].
  rewrite frozen_lookup. apply bool_decide_eq_true_2. simpl. apply lookup_insert_eq.
Defined.

(** Amy is connected to server 1. *)
Definition connected_app : App :=
  with_live (mkLiveSessions {[0 := mkLive 1 sample_token (Some 1) true 0 (Some (4, 5)) true]} 1 []) admin_app.

Example set_user_servers_witness :
  ∃ counts a', set_user_servers amy 5 1 [] connected_app = (Ok counts, a') ∧ counts = (0, 1) ∧
    (∀ s, (1, s) ∉ t_assignments (store_ a')) ∧ ¬ running 0 (live a').
Proof.
  destruct (set_user_servers amy 5 1 [] connected_app) as [r a'] eqn:E.
  assert (r = Ok (0, 1)) as -> by (apply (f_equal fst) in E; vm_compute in E; by rewrite <-E).
  exists (0, 1), a'. split; [reflexivity|]. split; [reflexivity|].
  destruct (set_user_servers_exact amy 5 1 [] connected_app a' (0, 1) E) as (H1 & _ & H3 & _). split.
  - intros s Hs. by apply H1, not_elem_of_nil in Hs.
  - intros (l & Hl). apply H3 in Hl as (Hl & _ & Hno). vm_compute in Hl. injection Hl as <-.
    apply Hno. split; [reflexivity|]. exists 1. split; [by apply (bool_decide_unpack _)|]. split; [set_solver|reflexivity].
Defined.

(** ** Moving *)

(** An empty host, with room for the backup, and a disk that works. *)
Definition sample_run : ApplyRun := mkApplyRun 1800000000 None None None (fun _ => false) ∅ (Some [x03]) [xef; x01].
Definition new_host : App := sample_app empty_db (Some (replicate 32 x11)).

Lemma sample_package here file cs now : ∃ e, package here sample_pass file cs now (Some []) (Some []) = Ok e ∧
  m_format (manifest e) = 1 ∧ m_schema (manifest e) = 6 ∧ m_exported_at (manifest e) = now ∧ m_counts (manifest e) = cs.
Proof. eexists. split; [reflexivity|]. done. Qed.

Lemma protect_works key : is_ok (protect (KeyProtector:=sample_protector) key (Some [x03])) = true.
Proof. reflexivity. Qed.

Example export_moves_witness :
  ∃ e r b1 key wrapped b2 files', export_ "old" sample_pass admin_db 1700000000 None (Some []) (Some []) = Ok e ∧
    stage (export_bytes e) 0 [x09] new_host = (r, b1) ∧
    confirm_ "new" (random_token [x09]) sample_pass (Some " NEW "%string) 5 sample_run (b1, ∅) =
      (Ok (m_counts (manifest e)), (b2, files')) ∧
    store_ b2 = moved wrapped [xef; x01] admin_db ∧ vault_ b2 = mkVault (Some key).
Proof.
  destruct (sample_package "old" (db_file admin_db) (counts_of admin_db) 1700000000) as (e & He & H1 & H2 & H3 & H4).
  assert (export_ "old" sample_pass admin_db 1700000000 None (Some []) (Some []) = Ok e) as Hx.
  { exact (export_run "old" sample_pass sample_master admin_db 1700000000 (Some []) (Some []) e admin_recovers He). }
  destruct (stage (export_bytes e) 0 [x09] new_host) as [r b1] eqn:Es.
  pose proof (export_moves_everything "new" "old" sample_pass admin_db 1700000000 (Some []) (Some []) e new_host ∅ [x09] 0 5
    " NEW " sample_run Hx) as H. rewrite Es in H. destruct H as (Hr & key & wrapped & b2 & files' & _ & Hc & _ & Hst & Hv).
  - unfold manifest_fits. rewrite H1, H2, H3, H4. vm_compute. repeat split; discriminate.
  - vm_compute. split; [discriminate|reflexivity].
  - vm_compute. reflexivity.
  - reflexivity.
  - reflexivity.
  - reflexivity.
  - reflexivity.
  - exact protect_works.
  - exists e, r, b1, key, wrapped, b2, files'. split; [exact Hx|]. split; [exact Es|].
    split; [exact Hc|]. split; [exact Hst|exact Hv].
Defined.

(** An upload that was never made. *)
Example failed_import_witness :
  ∃ a' files', confirm_ "new" "no such upload" sample_pass None 5 sample_run (new_host, ∅) = (Err MExpired, (a', files')) ∧
    a' = new_host ∧ files' = ∅.
Proof.
  do 2 eexists. split; [reflexivity|].
  destruct (failed_import_changes_nothing "new" "no such upload" sample_pass None 5 sample_run new_host new_host ∅ ∅ MExpired eq_refl)
    as (H1 & _ & _ & H2). split; [exact H1|]. apply H2; [reflexivity|reflexivity|discriminate].
Defined.

(** The archive of [admin_db], uploaded to the host amy is connected on. *)
Definition sample_blob : bytes :=
  match encrypt_with_passphrase sample_pass AAD_EXPORT (db_file admin_db) (Some []) (Some []) with Ok b => b | Err _ => [] end.
Definition staged_app : App := with_imports {["up"%string := mkPending sample_blob 0]} connected_app.

Lemma sample_blob_ok :
  encrypt_with_passphrase sample_pass AAD_EXPORT (db_file admin_db) (Some []) (Some []) = Ok sample_blob.
Proof. unfold sample_blob. generalize (db_file admin_db). intros b. reflexivity. Qed.

Lemma sample_confirm : ∃ cs a' files',
  confirm_ "proxy" "up" sample_pass (Some "proxy"%string) 5 sample_run (staged_app, ∅) = (Ok cs, (a', files')).
Proof.
  pose proof (prepare_run (db_file admin_db) admin_db sample_pass sample_run sample_master
    (match protect sample_master (Some [x03]) with Ok b => b | Err _ => [] end) (integrity_of_copy admin_db)
    admin_recovers eq_refl) as Hp.
  destruct (apply_forward sample_blob sample_pass sample_run staged_app ∅ (db_file admin_db) admin_db _ _ _
    (decrypt_encrypt _ _ _ _ _ _ sample_blob_ok) (open_db_file admin_db) Hp eq_refl eq_refl eq_refl (lookup_empty _)) as [files' Ha].
  do 3 eexists. eapply confirm_forward; [apply lookup_singleton_eq|reflexivity|reflexivity|exact Ha].
Qed.

Example uploads_witness :
  (size (imports (foldl (upload_exec "new") (new_host, ∅) [UStage [x05] 0 [x01]; USweep 7; UCancel "up"]).1) ≤ MAX_PENDING)%nat.
Proof.
  refine (proj1 (uploads_bounded "new" [UStage [x05] 0 [x01]; USweep 7; UCancel "up"] (new_host, ∅) [] 0 [] ""
    (mkManifest 1 6 "old" 0 "" (mkCounts 0 0 0 0)) new_host _)). reflexivity.
Defined.

Example stamps_witness :
  utc_stamp 1700000000 = "20231114T221320Z"%string ∧ utc_stamp 1800000000 = "20270115T080000Z"%string ∧
  String.le (utc_stamp 1700000000) (utc_stamp 1800000000) ∧ utc_stamp 1700000000 ≠ utc_stamp 1800000000.
Proof.
  split; [vm_compute; reflexivity|]. split; [vm_compute; reflexivity|].
  apply (stamps_sort 1700000000 1800000000); [vm_compute; split; discriminate..|reflexivity].
Defined.

(** ** A freezing export that is dropped *)

Definition frozen_app : App :=
  with_store (set_meta (<[META_FROZEN := b_one]>) (set_meta (<[META_FREEZE_PENDING := b_one]>) admin_db)) admin_app.
Definition sample_admin : User := user_from 1 (mkUserRec "amy" None (Some "local:1"%string) false false 0 None (Some sample_hash) 4).

Lemma sample_snapshot :
  export_snapshot sample_cfg sample_token sample_pass true false 5 None admin_app =
    (Ok (mkSnapshot sample_admin (db_file (store_ frozen_app)) (counts_of (store_ frozen_app)) 0 true), frozen_app).
Proof.
  apply (export_snapshot_forward sample_cfg sample_token sample_pass 5 admin_app sample_admin sample_master);
    [vm_compute; reflexivity|vm_compute; reflexivity|].
  apply (admin_db_recovers (fun db => set_meta (<[META_FROZEN := b_one]>) (set_meta (<[META_FREEZE_PENDING := b_one]>) db))).
  intros m. simpl. by rewrite !lookup_insert_ne.
Qed.

Example freezing_export_witness :
  frozen (store_ frozen_app) = true ∧ open_file (db_file (store_ frozen_app)) = Ok (store_ frozen_app).
Proof.
  destruct (freezing_export_is_complete sample_cfg sample_token sample_pass false 5 None admin_app frozen_app _ sample_snapshot)
    as (H1 & H2 & _). split; [exact H1|exact H2].
Defined.

Example undelivered_witness :
  ∃ a', reached sample_cfg "proxy" false (mkWorld a' Free) ∧ frozen (store_ a') = false ∧ ¬ pending a'.
Proof.
  destruct (unfreeze_if_current 0 frozen_app) as [r a'] eqn:E.
  assert (r = Ok ()) as -> by (apply (f_equal fst) in E; vm_compute in E; by rewrite <-E).
  assert (reached sample_cfg "proxy" false (mkWorld a' Free)) as Hr.
  { apply (reached_step sample_cfg "proxy" false false (mkWorld frozen_app (Undoing 0))); [|by apply step_undo].
    apply (reached_step sample_cfg "proxy" false false (mkWorld frozen_app (Holding (Some 0)))); [|apply step_dropped].
    apply (reached_step sample_cfg "proxy" false false (mkWorld admin_app Free)).
    - apply reached_start; [vm_compute; reflexivity|]. unfold pending. intros H. vm_compute in H. discriminate.
    - exact (step_snapshot sample_cfg "proxy" sample_token sample_pass true false 5 None admin_app _ frozen_app sample_snapshot). }
  exists a'. split; [exact Hr|].
  destruct (undelivered_export_leaves_no_freeze sample_cfg "proxy" false (mkWorld a' Free) Hr) as [H _].
  destruct (H eq_refl) as [H1 H2]. split; [exact (H2 eq_refl)|exact H1].
Defined.

(** ** A connection, admitted *)

Definition ticket_app : App := with_tickets (issue 0 "cc" 1 1 ∅) admin_app.


(** ** Two edits that overlap *)

(** Amy has no servers yet. *)
Definition unassigned_app : App := with_store (set_assigned (fun _ => ∅) admin_db) ticket_app.

