(* ===== verification/Schema.v ===== *)
(** * Schemas of the database and their migration (src/src/store.rs)

    A database file as each version of the schema has it: [Tabs] are the tables with the columns of
    users and of servers as a version knows them. A migration is a transaction of its own; those that
    rebuild tables check every reference before they commit. What SQLite itself refuses, and the random
    incarnations, are arguments. *)

From S2P Require Import Prelude Tables Text Store StoreInv Migrate.
Local Open Scope Z_scope.

(** ** The versions *)

Record UserV1 := mkUserV1 {
  u1_username : string; u1_display_name : option string; u1_sid : option string; u1_is_admin : bool;
  u1_sid_mismatch : bool; u1_created : Z; u1_last_login : option Z;
}.
(** Version 2 adds [local_hash]. *)
Record UserV2 := mkUserV2 { u2_user : UserV1; u2_local_hash : option string }.

Record ServerV1 := mkServerV1 { s1_name : string; s1_host : string; s1_port : Z; s1_group_id : option Z }.
(** Version 3 adds [incarnation] to both. *)
Record ServerV3 := mkServerV3 { s3_server : ServerV1; s3_incarnation : Z }.

Record Tabs (U V : Type) := mkTabs {
  x_meta : gmap string bytes;
  x_users : gmap Z U;
  x_groups : gmap Z GroupRec;
  x_servers : gmap Z V;
  x_assignments : gset (Z * Z);
  x_credentials : gmap (Z * Z) CredRec;
  x_sessions : gmap bytes SessionRec;
  x_session_log : gmap (Z * Z) Z;
  x_audit : gmap Z AuditRec;
}.
Arguments mkTabs {U V}.
Arguments x_meta {U V}. Arguments x_users {U V}. Arguments x_groups {U V}. Arguments x_servers {U V}.
Arguments x_assignments {U V}. Arguments x_credentials {U V}. Arguments x_sessions {U V}.
Arguments x_session_log {U V}. Arguments x_audit {U V}.

(** From version 4 users and servers, and from version 5 groups, remember the largest id they held. *)
Inductive Schema :=
  | Fresh
  | V1 (t : Tabs UserV1 ServerV1)
  | V2 (t : Tabs UserV2 ServerV1)
  | V3 (t : Tabs UserRec ServerV3)
  | V4 (users_seq servers_seq : Z) (t : Tabs UserRec ServerV3)
  | V5 (users_seq servers_seq groups_seq : Z) (t : Tabs UserRec ServerV3)
  | V6 (db : Db)
  | Later (found : Z).

(** [PRAGMA user_version]; a later one is above the one this build knows. *)
Definition schema_version (s : Schema) : Z :=
  match s with
  | Fresh => 0 | V1 _ => 1 | V2 _ => 2 | V3 _ => 3 | V4 _ _ _ => 4 | V5 _ _ _ _ => 5 | V6 _ => 6
  | Later found => Z.max found 7
  end.

(** ** The steps *)

Definition map_tabs {U V U' V'} (f : Z → U → U') (g : Z → V → V') (t : Tabs U V) : Tabs U' V' :=
  mkTabs (x_meta t) (map_imap (fun i u => Some (f i u)) (x_users t)) (x_groups t)
    (map_imap (fun i v => Some (g i v)) (x_servers t)) (x_assignments t) (x_credentials t) (x_sessions t) (x_session_log t) (x_audit t).

Definition empty_tabs {U V} : Tabs U V := mkTabs ∅ ∅ ∅ ∅ ∅ ∅ ∅ ∅ ∅.

(** [SCHEMA_V2]. *)
Definition add_local_hash : Tabs UserV1 ServerV1 → Tabs UserV2 ServerV1 :=
  map_tabs (fun _ u => mkUserV2 u None) (fun _ v => v).

(** [SCHEMA_V3]: [ru] and [rs] are what [random()] gave for each row. *)
Definition with_incarnation (rnd : Z) (u : UserV2) : UserRec :=
  let v := u2_user u in
  mkUserRec (u1_username v) (u1_display_name v) (u1_sid v) (u1_is_admin v) (u1_sid_mismatch v) (u1_created v)
    (u1_last_login v) (u2_local_hash u) rnd.
Definition add_incarnations (ru rs : Z → Z) : Tabs UserV2 ServerV1 → Tabs UserRec ServerV3 :=
  map_tabs (fun i => with_incarnation (ru i)) (fun i v => mkServerV3 v (rs i)).

(** The rows copied into a table with AUTOINCREMENT leave their largest id behind. *)
Definition max_id {V} (m : gmap Z V) : Z := foldr Z.max 0 (elements (dom m)).

(** [SCHEMA_V6]. *)
Definition with_domain (v : ServerV3) : ServerRec :=
  mkServerRec (s1_name (s3_server v)) (s1_host (s3_server v)) (s1_port (s3_server v)) (s1_group_id (s3_server v)) None (s3_incarnation v).
Definition add_domain (us ss gs : Z) (t : Tabs UserRec ServerV3) : Db :=
  mkDb (x_meta t) (x_users t) us (x_groups t) gs (with_domain <$> x_servers t) ss (x_assignments t) (x_credentials t)
    (x_sessions t) (x_session_log t) (x_audit t).

(** One step from the version before; the other databases are not what the step is written for. *)
Definition upgrade (ru rs : Z → Z) (version : Z) (s : Schema) : Schema :=
  match s with
  | Fresh => if decide (version = 1) then V1 empty_tabs else s
  | V1 t => if decide (version = 2) then V2 (add_local_hash t) else s
  | V2 t => if decide (version = 3) then V3 (add_incarnations ru rs t) else s
  | V3 t => if decide (version = 4) then V4 (max_id (x_users t)) (max_id (x_servers t)) t else s
  | V4 us ss t => if decide (version = 5) then V5 us ss (max_id (x_groups t)) t else s
  | V5 us ss gs t => if decide (version = 6) then V6 (add_domain us ss gs t) else s
  | _ => s
  end.

(** [pragma_foreign_key_check]: the references that name no row. *)
Definition dangling {A} (m : gmap Z A) (id : Z) : nat := if decide (is_Some (m !! id)) then 0%nat else 1%nat.
Definition broken_in {U} (t : Tabs U ServerV3) : nat :=
  (foldr (fun kv n => match s1_group_id (s3_server kv.2) with Some g => dangling (x_groups t) g | None => 0 end + n) 0 (map_to_list (x_servers t))
   + foldr (fun us n => dangling (x_users t) us.1 + dangling (x_servers t) us.2 + n) 0
       (elements (x_assignments t) ++ elements (dom (x_credentials t)) ++ elements (dom (x_session_log t)))
   + foldr (fun kv n => dangling (x_users t) (n_user_id kv.2) + n) 0 (map_to_list (x_sessions t)))%nat.
Definition broken (s : Schema) : nat :=
  match s with V3 t | V4 _ _ t | V5 _ _ _ t => broken_in t | _ => 0%nat end.

(** What SQLite refused: the error of each step, of turning foreign keys off before it and on again
    after it, and of the copy kept, if any. *)
Record SchemaRun := mkSchemaRun {
  sc_step : Z → option StoreError;
  sc_off : Z → option StoreError;
  sc_on : Z → option StoreError;
  sc_copy : option StoreError;
  sc_users : Z → Z;
  sc_servers : Z → Z;
}.

Abbreviation C_ := (M Schema StoreError).
Definition refused {S} (o : option StoreError) : M S StoreError unit := match o with Some e => throw e | None => mret () end.

(** [BEGIN; ...; PRAGMA user_version = v; COMMIT;]. *)
Definition batch (w : SchemaRun) (version : Z) : C_ unit :=
  _ ← refused (sc_step w version); modify (upgrade (sc_users w) (sc_servers w) version).

Definition rebuild_with_foreign_keys_off (w : SchemaRun) (version : Z) : C_ unit := fun s =>
  match sc_off w version with
  | Some e => (Err e, s)
  | None =>
      let '(migrated, s) := (
        _ ← refused (sc_step w version);
        n ← gets broken;
        if decide (0 < n)%nat then
          throw (Invalid ("migrating to schema " +:+ pretty version +:+ " would break " +:+ pretty (Z.of_nat n)
            +:+ " reference(s); nothing was changed"))
        else modify (upgrade (sc_users w) (sc_servers w) version)) s in
      match sc_on w version with
      | Some e => (Err e, s)
      | None => (migrated, s)
      end
  end.

Definition migrate (w : SchemaRun) : C_ unit :=
  found ← gets schema_version;
  if decide (SCHEMA_VERSION < found) then throw (Newer found SCHEMA_VERSION)
  else
    _ ← (if decide (found < 1) then batch w 1 else mret ());
    _ ← (if decide (found < 2) then batch w 2 else mret ());
    _ ← (if decide (found < 3) then batch w 3 else mret ());
    _ ← (if decide (found < 4) then rebuild_with_foreign_keys_off w 4 else mret ());
    _ ← (if decide (found < 5) then rebuild_with_foreign_keys_off w 5 else mret ());
    if decide (found < 6) then batch w 6 else mret ().

(** [open_serving]: a copy of an older database is kept beside it before it is migrated. *)
Definition schema_backup (found now : Z) : string := "backup-schema" +:+ pretty found +:+ "-" +:+ utc_stamp now +:+ ".db".

Definition open_serving (w : SchemaRun) (now : Z) : M (Schema * gmap string Schema) StoreError unit := fun s =>
  let found := schema_version s.1 in
  let kept :=
    if decide (1 ≤ found < SCHEMA_VERSION) then
      match sc_copy w, s.2 !! schema_backup found now with
      | Some e, _ => Err e
      | None, Some _ => Err (Sql OutputExists)
      | None, None => Ok (<[schema_backup found now := s.1]> s.2)
      end
    else Ok s.2 in
  match kept with
  | Err e => (Err e, s)
  | Ok files => let '(r, db) := migrate w s.1 in (r, (db, files))
  end.
