(* ===== verification/SchemaFacts.v ===== *)
(** * What a schema migration keeps (src/src/store.rs) *)

From S2P Require Import Prelude Tables Text Store StoreInv Web Migrate Schema.
Local Open Scope Z_scope.

(** ** The columns every version has *)

Definition user_view (u : UserRec) : UserV1 :=
  mkUserV1 (u_username u) (u_display_name u) (u_sid u) (u_is_admin u) (u_sid_mismatch u) (u_created u) (u_last_login u).
Definition server_view (v : ServerRec) : ServerV1 := mkServerV1 (s_name v) (s_host v) (s_port v) (s_group_id v).

Definition see {U V} (f : U → UserV1) (g : V → ServerV1) (t : Tabs U V) : Tabs UserV1 ServerV1 :=
  mkTabs (x_meta t) (f <$> x_users t) (x_groups t) (g <$> x_servers t) (x_assignments t) (x_credentials t) (x_sessions t)
    (x_session_log t) (x_audit t).

(** The rows, as the first version would show them. *)
Definition rows_seen (s : Schema) : Tabs UserV1 ServerV1 :=
  match s with
  | Fresh | Later _ => empty_tabs
  | V1 t => t
  | V2 t => see u2_user id t
  | V3 t | V4 _ _ t | V5 _ _ _ t => see user_view s3_server t
  | V6 db => mkTabs (t_meta db) (user_view <$> t_users db) (t_groups db) (server_view <$> t_servers db) (t_assignments db)
               (t_credentials db) (t_sessions db) (t_session_log db) (t_audit db)
  end.

(** The columns that came later, where the version has them. *)
Definition hash_at (s : Schema) (i : Z) : option (option string) :=
  match s with
  | V2 t => u2_local_hash <$> x_users t !! i
  | V3 t | V4 _ _ t | V5 _ _ _ t => u_local_hash <$> x_users t !! i
  | V6 db => u_local_hash <$> t_users db !! i
  | _ => None
  end.
Definition incarnations_at (s : Schema) (i : Z) : option (option Z * option Z) :=
  match s with
  | V3 t | V4 _ _ t | V5 _ _ _ t => Some (u_incarnation <$> x_users t !! i, s3_incarnation <$> x_servers t !! i)
  | V6 db => Some (u_incarnation <$> t_users db !! i, s_incarnation <$> t_servers db !! i)
  | _ => None
  end.
Definition seqs (s : Schema) : option (Z * Z) :=
  match s with
  | V4 us ss _ | V5 us ss _ _ => Some (us, ss)
  | V6 db => Some (users_seq db, servers_seq db)
  | _ => None
  end.

(** What is there stays there. *)
Definition later {A} (x y : option A) : Prop := x = None ∨ y = x.
Record keeps (s s' : Schema) : Prop := {
  keeps_base : rows_seen s' = rows_seen s;
  keeps_version : schema_version s ≤ schema_version s';
  keeps_hash i : later (hash_at s i) (hash_at s' i);
  keeps_incarnations i : later (incarnations_at s i) (incarnations_at s' i);
  keeps_seqs : later (seqs s) (seqs s');
}.

#[local] Instance keeps_preorder : PreOrder keeps.
Proof.
  split.
  - intros s. split; intros; first [done|by right|lia].
  - intros s1 s2 s3 [? ? H1 H2 H3] [? ? H4 H5 H6].
    assert (∀ A (x y z : option A), later x y → later y z → later x z) as Ht by (unfold later; naive_solver congruence).
    split; [congruence|lia|eauto..].
Qed.

Lemma map_imap_fmap {A B C} (f : Z → A → B) (g : B → C) (h : A → C) (m : gmap Z A) :
  (∀ i a, g (f i a) = h a) → g <$> map_imap (fun i a => Some (f i a)) m = h <$> m.
Proof.
  intros H. apply map_eq. intros i. rewrite !lookup_fmap, map_lookup_imap. destruct (m !! i) as [a|]; simpl; [by rewrite H|done].
Qed.

Lemma upgrade_keeps ru rs v s : keeps s (upgrade ru rs v s).
Proof.
  destruct s as [|t|t|t|us ss t|us ss gs t|db|n]; cbn [upgrade]; try reflexivity; case_decide; try reflexivity.
  - split; simpl; try (by left); try done; lia.
  - split; simpl; try (by left); [|lia]. unfold see. simpl. destruct t; simpl. f_equal.
    + rewrite (map_imap_fmap _ u2_user id) by done. apply map_fmap_id.
    + rewrite (map_imap_fmap _ id id) by done. apply map_fmap_id.
  - split; simpl; try (by left); [|lia|].
    + unfold see. simpl. f_equal; [by apply map_imap_fmap; intros i [[]]|by apply map_imap_fmap].
    + intros i. right. rewrite map_lookup_imap. by destruct (x_users t !! i).
  - split; simpl; try (by left); try (by right); [done|lia].
  - split; simpl; try (by right); [done|lia].
  - split; simpl; try (by right); [|lia|].
    + unfold see. f_equal. rewrite <-map_fmap_compose. apply map_fmap_ext. by intros i [[]] _.
    + intros i. right. f_equal. f_equal. rewrite lookup_fmap. by destruct (x_servers t !! i).
Qed.

Lemma refused_ok {S} o (s : S) u s' : refused o s = (Ok u, s') → s' = s.
Proof. destruct o; [done|]. by intros [= _ <-]. Qed.

Lemma refused_preserves {S} (I : S → Prop) o : preserves I (refused o).
Proof. by intros s; destruct o. Qed.

Lemma batch_keeps w v s0 : preserves (keeps s0) (batch w v).
Proof.
  unfold batch. apply preserves_bind; [apply refused_preserves|]. intros ?.
  apply preserves_modify. intros s H. etrans; [exact H|apply upgrade_keeps].
Qed.

Lemma rebuild_keeps w v s0 : preserves (keeps s0) (rebuild_with_foreign_keys_off w v).
Proof.
  intros s H. unfold rebuild_with_foreign_keys_off. destruct (sc_off w v); [done|].
  set (m := _ ≫= _). assert (preserves (keeps s0) m) as Hm.
  { unfold m. apply preserves_bind; [apply refused_preserves|]. intros ?.
    apply preserves_bind; [auto with preserves|]. intros n. case_decide; [auto with preserves|].
    apply preserves_modify. intros x Hx. etrans; [exact Hx|apply upgrade_keeps]. }
  specialize (Hm s H). destruct (m s) as [r s1]. by destruct (sc_on w v).
Qed.

Lemma migrate_keeps w s0 : preserves (keeps s0) (migrate w).
Proof.
  unfold migrate. apply preserves_bind; [auto with preserves|]. intros found. case_decide; [auto with preserves|].
  repeat (apply preserves_bind; [case_decide; auto using batch_keeps, rebuild_keeps with preserves|intros ?]).
  case_decide; auto using batch_keeps with preserves.
Qed.

(** ** Reaching the last version *)

Lemma batch_ok w v s u s' : batch w v s = (Ok u, s') → s' = upgrade (sc_users w) (sc_servers w) v s.
Proof. unfold batch. intros (? & ? & ->%refused_ok & [= _ <-])%bind_ok_inv. done. Qed.

Lemma rebuild_ok w v s u s' :
  rebuild_with_foreign_keys_off w v s = (Ok u, s') → s' = upgrade (sc_users w) (sc_servers w) v s ∧ broken s = 0%nat.
Proof.
  unfold rebuild_with_foreign_keys_off. destruct (sc_off w v); [done|].
  set (m := _ ≫= _). destruct (m s) as [r s1] eqn:E. destruct (sc_on w v); [done|]. intros [= -> <-].
  unfold m in E. apply bind_ok_inv in E as (? & ? & ->%refused_ok & E). rewrite bind_gets in E.
  case_decide as Hb; [done|]. injection E as _ <-. split; [done|lia].
Qed.

Lemma when_ok (b : Prop) `{!Decision b} (m : C_ unit) s u s' :
  (if decide b then m else mret ()) s = (Ok u, s') → b ∧ m s = (Ok u, s') ∨ ¬ b ∧ s' = s.
Proof. case_decide; [by left|]. intros [= _ <-]. by right. Qed.

(** The steps that were taken, and that the rebuilds found every reference. *)
Lemma migrate_ok w s u s' :
  migrate w s = (Ok u, s') →
  let up := upgrade (sc_users w) (sc_servers w) in
  s' = up 6 (up 5 (up 4 (up 3 (up 2 (up 1 s))))) ∧ (∃ db, s' = V6 db) ∧
  (schema_version s < 5 → broken s' = 0%nat ∧ broken (up 4 (up 3 (up 2 (up 1 s)))) = 0%nat).
Proof.
  unfold migrate. rewrite bind_gets. case_decide as Hn; [done|]. unfold SCHEMA_VERSION in Hn. intros H.
  repeat (apply bind_ok_inv in H as (? & ? & ?%when_ok & H)). apply when_ok in H.
  repeat match goal with
  | H : _ ∧ batch _ _ _ = _ ∨ _ |- _ => destruct H as [[? ->%batch_ok]|[? ->]]
  | H : _ ∧ rebuild_with_foreign_keys_off _ _ _ = _ ∨ _ |- _ => destruct H as [[? [-> ?]%rebuild_ok]|[? ->]]
  end; destruct s as [|t|t|t|us ss t|us ss gs t|db|n]; cbn [schema_version] in *; try lia; cbv zeta;
    repeat (rewrite decide_True by done || rewrite decide_False by done); cbn in *; eauto 10;
    split; [reflexivity|split; [eexists; reflexivity|lia]].
Qed.

(** ** The result is a database *)

(** Ids SQLite hands out, and names that are unique, as every version's constraints have them. *)
Definition ids_fit {V} (m : gmap Z V) : Prop := ∀ i r, m !! i = Some r → 1 ≤ i ≤ i64_max.
Record sound_rows (t : Tabs UserV1 ServerV1) : Prop := {
  sound_user_ids : ids_fit (x_users t);
  sound_group_ids : ids_fit (x_groups t);
  sound_server_ids : ids_fit (x_servers t);
  sound_user_names : unique u1_username (x_users t);
  sound_group_names : unique (fun g => fold_name (g_name g)) (x_groups t);
  sound_server_names : unique (fun v => fold_name (s1_name v)) (x_servers t);
}.

(** What a database an earlier version served is. *)
Definition consistent (s : Schema) : Prop :=
  match s with
  | V6 db => wf_db db
  | V5 us ss gs t => sound_rows (rows_seen s) ∧ ids_ok us (x_users t) ∧ ids_ok ss (x_servers t) ∧ ids_ok gs (x_groups t) ∧ broken s = 0%nat
  | V4 us ss t => sound_rows (rows_seen s) ∧ ids_ok us (x_users t) ∧ ids_ok ss (x_servers t)
  | _ => sound_rows (rows_seen s)
  end.

Lemma max_id_ok {V} (m : gmap Z V) : ids_fit m → ids_ok (max_id m) m.
Proof.
  intros H. unfold max_id.
  assert (∀ l, (∀ i, i ∈ l → 1 ≤ i ≤ i64_max) → 0 ≤ foldr Z.max 0 l ≤ i64_max ∧ ∀ i, i ∈ l → i ≤ foldr Z.max 0 l) as Hl.
  { induction l as [|x l IH]; intros Hx; simpl; [split; [unfold i64_max; lia|by intros i ?%not_elem_of_nil]|].
    destruct IH as [IH1 IH2]; [intros; apply Hx; by right|]. assert (1 ≤ x ≤ i64_max) by (apply Hx; left).
    split; [lia|]. intros i [->|Hi]%elem_of_cons; [lia|]. specialize (IH2 i Hi). lia. }
  destruct (Hl (elements (dom m))) as [H1 H2].
  { intros i [r Hr]%elem_of_elements%elem_of_dom. eauto. }
  split; [done|]. intros i r Hr. split; [by apply (H i r)|]. apply H2. rewrite elem_of_elements, elem_of_dom. eauto.
Qed.

Lemma ids_fit_fmap {A B} (f : A → B) (m : gmap Z A) : ids_fit (f <$> m) → ids_fit m.
Proof. intros H i r Hr. apply (H i (f r)). by rewrite lookup_fmap, Hr. Qed.

Lemma unique_of_fmap {A B} (f : A → B) (key : B → string) (m : gmap Z A) : unique key (f <$> m) → unique (fun a => key (f a)) m.
Proof. intros H i j r r' Hi Hj. apply (H i j (f r) (f r')); by rewrite lookup_fmap, ?Hi, ?Hj. Qed.

Lemma dangling_zero {A} (m : gmap Z A) i : dangling m i = 0%nat → is_Some (m !! i).
Proof. unfold dangling. by case_decide. Qed.

Lemma foldr_zero {A} (f : A → nat) l : foldr (fun x n => (f x + n)%nat) 0%nat l = 0%nat → ∀ x, x ∈ l → f x = 0%nat.
Proof. induction l as [|y l IH]; simpl; intros H x; [by intros ?%not_elem_of_nil|]. intros [->|Hx]%elem_of_cons; [lia|]. apply IH; [lia|done]. Qed.

(** With sound ids and names and every reference found, adding the last column gives the store's
    invariant. *)
Lemma wf_add_domain us ss gs t :
  sound_rows (see user_view s3_server t) → ids_ok us (x_users t) → ids_ok ss (x_servers t) → ids_ok gs (x_groups t) →
  broken_in t = 0%nat → wf_db (add_domain us ss gs t).
Proof.
  intros [_ _ _ Hun Hgn Hsn] Hu Hs Hg Hb. simpl in Hun, Hgn, Hsn.
  unfold broken_in in Hb. apply Nat.eq_add_0 in Hb as [[Hb1 Hb2]%Nat.eq_add_0 Hb3].
  assert (∀ u s, (u, s) ∈ elements (x_assignments t) ++ elements (dom (x_credentials t)) ++ elements (dom (x_session_log t)) →
    is_Some (x_users t !! u) ∧ is_Some ((with_domain <$> x_servers t) !! s)) as Hp.
  { intros u s Hin. assert (dangling (x_users t) u + dangling (x_servers t) s = 0)%nat as Hd.
    { apply (foldr_zero (fun us => dangling (x_users t) us.1 + dangling (x_servers t) us.2)%nat _ Hb2 (u, s) Hin). }
    rewrite lookup_fmap, fmap_is_Some. split; apply dangling_zero; lia. }
  split; simpl.
  - done.
  - done.
  - destruct Hs as [Hs1 Hs2]. split; [done|]. intros i r (v & _ & Hv)%lookup_fmap_Some. eauto.
  - by apply unique_of_fmap in Hun.
  - done.
  - apply unique_of_fmap in Hsn. intros i j r r' (v & <- & Hv)%lookup_fmap_Some (v' & <- & Hv')%lookup_fmap_Some. by apply Hsn.
  - intros i r g (v & <- & Hv)%lookup_fmap_Some Hgr. simpl in Hgr. apply dangling_zero.
    pose proof (foldr_zero (fun kv => match s1_group_id (s3_server kv.2) with Some g => dangling (x_groups t) g | None => 0%nat end) _
      Hb1 (i, v) (proj2 (elem_of_map_to_list _ _ _) Hv)) as H. simpl in H. by rewrite Hgr in H.
  - intros u s H. apply Hp. rewrite elem_of_app, elem_of_elements. by left.
  - intros u s k H. apply Hp. rewrite !elem_of_app, !elem_of_elements, !elem_of_dom. right. left. eauto.
  - intros h n H. apply dangling_zero.
    apply (foldr_zero (fun kv => dangling (x_users t) (n_user_id kv.2)) _ Hb3 (h, n)). by apply elem_of_map_to_list.
  - intros u s e H. apply Hp. rewrite !elem_of_app, !elem_of_elements, !elem_of_dom. right. right. eauto.
Qed.

Lemma sound_v3 t : sound_rows (see user_view s3_server t) → ids_fit (x_users t) ∧ ids_fit (x_servers t) ∧ ids_fit (x_groups t).
Proof. intros [Hu Hg Hs _ _ _]. simpl in *. eauto using ids_fit_fmap. Qed.

Lemma wf_rebuilt t :
  sound_rows (see user_view s3_server t) → broken_in t = 0%nat →
  wf_db (add_domain (max_id (x_users t)) (max_id (x_servers t)) (max_id (x_groups t)) t).
Proof. intros Ht Hb. destruct (sound_v3 t Ht) as (Hu & Hs & Hg). apply wf_add_domain; auto using max_id_ok. Qed.

Lemma migrate_wf w s u s' : migrate w s = (Ok u, s') → ∃ db, s' = V6 db ∧ (consistent s → wf_db db).
Proof.
  intros (Hs & (db & Hdb) & Hb)%migrate_ok. exists db. split; [done|]. cbv zeta in Hs, Hb. rewrite Hdb in Hs. clear Hdb.
  set (ru := sc_users w) in *. set (rs := sc_servers w) in *.
  assert (rows_seen (upgrade ru rs 3 (upgrade ru rs 2 (upgrade ru rs 1 s))) = rows_seen s) as Hbase
    by (by rewrite !(keeps_base _ _ (upgrade_keeps _ _ _ _))).
  destruct (upgrade ru rs 3 (upgrade ru rs 2 (upgrade ru rs 1 s))) as [|t|t|t|us ss t|us ss gs t|db'|n] eqn:E; try done.
  - assert (schema_version s < 4) as Hv by (destruct s; cbn in *; try done; lia).
    destruct Hb as [_ Hb]; [lia|]. injection Hs as ->. intros Hc.
    assert (sound_rows (rows_seen s)) as Hr by (destruct s; cbn in *; done || lia).
    apply wf_rebuilt; [rewrite <-Hbase in Hr; exact Hr|exact Hb].
  - assert (s = V4 us ss t) as -> by (destruct s; cbn in *; try done; lia).
    destruct Hb as [_ Hb]; [cbn; lia|]. injection Hs as ->. intros (Hr & Hu & Hss).
    destruct (sound_v3 t Hr) as (_ & _ & Hg). apply wf_add_domain; auto using max_id_ok.
  - assert (s = V5 us ss gs t) as -> by (destruct s; cbn in *; try done; lia).
    injection Hs as ->. intros (Hr & Hu & Hss & Hg & Hbr). by apply wf_add_domain.
  - assert (s = V6 db') as -> by (destruct s; cbn in *; try done; lia). injection Hs as ->. done.
Qed.

(** ** Opening *)

(** A database of this version, or of a later one, is left as it is. *)
Lemma migrate_current w s : 6 ≤ schema_version s → snd (migrate w s) = s.
Proof.
  destruct s as [|t|t|t|us ss t|us ss gs t|db|n]; intros Hv; try (cbn in Hv; lia); [done|].
  unfold migrate. rewrite bind_gets. rewrite decide_True; [done|]. unfold SCHEMA_VERSION. cbn. lia.
Qed.

(** The copies kept before a migration are not the backups an import prunes. *)
Lemma schema_backup_not_pruned found now : is_import_backup (schema_backup found now) = false.
Proof. unfold is_import_backup, schema_backup, starts_with. by rewrite to_chars_app. Qed.

(** C16. An upgrade of the database keeps everything. Whatever version it is found at and whatever SQLite
    refuses, opening it for serving keeps every user, group, server, assignment, saved credential,
    sign-in, log entry and stored value, under the same ids, with the password hashes, incarnations and
    id counters it had; and the version never goes back. It is not changed unless a copy of it, exactly
    as it was, was kept beside it, where no other file was touched and no import will prune it. When
    opening succeeds it is at this build's version, and where the old one was consistent it satisfies
    the store's invariant. *)
Theorem upgrade_keeps_everything (w : SchemaRun) (now : Z) (s : Schema) (files : gmap string Schema) :
  let '(r, (s', files')) := open_serving w now (s, files) in
  let copy := schema_backup (schema_version s) now in
  keeps s s' ∧ files ⊆ files' ∧ (∀ n, n ≠ copy → files' !! n = files !! n) ∧
  (s' ≠ s → schema_version s = 0 ∨ files' !! copy = Some s ∧ is_import_backup copy = false) ∧
  (r = Ok () → ∃ db, s' = V6 db ∧ (consistent s → wf_db db)).
Proof.
  unfold open_serving. cbn [fst snd]. set (copy := schema_backup (schema_version s) now).
  assert (keeps s (snd (migrate w s))) as Hk by (apply migrate_keeps; reflexivity).
  assert (∀ r s', migrate w s = (r, s') → keeps s s' ∧ (r = Ok () → ∃ db, s' = V6 db ∧ (consistent s → wf_db db))) as Hm.
  { intros r s' E. rewrite E in Hk. split; [exact Hk|]. intros ->. by eapply migrate_wf. }
  case_decide as Hv; [destruct (sc_copy w); [|destruct (files !! copy) eqn:Hc]|].
  - split_and!; try done.
  - split_and!; try done.
  - destruct (migrate w s) as [r s'] eqn:E. destruct (Hm r s' eq_refl) as [H1 H2]. split_and!; [done|by apply insert_subseteq| |  |done].
    + intros n Hn. by apply lookup_insert_ne.
    + intros _. right. split; [apply lookup_insert_eq|apply schema_backup_not_pruned].
  - destruct (migrate w s) as [r s'] eqn:E. destruct (Hm r s' eq_refl) as [H1 H2]. split_and!; try done.
    intros Hne. destruct (decide (6 ≤ schema_version s)) as [H6|H6].
    + destruct Hne. pose proof (migrate_current w s H6) as Hc. by rewrite E in Hc.
    + left. unfold SCHEMA_VERSION in Hv. assert (0 ≤ schema_version s) by (destruct s; cbn; lia). lia.
Qed.

(** ** A sample *)

(** A database of the first version: a user, a server in a group, and an assignment. *)
Definition first_version : Tabs UserV1 ServerV1 :=
  mkTabs ∅ {[ 4 := mkUserV1 "amy" None (Some "S-1-5-21-1"%string) true false 10 None ]} {[ 2 := mkGroupRec "Prod" 0 ]}
    {[ 9 := mkServerV1 "web" "10.0.0.1" 3389 (Some 2) ]} {[ (4, 9) ]} ∅ ∅ ∅ ∅.

Definition quiet_run : SchemaRun := mkSchemaRun (fun _ => None) (fun _ => None) (fun _ => None) None (fun i => i * 7) (fun i => i * 11).

Example first_version_opens :
  fst (open_serving quiet_run 1700000000 (V1 first_version, ∅)) = Ok () ∧ consistent (V1 first_version).
Proof.
  split; [vm_compute; reflexivity|]. split; cbn [rows_seen x_users x_groups x_servers first_version].
  all: unfold ids_fit, unique; intros; repeat match goal with H : {[ _ := _ ]} !! _ = Some _ |- _ => apply lookup_singleton_Some in H as [<- <-] end.
  all: try done; unfold i64_max; lia.
Qed.
