(* ===== verification/Xml.v ===== *)
(** * XML documents as sign-in reads them (src/src/saml.rs, src/vendor/uppsala/src/dom.rs)

    The arena of nodes a parsed document is, with the traversals of the XML library, and the readers
    the SAML checks are written with. The parser itself is a parameter of the checks. *)

From S2P Require Import Prelude Text Utf8 Instant.
Local Open Scope Z_scope.

(** ** The arena *)

Record QName := mkQName { namespace_uri : option string; local_name : string }.
Record Attribute := mkAttribute { a_name : QName; a_value : string }.
Record Element := mkElement { e_name : QName; attributes : list Attribute }.

Inductive NodeKind :=
  | NDocument
  | NElement (e : Element)
  | NText (t : string)
  | NCData (t : string)
  | NComment (t : string)
  | NProcessingInstruction (target : string)
  | NAttribute (name : QName) (value : string).

(** A node is named by its place in the arena. *)
Abbreviation NodeId := nat.
Record NodeData := mkNode {
  kind : NodeKind;
  parent_ : option NodeId;
  first_child : option NodeId;
  next_sibling : option NodeId;
}.
Record Document := mkDocument { nodes : list NodeData; root : NodeId }.

Implicit Types (doc : Document) (id : NodeId).

Definition node_kind doc id : option NodeKind := kind <$> nodes doc !! id.
Definition element doc id : option Element :=
  match node_kind doc id with Some (NElement e) => Some e | _ => None end.
Definition parent doc id : option NodeId := nodes doc !! id ≫= parent_.

(** The sibling links are followed at most as often as there are nodes. *)
Fixpoint siblings doc (steps : nat) (current : option NodeId) : list NodeId :=
  match steps, current with
  | S steps', Some c =>
      if decide (length (nodes doc) ≤ c)%nat then []
      else c :: siblings doc steps' (nodes doc !! c ≫= next_sibling)
  | _, _ => []
  end.

Definition children doc id : list NodeId := siblings doc (length (nodes doc)) (nodes doc !! id ≫= first_child).

(** In document order; a tree is no deeper than it has nodes. *)
Fixpoint collect_descendants doc (depth : nat) id : list NodeId :=
  match depth with
  | O => []
  | S depth' => children doc id ≫= fun c => c :: collect_descendants doc depth' c
  end.

Definition descendants doc id : list NodeId := collect_descendants doc (length (nodes doc)) id.

Definition document_element doc : option NodeId :=
  List.find (fun id => match node_kind doc id with Some (NElement _) => true | _ => false end)
    (children doc (root doc)).

Definition matches_name_ns (e : Element) (ns local : string) : bool :=
  bool_decide (local_name (e_name e) = local) && bool_decide (namespace_uri (e_name e) = Some ns).

(** ** What the checks read *)

Inductive SamlError :=
  | Metadata (why : string)
  | SamlRefused (why : string).

Definition refuse {A} (why : string) : result SamlError A := Err (SamlRefused why).

Definition is_ doc id (ns local : string) : bool :=
  match element doc id with Some e => matches_name_ns e ns local | None => false end.

Definition child_elements doc id : list NodeId :=
  List.filter (fun c => bool_decide (is_Some (element doc c))) (children doc id).

Definition children_named doc id (ns local : string) : list NodeId :=
  List.filter (fun c => is_ doc c ns local) (child_elements doc id).

(** The child with this name; refused when there are several. *)
Definition one_child doc id (ns local : string) : result SamlError (option NodeId) :=
  match children_named doc id ns local with
  | [] => Ok None
  | [c] => Ok (Some c)
  | _ => refuse ("more than one " +:+ local +:+ " where one is allowed")
  end.

Definition required_child doc id (ns local : string) : result SamlError NodeId :=
  c ← one_child doc id ns local;
  match c with Some c => Ok c | None => refuse ("no " +:+ local +:+ " element") end.

(** An attribute without a namespace. *)
Definition attr doc id (name : string) : option string :=
  e ← element doc id;
  a_value <$> List.find (fun a => bool_decide (namespace_uri (a_name a) = None)
                             && bool_decide (local_name (a_name a) = name)) (attributes e).

(** A loop that may return early with an error. *)
Fixpoint try_fold {E A B} (f : B → A → result E B) (b : B) (l : list A) : result E B :=
  match l with
  | [] => Ok b
  | x :: l' => b ← f b x; try_fold f b l'
  end.

(** An element's text, which must be text alone. *)
Definition text doc id : result SamlError string :=
  out ← try_fold (fun out c =>
          match node_kind doc c with
          | Some (NText t) | Some (NCData t) => Ok (out +:+ t)
          | _ => refuse "an element holds more than text where text is expected"
          end) EmptyString (children doc id);
  Ok (str_trim out).

(** No comments and no processing instructions anywhere. *)
Definition plain doc : result SamlError unit :=
  try_fold (fun _ n =>
      match node_kind doc n with
      | Some (NComment _) | Some (NProcessingInstruction _) =>
          refuse "the response carries comments or processing instructions"
      | _ => Ok ()
      end) () (descendants doc (root doc)).

Definition xml_escape_char (c : ascii) : chars :=
  if decide (c = "&"%char) then to_chars "&amp;"
  else if decide (c = "<"%char) then to_chars "&lt;"
  else if decide (c = ">"%char) then to_chars "&gt;"
  else if decide (c = quote) then to_chars "&quot;"
  else if decide (c = "'"%char) then to_chars "&apos;"
  else [c].
Definition xml_escape (s : string) : string := of_chars (to_chars s ≫= xml_escape_char).

Definition time_attr doc id (name : string) : result SamlError (option Z) :=
  match attr doc id name with
  | None => Ok None
  | Some v =>
      match parse_instant v with
      | Some t => Ok (Some t)
      | None => refuse (name +:+ " " +:+ debug_string v +:+ " is not a SAML time")
      end
  end.

(** ** Facts *)

Lemma elem_of_children_named doc id ns local c :
  c ∈ children_named doc id ns local ↔ c ∈ children doc id ∧ is_ doc c ns local = true.
Proof.
  unfold children_named, child_elements.
  rewrite list_elem_of_In, filter_In, filter_In, <-list_elem_of_In, bool_decide_eq_true. split; [tauto|].
  intros [Hc Hi]. split_and!; [done| |done]. unfold is_ in Hi. by destruct (element doc c).
Qed.

Lemma one_child_Ok doc id ns local c :
  one_child doc id ns local = Ok (Some c) ↔ children_named doc id ns local = [c].
Proof. unfold one_child. destruct (children_named doc id ns local) as [|x [|y l]]; naive_solver. Qed.

Lemma required_child_Ok doc id ns local c :
  required_child doc id ns local = Ok c ↔ children_named doc id ns local = [c].
Proof.
  unfold required_child, one_child, mbind, result_bind.
  destruct (children_named doc id ns local) as [|x [|y l]]; naive_solver.
Qed.

(** A loop that ran to its end kept what every turn keeps. *)
Lemma try_fold_Ok {E A B} (f : B → A → result E B) b l b' :
  try_fold f b l = Ok b' → ∀ P : B → Prop, P b → (∀ b0 x b1, x ∈ l → P b0 → f b0 x = Ok b1 → P b1) → P b'.
Proof.
  intros H P Hb Hf. revert b Hb H. induction l as [|x l IH]; intros b Hb H; simpl in H; [by injection H as <-|].
  unfold mbind, result_bind in H. destruct (f b x) as [b1|e] eqn:Hx; [|done].
  apply (IH (fun b0 y b2 Hy => Hf b0 y b2 (list_elem_of_further _ _ _ Hy)) b1); [|done].
  eapply Hf; [left|done..].
Qed.

(** Each turn of it succeeded. *)
Lemma try_fold_all {E A B} (f : B → A → result E B) b l b' x :
  try_fold f b l = Ok b' → x ∈ l → ∃ b0 b1, f b0 x = Ok b1.
Proof.
  revert b. induction l as [|y l IH]; intros b; simpl; [intros _ Hx; by apply not_elem_of_nil in Hx|].
  unfold mbind, result_bind. destruct (f b y) as [b1|] eqn:Hy; [|done].
  intros H [->|Hx]%elem_of_cons; [eauto|]. by eapply IH.
Qed.
