(* ===== verification/Saml.v ===== *)
(** * Single sign-on: the service provider (src/src/saml.rs)

    The identity provider's metadata, the request this proxy sends, and the checks of the response:
    the flow cookie, the envelope, the signatures, the assertion, and the table of what was used.
    The XML parser, the XML signature verifier, base64, deflate, form encoding and HMAC come from
    crates and are the class [SamlLib]; clocks and random bytes are arguments. *)

From S2P Require Import Prelude Text Utf8 Auth Vault Directory Instant Xml.
Local Open Scope Z_scope.

Definition NS_ASSERTION : string := "urn:oasis:names:tc:SAML:2.0:assertion".
Definition NS_PROTOCOL : string := "urn:oasis:names:tc:SAML:2.0:protocol".
Definition NS_METADATA : string := "urn:oasis:names:tc:SAML:2.0:metadata".
Definition NS_DSIG : string := "http://www.w3.org/2000/09/xmldsig#".
Definition BINDING_REDIRECT : string := "urn:oasis:names:tc:SAML:2.0:bindings:HTTP-Redirect".
Definition BINDING_POST : string := "urn:oasis:names:tc:SAML:2.0:bindings:HTTP-POST".
Definition STATUS_SUCCESS : string := "urn:oasis:names:tc:SAML:2.0:status:Success".
Definition BEARER : string := "urn:oasis:names:tc:SAML:2.0:cm:bearer".
Definition EXC_C14N : string := "http://www.w3.org/2001/10/xml-exc-c14n#".
Definition ENVELOPED : string := "http://www.w3.org/2000/09/xmldsig#enveloped-signature".
Definition SIGNATURE_METHODS : list string :=
  ["http://www.w3.org/2001/04/xmldsig-more#rsa-sha256"; "http://www.w3.org/2001/04/xmldsig-more#rsa-sha384";
   "http://www.w3.org/2001/04/xmldsig-more#rsa-sha512"]%string.
Definition DIGEST_METHODS : list string :=
  ["http://www.w3.org/2001/04/xmlenc#sha256"; "http://www.w3.org/2001/04/xmldsig-more#sha384";
   "http://www.w3.org/2001/04/xmlenc#sha512"]%string.

Definition FLOW_COOKIE : string := "wa_saml".
Definition FLOW_SECS : Z := 300.
Definition MAX_SPENT : nat := Z.to_nat 100000.
Definition MAX_RESPONSE_BYTES : Z := 2 ^ 20.

Record Idp := mkIdp { idp_entity_id : string; sso_url : string; certs : list bytes }.
Record Verified := mkVerified { v_sid : string; v_name_id : option string }.

Record ServiceProvider := mkSP {
  idp : Idp;
  sp_entity_id : string;
  acs_url : string;
  sid_attribute : string;
  skew : Z;
  flow_key : bytes;
}.

(** What [bergshamra] answers for one signature of a document. *)
Record VerifiedReference := mkReference { r_uri : string; resolved_node : option NodeId; digest_verified : bool }.
Inductive VerifyResult :=
  | Valid (signature_node : NodeId) (references : list VerifiedReference)
  | Invalid (reason : string).

Definition all_reference_digests_verified (r : VerifyResult) : bool :=
  match r with
  | Valid _ references => negb (bool_decide (length references = 0%nat)) && forallb digest_verified references
  | Invalid _ => false
  end.

Class SamlLib := {
  (** [uppsala]: a document without a DTD and of bounded depth, or why not *)
  xml_parse : string → result string Document;
  base64_decode : string → result string bytes;
  base64_encode : bytes → string;
  (** [load_x509_cert_der]: whether a certificate can be read *)
  load_cert : bytes → result string unit;
  (** [verify_all_document] with this certificate as the only key *)
  verify_all : bytes → Document → result string (list VerifyResult);
  hmac_sign : bytes → bytes → bytes;
  hmac_verify : bytes → bytes → bytes → bool;
  hmac_verify_sign : ∀ key msg, hmac_verify key msg (hmac_sign key msg) = true;
  deflate : bytes → bytes;
  (** [form_urlencoded]'s one pair *)
  form_pair : string → string → string;
}.

(** [char::is_ascii_whitespace]. *)
Definition is_ascii_whitespace (c : ascii) : bool :=
  bool_decide (N_of_ascii c = 9 ∨ N_of_ascii c = 10 ∨ N_of_ascii c = 12 ∨ N_of_ascii c = 13 ∨ N_of_ascii c = 32)%N.
Definition without_whitespace (s : string) : string :=
  of_chars (List.filter (fun c => negb (is_ascii_whitespace c)) (to_chars s)).

(** [str::split_whitespace]. *)
Fixpoint split_whitespace (word : chars) (l : list chars) : list chars :=
  match l with
  | [] => if decide (word = []) then [] else [word]
  | p :: l' =>
      if is_whitespace p then (if decide (word = []) then [] else [word]) ++ split_whitespace [] l'
      else split_whitespace (word ++ p) l'
  end.

Definition hex_bytes (s : string) : option bytes :=
  let l := to_chars s in
  if negb (Nat.even (length l)) || negb (forallb (fun c => bool_decide (is_Some (hex_value c))) l) then None
  else unhex_chars l.

(** An element of a list exactly when it is the only one. *)
Definition only {A} (l : list A) : option A := match l with [x] => Some x | _ => None end.

(** Request and assertion IDs used, and until when each is kept. *)
Abbreviation Spent := (gmap string Z).

(** ** The identity provider's metadata *)

Section provider.
Context {L : SamlLib}.

Definition bad {A} (why : string) : result SamlError A := Err (Metadata why).

Definition of_text {A} (r : result SamlError A) : result SamlError A :=
  match r with
  | Ok x => Ok x
  | Err (SamlRefused m) => bad m
  | Err (Metadata m) => bad ("identity provider metadata: " +:+ m)
  end.

(** The byte-order mark, U+FEFF. *)
Definition bom : chars := ascii_of_byte <$> [xef; xbb; xbf].
Fixpoint trim_boms (fuel : nat) (l : chars) : chars :=
  match fuel, strip_prefix bom l with
  | S fuel', Some l' => trim_boms fuel' l'
  | _, _ => l
  end.

(** The certificates of one descriptor, in order and each once. *)
Definition signing_certs (doc : Document) (descriptor : NodeId) : result SamlError (list bytes) :=
  try_fold (fun certs kd =>
      if negb (bool_decide (attr doc kd "use" = None) || bool_decide (attr doc kd "use" = Some "signing"%string))
      then Ok certs
      else
        try_fold (fun certs c =>
            t ← of_text (text doc c);
            der ← match base64_decode (without_whitespace t) with
                  | Ok d => Ok d
                  | Err e => bad ("a signing certificate is not base64: " +:+ e)
                  end;
            _ ← match load_cert der with
                | Ok _ => Ok ()
                | Err e => bad ("a signing certificate cannot be read: " +:+ e)
                end;
            Ok (if decide (der ∈ certs) then certs else certs ++ [der]))
          certs
          (children_named doc kd NS_DSIG "KeyInfo" ≫= fun ki =>
             children_named doc ki NS_DSIG "X509Data" ≫= fun xd =>
               children_named doc xd NS_DSIG "X509Certificate"))
    [] (children_named doc descriptor NS_METADATA "KeyDescriptor").

Definition starts_with_ (p s : string) : bool := bool_decide (is_Some (strip_prefix (to_chars p) (to_chars s))).

Definition parse_metadata (xml : string) : result SamlError Idp :=
  doc ← match xml_parse (of_chars (trim_boms (length (to_chars xml)) (to_chars xml))) with
        | Ok d => Ok d
        | Err e => bad e
        end;
  root ← match document_element doc with Some r => Ok r | None => bad "empty document" end;
  entities ← (if is_ doc root NS_METADATA "EntityDescriptor" then Ok [root]
              else if is_ doc root NS_METADATA "EntitiesDescriptor"
                   then Ok (children_named doc root NS_METADATA "EntityDescriptor")
                   else bad "not SAML metadata");
  let idps := entities ≫= fun e => (fun d => (e, d)) <$> children_named doc e NS_METADATA "IDPSSODescriptor" in
  ed ← match only idps with
       | Some ed => Ok ed
       | None => bad (pretty (Z.of_nat (length idps)) +:+ " identity provider descriptors; exactly one is needed")
       end;
  let '(entity, descriptor) := ed in
  entity_id ← match attr doc entity "entityID" with
              | Some v => if decide (str_trim v = EmptyString) then bad "the identity provider has no entityID" else Ok v
              | None => bad "the identity provider has no entityID"
              end;
  if negb (existsb (fun p => bool_decide (of_chars p = NS_PROTOCOL))
             (split_whitespace [] (utf8_chars (to_chars (default EmptyString (attr doc descriptor "protocolSupportEnumeration"))))))
  then bad "the identity provider does not declare SAML 2.0"
  else
    sso ← match find_map (fun s => attr doc s "Location")
                   (List.filter (fun s => bool_decide (attr doc s "Binding" = Some BINDING_REDIRECT))
                      (children_named doc descriptor NS_METADATA "SingleSignOnService")) with
          | Some l => if starts_with_ "https://" l || starts_with_ "http://" l then Ok l
                      else bad "no SingleSignOnService for the HTTP-Redirect binding"
          | None => bad "no SingleSignOnService for the HTTP-Redirect binding"
          end;
    certs ← signing_certs doc descriptor;
    if decide (certs = []) then bad "no signing certificate" else Ok (mkIdp entity_id sso certs).

(** ** The service provider *)

(** [SamlConfig] (src/src/config.rs). *)
Record SamlConfig := mkSamlConfig {
  url : string;
  cfg_entity_id : option string;
  cfg_sid_attribute : string;
  clock_skew_secs : Z;
}.

Fixpoint drop_slash (l : chars) : chars :=
  match l with "/"%char :: l' => drop_slash l' | _ => l end.
Definition base (cfg : SamlConfig) : string := of_chars (reverse (drop_slash (reverse (to_chars (url cfg))))).
Definition cfg_acs_url (cfg : SamlConfig) : string := base cfg +:+ "/api/saml/acs".
Definition entity_id_of (cfg : SamlConfig) : string :=
  default (base cfg +:+ "/api/saml/metadata") (cfg_entity_id cfg).

Definition sp_new (cfg : SamlConfig) (idp : Idp) (key : bytes) : ServiceProvider :=
  mkSP idp (entity_id_of cfg) (cfg_acs_url cfg) (cfg_sid_attribute cfg) (clock_skew_secs cfg) key.

(** [name="value"]. *)
Definition xml_attr (name value : string) : string :=
  name +:+ "=" +:+ of_chars [quote] +:+ value +:+ of_chars [quote].
Definition newline : string := of_chars ["010"%char].

Definition metadata (sp : ServiceProvider) : string :=
  "<?xml " +:+ xml_attr "version" "1.0" +:+ " " +:+ xml_attr "encoding" "UTF-8" +:+ "?>" +:+ newline
  +:+ "<md:EntityDescriptor " +:+ xml_attr "xmlns:md" NS_METADATA +:+ " "
  +:+ xml_attr "entityID" (xml_escape (sp_entity_id sp)) +:+ ">" +:+ newline
  +:+ "  <md:SPSSODescriptor " +:+ xml_attr "AuthnRequestsSigned" "false" +:+ " "
  +:+ xml_attr "WantAssertionsSigned" "true" +:+ " " +:+ xml_attr "protocolSupportEnumeration" NS_PROTOCOL +:+ ">" +:+ newline
  +:+ "    <md:AssertionConsumerService " +:+ xml_attr "Binding" BINDING_POST +:+ " "
  +:+ xml_attr "Location" (xml_escape (acs_url sp)) +:+ " " +:+ xml_attr "index" "0" +:+ " "
  +:+ xml_attr "isDefault" "true" +:+ "/>" +:+ newline
  +:+ "  </md:SPSSODescriptor>" +:+ newline +:+ "</md:EntityDescriptor>" +:+ newline.

Definition signed_flow (id : string) (expires : Z) : bytes :=
  String.list_byte_of_string (id +:+ "." +:+ pretty expires).

Definition flow_mac (sp : ServiceProvider) (id : string) (expires : Z) : string :=
  of_chars (hmac_sign (flow_key sp) (signed_flow id expires) ≫= hex_byte).

Definition authn_request (sp : ServiceProvider) (id : string) (now : Z) : string :=
  "<samlp:AuthnRequest " +:+ xml_attr "xmlns:samlp" NS_PROTOCOL +:+ " " +:+ xml_attr "xmlns:saml" NS_ASSERTION +:+ " "
  +:+ xml_attr "ID" id +:+ " " +:+ xml_attr "Version" "2.0" +:+ " " +:+ xml_attr "IssueInstant" (instant now) +:+ " "
  +:+ xml_attr "Destination" (xml_escape (sso_url (idp sp))) +:+ " "
  +:+ xml_attr "AssertionConsumerServiceURL" (xml_escape (acs_url sp)) +:+ " "
  +:+ xml_attr "ProtocolBinding" BINDING_POST +:+ ">"
  +:+ "<saml:Issuer>" +:+ xml_escape (sp_entity_id sp) +:+ "</saml:Issuer></samlp:AuthnRequest>".

(** A new sign-in: where to send the browser, and the flow cookie it must come back with. *)
Definition start (sp : ServiceProvider) (now : Z) (random : bytes) : string * string :=
  let id := "_" +:+ of_chars (take 40 (to_chars (random_token random))) in
  let expires := now + FLOW_SECS in
  let flow := id +:+ "." +:+ pretty expires +:+ "." +:+ flow_mac sp id expires in
  let encoded := base64_encode (deflate (String.list_byte_of_string (authn_request sp id now))) in
  let query := form_pair "SAMLRequest" encoded in
  (sso_url (idp sp) +:+ (if decide ("?"%char ∈ to_chars (sso_url (idp sp))) then "&" else "?") +:+ query, flow).

Definition LOST : string :=
  "this browser did not start the sign-in, or took longer than five minutes; start it again from this proxy's page".

(** The request a flow cookie was issued for, while it is current. *)
Definition flow_request (sp : ServiceProvider) (flow : option string) (now : Z) : result SamlError string :=
  match flow with
  | None => refuse LOST
  | Some flow =>
      match rsplit_once "."%char (to_chars flow) with
      | None => refuse LOST
      | Some (rest, mac) =>
          match rsplit_once "."%char rest with
          | None => refuse LOST
          | Some (id, expires) =>
              match parse_i64 (of_chars expires), hex_bytes (of_chars mac) with
              | Some expires, Some tag =>
                  if negb (hmac_verify (flow_key sp) (signed_flow (of_chars id) expires) tag)
                     || bool_decide (expires ≤ now)
                  then refuse LOST else Ok (of_chars id)
              | _, _ => refuse LOST
              end
          end
      end
  end.

(** ** The checks of a response *)

(** The tail after the last colon of a status URI. *)
Definition short (v : string) : string := of_chars (after_last ":"%char (to_chars v)).

Definition check_status (doc : Document) (root : NodeId) : result SamlError unit :=
  status ← required_child doc root NS_PROTOCOL "Status";
  code ← required_child doc status NS_PROTOCOL "StatusCode";
  let value := default EmptyString (attr doc code "Value") in
  if decide (value = STATUS_SUCCESS) then Ok ()
  else
    sub ← one_child doc code NS_PROTOCOL "StatusCode";
    let why := match sub with
               | Some sub => short value +:+ "/" +:+ short (default EmptyString (attr doc sub "Value"))
               | None => short value
               end in
    m ← one_child doc status NS_PROTOCOL "StatusMessage";
    why ← match m with
          | Some m => t ← text doc m; Ok (why +:+ ": " +:+ t)
          | None => Ok why
          end;
    refuse ("the identity provider refused the sign-in (" +:+ why +:+ ")").

Definition SHAPE : string := "a signature has a form this proxy does not accept".

Definition algorithm (doc : Document) (id : NodeId) : string := default EmptyString (attr doc id "Algorithm").

Definition target_char (c : ascii) : bool :=
  let n := N_of_ascii c in
  bool_decide ((48 ≤ n ∧ n ≤ 57) ∨ (65 ≤ n ∧ n ≤ 90) ∨ (97 ≤ n ∧ n ≤ 122))%N
  || bool_decide (c = "_"%char ∨ c = "-"%char ∨ c = "."%char).

Definition childless (doc : Document) (id : NodeId) : bool := bool_decide (child_elements doc id = []).

(** The parts of a SignedInfo: how many canonicalization and signature methods, and the references. *)
Definition signed_info_parts (doc : Document) (info : NodeId) : result SamlError (Z * Z * list NodeId) :=
  try_fold (fun '(c14n, method, references) c =>
      if is_ doc c NS_DSIG "CanonicalizationMethod" && bool_decide (algorithm doc c = EXC_C14N)
      then Ok (c14n + 1, method, references)
      else if is_ doc c NS_DSIG "SignatureMethod" && bool_decide (algorithm doc c ∈ SIGNATURE_METHODS) && childless doc c
      then Ok (c14n, method + 1, references)
      else if is_ doc c NS_DSIG "Reference" then Ok (c14n, method, references ++ [c])
      else refuse SHAPE)
    (0, 0, []) (child_elements doc info).

(** The parts of a Reference: its Transforms, and how many digest methods and values. *)
Definition reference_parts (doc : Document) (reference : NodeId) : result SamlError (option NodeId * Z * Z) :=
  try_fold (fun '(transforms, digest, value) c =>
      if is_ doc c NS_DSIG "Transforms" && negb (bool_decide (is_Some transforms)) then Ok (Some c, digest, value)
      else if is_ doc c NS_DSIG "DigestMethod" && bool_decide (algorithm doc c ∈ DIGEST_METHODS) && childless doc c
      then Ok (transforms, digest + 1, value)
      else if is_ doc c NS_DSIG "DigestValue" then Ok (transforms, digest, value + 1)
      else refuse SHAPE)
    (None, 0, 0) (child_elements doc reference).

Definition transform_ok (doc : Document) (t : NodeId) (alg : string) : bool :=
  is_ doc t NS_DSIG "Transform" && bool_decide (algorithm doc t = alg).

(** The one signature shape this proxy accepts. *)
Definition check_signature_shape (doc : Document) (sig : NodeId) : result SamlError unit :=
  if negb (forallb (fun c => is_ doc c NS_DSIG "SignedInfo" || is_ doc c NS_DSIG "SignatureValue"
                             || is_ doc c NS_DSIG "KeyInfo") (child_elements doc sig))
  then refuse SHAPE
  else
    info ← required_child doc sig NS_DSIG "SignedInfo";
    parts ← signed_info_parts doc info;
    let '(c14n, method, references) := parts in
    match only references with
    | None => refuse SHAPE
    | Some reference =>
        if negb (bool_decide (c14n = 1) && bool_decide (method = 1)) then refuse SHAPE
        else
          let uri := default EmptyString (attr doc reference "URI") in
          let target := default [] (strip_prefix ["#"%char] (to_chars uri)) in
          if bool_decide (target = []) || negb (forallb target_char target) then refuse SHAPE
          else
            rparts ← reference_parts doc reference;
            let '(transforms, digest, value) := rparts in
            match transforms with
            | None => refuse SHAPE
            | Some transforms =>
                match child_elements doc transforms with
                | [enveloped; exclusive] =>
                    if transform_ok doc enveloped ENVELOPED && childless doc enveloped
                       && transform_ok doc exclusive EXC_C14N && bool_decide (digest = 1) && bool_decide (value = 1)
                    then Ok () else refuse SHAPE
                | _ => refuse SHAPE
                end
            end
    end.

(** What one verdict proves of the signature at its place: its one reference covers the element the
    signature is in. *)
Definition proves (doc : Document) (sig : NodeId) (r : VerifyResult) : bool :=
  match r with
  | Invalid _ => false
  | Valid signature_node references =>
      if negb (bool_decide (signature_node = sig)) || negb (all_reference_digests_verified r) then false
      else
        match only references with
        | None => false
        | Some reference => bool_decide (resolved_node reference = parent doc sig)
        end
  end.

(** The verdicts under one certificate, into which signatures are valid and whether one of them
    covers the assertion. *)
Definition one_cert (doc : Document) (sigs : list NodeId) (assertion : NodeId) (acc : list bool * bool) (cert : bytes) :
    result SamlError (list bool * bool) :=
  _ ← match load_cert cert with
      | Ok _ => Ok ()
      | Err e => refuse ("a pinned certificate: " +:+ e)
      end;
  results ← match verify_all cert doc with
            | Ok r => Ok r
            | Err e => refuse ("the signature cannot be checked: " +:+ e)
            end;
  if decide (length results ≠ length sigs) then
    refuse "the signatures found differ from the signatures checked"
  else
    Ok (foldl (fun '(valid, covers) '(i, (sig, r)) =>
          if proves doc sig r then (<[i := true]> valid, covers || bool_decide (parent doc sig = Some assertion))
          else (valid, covers)) acc (imap pair (zip sigs results))).

Definition check_signatures (sp : ServiceProvider) (doc : Document) (root assertion : NodeId) : result SamlError unit :=
  let sigs := List.filter (fun n => is_ doc n NS_DSIG "Signature") (descendants doc root) in
  if decide (sigs = []) then refuse "the assertion is not signed"
  else
    _ ← try_fold (fun _ s =>
            _ ← check_signature_shape doc s;
            if decide (parent doc s ≠ Some root ∧ parent doc s ≠ Some assertion) then
              refuse "a signature is somewhere other than the Response or the Assertion"
            else Ok ()) () sigs;
    vc ← try_fold (one_cert doc sigs assertion) (replicate (length sigs) false, false) (certs (idp sp));
    let '(valid, covers_assertion) := vc in
    if negb (forallb id valid) then
      refuse "a signature did not verify against the identity provider's certificates"
    else if negb covers_assertion then refuse "the assertion is not signed"
    else Ok ().

(** [Option<i64>]'s maximum: nothing is less than something. *)
Definition opt_max (a b : option Z) : option Z :=
  match a, b with
  | Some x, Some y => Some (Z.max x y)
  | Some x, None => Some x
  | None, _ => b
  end.

(** One SubjectConfirmation, into the latest time the subject is confirmed until. *)
Definition confirm (sp : ServiceProvider) (doc : Document) (request_id : string) (now : Z)
    (until : option Z) (sc : NodeId) : result SamlError (option Z) :=
  if decide (attr doc sc "Method" ≠ Some BEARER) then Ok until
  else
    data ← one_child doc sc NS_ASSERTION "SubjectConfirmationData";
    match data with
    | None => Ok until
    | Some data =>
        u ← time_attr doc data "NotOnOrAfter";
        if bool_decide (attr doc data "Recipient" = Some (acs_url sp))
           && bool_decide (attr doc data "InResponseTo" = Some request_id)
           && bool_decide (attr doc data "NotBefore" = None)
           && match u with Some u => bool_decide (now < u + skew sp) | None => false end
        then Ok (opt_max until u) else Ok until
    end.

(** One condition, into how many audience restrictions named this proxy. *)
Definition condition (sp : ServiceProvider) (doc : Document) (audiences : Z) (c : NodeId) : result SamlError Z :=
  if is_ doc c NS_ASSERTION "AudienceRestriction" then
    ours ← try_fold (fun ours au => t ← text doc au; Ok (ours || bool_decide (t = sp_entity_id sp)))
             false (children_named doc c NS_ASSERTION "Audience");
    if negb ours then refuse ("the assertion is for another relying party, not " +:+ sp_entity_id sp)
    else Ok (audiences + 1)
  else if negb (is_ doc c NS_ASSERTION "OneTimeUse") && negb (is_ doc c NS_ASSERTION "ProxyRestriction") then
    refuse "the assertion carries a condition this proxy does not understand"
  else Ok audiences.

(** Subject and conditions: the name, and the last moment the assertion could be accepted. *)
Definition check_subject (sp : ServiceProvider) (doc : Document) (a : NodeId) (request_id : string) (now : Z) :
    result SamlError (option string * Z) :=
  subject ← required_child doc a NS_ASSERTION "Subject";
  n ← one_child doc subject NS_ASSERTION "NameID";
  name_id ← match n with Some n => t ← text doc n; Ok (Some t) | None => Ok None end;
  confirmed ← try_fold (confirm sp doc request_id now) None
                (children_named doc subject NS_ASSERTION "SubjectConfirmation");
  match confirmed with
  | None => refuse "the assertion is not addressed to this proxy's sign-in, or it has expired"
  | Some confirmed_until => Ok (name_id, confirmed_until)
  end.

Definition check_conditions (sp : ServiceProvider) (doc : Document) (a : NodeId) (now : Z) :
    result SamlError (option Z) :=
  conditions ← required_child doc a NS_ASSERTION "Conditions";
  before ← time_attr doc conditions "NotBefore";
  if match before with Some t => bool_decide (now + skew sp < t) | None => false end then
    refuse "the assertion is not valid yet; check the clocks"
  else
    conditions_until ← time_attr doc conditions "NotOnOrAfter";
    if match conditions_until with Some t => bool_decide (t + skew sp ≤ now) | None => false end then
      refuse "the assertion has expired"
    else
      audiences ← try_fold (condition sp doc) 0 (child_elements doc conditions);
      if decide (audiences = 0) then refuse "the assertion names no audience" else Ok conditions_until.

Definition check_statements (doc : Document) (a : NodeId) (now : Z) : result SamlError unit :=
  let statements := children_named doc a NS_ASSERTION "AuthnStatement" in
  if decide (statements = []) then refuse "the assertion has no AuthnStatement"
  else
    try_fold (fun _ s =>
        u ← time_attr doc s "SessionNotOnOrAfter";
        if match u with Some t => bool_decide (t ≤ now) | None => false end then
          refuse "the identity provider's session has ended; sign in again"
        else Ok ()) () statements.

(** The SID the assertion's one SID attribute holds. *)
Definition assertion_sid (sp : ServiceProvider) (doc : Document) (a : NodeId) : result SamlError string :=
  let found := List.filter (fun at_ => bool_decide (attr doc at_ "Name" = Some (sid_attribute sp)))
                 (children_named doc a NS_ASSERTION "AttributeStatement" ≫= fun st =>
                    children_named doc st NS_ASSERTION "Attribute") in
  match only found with
  | None => refuse ("the assertion must carry the " +:+ sid_attribute sp +:+ " attribute once")
  | Some sid_attr =>
      match only (children_named doc sid_attr NS_ASSERTION "AttributeValue") with
      | None => refuse ("the " +:+ sid_attribute sp +:+ " attribute must hold one value")
      | Some value =>
          raw ← text doc value;
          match canonical_sid raw with
          | Some sid => Ok sid
          | None => refuse ("the " +:+ sid_attribute sp +:+ " attribute holds " +:+ debug_string raw +:+
                            ", which is not a SID")
          end
      end
  end.

(** The checks of the Web SSO profile on the signed assertion. *)
Definition check_assertion (sp : ServiceProvider) (doc : Document) (a : NodeId) (request_id : string) (now : Z) :
    result SamlError (Verified * string * Z) :=
  if decide (attr doc a "Version" ≠ Some "2.0"%string) then refuse "the assertion is not SAML 2.0"
  else
    id ← match attr doc a "ID" with
         | Some v => if decide (v = EmptyString) then refuse "the assertion has no ID" else Ok v
         | None => refuse "the assertion has no ID"
         end;
    issuer ← required_child doc a NS_ASSERTION "Issuer";
    from ← text doc issuer;
    if decide (from ≠ idp_entity_id (idp sp)) then refuse "the assertion is from a different identity provider"
    else
      issued ← time_attr doc a "IssueInstant";
      _ ← match issued with
          | Some t => if decide (t ≤ now + skew sp) then Ok () else
              refuse "the assertion was issued in the future; check the clocks of this proxy and the identity provider"
          | None => refuse "the assertion has no IssueInstant"
          end;
      subject ← check_subject sp doc a request_id now;
      let '(name_id, confirmed_until) := subject in
      conditions_until ← check_conditions sp doc a now;
      _ ← check_statements doc a now;
      sid ← assertion_sid sp doc a;
      let expires := match conditions_until with Some c => Z.max c confirmed_until | None => confirmed_until end in
      Ok (mkVerified sid name_id, id, expires).

(** The response around the assertion, addressed to this proxy and answering this request. *)
Definition check_response (sp : ServiceProvider) (doc : Document) (root : NodeId) (request_id : string) :
    result SamlError NodeId :=
  if negb (is_ doc root NS_PROTOCOL "Response") || negb (bool_decide (attr doc root "Version" = Some "2.0"%string)) then
    refuse "the identity provider did not send a SAML 2.0 Response"
  else
    _ ← match attr doc root "InResponseTo" with
        | None => refuse "the identity provider sent a sign-in this proxy did not ask for; start the sign-in from this proxy's page"
        | Some irt =>
            if decide (irt ≠ request_id) then
              refuse "the response answers a different sign-in than this browser started; start again"
            else Ok ()
        end;
    _ ← match attr doc root "Destination" with
        | Some dest => if decide (dest ≠ acs_url sp) then
                         refuse ("the response is addressed to " +:+ dest +:+ ", not " +:+ acs_url sp) else Ok ()
        | None => Ok ()
        end;
    issuer ← one_child doc root NS_ASSERTION "Issuer";
    _ ← match issuer with
        | Some i => from ← text doc i;
                    if decide (from ≠ idp_entity_id (idp sp)) then
                      refuse "the response is from a different identity provider" else Ok ()
        | None => Ok ()
        end;
    _ ← check_status doc root;
    if negb (bool_decide (children_named doc root NS_ASSERTION "EncryptedAssertion" = [])) then
      refuse "the identity provider encrypted the assertion; ask IT to send it signed and unencrypted to this relying party"
    else
      let all := List.filter (fun n => is_ doc n NS_ASSERTION "Assertion") (descendants doc root) in
      match only (children_named doc root NS_ASSERTION "Assertion"), only all with
      | Some assertion, Some _ => Ok assertion
      | _, _ => refuse "the response must carry exactly one assertion"
      end.

(** The document a POST carries. *)
Definition decode_response (saml_response : string) : result SamlError Document :=
  let compact := without_whitespace saml_response in
  if decide (MAX_RESPONSE_BYTES / 3 * 4 + 4 < len (to_chars compact)) then
    refuse "the identity provider's response is too large"
  else
    match base64_decode compact with
    | Err _ => refuse "the identity provider's response is not base64"
    | Ok bytes =>
        match from_utf8 bytes with
        | None => refuse "the identity provider's response is not UTF-8"
        | Some xml =>
            match xml_parse xml with
            | Ok d => Ok d
            | Err e => refuse ("the identity provider's response is refused: " +:+ e)
            end
        end
    end.

(** Everything [accept] checks before it looks at what was used. *)
Definition check_all (sp : ServiceProvider) (saml_response : string) (flow : option string) (now : Z) :
    result SamlError (string * (Verified * string * Z)) :=
  request_id ← flow_request sp flow now;
  doc ← decode_response saml_response;
  _ ← plain doc;
  match document_element doc with
  | None => refuse "the identity provider's response is empty"
  | Some root =>
      assertion ← check_response sp doc root request_id;
      _ ← check_signatures sp doc root assertion;
      checked ← check_assertion sp doc assertion request_id now;
      Ok (request_id, checked)
  end.

Definition request_key (id : string) : string := "r:" +:+ id.
Definition assertion_key (id : string) : string := "a:" +:+ id.

(** [spent.retain(|_, until| *until > now)]. *)
Definition retain (now : Z) (spent : Spent) : Spent := filter (fun ku => now < ku.2) spent.

(** [ServiceProvider::accept]. *)
Definition accept (sp : ServiceProvider) (saml_response : string) (flow : option string) (now : Z) :
    M Spent SamlError Verified := fun spent =>
  match check_all sp saml_response flow now with
  | Err e => (Err e, spent)
  | Ok (request_id, (verified, assertion_id, expires)) =>
      let spent := retain now spent in
      if decide (is_Some (spent !! request_key request_id) ∨ is_Some (spent !! assertion_key assertion_id)) then
        (refuse "this sign-in was already used; start again", spent)
      else if decide (MAX_SPENT < size spent + 2)%nat then
        (refuse "too many sign-ins in the last few minutes; try again shortly", spent)
      else
        (Ok verified,
         <[assertion_key assertion_id := Z.max expires (now + FLOW_SECS) + skew sp]>
           (<[request_key request_id := now + FLOW_SECS + skew sp]> spent))
  end.
End provider.
