(* ===== verification/SamlFacts.v ===== *)
(** * What single sign-on guarantees

    What an accepted response carries, that it is accepted once, that the table of used responses
    stays bounded, and that a flow cookie answers for the browser it was given to until it expires. *)

From S2P Require Import Prelude Text Utf8 Auth AuthFacts Vault VaultFacts Directory Instant Xml Saml.
Local Open Scope Z_scope.

(** Steps of a computation that may fail. *)
Lemma result_bind_Ok {E A B} (m : result E A) (f : A → result E B) b :
  (m ≫= f) = Ok b ↔ ∃ a, m = Ok a ∧ f a = Ok b.
Proof. destruct m; simpl; naive_solver. Qed.

Lemma only_Some {A} (l : list A) x : only l = Some x ↔ l = [x].
Proof. destruct l as [|y [|z l]]; simpl; naive_solver. Qed.

Section accepted.
Context {L : SamlLib} (sp : ServiceProvider).
Implicit Types (doc : Document) (id sig : NodeId).

(** ** Signatures *)

(** A pinned certificate's verdict on this signature: valid, of this very element, with one
    reference whose digest was checked and which covers the element that holds the signature. *)
Definition vouches doc sig (signed : NodeId) : Prop :=
  parent doc sig = Some signed ∧
  ∃ cert results r, cert ∈ certs (idp sp) ∧ verify_all cert doc = Ok results ∧
    Valid sig [r] ∈ results ∧ digest_verified r = true ∧ resolved_node r = Some signed.

Lemma proves_true doc sig r :
  proves doc sig r = true ↔ ∃ ref, r = Valid sig [ref] ∧ digest_verified ref = true ∧ resolved_node ref = parent doc sig.
Proof.
  unfold proves. destruct r as [node refs|]; [|naive_solver]. split.
  - destruct (all_reference_digests_verified (Valid node refs)) eqn:Hd; [|by rewrite orb_true_r].
    case_bool_decide as Hn; [|done]. cbn [negb orb].
    destruct (only refs) as [ref|] eqn:Ho; [|done]. apply only_Some in Ho as ->. intros Hr%bool_decide_eq_true.
    simpl in Hd. rewrite andb_true_r in Hd. subst. eauto.
  - intros (ref & [= -> ->] & Hd & Hr). rewrite bool_decide_eq_true_2 by done. simpl. rewrite Hd. simpl.
    by apply bool_decide_eq_true.
Qed.

(** What the verdicts of one certificate added. *)
Lemma verdicts_fold doc (l : list (nat * (NodeId * VerifyResult))) assertion valid covers valid' covers' :
  foldl (fun '(valid, covers) '(i, (sig, r)) =>
    if proves doc sig r then (<[i := true]> valid, covers || bool_decide (parent doc sig = Some assertion))
    else (valid, covers)) (valid, covers) l = (valid', covers') →
  length valid' = length valid ∧
  (∀ i, valid' !! i = Some true → valid !! i = Some true ∨ ∃ sig r, (i, (sig, r)) ∈ l ∧ proves doc sig r = true) ∧
  (covers' = true → covers = true ∨ ∃ i sig r, (i, (sig, r)) ∈ l ∧ proves doc sig r = true ∧ parent doc sig = Some assertion).
Proof.
  revert valid covers. induction l as [|[i [sig r]] l IH]; intros valid covers; simpl.
  - intros [= <- <-]. split_and!; [done|tauto|tauto].
  - intros H. destruct (proves doc sig r) eqn:Hp; apply IH in H as (Hl & Hv & Hc).
    + split_and!.
      * by rewrite Hl, length_insert.
      * intros k [Hk|(s & r' & Hin & Hp')]%Hv; [|right; exists s, r'; split; [by right|done]].
        destruct (decide (k = i)) as [->|Hne]; [right; exists sig, r; split; [by left|done]|].
        left. by rewrite list_lookup_insert_ne in Hk.
      * intros [Hx|(k & s & r' & Hin & Hp' & Hpar)]%Hc.
        -- apply orb_true_iff in Hx as [Hx|Hx%bool_decide_eq_true]; [by left|]. right.
           exists i, sig, r. split_and!; [by left|done..].
        -- right. exists k, s, r'. split_and!; [by right|done..].
    + split_and!; [done|..].
      * intros k [Hk|(s & r' & Hin & Hp')]%Hv; [by left|]. right. exists s, r'. split; [by right|done].
      * intros [Hx|(k & s & r' & Hin & Hp' & Hpar)]%Hc; [by left|]. right. exists k, s, r'.
        split_and!; [by right|done..].
Qed.

(** A verdict found under a certificate. *)
Definition verdict doc sig : Prop :=
  ∃ cert results ref, cert ∈ certs (idp sp) ∧ verify_all cert doc = Ok results ∧
    Valid sig [ref] ∈ results ∧ digest_verified ref = true ∧ resolved_node ref = parent doc sig.

Lemma one_cert_spec doc sigs assertion valid covers cert valid' covers' :
  one_cert doc sigs assertion (valid, covers) cert = Ok (valid', covers') → cert ∈ certs (idp sp) →
  length valid' = length valid ∧
  (∀ i, valid' !! i = Some true → valid !! i = Some true ∨ ∃ sig, sigs !! i = Some sig ∧ verdict doc sig) ∧
  (covers' = true → covers = true ∨ ∃ sig, sig ∈ sigs ∧ verdict doc sig ∧ parent doc sig = Some assertion).
Proof.
  unfold one_cert. intros H Hcert. apply result_bind_Ok in H as ([] & _ & H).
  apply result_bind_Ok in H as (results & Hver & H). case_decide as Hlen; [done|].
  assert (verify_all cert doc = Ok results) as Hres by (destruct (verify_all cert doc); by simplify_eq).
  injection H as H.
  assert (∀ i sig r, (i, (sig, r)) ∈ imap pair (zip sigs results) → proves doc sig r = true →
    sigs !! i = Some sig ∧ verdict doc sig) as Hv.
  { intros i sig r (k & x & Hx & Hk)%elem_of_lookup_imap Hp. injection Hx as -> <-.
    apply lookup_zip_with_Some in Hk as (s & r' & [= <- <-] & Hs & Hr). split; [done|].
    apply proves_true in Hp as (ref & -> & Hd & Hn). exists cert, results, ref.
    split_and!; [done..| |done|done]. by eapply list_elem_of_lookup_2. }
  apply verdicts_fold in H as (Hl & Hval & Hcov). split_and!; [done|..].
  - intros i [Hi|(sig & r & Hin & Hp)]%Hval; [by left|]. right. exists sig. by eapply Hv.
  - intros [Hc|(i & sig & r & Hin & Hp & Hpar)]%Hcov; [by left|]. right. destruct (Hv _ _ _ Hin Hp) as [Hs Hver'].
    exists sig. split_and!; [by eapply list_elem_of_lookup_2|done..].
Qed.

Lemma certs_fold doc sigs assertion cs valid covers valid' covers' :
  try_fold (one_cert doc sigs assertion) (valid, covers) cs = Ok (valid', covers') → cs ⊆ certs (idp sp) →
  (∀ i, valid !! i = Some true → ∃ sig, sigs !! i = Some sig ∧ verdict doc sig) →
  (covers = true → ∃ sig, sig ∈ sigs ∧ verdict doc sig ∧ parent doc sig = Some assertion) →
  length valid' = length valid ∧
  (∀ i, valid' !! i = Some true → ∃ sig, sigs !! i = Some sig ∧ verdict doc sig) ∧
  (covers' = true → ∃ sig, sig ∈ sigs ∧ verdict doc sig ∧ parent doc sig = Some assertion).
Proof.
  revert valid covers. induction cs as [|c cs IH]; intros valid covers H Hcs Hv Hc; simpl in H.
  - by injection H as <- <-.
  - apply result_bind_Ok in H as ([valid1 covers1] & H1 & H).
    apply one_cert_spec in H1 as (Hl & Hv1 & Hc1); [|apply Hcs; by left].
    destruct (IH _ _ H) as (Hl' & ? & ?); [set_solver|naive_solver|naive_solver|]. split_and!; [congruence|done..].
Qed.

(** The signatures of a document that passed. *)
Lemma check_signatures_Ok doc root assertion :
  check_signatures sp doc root assertion = Ok () →
  (∀ sig, sig ∈ descendants doc root → is_ doc sig NS_DSIG "Signature" = true →
     ∃ signed, (signed = root ∨ signed = assertion) ∧ check_signature_shape doc sig = Ok () ∧ vouches doc sig signed) ∧
  ∃ sig, sig ∈ descendants doc root ∧ is_ doc sig NS_DSIG "Signature" = true ∧ vouches doc sig assertion.
Proof.
  unfold check_signatures. set (sigs := List.filter _ _). case_decide as Hne; [done|]. intros H.
  assert (∀ s, s ∈ sigs ↔ s ∈ descendants doc root ∧ is_ doc s NS_DSIG "Signature" = true) as Hsigs.
  { intros s. unfold sigs. rewrite list_elem_of_In, filter_In, <-list_elem_of_In. done. }
  clearbody sigs. apply result_bind_Ok in H as ([] & Hshape & H).
  apply result_bind_Ok in H as ([valid covers] & Hfold & H).
  destruct (forallb id valid) eqn:Hall; [|done]. destruct covers; [|done].
  apply certs_fold in Hfold as (Hlen & Hvalid & Hcov); [|done| |done].
  2: { intros i Hi. apply lookup_replicate in Hi as [[=] _]. }
  assert (∀ sig, verdict doc sig → ∀ signed, parent doc sig = Some signed → vouches doc sig signed) as Hvouch.
  { intros sig (cert & results & ref & Hc & Hr & Hin & Hd & Hn) signed Hp. split; [done|].
    exists cert, results, ref. split_and!; [done..|congruence]. }
  split.
  - intros sig Hd Hi. assert (sig ∈ sigs) as Hin by by apply Hsigs.
    destruct (try_fold_all _ _ _ _ _ Hshape Hin) as ([] & [] & Hs).
    apply result_bind_Ok in Hs as ([] & Hsh & Hs). case_decide as Hpar; [done|].
    assert (verdict doc sig) as Hver.
    { apply list_elem_of_lookup_1 in Hin as [i Hi']. destruct (Hvalid i) as (sig' & Hs' & Hv).
      - rewrite length_replicate in Hlen. destruct (lookup_lt_is_Some_2 valid i) as [b Hb].
        { rewrite Hlen. by eapply lookup_lt_Some. }
        rewrite forallb_forall in Hall. rewrite Hb. f_equal. apply (Hall b), list_elem_of_In.
        by eapply list_elem_of_lookup_2.
      - rewrite Hi' in Hs'. by injection Hs' as <-. }
    destruct (decide (parent doc sig = Some root)) as [Hp|Hp]; [exists root; eauto|].
    destruct (decide (parent doc sig = Some assertion)) as [Hp'|Hp']; [exists assertion; eauto|].
    by destruct Hpar.
  - destruct (Hcov eq_refl) as (sig & Hin & Hver & Hp). apply Hsigs in Hin as [Hd Hi].
    exists sig. split_and!; [done..|]. by apply Hvouch.
Qed.

(** ** The subject *)

(** One confirmation of the subject: a bearer of this assertion at this proxy, in answer to this
    request, until [u]. *)
Definition confirmation doc (sc : NodeId) (request_id : string) (u : Z) : Prop :=
  ∃ data, attr doc sc "Method" = Some BEARER ∧
    children_named doc sc NS_ASSERTION "SubjectConfirmationData" = [data] ∧
    attr doc data "Recipient" = Some (acs_url sp) ∧ attr doc data "InResponseTo" = Some request_id ∧
    attr doc data "NotBefore" = None ∧ time_attr doc data "NotOnOrAfter" = Ok (Some u).

(** The data of a confirmation is not of the form looked at. *)
Ltac other := intros u' (data' & _ & Hd' & R1 & R2 & R3 & R4); congruence.

Lemma confirm_Ok doc request_id now until sc until' :
  confirm sp doc request_id now until sc = Ok until' →
  (until' = until ∧ ∀ u, confirmation doc sc request_id u → u + skew sp ≤ now) ∨
  ∃ u, until' = opt_max until (Some u) ∧ confirmation doc sc request_id u ∧ now < u + skew sp.
Proof.
  unfold confirm, confirmation. case_decide as Hm; [intros [= <-]; left; split; [done|]; by intros u (data & Hb & _)|].
  intros H. apply result_bind_Ok in H as (data & Hd & H). destruct data as [data|].
  - apply one_child_Ok in Hd. apply result_bind_Ok in H as (u & Hu & H).
    destruct (bool_decide (attr doc data "Recipient" = _)) eqn:B1; [apply bool_decide_eq_true in B1|
      apply bool_decide_eq_false in B1; injection H as <-; left; split; [done|]; other].
    destruct (bool_decide (attr doc data "InResponseTo" = _)) eqn:B2; [apply bool_decide_eq_true in B2|
      apply bool_decide_eq_false in B2; injection H as <-; left; split; [done|]; other].
    destruct (bool_decide (attr doc data "NotBefore" = _)) eqn:B3; [apply bool_decide_eq_true in B3|
      apply bool_decide_eq_false in B3; injection H as <-; left; split; [done|]; other].
    destruct u as [u|]; [|injection H as <-; left; split; [done|]; other].
    cbn [andb] in H. case_bool_decide as Ht; injection H as <-.
    + right. exists u. split_and!; [done| |done]. exists data. by split_and!.
    + left. split; [done|]. intros u' (data' & _ & Hd' & _ & _ & _ & Hu'). rewrite Hd in Hd'. injection Hd' as <-.
      rewrite Hu in Hu'. injection Hu' as <-. lia.
  - injection H as <-. left. split; [done|]. intros u (data & _ & Hd' & _). unfold one_child in Hd. by rewrite Hd' in Hd.
Qed.

(** The loop over the confirmations ends with the latest that has not passed. *)
Lemma confirmed_fold doc request_id now l seen seen' :
  try_fold (confirm sp doc request_id now) seen l = Ok seen' →
  (∀ u, seen' = Some u → seen = Some u ∨ ∃ sc, sc ∈ l ∧ confirmation doc sc request_id u ∧ now < u + skew sp) ∧
  (∀ u, seen = Some u → ∃ c, seen' = Some c ∧ u ≤ c) ∧
  (∀ sc u, sc ∈ l → confirmation doc sc request_id u → now < u + skew sp → ∃ c, seen' = Some c ∧ u ≤ c).
Proof.
  revert seen. induction l as [|sc l IH]; intros seen H; simpl in H.
  - injection H as <-. split_and!; [naive_solver|naive_solver|]. intros sc u Hsc. by apply not_elem_of_nil in Hsc.
  - apply result_bind_Ok in H as (seen1 & H1 & H). apply IH in H as (Hres & Hkeep & Hall).
    apply confirm_Ok in H1 as [[-> Hnone]|(u1 & -> & Hconf & Ht)].
    + split_and!.
      * intros u [Hu|(sc' & Hin & Hc)]%Hres; [by left|]. right. exists sc'. split; [by right|done].
      * done.
      * intros sc' u [->|Hin]%elem_of_cons Hc Hu; [specialize (Hnone u Hc); lia|]. by eapply Hall.
    + assert (∃ c, seen' = Some c ∧ u1 ≤ c ∧ ∀ u, seen = Some u → u ≤ c) as (c & Hc & Hu1 & Hseen).
      { destruct seen as [u0|]; simpl in Hkeep.
        - destruct (Hkeep _ eq_refl) as (c & Hc & Hle). exists c. split_and!; [done|lia|]. intros u [= ->]. lia.
        - destruct (Hkeep _ eq_refl) as (c & Hc & Hle). exists c. split_and!; [done|lia|done]. }
      split_and!.
      * intros u [Hu|(sc' & Hin & Hcc)]%Hres; [|right; exists sc'; split; [by right|done]].
        destruct seen as [u0|]; simpl in Hu; injection Hu as <-.
        -- destruct (Z.max_spec u0 u1) as [[_ ->]|[_ ->]]; [|by left]. right. exists sc. split; [by left|done].
        -- right. exists sc. split; [by left|done].
      * intros u Hu. exists c. split; [done|]. by apply Hseen.
      * intros sc' u [->|Hin]%elem_of_cons Hcc Hu; [|by eapply Hall]. exists c. split; [done|].
        destruct Hconf as (d1 & _ & E1 & _ & _ & _ & T1), Hcc as (d2 & _ & E2 & _ & _ & _ & T2).
        rewrite E1 in E2. injection E2 as <-. rewrite T1 in T2. by injection T2 as <-.
Qed.

(** ** The assertion *)

Lemma check_subject_Ok doc a request_id now name_id u :
  check_subject sp doc a request_id now = Ok (name_id, u) →
  ∃ subject, children_named doc a NS_ASSERTION "Subject" = [subject] ∧
    (∃ sc, sc ∈ children_named doc subject NS_ASSERTION "SubjectConfirmation" ∧
       confirmation doc sc request_id u ∧ now < u + skew sp) ∧
    (∀ sc u', sc ∈ children_named doc subject NS_ASSERTION "SubjectConfirmation" →
       confirmation doc sc request_id u' → now < u' + skew sp → u' ≤ u).
Proof.
  unfold check_subject. intros H. apply result_bind_Ok in H as (subject & Hs & H). apply required_child_Ok in Hs.
  apply result_bind_Ok in H as (n & _ & H). apply result_bind_Ok in H as (name & _ & H).
  apply result_bind_Ok in H as (confirmed & Hf & H). destruct confirmed as [c|]; [|done]. injection H as _ <-.
  apply confirmed_fold in Hf as (Hres & _ & Hall). exists subject. split_and!; [done|..].
  - destruct (Hres _ eq_refl) as [[=]|?]. done.
  - intros sc u' Hin Hc Hu. destruct (Hall sc u' Hin Hc Hu) as (c' & [= <-] & Hle). done.
Qed.

(** An audience restriction of these conditions names this proxy. *)
Definition for_this_proxy doc a : Prop :=
  ∃ conditions c au, children_named doc a NS_ASSERTION "Conditions" = [conditions] ∧
    c ∈ children doc conditions ∧ is_ doc c NS_ASSERTION "AudienceRestriction" = true ∧
    au ∈ children_named doc c NS_ASSERTION "Audience" ∧ text doc au = Ok (sp_entity_id sp).

Lemma audience_fold doc l b b' :
  try_fold (fun ours au => t ← text doc au; Ok (ours || bool_decide (t = sp_entity_id sp))) b l = Ok b' →
  b' = true → b = true ∨ ∃ au, au ∈ l ∧ text doc au = Ok (sp_entity_id sp).
Proof.
  revert b. induction l as [|au l IH]; intros b H Hb; simpl in H; [injection H as ->; by left|].
  apply result_bind_Ok in H as (b1 & H1 & H). apply result_bind_Ok in H1 as (t & Ht & [= <-]).
  destruct (IH _ H Hb) as [[Hx|Hx%bool_decide_eq_true]%orb_true_iff|(au' & Hin & Hau)].
  - by left.
  - right. exists au. split; [by left|]. congruence.
  - right. exists au'. split; [by right|done].
Qed.

Lemma conditions_fold doc l n n' :
  try_fold (condition sp doc) n l = Ok n' → 0 ≤ n →
  n ≤ n' ∧ (n' ≠ n → ∃ c au, c ∈ l ∧ is_ doc c NS_ASSERTION "AudienceRestriction" = true ∧
    au ∈ children_named doc c NS_ASSERTION "Audience" ∧ text doc au = Ok (sp_entity_id sp)).
Proof.
  revert n. induction l as [|c l IH]; intros n H Hn; simpl in H; [injection H as ->; done|].
  apply result_bind_Ok in H as (n1 & H1 & H). unfold condition in H1.
  destruct (is_ doc c NS_ASSERTION "AudienceRestriction") eqn:Hc.
  - apply result_bind_Ok in H1 as (ours & Ho & H1). destruct ours; [|done]. injection H1 as <-.
    destruct (audience_fold _ _ _ _ Ho eq_refl) as [[=]|(au & Hin & Hau)].
    destruct (IH _ H ltac:(lia)) as [Hle _]. split; [lia|]. intros _. exists c, au. split_and!; [by left|done..].
  - destruct (_ && _) in H1; [done|]. injection H1 as <-. destruct (IH _ H Hn) as [Hle Hex]. split; [done|].
    intros Hne. destruct (Hex Hne) as (c' & au & Hin & Hrest). exists c', au. split; [by right|done].
Qed.

Lemma check_conditions_Ok doc a now cu :
  check_conditions sp doc a now = Ok cu → for_this_proxy doc a ∧ ∀ t, cu = Some t → now < t + skew sp.
Proof.
  unfold check_conditions. intros H. apply result_bind_Ok in H as (conditions & Hc & H).
  apply required_child_Ok in Hc. apply result_bind_Ok in H as (before & _ & H).
  destruct (match before with Some _ => _ | None => _ end); [done|].
  apply result_bind_Ok in H as (until_ & _ & H).
  destruct (match until_ with Some _ => _ | None => _ end) eqn:Hu; [done|].
  apply result_bind_Ok in H as (n & Hn & H). case_decide as Hz; [done|]. injection H as <-.
  apply conditions_fold in Hn as [_ Hex]; [|lia]. destruct (Hex ltac:(done)) as (c & au & Hin & Hi & Hau & Ht).
  split.
  - exists conditions, c, au. split_and!; try done. unfold child_elements in Hin.
    rewrite list_elem_of_In, filter_In, <-list_elem_of_In in Hin. by destruct Hin.
  - intros t ->. apply bool_decide_eq_false in Hu. lia.
Qed.

(** The one SID attribute of the assertion and its text. *)
Definition names_account doc a (sid : string) : Prop :=
  ∃ st at_ value raw, st ∈ children_named doc a NS_ASSERTION "AttributeStatement" ∧
    at_ ∈ children_named doc st NS_ASSERTION "Attribute" ∧ attr doc at_ "Name" = Some (sid_attribute sp) ∧
    children_named doc at_ NS_ASSERTION "AttributeValue" = [value] ∧ text doc value = Ok raw ∧
    canonical_sid raw = Some sid.

Lemma assertion_sid_Ok doc a sid : assertion_sid sp doc a = Ok sid → names_account doc a sid.
Proof.
  unfold assertion_sid. set (found := List.filter _ _). destruct (only found) as [at_|] eqn:Hf; [|done].
  apply only_Some in Hf. destruct (only (children_named doc at_ _ _)) as [value|] eqn:Hv; [|done].
  apply only_Some in Hv. intros H. apply result_bind_Ok in H as (raw & Hr & H).
  destruct (canonical_sid raw) as [x|] eqn:Hc; [|done]. injection H as ->.
  assert (at_ ∈ found) as Hin by (rewrite Hf; by left). unfold found in Hin.
  rewrite list_elem_of_In, filter_In, <-list_elem_of_In in Hin. destruct Hin as [Hin Hn%bool_decide_eq_true].
  apply list_elem_of_bind in Hin as (st & Hat & Hst). exists st, at_, value, raw. done.
Qed.

Lemma check_assertion_Ok doc a request_id now v aid expires :
  check_assertion sp doc a request_id now = Ok (v, aid, expires) →
  attr doc a "ID" = Some aid ∧ names_account doc a (v_sid v) ∧ for_this_proxy doc a ∧
  (∃ issuer, children_named doc a NS_ASSERTION "Issuer" = [issuer] ∧ text doc issuer = Ok (idp_entity_id (idp sp))) ∧
  ∃ name_id u, check_subject sp doc a request_id now = Ok (name_id, u) ∧ u ≤ expires.
Proof.
  unfold check_assertion. case_decide as Hver; [done|]. intros H. apply result_bind_Ok in H as (x & Hid & H).
  apply result_bind_Ok in H as (issuer & Hiss & H). apply required_child_Ok in Hiss.
  apply result_bind_Ok in H as (from & Hfrom & H). case_decide as Hf; [done|].
  apply result_bind_Ok in H as (issued & _ & H). apply result_bind_Ok in H as (y & _ & H).
  apply result_bind_Ok in H as ([name_id u] & Hsub & H). apply result_bind_Ok in H as (cu & Hcond & H).
  apply result_bind_Ok in H as (z & _ & H). apply result_bind_Ok in H as (sid & Hsid & H).
  injection H as <- <- <-. apply check_conditions_Ok in Hcond as [Hours _]. split_and!.
  - destruct (attr doc a "ID") as [w|]; [|done]. case_decide; [done|]. congruence.
  - by apply assertion_sid_Ok.
  - done.
  - exists issuer. split; [done|]. rewrite Hfrom. by f_equal.
  - exists name_id, u. split; [done|]. destruct cu; lia.
Qed.

(** ** The response *)

Lemma children_descendants doc id c : c ∈ children doc id → c ∈ descendants doc id.
Proof.
  unfold descendants. intros Hc. destruct (length (nodes doc)) as [|n] eqn:Hn.
  - unfold children in Hc. rewrite Hn in Hc. by apply not_elem_of_nil in Hc.
  - simpl. apply list_elem_of_bind. exists c. split; [by left|done].
Qed.

Lemma check_response_Ok doc root request_id assertion :
  check_response sp doc root request_id = Ok assertion →
  is_ doc root NS_PROTOCOL "Response" = true ∧ attr doc root "InResponseTo" = Some request_id ∧
  (∀ dest, attr doc root "Destination" = Some dest → dest = acs_url sp) ∧
  assertion ∈ children doc root ∧ is_ doc assertion NS_ASSERTION "Assertion" = true ∧
  children_named doc root NS_ASSERTION "Assertion" = [assertion] ∧
  ∀ n, n ∈ descendants doc root → is_ doc n NS_ASSERTION "Assertion" = true → n = assertion.
Proof.
  unfold check_response. destruct (is_ doc root NS_PROTOCOL "Response") eqn:Hr; [|done].
  destruct (bool_decide (attr doc root "Version" = _)); [|done]. cbn [negb orb]. intros H.
  apply result_bind_Ok in H as (x & Hirt & H). apply result_bind_Ok in H as (y & Hdest & H).
  apply result_bind_Ok in H as (issuer & _ & H). apply result_bind_Ok in H as (z & _ & H).
  apply result_bind_Ok in H as (w & _ & H). destruct (negb _) in H; [done|].
  destruct (only (children_named doc root NS_ASSERTION "Assertion")) as [a|] eqn:Hd; [|done].
  destruct (only (List.filter _ _)) as [one|] eqn:Ha in H; [|done]. injection H as <-. apply only_Some in Hd, Ha.
  assert (a ∈ children_named doc root NS_ASSERTION "Assertion") as [Hc Hi]%elem_of_children_named
    by (rewrite Hd; by left).
  split_and!; try done.
  - destruct (attr doc root "InResponseTo") as [irt|]; [|done]. case_decide as E; [done|].
    by f_equal.
  - intros dest E. rewrite E in Hdest. by case_decide as E'.
  - assert (∀ n, n ∈ descendants doc root → is_ doc n NS_ASSERTION "Assertion" = true → n = one) as Hone.
    { intros n Hn Hin. apply (list_elem_of_singleton n one). rewrite <-Ha.
      by rewrite list_elem_of_In, filter_In, <-list_elem_of_In. }
    intros n Hn Hin. rewrite (Hone n Hn Hin). symmetry. apply Hone; [by apply children_descendants|done].
Qed.

(** No comment and no processing instruction in the document. *)
Lemma plain_Ok doc n :
  plain doc = Ok () → n ∈ descendants doc (Xml.root doc) →
  ∀ t, node_kind doc n ≠ Some (NComment t) ∧ node_kind doc n ≠ Some (NProcessingInstruction t).
Proof.
  unfold plain. intros H Hn t. destruct (try_fold_all _ _ _ _ _ H Hn) as ([] & [] & Hk).
  by destruct (node_kind doc n) as [[]|].
Qed.

(** What the checks before the table of used responses establish. *)
Record checked (response : string) (flow : option string) (now : Z) (request_id : string) (v : Verified)
    (aid : string) (expires : Z) (doc : Document) (root assertion : NodeId) : Prop := {
  ck_flow : flow_request sp flow now = Ok request_id;
  ck_doc : decode_response response = Ok doc;
  ck_root : document_element doc = Some root;
  ck_plain : plain doc = Ok ();
  ck_response : check_response sp doc root request_id = Ok assertion;
  ck_signed : check_signatures sp doc root assertion = Ok ();
  ck_assertion : check_assertion sp doc assertion request_id now = Ok (v, aid, expires);
}.

Lemma check_all_Ok response flow now request_id v aid expires :
  check_all sp response flow now = Ok (request_id, (v, aid, expires)) ↔
  ∃ doc root assertion, checked response flow now request_id v aid expires doc root assertion.
Proof.
  unfold check_all. split.
  - intros H. apply result_bind_Ok in H as (rid & Hf & H). apply result_bind_Ok in H as (doc & Hd & H).
    apply result_bind_Ok in H as ([] & Hp & H). destruct (document_element doc) as [root|] eqn:Hr; [|done].
    apply result_bind_Ok in H as (assertion & Ha & H). apply result_bind_Ok in H as ([] & Hs & H).
    apply result_bind_Ok in H as (c & Hc & [= <- ->]). exists doc, root, assertion. done.
  - intros (doc & root & assertion & []). rewrite ck_flow0. simpl. rewrite ck_doc0. simpl. rewrite ck_plain0. simpl.
    rewrite ck_root0, ck_response0. simpl. rewrite ck_signed0. simpl. by rewrite ck_assertion0.
Qed.

(** What [accept] does with its table. *)
Lemma accept_Ok response flow now spent v spent' :
  accept sp response flow now spent = (Ok v, spent') ↔
  ∃ rid aid expires, check_all sp response flow now = Ok (rid, (v, aid, expires)) ∧
    (∀ u, spent !! request_key rid = Some u → u ≤ now) ∧ (∀ u, spent !! assertion_key aid = Some u → u ≤ now) ∧
    (size (retain now spent) + 2 ≤ MAX_SPENT)%nat ∧
    spent' = <[assertion_key aid := Z.max expires (now + FLOW_SECS) + skew sp]>
      (<[request_key rid := now + FLOW_SECS + skew sp]> (retain now spent)).
Proof.
  assert (∀ k, (¬ is_Some (retain now spent !! k)) ↔ ∀ u, spent !! k = Some u → u ≤ now) as Hgone.
  { intros k. unfold retain. rewrite <-eq_None_not_Some, map_lookup_filter_None. split.
    - intros [Hn|Hn] u Hu; [by rewrite Hu in Hn|]. specialize (Hn u Hu). simpl in Hn. lia.
    - intros Hu. right. intros u Hk. specialize (Hu u Hk). simpl. lia. }
  unfold accept. split.
  - destruct (check_all sp response flow now) as [[rid [[v' aid] expires]]|] eqn:Hc; [|done].
    case_decide as Hk; [done|]. case_decide as Hsz; [done|]. intros [= <- <-]. exists rid, aid, expires.
    split_and!; [done|..|lia|done]; apply Hgone; tauto.
  - intros (rid & aid & expires & -> & Hr%Hgone & Ha%Hgone & Hsz & ->).
    rewrite decide_False by tauto. by rewrite decide_False by lia.
Qed.

(** C8. What an accepted response carries. The browser's flow cookie is one this proxy signed and has
    not expired, and the response answers its request; the document has no comment and no processing
    instruction; there is one Assertion in it, a child of the Response, and a pinned certificate
    vouches for a signature inside that Assertion whose single, checked reference is that Assertion;
    every other signature is vouched for as well; the Assertion is from the pinned identity
    provider, is confirmed for this proxy's address and this request and has not expired, and names
    this proxy as its audience; and the SID that comes out is the text of its SID attribute. *)
Theorem accepted_is_vouched (response : string) (flow : option string) (now : Z) (spent : Spent) (v : Verified)
    (spent' : Spent) :
  accept sp response flow now spent = (Ok v, spent') →
  ∃ doc root assertion request_id, flow_request sp flow now = Ok request_id ∧
    decode_response response = Ok doc ∧ document_element doc = Some root ∧
    (∀ n t, n ∈ descendants doc (Xml.root doc) →
       node_kind doc n ≠ Some (NComment t) ∧ node_kind doc n ≠ Some (NProcessingInstruction t)) ∧
    attr doc root "InResponseTo" = Some request_id ∧
    (∀ dest, attr doc root "Destination" = Some dest → dest = acs_url sp) ∧
    assertion ∈ children doc root ∧
    (∀ n, n ∈ descendants doc root → is_ doc n NS_ASSERTION "Assertion" = true ↔ n = assertion) ∧
    (∃ sig, sig ∈ descendants doc root ∧ vouches doc sig assertion) ∧
    (∀ sig, sig ∈ descendants doc root → is_ doc sig NS_DSIG "Signature" = true →
       ∃ signed, (signed = root ∨ signed = assertion) ∧ vouches doc sig signed) ∧
    (∃ issuer, children_named doc assertion NS_ASSERTION "Issuer" = [issuer] ∧
       text doc issuer = Ok (idp_entity_id (idp sp))) ∧
    (∃ subject sc u, children_named doc assertion NS_ASSERTION "Subject" = [subject] ∧
       sc ∈ children_named doc subject NS_ASSERTION "SubjectConfirmation" ∧
       confirmation doc sc request_id u ∧ now < u + skew sp) ∧
    for_this_proxy doc assertion ∧ names_account doc assertion (v_sid v).
Proof.
  intros H. apply accept_Ok in H as (rid & aid & expires & Hc & _).
  apply check_all_Ok in Hc as (doc & root & assertion & [Hflow Hdoc Hroot Hplain Hresp Hsig Hass]).
  apply check_response_Ok in Hresp as (_ & Hirt & Hdest & Hin & Hi & _ & Hone).
  apply check_signatures_Ok in Hsig as [Hall (sig & Hsig & _ & Hv)].
  apply check_assertion_Ok in Hass as (_ & Hsid & Hours & Hiss & name_id & u & Hsub & _).
  apply check_subject_Ok in Hsub as (subject & Hs & (sc & Hsc & Hconf & Hu) & _).
  exists doc, root, assertion, rid. split_and!; try done.
  - intros n t Hn. by apply plain_Ok.
  - intros n Hn. split; [by apply Hone|by intros ->].
  - eauto.
  - intros s Hs' Hs2. destruct (Hall s Hs' Hs2) as (signed & Hor & _ & Hv'). eauto.
  - eauto 10.
Qed.

(** ** Once *)

(** A run of responses from browsers, in the order they were checked. *)
Definition run (reqs : list (string * option string * Z)) (spent : Spent) : Spent :=
  foldl (fun spent r => snd (accept sp r.1.1 r.1.2 r.2 spent)) spent reqs.

Lemma retain_Some now spent k u : spent !! k = Some u → now < u → retain now spent !! k = Some u.
Proof. intros Hk Hu. by apply map_lookup_filter_Some. Qed.

(** An entry stays until it is due, whatever comes. *)
Lemma accept_keeps response flow now spent k u :
  spent !! k = Some u → now < u → snd (accept sp response flow now spent) !! k = Some u.
Proof.
  intros Hk Hu. destruct (accept sp response flow now spent) as [[v|e] spent'] eqn:E; simpl.
  - apply accept_Ok in E as (rid & aid & expires & _ & Hr & Ha & _ & ->).
    assert (k ≠ assertion_key aid) by (intros ->; specialize (Ha u Hk); lia).
    assert (k ≠ request_key rid) by (intros ->; specialize (Hr u Hk); lia).
    rewrite !lookup_insert_ne by done. by apply retain_Some.
  - revert E. unfold accept. destruct (check_all _ _ _ _) as [[? [[? ?] ?]]|]; [|by intros [= _ <-]].
    assert (retain now spent !! k = Some u) by by apply retain_Some.
    case_decide; [by intros [= _ <-]|]. case_decide; [by intros [= _ <-]|done].
Qed.

Lemma run_keeps reqs spent k u t :
  Forall (fun r => r.2 ≤ t) reqs → spent !! k = Some u → t < u → run reqs spent !! k = Some u.
Proof.
  intros Hr. revert spent. induction Hr as [|r reqs Hr _ IH]; intros spent Hk Hu; [done|].
  simpl. apply IH; [|done]. apply accept_keeps; [done|lia].
Qed.

(** C17. A response signs in once. After a response was accepted, the same response is refused at any
    later time, whatever flow cookie it comes with and whatever other responses were checked in
    between: either it no longer passes the checks, or its assertion is still in the table. *)
Theorem response_accepted_once (response : string) (f1 f2 : option string) (t1 t2 : Z) (spent : Spent)
    (v : Verified) (spent1 : Spent) (between : list (string * option string * Z)) :
  accept sp response f1 t1 spent = (Ok v, spent1) →
  t1 ≤ t2 → Forall (fun r => r.2 ≤ t2) between →
  ∃ e, fst (accept sp response f2 t2 (run between spent1)) = Err e.
Proof.
  intros H1 Ht Hb. apply accept_Ok in H1 as (rid & aid & expires & Hc1 & _ & _ & _ & Hspent).
  destruct (accept sp response f2 t2 (run between spent1)) as [[v2|e] s2] eqn:E; [exfalso|simpl; eauto].
  apply accept_Ok in E as (rid2 & aid2 & expires2 & Hc2 & _ & Ha2 & _).
  apply check_all_Ok in Hc1 as (doc & root & a & [_ Hd1 Hr1 _ Hresp1 _ Hass1]).
  apply check_all_Ok in Hc2 as (doc2 & root2 & a2 & [_ Hd2 Hr2 _ Hresp2 _ Hass2]).
  rewrite Hd1 in Hd2. injection Hd2 as <-. rewrite Hr1 in Hr2. injection Hr2 as <-.
  apply check_response_Ok in Hresp1 as (_ & Hirt1 & _ & _ & _ & Hn1 & _).
  apply check_response_Ok in Hresp2 as (_ & Hirt2 & _ & _ & _ & Hn2 & _).
  rewrite Hirt1 in Hirt2. injection Hirt2 as <-. rewrite Hn1 in Hn2. injection Hn2 as <-.
  apply check_assertion_Ok in Hass1 as (Hid1 & _ & _ & _ & n1 & u1 & Hsub1 & Hle1).
  apply check_assertion_Ok in Hass2 as (Hid2 & _ & _ & _ & n2 & u2 & Hsub2 & _).
  rewrite Hid1 in Hid2. injection Hid2 as <-.
  apply check_subject_Ok in Hsub1 as (s1 & Hs1 & _ & Hmax1).
  apply check_subject_Ok in Hsub2 as (s2' & Hs2 & (sc & Hsc & Hconf & Hu2) & _).
  rewrite Hs1 in Hs2. injection Hs2 as <-. specialize (Hmax1 sc u2 Hsc Hconf ltac:(lia)).
  assert (spent1 !! assertion_key aid = Some (Z.max expires (t1 + FLOW_SECS) + skew sp)) as Hk
    by (rewrite Hspent; apply lookup_insert_eq).
  apply (run_keeps between _ _ _ t2) in Hk; [|done|lia]. specialize (Ha2 _ Hk). lia.
Qed.

(** The table of used responses stays bounded: however many responses are checked, in whatever
    order and at whatever times, it never holds more than [MAX_SPENT] entries. *)
Theorem spent_bounded (reqs : list (string * option string * Z)) : (size (run reqs ∅) ≤ MAX_SPENT)%nat.
Proof.
  unfold run. assert (size (∅ : Spent) ≤ MAX_SPENT)%nat as H0 by (rewrite map_size_empty; lia).
  revert H0. generalize (∅ : Spent). induction reqs as [|r reqs IH]; intros spent Hs; [done|]. simpl. apply IH.
  assert (size (retain r.2 spent) ≤ size spent)%nat as Hf
    by apply map_subseteq_size, map_filter_subseteq.
  destruct (accept sp r.1.1 r.1.2 r.2 spent) as [[v|e] spent'] eqn:E; simpl.
  - apply accept_Ok in E as (rid & aid & expires & _ & _ & _ & Hsz & ->).
    rewrite !map_size_insert. unfold id. repeat case_match; lia.
  - revert E. unfold accept. destruct (check_all _ _ _ _) as [[? [[? ?] ?]]|]; [|by intros [= _ <-]].
    case_decide; [intros [= _ <-]; lia|]. case_decide; [intros [= _ <-]; lia|done].
Qed.

(** ** The flow cookie *)

Lemma rsplit_once_app c (a b : chars) : c ∉ b → rsplit_once c (a ++ c :: b) = Some (a, b).
Proof.
  intros Hc. unfold rsplit_once. rewrite reverse_app, reverse_cons, <-app_assoc. simpl.
  rewrite split_once_app by by rewrite elem_of_reverse. by rewrite !reverse_involutive.
Qed.

Lemma hex_chars (b : bytes) :
  let l := b ≫= hex_byte in
  Nat.even (length l) = true ∧ forallb (fun c => bool_decide (is_Some (hex_value c))) l = true ∧ "."%char ∉ l.
Proof.
  induction b as [|x b (He & Hf & Hd)]; [split_and!; [done..|set_solver]|].
  cbv zeta. rewrite bind_cons. cbv zeta in He, Hf, Hd. split_and!.
  - rewrite length_app. by rewrite Nat.even_add, He.
  - rewrite forallb_app, Hf, andb_true_r. clear. by destruct x.
  - rewrite not_elem_of_app. split; [|done]. clear. destruct x; apply (bool_decide_unpack _); vm_compute; exact I.
Qed.

Lemma hex_bytes_hex (b : bytes) : hex_bytes (of_chars (b ≫= hex_byte)) = Some b.
Proof.
  unfold hex_bytes. rewrite to_of_chars. destruct (hex_chars b) as (-> & -> & _). simpl.
  pose proof (unhex_hex b) as H. unfold unhex, hex in H. by rewrite to_of_chars in H.
Qed.

(** A flow cookie answers for the sign-in it was made for, and for five minutes: given back, it
    yields the request ID of that sign-in until [FLOW_SECS] have passed, and nothing after. *)
Theorem flow_cookie_answers (now later : Z) (random : bytes) :
  i64_min ≤ now + FLOW_SECS ≤ i64_max →
  flow_request sp (Some (snd (start sp now random))) later =
    if decide (later < now + FLOW_SECS)
    then Ok ("_" +:+ of_chars (take 40 (to_chars (random_token random)))) else refuse LOST.
Proof.
  intros Hr. unfold start. cbv zeta. cbn [snd]. set (id := "_" +:+ _). unfold flow_request.
  rewrite to_chars_app. change (to_chars ("." +:+ ?x)) with ("."%char :: to_chars x).
  rewrite (to_chars_app (pretty (now + FLOW_SECS))). change (to_chars ("." +:+ ?x)) with ("."%char :: to_chars x).
  assert (to_chars id ++ "."%char :: to_chars (pretty (now + FLOW_SECS)) ++ "."%char :: to_chars (flow_mac sp id (now + FLOW_SECS))
    = (to_chars id ++ "."%char :: to_chars (pretty (now + FLOW_SECS))) ++ "."%char :: to_chars (flow_mac sp id (now + FLOW_SECS))) as ->
    by by rewrite <-app_assoc.
  unfold flow_mac at 1. rewrite to_of_chars.
  rewrite rsplit_once_app by apply hex_chars. rewrite rsplit_once_app.
  2: { apply pretty_no_char. intros [[d Hd]|Hd]; [vm_compute in Hd|]; discriminate. }
  unfold parse_i64. rewrite of_to_chars, parse_pretty by (unfold i64_min, i64_max in *; lia).
  rewrite hex_bytes_hex, of_to_chars, hmac_verify_sign. simpl.
  case_bool_decide; case_decide; try done; lia.
Qed.
End accepted.
