(* ===== verification/SamlSample.v ===== *)
(** * A response, end to end

    A library instance and a signed response on which the theorems of [SamlFacts] apply, and some
    responses that are refused. *)

From S2P Require Import Prelude Text Utf8 Auth Vault Directory Instant Xml Saml SamlFacts.
Local Open Scope Z_scope.

(** ** Documents from trees *)

Inductive tree := Tree (k : NodeKind) (ts : list tree).

Fixpoint tree_size (t : tree) : nat :=
  let '(Tree _ ts) := t in S (foldr (fun t n => (tree_size t + n)%nat) 0%nat ts).

(** The arena of a tree whose root is at [self]. *)
Fixpoint arena (t : tree) (self : nat) (par next : option nat) : list NodeData :=
  let '(Tree k ts) := t in
  mkNode k par (match ts with [] => None | _ => Some (S self) end) next ::
  (fix go (ts : list tree) (i : nat) : list NodeData :=
     match ts with
     | [] => []
     | t :: ts' =>
         arena t i (Some self) (match ts' with [] => None | _ => Some (i + tree_size t)%nat end)
         ++ go ts' (i + tree_size t)%nat
     end) ts (S self).

Definition document (t : tree) : Document := mkDocument (arena (Tree NDocument [t]) 0 None None) 0.

Definition el (ns local : string) (attrs : list (string * string)) (ts : list tree) : tree :=
  Tree (NElement (mkElement (mkQName (Some ns) local)
         ((fun nv => mkAttribute (mkQName None nv.1) nv.2) <$> attrs))) ts.
Definition txt (t : string) : tree := Tree (NText t) [].

(** ** A signed response *)

Definition sample_idp : Idp := mkIdp "http://idp" "https://idp/sso" [[x01]].
Definition sample_sp : ServiceProvider :=
  mkSP sample_idp "https://wa/api/saml/metadata" "https://wa/api/saml/acs" "sid" 60 [x2a].

Definition sample_signature (uri : string) : tree :=
  el NS_DSIG "Signature" [] [
    el NS_DSIG "SignedInfo" [] [
      el NS_DSIG "CanonicalizationMethod" [("Algorithm"%string, EXC_C14N)] [];
      el NS_DSIG "SignatureMethod" [("Algorithm", "http://www.w3.org/2001/04/xmldsig-more#rsa-sha256")%string] [];
      el NS_DSIG "Reference" [("URI"%string, uri)] [
        el NS_DSIG "Transforms" [] [el NS_DSIG "Transform" [("Algorithm"%string, ENVELOPED)] [];
                                    el NS_DSIG "Transform" [("Algorithm"%string, EXC_C14N)] []];
        el NS_DSIG "DigestMethod" [("Algorithm", "http://www.w3.org/2001/04/xmlenc#sha256")%string] [];
        el NS_DSIG "DigestValue" [] [txt "AA=="]]];
    el NS_DSIG "SignatureValue" [] [txt "AA=="]].

Definition sample_response (request_id sid : string) : tree :=
  el NS_PROTOCOL "Response" [("Version", "2.0"); ("InResponseTo", request_id)]%string [
    el NS_PROTOCOL "Status" [] [el NS_PROTOCOL "StatusCode" [("Value"%string, STATUS_SUCCESS)] []];
    el NS_ASSERTION "Assertion" [("Version", "2.0"); ("ID", "_a"); ("IssueInstant", "1970-01-01T00:01:40Z")]%string [
      el NS_ASSERTION "Issuer" [] [txt "http://idp"];
      sample_signature "#_a";
      el NS_ASSERTION "Subject" [] [
        el NS_ASSERTION "SubjectConfirmation" [("Method"%string, BEARER)] [
          el NS_ASSERTION "SubjectConfirmationData"
            [("Recipient", "https://wa/api/saml/acs"); ("InResponseTo", request_id);
             ("NotOnOrAfter", "1970-01-01T00:05:00Z")]%string []]];
      el NS_ASSERTION "Conditions" [] [
        el NS_ASSERTION "AudienceRestriction" [] [
          el NS_ASSERTION "Audience" [] [txt "https://wa/api/saml/metadata"]]];
      el NS_ASSERTION "AuthnStatement" [] [];
      el NS_ASSERTION "AttributeStatement" [] [
        el NS_ASSERTION "Attribute" [("Name", "sid")%string] [
          el NS_ASSERTION "AttributeValue" [] [txt sid]]]]].

(** The Assertion and the Signature in it. *)
Definition sample_assertion : NodeId := 4%nat.
Definition sample_sig : NodeId := 7%nat.

Definition sample_request : string := "_0102".
Definition sample_sid_text : string := "S-1-5-21-100-200-300-1103".

(** One text that is a document, one key that signed it. *)
Definition sample_lib : SamlLib := {|
  xml_parse := fun s => if decide (s = "doc"%string) then Ok (document (sample_response sample_request sample_sid_text))
                        else Err "not well-formed"%string;
  base64_decode := fun s => Ok (String.list_byte_of_string s);
  base64_encode := String.string_of_list_byte;
  load_cert := fun _ => Ok ();
  verify_all := fun cert _ =>
    Ok [if decide (cert = [x01]) then Valid sample_sig [mkReference "#_a" (Some sample_assertion) true]
        else Invalid "bad signature"];
  hmac_sign := fun key msg => key ++ msg;
  hmac_verify := fun key msg tag => bool_decide (tag = key ++ msg);
  hmac_verify_sign := fun key msg => bool_decide_eq_true_2 _ eq_refl;
  deflate := id;
  form_pair := fun k v => k +:+ "=" +:+ v;
|}.

Definition sample_flow : string := snd (start (L:=sample_lib) sample_sp 100 [x01; x02]).

Definition sample_accept := accept (L:=sample_lib) sample_sp "do c" (Some sample_flow) 150 ∅.

Example accepted_witness :
  ∃ spent', sample_accept = (Ok (mkVerified sample_sid_text None), spent') ∧
    ∃ doc assertion, names_account sample_sp doc assertion sample_sid_text ∧
      ∃ sig, vouches (L:=sample_lib) sample_sp doc sig assertion.
Proof.
  destruct sample_accept as [r spent'] eqn:E.
  assert (r = Ok (mkVerified sample_sid_text None)) as -> by (apply (f_equal fst) in E; vm_compute in E; by rewrite <-E).
  exists spent'. split; [reflexivity|].
  destruct (accepted_is_vouched (L:=sample_lib) sample_sp "do c" (Some sample_flow) 150 ∅ _ spent' E)
    as (doc & root & assertion & rid & _ & _ & _ & _ & _ & _ & _ & _ & (sig & _ & Hv) & _ & _ & _ & _ & Hn).
  exists doc, assertion. split; [exact Hn|]. exists sig. exact Hv.
Defined.

(** Again a minute later, with another browser's response in between. *)
Example accepted_once_witness :
  ∃ e, fst (accept (L:=sample_lib) sample_sp "doc" (Some sample_flow) 210
    (run (L:=sample_lib) sample_sp [("other"%string, None, 160)] (snd sample_accept))) = Err e.
Proof.
  apply (response_accepted_once (L:=sample_lib) sample_sp "doc" (Some sample_flow) (Some sample_flow) 150 210 ∅
    (mkVerified sample_sid_text None)).
  - vm_compute. reflexivity.
  - lia.
  - repeat constructor; simpl; lia.
Defined.

Example flow_cookie_witness :
  flow_request (L:=sample_lib) sample_sp (Some sample_flow) 399 = Ok sample_request ∧
  flow_request (L:=sample_lib) sample_sp (Some sample_flow) 400 = refuse LOST.
Proof.
  split.
  - refine (flow_cookie_answers (L:=sample_lib) sample_sp 100 399 [x01; x02] _). vm_compute. split; discriminate.
  - refine (flow_cookie_answers (L:=sample_lib) sample_sp 100 400 [x01; x02] _). vm_compute. split; discriminate.
Defined.

(** A response with a second Assertion, one whose SID is not a SID, and one an hour late are refused. *)
Example refused_examples :
  check_response sample_sp
    (document (el NS_PROTOCOL "Response" [("Version", "2.0"); ("InResponseTo", "_0102")]%string [
       el NS_PROTOCOL "Status" [] [el NS_PROTOCOL "StatusCode" [("Value"%string, STATUS_SUCCESS)] []];
       el NS_ASSERTION "Assertion" [] [el NS_ASSERTION "Advice" [] [el NS_ASSERTION "Assertion" [] []]]])) 1
    "_0102" = refuse "the response must carry exactly one assertion" ∧
  assertion_sid sample_sp (document (sample_response sample_request "amy")) 4 =
    refuse (of_chars (to_chars "the sid attribute holds " ++ [quote] ++ to_chars "amy" ++ [quote] ++
              to_chars ", which is not a SID")) ∧
  check_assertion sample_sp (document (sample_response sample_request sample_sid_text)) 4
    sample_request 3600 = refuse "the assertion is not addressed to this proxy's sign-in, or it has expired".
Proof. split_and!; vm_compute; reflexivity. Qed.
