(* ===== verification/Sso.v ===== *)
(** * The single sign-on routes (src/src/sso.rs)

    The service provider checks the protocol; these sign the account in the way a password sign-in
    does. The state is the running proxy and the service provider's table of used responses. What
    other requests did while the directory was asked is an argument. *)

From S2P Require Import Prelude Tables Text Utf8 Store StoreInv StoreFacts Auth Live Settings Vault VaultFacts Directory DirectoryFacts App Web WebFacts Instant Xml Saml SamlFacts SamlSample.
Local Open Scope Z_scope.

(** The activity log's name for a sign-in whose account is not known yet. *)
Definition WHO : string := "(single sign-on)".

Definition methods (saml : option ServiceProvider) : bool := bool_decide (is_Some saml).

Definition flow_cookie (value : string) (max_age : Z) : string :=
  FLOW_COOKIE +:+ "=" +:+ value +:+ "; Path=/api/saml; Max-Age=" +:+ pretty max_age
    +:+ "; HttpOnly; Secure; SameSite=None".

Definition replace_char (c : ascii) (by_ : string) (s : string) : string :=
  of_chars (to_chars s ≫= fun x => if decide (x = c) then to_chars by_ else [x]).

Definition html_escape (s : string) : string :=
  replace_char quote "&quot;" (replace_char ">"%char "&gt;" (replace_char "<"%char "&lt;" (replace_char "&"%char "&amp;" s))).

Section sso.
Context {U : Unicode} {C : Crypto} {L : SamlLib} (sha256 : bytes → bytes) (from_slice : bytes → option Settings)
  (cfg : Cfg) (saml : option ServiceProvider).

(** [GET /api/saml/start]: where to, and the flow cookie. *)
Definition sso_start (now : Z) (random : bytes) : result ApiError (string * string) :=
  match saml with
  | None => Err not_found
  | Some sp => let '(url, flow) := start sp now random in Ok (url, flow_cookie flow FLOW_SECS)
  end.

Definition sso_metadata : result ApiError string :=
  match saml with None => Err not_found | Some sp => Ok (metadata sp) end.

(** Recorded under a hold, and answered. *)
Definition sso_refuse {A} (who : string) (status : Z) (why : string) (now : Z) : W A :=
  _ ← log now who "signin.refused" ("single sign-on: " +:+ why);
  throw (mkApiError status why).

(** What happened around one sign-in: the clock, the network, what others did meanwhile, and the
    random bytes drawn. *)
Record SsoRun := mkSsoRun {
  sr_now : Z;
  sr_net : Network;
  sr_meanwhile : App → App;
  sr_rnd : Z;
  sr_token : bytes;
}.

Definition saml_message (e : SamlError) : string :=
  match e with SamlRefused m => m | Metadata m => "identity provider metadata: " +:+ m end.

(** The last part, under a hold again: recorded only in the database it was checked against. *)
Definition sso_finish (g : Z) (account : Account) (who : string) (r : SsoRun) : W string :=
  current ← gets generation;
  if decide (current ≠ g) then
    throw (mkApiError SERVICE_UNAVAILABLE "the proxy's data was replaced while you signed in; sign in again")
  else
    u ← finish_directory account (sr_now r) (sr_rnd r);
    started ← start_session sha256 from_slice u (sr_now r) (sr_token r);
    let '(token, _, lasts) := started in
    _ ← sto (sessions_purge (sr_now r));
    _ ← log (sr_now r) (username u) "signin" ("single sign-on as " +:+ who);
    mret (session_cookie token lasts (secure_cookies cfg)).

(** The account the identity provider vouched for, read with the service account. *)
Definition sso_account (g : Z) (pass : result VaultError (option string)) (v : Verified) (r : SsoRun) : W string := fun a =>
  let who := default (v_sid v) (v_name_id v) in
  match lookup_directory cfg with
  | None => (Err (mkApiError SERVICE_UNAVAILABLE "single sign-on needs the directory's service account"), a)
  | Some d =>
      match pass with
      | Err e => (Err (from_vault_error e), a)
      | Ok None => (Err (mkApiError SERVICE_UNAVAILABLE
          "the directory service account's password is not set; an administrator sets it on the Migration page"), a)
      | Ok (Some pass) =>
          let '(found, p) := lookup_by_sid d (sr_net r) pass (v_sid v) (sr_now r) (preferred a) in
          let a := sr_meanwhile r (with_preferred p a) in
          match found with
          | Ok (Some account) =>
              if usable account then sso_finish g account who r a
              else sso_refuse who FORBIDDEN_ ("the directory account with SID " +:+ v_sid v +:+ " is disabled or expired")
                     (sr_now r) a
          | Ok None =>
              sso_refuse who FORBIDDEN_ ("no account in the directory has the SID " +:+ v_sid v +:+
                " the identity provider sent") (sr_now r) a
          | Err e => (Err (from_dir_error e), a)
          end
      end
  end.

(** The session cookie for the account the identity provider vouched for. *)
Definition sso_sign_in (cookies : list string) (response : string) (r : SsoRun) :
    M (App * Spent) ApiError string := fun s =>
  let '(a, spent) := s in
  match saml with
  | None => (Err not_found, s)
  | Some sp =>
      let flow := find_map (fun h => cookie_value h FLOW_COOKIE) cookies in
      let g := generation a in
      let pass := directory_password a in
      match accept sp response flow (sr_now r) spent with
      | (Err e, spent) =>
          let '(x, a) := sso_refuse WHO UNAUTHORIZED (saml_message e) (sr_now r) a in (x, (a, spent))
      | (Ok v, spent) =>
          let '(x, a) := sso_account g pass v r a in (x, (a, spent))
      end
  end.

(** [POST /api/saml/acs]: the status, the cookies set, and the text of an error; the flow cookie is
    spent either way. *)
Definition acs (cookies : list string) (response : string) (r : SsoRun) (s : App * Spent) :
    (Z * list string * option string) * (App * Spent) :=
  let spent := flow_cookie "" 0 in
  match sso_sign_in cookies response r s with
  | (Ok session, s') => ((200, [session; spent], None), s')
  | (Err e, s') => ((status e, [spent], Some (html_escape (message e))), s')
  end.

(** ** Who single sign-on signs in *)

Lemma sso_finish_ok g account who r a c a' :
  sso_finish g account who r a = (Ok c, a') →
  generation a = g ∧ ∃ n row, signed_in sha256 (random_token (sr_token r)) (sr_now r) n row a' ∧
    u_sid row = Some (acc_sid account) ∧ u_local_hash row = None ∧ u_username row = acc_username account.
Proof.
  unfold sso_finish. rewrite bind_gets. case_decide as Hg; [done|]. intros H. split; [done|].
  apply bind_ok_inv in H as (u & a1 & H1 & H). apply finish_directory_ok in H1 as (_ & row & Hr & _ & Hs & Hl & Hn).
  apply bind_ok_inv in H as ([[token expires] lasts] & a2 & H2 & H).
  apply start_session_ok in H2 as (-> & -> & Hlasts & _ & ->).
  apply bind_ok_inv in H as (x & a3 & H3 & H). apply sto_ok in H3 as (db3 & [= <- <-] & ->).
  apply bind_ok_inv in H as (y & a4 & H4 & H). apply sto_ok in H4 as (db4 & [= <- <-] & ->). injection H as <- <-.
  exists (mkSessionRec (user_id u) (sr_now r) (sr_now r + lasts)), row. split; [|done].
  unfold signed_in. simpl. rewrite map_lookup_filter, lookup_insert_eq. simpl.
  rewrite option_guard_True by (simpl; lia). split_and!; [done|done|simpl; lia|done].
Qed.

(** C18. Single sign-on signs in the directory account the identity provider named. When the POST is
    answered with a session cookie, the response was accepted by the service provider's checks; the
    directory, asked with the service account for the account with that SID, answered with one
    that is neither disabled nor expired; and the new session is for a row that is bound to that
    very SID, is not a local account, and has that account's name, whatever other requests did in
    between. *)
Theorem sso_signs_in_the_named_account (cookies : list string) (response : string) (r : SsoRun) (a : App)
    (spent : Spent) (c : string) (a' : App) (spent' : Spent) :
  sso_sign_in cookies response r (a, spent) = (Ok c, (a', spent')) →
  ∃ sp v n row, saml = Some sp ∧
    accept sp response (find_map (fun h => cookie_value h FLOW_COOKIE) cookies) (sr_now r) spent = (Ok v, spent') ∧
    signed_in sha256 (random_token (sr_token r)) (sr_now r) n row a' ∧
    u_sid row = Some (v_sid v) ∧ u_local_hash row = None ∧
    ∃ d pass p p' account, lookup_directory cfg = Some d ∧ directory_password a = Ok (Some pass) ∧
      lookup_by_sid d (sr_net r) pass (v_sid v) (sr_now r) p = (Ok (Some account), p') ∧
      usable account = true ∧ u_username row = acc_username account.
Proof.
  unfold sso_sign_in. destruct saml as [sp|]; [|done].
  destruct (accept _ _ _ _ _) as [[v|e] spent1] eqn:Hacc; [|done].
  destruct (sso_account _ _ _ _ _) as [x a1] eqn:H. intros [= -> -> ->]. revert H. unfold sso_account.
  destruct (lookup_directory cfg) as [d|] eqn:Hd; [|done].
  destruct (directory_password a) as [[pass|]|] eqn:Hp; [|done..].
  destruct (lookup_by_sid d _ pass _ _ _) as [[[account|]|] p] eqn:Hl; [|done..].
  destruct (usable account) eqn:Hu; [|done]. intros H. apply sso_finish_ok in H as (_ & n & row & Hin & Hs & Hlh & Hn).
  exists sp, v, n, row. split_and!; try done; [|eauto 12].
  rewrite Hs. f_equal. pose proof Hacc as Hv. apply accept_Ok in Hv as (rid & aid & expires & Hc & _).
  apply check_all_Ok in Hc as (doc & root & assertion & [_ _ _ _ _ _ Hass]).
  apply check_assertion_Ok in Hass as (_ & (st & at_ & value & raw & _ & _ & _ & _ & _ & Hraw) & _).
  apply canonical_sid_idem in Hraw. apply lookup_by_sid_found in Hl as [Hl _]. congruence.
Qed.
End sso.

(** ** A sign-in, run *)

Definition sso_app : App :=
  snd (set_directory_password (C:=sample_crypto) "pw" (Some [x05]) (sample_app web_db (Some (replicate 32 x2a)))).

(** Another user is deleted while the directory is asked. *)
Definition sso_run : SsoRun :=
  mkSsoRun 150 (sample_net sample_sid) (fun a => with_store (snd (user_delete 7 (store_ a))) a) 9 [xaa; xbb].

Example sso_witness :
  ∃ c s', sso_sign_in (U:=ascii_unicode) (C:=sample_crypto) (L:=sample_lib) sample_sha sample_from_slice sample_cfg
      (Some sample_sp) [FLOW_COOKIE +:+ "=" +:+ sample_flow] "doc" sso_run (sso_app, ∅) = (Ok c, s') ∧
    ∃ n row, signed_in sample_sha "aabb" 150 n row s'.1 ∧ u_sid row = Some sample_sid_text.
Proof.
  destruct (sso_sign_in (U:=ascii_unicode) (C:=sample_crypto) (L:=sample_lib) sample_sha sample_from_slice sample_cfg
    (Some sample_sp) [FLOW_COOKIE +:+ "=" +:+ sample_flow] "doc" sso_run (sso_app, ∅)) as [x [a' spent']] eqn:E.
  assert (∃ c, x = Ok c) as [c ->] by (apply (f_equal fst) in E; vm_compute in E; rewrite <-E; eauto).
  exists c, (a', spent'). split; [reflexivity|].
  destruct (sso_signs_in_the_named_account (U:=ascii_unicode) (C:=sample_crypto) (L:=sample_lib) sample_sha
    sample_from_slice sample_cfg (Some sample_sp) _ _ _ _ _ _ _ _ E) as (sp & v & n & row & [= <-] & Hacc & Hin & Hsid & _).
  exists n, row. split; [exact Hin|]. rewrite Hsid. apply (f_equal fst) in Hacc. vm_compute in Hacc. by injection Hacc as <-.
Defined.
