(* ===== verification/Config.v ===== *)
(** * The configuration file (src/src/config.rs)

    What the file holds, the keys it may hold, and the checks it must pass before the proxy starts.
    The TOML reader is a parameter twice: as the table of keys a text holds, and as the configuration
    it is read into ([toml::from_str]); [parent] is [Path::parent], which differs between systems. *)

From S2P Require Import Prelude Tables Text Utf8 Store Auth Directory App Web Instant Scanner ScanService ServerList Xml Saml Migrate.
Local Open Scope Z_scope.

(** ** What the file holds *)

Record Https := mkHttps { cert : string; key : string }.

Inductive VerifyMode := Ca | Insecure.
Record Tls := mkTls { verify : VerifyMode; ca_bundle : option string }.

Record Target := mkTarget { t_id : string; t_host : string; t_port : Z }.

(** The directory's section: what requests read of it, and the rest. *)
Record DirectorySection := mkDirectorySection {
  ds_config : DirectoryConfig;
  ds_ca_bundle : option string;
  ds_timeout_secs : Z;
  ds_check_interval_secs : Z;
  ds_failed_signins_per_address : Z;
}.

Record SamlSection := mkSamlSection { ss_config : SamlConfig; idp_metadata : string }.

Record Config := mkConfig {
  listen : string;
  https : option Https;
  tls : Tls;
  directory : option DirectorySection;
  saml : option SamlSection;
  admins : list string;
  local_accounts : bool;
  data_dir : option string;
  max_connections : Z;
  audit_days : Z;
  target : list Target;
  scan : Scan;
  unknown : list string;
}.

Definition default_sid_attribute : string := "http://schemas.microsoft.com/ws/2008/06/identity/claims/primarysid".
Definition default_clock_skew : Z := 180.
Definition default_timeout : Z := 10.
Definition default_max_connections : Z := 1024.
Definition default_check_interval : Z := 600.
Definition default_failed_signins_per_address : Z := 30.
Definition default_audit_days : Z := 400.
Definition default_port : Z := 3389.

Definition scan_default (windows : bool) : Scan :=
  mkScan (if windows then Amsi else Off) [] [0] [] 120 2048 60.

Inductive ConfigError :=
  | CRead (path : string) (source : string)
  | CParse (path : string) (source : string)
  | DuplicateTarget (id : string)
  | MissingCaBundle
  | AuditDays
  | CScan (why : string)
  | CDirectory (why : string)
  | CSaml (why : string).

(** ** Keys *)

(** A TOML value, as far as its keys go. *)
Inductive TomlValue :=
  | TTable (t : list (string * TomlValue))
  | TArray (items : list TomlValue)
  | TScalar.
Abbreviation TomlTable := (list (string * TomlValue)).

Definition KNOWN : list (string * list string) :=
  [("", ["listen"; "https"; "tls"; "directory"; "saml"; "admins"; "allow_local_accounts"; "data_dir";
         "max_connections"; "audit_days"; "target"; "scan"]);
   ("scan", ["scanner"; "command"; "clean_exit_codes"; "detected_exit_codes"; "timeout_secs"; "max_staged_mb"; "check_every_mins"]);
   ("https", ["cert"; "key"]);
   ("tls", ["verify"; "ca_bundle"]);
   ("directory", ["domain"; "netbios"; "urls"; "ca_bundle"; "base_dn"; "service_account"; "timeout_secs";
                  "check_interval_secs"; "failed_signins_per_address"]);
   ("saml", ["url"; "idp_metadata"; "entity_id"; "sid_attribute"; "clock_skew_secs"]);
   ("target", ["id"; "host"; "port"])]%string.

Definition known (table : string) : list string :=
  match list_find (fun tk => tk.1 = table) KNOWN with Some (_, (_, keys)) => keys | None => [] end.

Definition as_table (v : TomlValue) : option TomlTable := match v with TTable t => Some t | _ => None end.
Definition tables_of (v : TomlValue) : list TomlTable :=
  match v with
  | TTable t => [t]
  | TArray items => omap as_table items
  | TScalar => []
  end.

(** What the loop finds for one key. *)
Definition unknown_in (kv : string * TomlValue) : list string :=
  let '(k, value) := kv in
  if decide (k ∉ known "") then [k]
  else
    tables_of value ≫= fun t => (fun inner => k +:+ "." +:+ inner) <$> List.filter (fun inner => bool_decide (inner ∉ known k)) t.*1.

(** [dedup]: the later of two equal neighbours goes. *)
Fixpoint dedup (l : list string) : list string :=
  match l with
  | x :: rest =>
      match rest with
      | y :: _ => if decide (x = y) then dedup rest else x :: dedup rest
      | [] => [x]
      end
  | [] => []
  end.

Definition unknown_keys (root : option TomlTable) : list string :=
  match root with
  | None => []
  | Some root => dedup (merge_sort String.le (root ≫= unknown_in))
  end.

(** ** Checks *)

(** [SamlConfig::check]. *)
Definition saml_check (c : SamlSection) : result string unit :=
  let u := url (ss_config c) in
  match strip_prefix (to_chars "https://") (to_chars u) with
  | None => Err "url must start with https://: the sign-in cookie needs a secure page"%string
  | Some rest =>
      if bool_decide (drop_slash (reverse rest) = [])
         || existsb (fun ch => bool_decide (ch ∈ to_chars "?# ")) (to_chars u)
      then Err "url must be the address users open, such as https://access.example.com"%string
      else if decide (str_trim (idp_metadata c) = ""%string) then Err "idp_metadata names no file"%string
      else if decide (str_trim (cfg_sid_attribute (ss_config c)) = ""%string) then Err "sid_attribute is empty"%string
      else if decide (300 < clock_skew_secs (ss_config c)) then Err "clock_skew_secs must be at most 300"%string
      else Ok ()
  end.

Definition service_account (c : Config) : option string := directory c ≫= fun d => d_service_account (ds_config d).

(** The first target whose id an earlier one has. *)
Fixpoint duplicate_target (seen : gset string) (ts : list Target) : option string :=
  match ts with
  | [] => None
  | t :: rest => if decide (t_id t ∈ seen) then Some (t_id t) else duplicate_target ({[t_id t]} ∪ seen) rest
  end.

Definition is_ldaps (u : string) : bool :=
  bool_decide (is_Some (strip_prefix (to_chars "ldaps://") (to_chars (to_ascii_lowercase u)))).

Definition validate_saml (c : Config) : result ConfigError unit :=
  match saml c with
  | None => Ok ()
  | Some sc =>
      match saml_check sc with
      | Err e => Err (CSaml e)
      | Ok _ =>
          match service_account c with
          | None => Err (CSaml "single sign-on finds accounts with the directory's service account; set [directory] service_account")
          | Some _ => Ok ()
          end
      end
  end.

Definition validate_directory (c : Config) : result ConfigError unit :=
  match directory c with
  | None =>
      if local_accounts c then Ok ()
      else Err (CDirectory "nobody could sign in: add a [directory] section, or allow_local_accounts = true")
  | Some d =>
      let domain := d_domain (ds_config d) in
      if bool_decide (str_trim domain = ""%string) || negb (bool_decide ("."%char ∈ to_chars domain)) then
        Err (CDirectory "domain must be a DNS domain such as corp.example.com")
      else if decide (d_urls (ds_config d) = []) then Err (CDirectory "urls lists no domain controller")
      else
        match List.find (fun u => negb (is_ldaps u)) (d_urls (ds_config d)) with
        | Some bad => Err (CDirectory (bad +:+ ": only ldaps:// is accepted"))
        | None => Ok ()
        end
  end.

Definition validate (windows : bool) (c : Config) : result ConfigError unit :=
  match duplicate_target ∅ (target c) with
  | Some id => Err (DuplicateTarget id)
  | None =>
      match verify (tls c), ca_bundle (tls c) with
      | Ca, None => Err MissingCaBundle
      | _, _ =>
          if decide (audit_days c = 0) then Err AuditDays
          else
            match scan_check windows (scan c) with
            | Err e => Err (CScan e)
            | Ok _ => _ ← validate_saml c; validate_directory c
            end
      end
  end.

Section parse.
Context (from_str : string → result string Config) (table_of : string → option TomlTable) (parent : string → option string)
  (windows : bool).

Definition with_data_dir (path : string) (c : Config) : Config :=
  match data_dir c with
  | Some _ => c
  | None =>
      let dir := match parent path with Some p => if decide (p = ""%string) then "."%string else p | None => "."%string end in
      mkConfig (listen c) (https c) (tls c) (directory c) (saml c) (admins c) (local_accounts c) (Some dir)
        (max_connections c) (audit_days c) (target c) (scan c) (unknown c)
  end.

Definition with_unknown (u : list string) (c : Config) : Config :=
  mkConfig (listen c) (https c) (tls c) (directory c) (saml c) (admins c) (local_accounts c) (data_dir c)
    (max_connections c) (audit_days c) (target c) (scan c) u.

Definition parse (path text : string) : result ConfigError Config :=
  match from_str text with
  | Err e => Err (CParse path e)
  | Ok c =>
      let c := with_unknown (unknown_keys (table_of text)) (with_data_dir path c) in
      _ ← validate windows c;
      mret c
  end.

(** [load]; [file] is the text of the file, or the error of reading it. *)
Definition load (path : string) (file : result string string) : result ConfigError Config :=
  match file with
  | Err e => Err (CRead path e)
  | Ok text => parse path text
  end.

Definition data_dir_of (c : Config) : string := default "."%string (data_dir c).
End parse.

(** What requests read of it. *)
Definition requests_read (c : Config) : Cfg :=
  mkCfg (ds_config <$> directory c) (admins c) (local_accounts c) (bool_decide (is_Some (https c)))
    (match ScanService.kind (scan c) with Off => false | _ => true end) ((fun t => (t_id t, t_host t, t_port t)) <$> target c).
