(* ===== verification/ConfigFacts.v ===== *)
(** * What an accepted configuration guarantees (src/src/config.rs) *)

From S2P Require Import Prelude Tables Text Utf8 Store Auth Directory App Web Instant Scanner ScanService ServerList Xml Saml Migrate Config.
Local Open Scope Z_scope.

(** ** Well-formed configurations *)

(** The [[scan]] section: AMSI only where Windows is, a command that is given the file and whose exit
    codes mean one thing each, and periods in their ranges. *)
Record scan_ok (windows : bool) (s : Scan) : Prop := {
  sk_amsi : ScanService.kind s = Amsi → windows = true;
  sk_command : ScanService.kind s = CommandScanner →
    (∃ arg, arg ∈ command s ∧ contains_sub (to_chars "{file}") (to_chars arg) = true) ∧
    detected_exit_codes s ≠ [] ∧ ∀ code, code ∈ clean_exit_codes s → code ∉ detected_exit_codes s;
  sk_periods : timeout_secs s ≠ 0 ∧ max_staged_mb s ≠ 0 ∧ 5 ≤ check_every_mins s ≤ 1440;
}.

(** The [[saml]] section: an https address with a host and no query, a metadata file, an attribute. *)
Record saml_ok (c : SamlSection) : Prop := {
  sm_url : ∃ rest, to_chars (url (ss_config c)) = to_chars "https://" ++ rest ∧ ∃ ch, ch ∈ rest ∧ ch ≠ "/"%char;
  sm_plain : ∀ ch, ch ∈ to_chars (url (ss_config c)) → ch ∉ to_chars "?# ";
  sm_metadata : str_trim (idp_metadata c) ≠ ""%string;
  sm_attribute : str_trim (cfg_sid_attribute (ss_config c)) ≠ ""%string;
  sm_skew : clock_skew_secs (ss_config c) ≤ 300;
}.

Record directory_ok (d : DirectoryConfig) : Prop := {
  dk_domain : str_trim (d_domain d) ≠ ""%string ∧ "."%char ∈ to_chars (d_domain d);
  dk_urls : d_urls d ≠ [] ∧ ∀ u, u ∈ d_urls d → is_ldaps u = true;
}.

Record well_formed (windows : bool) (c : Config) : Prop := {
  wf_targets : NoDup (t_id <$> target c);
  wf_tls : verify (tls c) = Ca → is_Some (ca_bundle (tls c));
  wf_audit : audit_days c ≠ 0;
  wf_scan : scan_ok windows (scan c);
  wf_saml : ∀ sc, saml c = Some sc → saml_ok sc ∧ is_Some (service_account c);
  wf_sign_in : local_accounts c = true ∨ is_Some (directory c);
  wf_directory : ∀ d, directory c = Some d → directory_ok (ds_config d);
}.

(** ** The checks decide them *)

Lemma duplicate_target_None seen ts :
  duplicate_target seen ts = None ↔ NoDup (t_id <$> ts) ∧ ∀ t, t ∈ ts → t_id t ∉ seen.
Proof.
  revert seen. induction ts as [|t ts IH]; intros seen.
  { split; [|done]. intros _. split; [constructor|]. by intros t ?%not_elem_of_nil. }
  cbn [duplicate_target]. rewrite fmap_cons, NoDup_cons. case_decide as Ht.
  - split; [done|]. intros [_ H]. by destruct (H t); [left|].
  - rewrite IH, list_elem_of_fmap. setoid_rewrite elem_of_cons. set_unfold. naive_solver.
Qed.

(** A check that fails stops the rest. *)
Lemma guard_ok {E A} (b : bool) (e : E) (x : result E A) y : (if b then Err e else x) = Ok y ↔ b = false ∧ x = Ok y.
Proof. destruct b; naive_solver. Qed.
Lemma guard_ok_dec {E A} P `{Decision P} (e : E) (x : result E A) y : (if decide P then Err e else x) = Ok y ↔ ¬ P ∧ x = Ok y.
Proof. case_decide; naive_solver. Qed.

Lemma existsb_false {A} (f : A → bool) l : existsb f l = false ↔ ∀ x, x ∈ l → f x = false.
Proof.
  rewrite <-not_true_iff_false, List.existsb_exists. setoid_rewrite <-list_elem_of_In. split.
  - intros H x Hx. destruct (f x) eqn:E; [|done]. destruct H. eauto.
  - intros H (x & Hx & Hf). by rewrite H in Hf.
Qed.

Lemma scan_check_spec windows s : scan_check windows s = Ok () ↔ scan_ok windows s.
Proof.
  unfold scan_check. cbv zeta. rewrite !guard_ok, !andb_false_iff, bool_decide_eq_false, !negb_false_iff, bool_decide_eq_true.
  rewrite existsb_false, List.existsb_exists, !bool_decide_eq_false. setoid_rewrite bool_decide_eq_false.
  setoid_rewrite <-list_elem_of_In. split.
  - intros (H1 & H2 & H3 & H4 & H5 & H6 & H7 & _). split.
    + intros Hk. rewrite Hk in H1. by destruct H1.
    + intros Hk. rewrite Hk in *. destruct H3 as [|H3], H4 as [|H4], H5 as [|H5]; done.
    + tauto.
  - intros [H1 H2 H3]. destruct (ScanService.kind s); split_and!; try by left.
    all: try (right; destruct (H2 eq_refl) as (? & ? & ?)); try done; try tauto.
    intros Hc. destruct (H2 eq_refl) as ((arg & Ha & _) & _). rewrite Hc in Ha. by apply not_elem_of_nil in Ha.
Qed.

Lemma drop_slash_nil l : drop_slash l = [] ↔ ∀ ch, ch ∈ l → ch = "/"%char.
Proof.
  induction l as [|c l IH]; [split; [by intros _ ? ?%not_elem_of_nil|done]|]. setoid_rewrite elem_of_cons.
  destruct (decide (c = "/"%char)) as [->|Hc]; [simpl; rewrite IH; naive_solver|].
  split; [|intros H; destruct Hc; eauto]. intros H. exfalso. apply Hc.
  destruct c as [[] [] [] [] [] [] [] []]; simpl in H; done || (by destruct Hc).
Qed.

Lemma strip_prefix_Some pat l rest : strip_prefix pat l = Some rest ↔ l = pat ++ rest.
Proof.
  revert l. induction pat as [|c pat IH]; intros [|d l]; simpl; try naive_solver.
  case_decide as Hc; [rewrite IH; naive_solver|]. split; [done|]. intros [= -> _]. done.
Qed.

Lemma saml_check_spec c : saml_check c = Ok () ↔ saml_ok c.
Proof.
  unfold saml_check. cbv zeta. destruct (strip_prefix _ _) as [rest|] eqn:Hp.
  - apply strip_prefix_Some in Hp.
    rewrite guard_ok, !guard_ok_dec, orb_false_iff, bool_decide_eq_false, drop_slash_nil, existsb_false.
    setoid_rewrite bool_decide_eq_false. setoid_rewrite elem_of_reverse. split.
    + intros ([H1 H2] & H3 & H4 & H5 & _). split; [|done..|lia]. exists rest. split; [done|].
      destruct (decide (Exists (fun ch => ch ≠ "/"%char) rest)) as [(ch & ? & ?)%Exists_exists|He]; [eauto|].
      destruct H1. intros ch Hch. destruct (decide (ch = "/"%char)); [done|]. destruct He. apply Exists_exists. eauto.
    + intros [(rest' & Hr & ch & Hch & Hne) H2 H3 H4 H5]. rewrite Hp in Hr. apply app_inv_head in Hr as ->.
      split_and!; try done; [|lia]. intros Hall. by destruct Hne; apply Hall.
  - split; [done|]. intros [(rest & Hr & _) _ _ _ _]. apply strip_prefix_Some in Hr. congruence.
Qed.

Lemma validate_saml_spec c :
  validate_saml c = Ok () ↔ ∀ sc, saml c = Some sc → saml_ok sc ∧ is_Some (service_account c).
Proof.
  unfold validate_saml. destruct (saml c) as [sc|]; [|naive_solver].
  destruct (saml_check sc) as [[]|e] eqn:Hc.
  - apply saml_check_spec in Hc. destruct (service_account c).
    + split; [|done]. intros _ sc' [= <-]. eauto.
    + split; [done|]. intros H. by destruct (H sc eq_refl) as [_ [? ?]].
  - split; [done|]. intros H. destruct (H sc eq_refl) as [Hok%saml_check_spec _]. congruence.
Qed.

Lemma find_None {A} (f : A → bool) l : List.find f l = None ↔ ∀ x, x ∈ l → f x = false.
Proof.
  split; [intros H x ?%list_elem_of_In; by eapply List.find_none|].
  intros H. destruct (List.find f l) as [x|] eqn:E; [|done]. apply List.find_some in E as [Hx Hf].
  rewrite H in Hf; [done|by apply list_elem_of_In].
Qed.

Lemma validate_directory_spec c :
  validate_directory c = Ok () ↔
  (local_accounts c = true ∨ is_Some (directory c)) ∧ ∀ d, directory c = Some d → directory_ok (ds_config d).
Proof.
  unfold validate_directory. destruct (directory c) as [d|].
  - cbv zeta. rewrite guard_ok, guard_ok_dec, orb_false_iff, bool_decide_eq_false, negb_false_iff, bool_decide_eq_true.
    destruct (List.find _ _) as [bad|] eqn:Hf.
    + split; [naive_solver|]. intros [_ H]. destruct (H d eq_refl) as [_ [_ Hu]]. apply List.find_some in Hf as [Hb Hl].
      rewrite Hu in Hl; [done|by apply list_elem_of_In].
    + assert (∀ u, u ∈ d_urls (ds_config d) → is_ldaps u = true) as Hl.
      { intros u Hu. pose proof (proj1 (find_None _ _) Hf u Hu) as Hn. by apply negb_false_iff. }
      split; [|intros [_ H]; destruct (H d eq_refl) as [[? ?] [? ?]]; by split_and!].
      intros ([? ?] & ? & _). split; [right; by eexists|]. intros d' [= <-]. by split.
  - destruct (local_accounts c); split; try done.
    + intros _. split; [by left|done].
    + intros [[|[? ?]] _]; done.
Qed.

Lemma validate_spec windows c : validate windows c = Ok () ↔ well_formed windows c.
Proof.
  assert (validate windows c = Ok () ↔ NoDup (t_id <$> target c) ∧ (verify (tls c) = Ca → is_Some (ca_bundle (tls c))) ∧
    audit_days c ≠ 0 ∧ scan_ok windows (scan c) ∧ validate_saml c = Ok () ∧ validate_directory c = Ok ()) as ->.
  { unfold validate. pose proof (duplicate_target_None ∅ (target c)) as Hd.
    destruct (duplicate_target ∅ (target c)) as [id|].
    { split; [done|]. intros [Hn _]. destruct Hd as [_ Hd]. discriminate Hd. split; [done|]. set_solver. }
    assert (NoDup (t_id <$> target c)) as Hn by (by apply Hd). rewrite <-scan_check_spec.
    destruct (verify (tls c)), (ca_bundle (tls c)); try (split; [done|]; intros (_ & Ht & _); by destruct (Ht eq_refl));
      rewrite guard_ok_dec; destruct (scan_check windows (scan c)) as [[]|e]; try naive_solver;
      unfold mbind, result_bind; destruct (validate_saml c) as [[]|]; naive_solver. }
  rewrite validate_saml_spec, validate_directory_spec. split; [intros (? & ? & ? & ? & ? & ? & ?); by split|].
  intros []. by split_and!.
Qed.

(** ** Parsing *)

Section parse.
Context (from_str : string → result string Config) (table_of : string → option TomlTable) (parent : string → option string)
  (windows : bool).

(** C30. A configuration is accepted exactly when it is well formed: targets have distinct ids; a
    bundle is named where certificates are checked; the log keeps something; the scanner can run, is
    given the file and its exit codes mean one thing each; single sign-on has an https address and a
    service account to look accounts up with; somebody can sign in; and the directory is asked over
    TLS only. It is then what the file says, with the keys nothing reads listed and a data directory
    chosen, and single sign-on finds the directory it looks accounts up in. *)
Theorem config_accepted_exactly (path text : string) (c : Config) :
  parse from_str table_of parent windows path text = Ok c ↔
  ∃ raw, from_str text = Ok raw ∧ c = with_unknown (unknown_keys (table_of text)) (with_data_dir parent path raw) ∧
    well_formed windows c ∧ is_Some (data_dir c) ∧
    (is_Some (saml c) → is_Some (lookup_directory (requests_read c))).
Proof.
  unfold parse. split.
  - destruct (from_str text) as [raw|e]; [|done]. cbv zeta. set (c' := with_unknown _ _).
    unfold mbind, result_bind. destruct (validate windows c') as [[]|e] eqn:Hv; [|done]. intros [= <-].
    apply validate_spec in Hv. exists raw. split_and!; [done..| |].
    + unfold c', with_data_dir. simpl. destruct (data_dir raw) eqn:Hd; simpl; [by rewrite Hd|by eexists].
    + intros [sc Hsc]. destruct (wf_saml _ _ Hv sc Hsc) as [_ [acc Hacc]]. unfold service_account in Hacc.
      unfold lookup_directory. destruct (directory c') as [d|] eqn:Hd; [|done]. simpl in Hacc.
      unfold requests_read. cbn [c_directory]. rewrite Hd. cbn. unfold has_service_account. rewrite Hacc. by eexists.
  - intros (raw & -> & -> & Hv%validate_spec & _). cbv zeta. unfold mbind, result_bind. by rewrite Hv.
Qed.
End parse.

(** ** Keys nothing reads *)

Lemma elem_of_dedup x l : x ∈ dedup l ↔ x ∈ l.
Proof.
  induction l as [|y [|z l] IH]; [done|done|]. cbn [dedup] in *. case_decide as Hd.
  - subst z. rewrite IH, !elem_of_cons. tauto.
  - by rewrite !(elem_of_cons _ x y), IH.
Qed.

Lemma dedup_sorted l : StronglySorted String.le l → StronglySorted String.le (dedup l) ∧ NoDup (dedup l).
Proof.
  induction 1 as [|x l Hl [IHs IHn] Hx]; [by split; constructor|]. destruct l as [|y l]; [split; repeat constructor; set_solver|].
  cbn [dedup] in *. case_decide as Hd; [done|]. split.
  - constructor; [done|]. apply Forall_forall. intros z Hz. rewrite Forall_forall in Hx. apply Hx. by apply elem_of_dedup.
  - constructor; [|done]. intros Hin. apply (elem_of_dedup x (y :: l)) in Hin. apply Hd.
    apply elem_of_cons in Hin as [?|Hin]; [done|]. apply (anti_symm String.le).
    + rewrite Forall_forall in Hx. apply Hx. by left.
    + inversion Hl as [|? ? _ Hy]. rewrite Forall_forall in Hy. by apply Hy.
Qed.

(** A key of the file that nothing reads, as it is reported. *)
Definition unread (root : TomlTable) (k : string) : Prop :=
  ∃ name value, (name, value) ∈ root ∧
    (name ∉ known "" ∧ k = name ∨
     name ∈ known "" ∧ ∃ t inner, t ∈ tables_of value ∧ inner ∈ t.*1 ∧ inner ∉ known name ∧ k = name +:+ "." +:+ inner).

(** The keys reported at start are exactly those nothing reads: top-level keys that are no
    setting, and keys of a known table, or of a table in a known array, that are no setting of it;
    in order and each once. A file that is not TOML reports none. *)
Theorem unknown_keys_exact (root : TomlTable) :
  unknown_keys None = [] ∧ (∀ k, k ∈ unknown_keys (Some root) ↔ unread root k) ∧
  StronglySorted String.le (unknown_keys (Some root)) ∧ NoDup (unknown_keys (Some root)).
Proof.
  split; [done|]. split.
  - intros k. cbn [unknown_keys]. rewrite elem_of_dedup, merge_sort_Permutation, list_elem_of_bind. unfold unread. split.
    + intros ([name value] & Hk & Hin). exists name, value. split; [done|]. unfold unknown_in in Hk. case_decide as Hn.
      * left. apply list_elem_of_singleton in Hk. done.
      * right. split; [by destruct (decide (name ∈ known ""))|]. apply list_elem_of_bind in Hk as (t & Hk & Ht).
        apply list_elem_of_fmap in Hk as (inner & -> & [Hi Hb]%list_elem_of_In%List.filter_In).
        exists t, inner. split_and!; [done|by apply list_elem_of_In|by apply bool_decide_eq_true in Hb|done].
    + intros (name & value & Hin & Hk). exists (name, value). split; [|done]. unfold unknown_in.
      destruct Hk as [[Hn ->]|(Hn & t & inner & Ht & Hi & Hni & ->)].
      * rewrite decide_True by done. by left.
      * rewrite decide_False by tauto. apply list_elem_of_bind. exists t. split; [|done]. apply list_elem_of_fmap.
        exists inner. split; [done|]. apply list_elem_of_In, List.filter_In. split; [by apply list_elem_of_In|].
        by apply bool_decide_eq_true.
  - cbn [unknown_keys]. apply dedup_sorted. apply (StronglySorted_merge_sort String.le).
Qed.
