(* ===== verification/Start.v ===== *)
(** * Opening the proxy's state (src/src/app.rs)

    What the service and every command-line tool do first: keep a copy of a database whose schema is
    older, open it, find or make this host's key file, load the vault, take the servers of the
    configuration into an empty database and name the database's contents. The state is the database
    and the files beside it; reading certificates and metadata are library and file-system calls, and
    what failed of them is an argument. *)

From S2P Require Import Prelude Tables Text Utf8 Store Auth Live Vault VaultFacts Directory App Web Instant Xml Saml Pruning Migrate Schema Config.
Local Open Scope Z_scope.

Inductive StartError :=
  | SIo (why : string)
  | SStore (e : StoreError)
  | SVault (e : VaultError)
  | SDirectory (e : DirError)
  | STls (why : string)
  | SSaml (e : SamlError).

(** ** The key file (src/src/vault.rs) *)

(** What the file system refuses: reading the file, making it, and the rest of a write after so many
    bytes. *)
Record KeyFileRun := mkKeyFileRun {
  kf_read : option string;
  kf_create : option string;
  kf_write : option (nat * string);
}.

(** A new file, readable by its owner only; one that is there is not touched. *)
Definition write_private (w : KeyFileRun) (path : string) (data : bytes) : M Files VaultError unit := fun files =>
  match files !! path, kf_create w with
  | Some _, _ => (Err (Io "file exists"), files)
  | None, Some e => (Err (Io e), files)
  | None, None =>
      match kf_write w with
      | Some (n, e) => (Err (Io e), <[path := take n data]> files)
      | None => (Ok (), <[path := data]> files)
      end
  end.

Definition LOCAL_KEY : string := "local.key".

(** [KeyFile::load_or_create], on the files of the data directory. *)
Definition key_file (w : KeyFileRun) (random : option bytes) : M Files VaultError bytes :=
  files ← get;
  match kf_read w, files !! LOCAL_KEY with
  | Some e, _ => throw (Io e)
  | None, Some b =>
      if decide (length b = KEY_LEN) then mret b
      else throw (Protect (LOCAL_KEY +:+ " is not a " +:+ pretty (Z.of_nat KEY_LEN) +:+ "-byte key"))
  | None, None =>
      key ← lift (random_key random);
      _ ← write_private w LOCAL_KEY key;
      mret key
  end.

Lemma key_file_found w random files b :
  kf_read w = None → files !! LOCAL_KEY = Some b → length b = KEY_LEN → key_file w random files = (Ok b, files).
Proof. intros Hr Hb Hl. unfold key_file, mbind, M_bind, get. rewrite Hr, Hb. by rewrite decide_True. Qed.

Lemma key_file_made w random files key files' :
  key_file w random files = (Ok key, files') → length key = KEY_LEN ∧ files' !! LOCAL_KEY = Some key.
Proof.
  unfold key_file, mbind, M_bind, get, lift, throw, mret, M_ret. destruct (kf_read w); [done|]. destruct (files !! LOCAL_KEY) as [b|] eqn:Hb.
  - case_decide; [|done]. by intros [= <- <-].
  - destruct (random_key random) as [k|] eqn:Hk; [|done]. unfold write_private. rewrite Hb. destruct (kf_create w); [done|].
    destruct (kf_write w) as [[]|]; [done|]. intros [= <- <-]. split; [by eapply random_key_length|by rewrite lookup_insert_eq].
Qed.

(** ** Opening *)

(** What the system did: the error of making the data directory; the schema version of the database
    found, if there is one, the copy made of it, and the error of making the copy, with what it left;
    the error of opening it; whether this is Windows, which keeps no key file, and what the file system
    refused of that file; the errors of reading the directory's, the servers' and the identity
    provider's certificates, if any; random bytes for the key file, the master key, its wrap and the
    instance, incarnations of new rows. *)
Record StartRun := mkStartRun {
  sr_now : Z;
  sr_dir : option string;
  sr_schema : option Z;
  sr_file : bytes;
  sr_copy : option (StoreError * option bytes);
  sr_open : option StoreError;
  sr_windows : bool;
  sr_keyfile : KeyFileRun;
  sr_keyfile_random : option bytes;
  sr_directory : option DirError;
  sr_tls : option string;
  sr_saml : option SamlError;
  sr_key : option bytes;
  sr_wrap : option bytes;
  sr_rnds : nat → Z;
  sr_instance : bytes;
}.

(** [open_serving]: before a schema migration changes the database, a copy is kept beside it. *)
Definition keep_copy (w : StartRun) : M Files StoreError unit :=
  match sr_schema w with
  | Some found =>
      if decide (1 ≤ found < SCHEMA_VERSION)
      then vacuum_into (schema_backup found (sr_now w)) (sr_file w) (sr_copy w)
      else mret ()
  | None => mret ()
  end.

(** The file [local_protector] reads or makes. *)
Definition protector_file (w : StartRun) : M Files VaultError unit :=
  if sr_windows w then mret ()
  else _ ← key_file (sr_keyfile w) (sr_keyfile_random w); mret ().

Definition on_files_ {E A} (f : E → StartError) (m : M Files E A) : M (Db * Files) StartError A := fun s =>
  let '(r, files) := m s.2 in (match r with Ok x => Ok x | Err e => Err (f e) end, (s.1, files)).
Definition on_database {E A} (f : E → StartError) (m : M Db E A) : M (Db * Files) StartError A := fun s =>
  let '(r, db) := m s.1 in (match r with Ok x => Ok x | Err e => Err (f e) end, (db, s.2)).

Definition fails {S E E'} (f : E → E') (failure : option E) : M S E' unit :=
  match failure with Some e => throw (f e) | None => mret () end.

(** [App::from_parts]. *)
Definition from_parts (cfg : Config) (vault : Vault) (db : Db) : App :=
  let per_address := match directory cfg with Some d => Z.to_nat (ds_failed_signins_per_address d) | None => 0%nat end in
  mkApp db live_default ∅ 0 (mkRevocation None None None 0 []) vault throttle_default (throttle_new per_address) 0 ∅.

Section start.
Context {C : Crypto} {K : KeyProtector}.

(** [Vault::load]: the vault is made here. *)
Definition load_vault (r_key r_wrap : option bytes) : M Db VaultError Vault := fun db =>
  match Vault.load r_key r_wrap (db, mkVault None) with
  | (Ok _, (db, v)) => (Ok v, db)
  | (Err e, (db, _)) => (Err e, db)
  end.

(** [App::new]. *)
Definition app_new (cfg : Config) (w : StartRun) : M (Db * Files) StartError App :=
  _ ← fails SIo (sr_dir w);
  _ ← on_files_ SStore (keep_copy w);
  _ ← fails SStore (sr_open w);
  _ ← on_files_ SVault (protector_file w);
  vault ← on_database SVault (load_vault (sr_key w) (sr_wrap w));
  _ ← fails SDirectory (if decide (is_Some (directory cfg)) then sr_directory w else None);
  _ ← fails STls (sr_tls w);
  _ ← fails SSaml (if decide (is_Some (saml cfg)) then sr_saml w else None);
  _ ← on_database SStore (seed_from_config (sr_now w) (requests_read cfg) (sr_rnds w));
  named ← on_database SStore (meta_get META_INSTANCE);
  _ ← (match named with Some _ => mret () | None => on_database SStore (new_instance (sr_instance w)) end);
  gets (fun s => from_parts cfg vault s.1).

(** The scanner's copies ([scan/scanner.rs]) are files of a directory inside the data directory; a
    file of it is named by its path from there. Those that cannot be removed stay. *)
Definition staging_dir : string := "scan-staging".

Definition in_staging (path : string) : bool :=
  match strip_prefix (to_chars (staging_dir +:+ "/")) (to_chars path) with
  | Some name => negb (bool_decide ("/"%char ∈ name))
  | None => false
  end.

Definition clear_staging (stuck : string → bool) (files : Files) : Files :=
  filter (fun kv => in_staging kv.1 && negb (stuck kv.1) = false) files.

(** [App::for_serving]: what an earlier run left behind is settled; ages are in seconds. *)
Definition for_serving (cfg : Config) (w : StartRun) (age : string → option Z) (stuck : string → bool) :
    M (Db * Files) StartError App :=
  a ← app_new cfg w;
  _ ← on_database SStore (lift_stranded_freeze (sr_now w));
  _ ← modify (fun s => (s.1, clear_staging stuck (sweep_temp_files 3600 age stuck s.2)));
  gets (fun s => with_store s.1 a).

(** ** Starting again *)

(** The vault this database gives on this host, where it needs no new key. *)
Definition held (db : Db) (v : Vault) : Prop :=
  match t_meta db !! META_LOCAL with
  | Some blob =>
      v = mkVault (match unprotect blob with
                   | Ok key => if decide (length key = KEY_LEN) then Some (to_key key) else None
                   | Err _ => None
                   end)
  | None => v = mkVault None ∧ is_Some (t_meta db !! META_RECOVERY)
  end.

Lemma load_vault_run r1 r2 db :
  load_vault r1 r2 db =
  match t_meta db !! META_LOCAL with
  | Some blob => (Ok (mkVault (match unprotect blob with
                   | Ok key => if decide (length key = KEY_LEN) then Some (to_key key) else None
                   | Err _ => None
                   end)), db)
  | None =>
      match t_meta db !! META_RECOVERY with
      | Some _ => (Ok (mkVault None), db)
      | None =>
          match random_key r1 with
          | Err e => (Err e, db)
          | Ok key => match protect key r2 with
                      | Err e => (Err e, db)
                      | Ok blob => (Ok (mkVault (Some key)), set_meta (<[META_LOCAL := blob]>) db)
                      end
          end
      end
  end.
Proof.
  unfold load_vault, Vault.load, st, meta_get, gets, mbind, M_bind. simpl.
  destruct (t_meta db !! META_LOCAL) as [blob|]; simpl.
  { destruct (unprotect blob) as [key|]; [|done]. by case_decide. }
  destruct (t_meta db !! META_RECOVERY); [done|]. simpl. destruct (random_key r1) as [key|]; [|done]. simpl.
  by destruct (protect key r2).
Qed.

Lemma load_held r1 r2 db v db' : load_vault r1 r2 db = (Ok v, db') → held db' v.
Proof.
  rewrite load_vault_run. unfold held. destruct (t_meta db !! META_LOCAL) as [blob|] eqn:Hl.
  { intros [= <- <-]. by rewrite Hl. }
  destruct (t_meta db !! META_RECOVERY) as [rec|] eqn:Hr.
  { intros [= <- <-]. rewrite Hl, Hr. eauto. }
  destruct (random_key r1) as [key|] eqn:Hk; [|done]. destruct (protect key r2) as [blob|] eqn:Hp; [|done].
  intros [= <- <-]. simpl. rewrite lookup_insert_eq, (unprotect_protect _ _ _ Hp), decide_True by (by eapply random_key_length).
  unfold to_key. rewrite take_ge; [done|]. rewrite (random_key_length _ _ Hk). lia.
Qed.

Lemma held_load r1 r2 db v : held db v → load_vault r1 r2 db = (Ok v, db).
Proof.
  rewrite load_vault_run. unfold held. destruct (t_meta db !! META_LOCAL); [by intros ->|]. by intros [-> [? ->]].
Qed.

Lemma held_meta db db' v :
  t_meta db' !! META_LOCAL = t_meta db !! META_LOCAL → t_meta db' !! META_RECOVERY = t_meta db !! META_RECOVERY →
  held db v → held db' v.
Proof. unfold held. by intros -> ->. Qed.

(** There is nothing to take from the configuration. *)
Definition settled (cfg : Cfg) (db : Db) : Prop :=
  c_target cfg = [] ∨ t_meta db !! META_SEEDED = Some b_one ∨ size (t_servers db) ≠ 0%nat.

Lemma seed_settled now cfg rnds db : settled cfg db → seed_from_config now cfg rnds db = (Ok (), db).
Proof.
  unfold settled, seed_from_config. intros H. case_decide as Ht; [done|]. unfold flag, meta_get, servers_empty, gets, mbind, M_bind. simpl.
  case_bool_decide as Hs; [done|]. simpl. case_bool_decide as He; [|done]. simpl. tauto.
Qed.

Lemma servers_import_meta m rows : preserves (fun db => t_meta db = m) (servers_import rows).
Proof.
  assert (∀ name sort, preserves (fun db => t_meta db = m) (insert_group name sort)).
  { intros name sort db Hm. unfold insert_group. repeat case_match; done. }
  assert (∀ rnd name host port g d, preserves (fun db => t_meta db = m) (insert_server rnd name host port g d)).
  { intros rnd name host port g d db Hm. unfold insert_server. repeat case_match; done. }
  assert (∀ id f, preserves (fun db => t_meta db = m) (update_server id f)).
  { intros id f db Hm. unfold update_server. repeat case_match; done. }
  unfold servers_import, import_row, import_group. solve_preserves. all: unfold group_insert; solve_preserves.
Qed.

Lemma seed_ok now cfg rnds db u db' :
  seed_from_config now cfg rnds db = (Ok u, db') →
  settled cfg db' ∧ ∀ k, k ≠ META_SEEDED → t_meta db' !! k = t_meta db !! k.
Proof.
  intros H. destruct (decide (settled cfg db)) as [Hs|Hs].
  { rewrite seed_settled in H by done. by simplify_eq. }
  revert H. unfold seed_from_config. case_decide as Ht; [by destruct Hs; left|].
  unfold flag, meta_get, servers_empty, gets. unfold mbind at 1 2 3, M_bind at 1 2 3. simpl.
  case_bool_decide as Hf; [by destruct Hs; right; left|]. simpl. case_bool_decide as He; [|by destruct Hs; right; right]. simpl.
  intros (counts & db1 & Hi & H)%bind_ok_inv. pose proof (servers_import_meta (t_meta db)
    (imap (fun i t => (rnds i, mkImportRow t.1.1 t.1.2 (Some t.2) (Some (Some "Imported"%string)) None)) (c_target cfg)) db eq_refl) as Hm.
  rewrite Hi in Hm. cbn [snd] in Hm. revert H. unfold set_flag, meta_set, modify, audit, mbind, M_bind. intros [= _ <-]. simpl. rewrite Hm.
  split; [right; left; by apply lookup_insert_eq|]. intros k Hk. by apply lookup_insert_ne.
Qed.

(** Nothing failed, on a host like the one before, whose database has the current schema. *)
Definition sound (windows : bool) (w : StartRun) : Prop :=
  sr_dir w = None ∧ (∀ found, sr_schema w = Some found → ¬ 1 ≤ found < SCHEMA_VERSION) ∧ sr_open w = None ∧
  sr_windows w = windows ∧ kf_read (sr_keyfile w) = None ∧ sr_directory w = None ∧ sr_tls w = None ∧ sr_saml w = None.

(** A data directory that has been opened: a key this host opens or cannot have, the configuration's
    servers taken, a name, and off Windows the key file. *)
Definition opened (cfg : Config) (windows : bool) (v : Vault) (s : Db * Files) : Prop :=
  held s.1 v ∧ settled (requests_read cfg) s.1 ∧ is_Some (t_meta s.1 !! META_INSTANCE) ∧
  (windows = false → ∃ key, s.2 !! LOCAL_KEY = Some key ∧ length key = KEY_LEN).

Lemma on_files_ok {E A} (f : E → StartError) (m : M Files E A) s x s' :
  on_files_ f m s = (Ok x, s') ↔ ∃ files, m s.2 = (Ok x, files) ∧ s' = (s.1, files).
Proof. unfold on_files_. destruct (m s.2) as [[]]; naive_solver. Qed.

Lemma on_database_ok {E A} (f : E → StartError) (m : M Db E A) s x s' :
  on_database f m s = (Ok x, s') ↔ ∃ db, m s.1 = (Ok x, db) ∧ s' = (db, s.2).
Proof. unfold on_database. destruct (m s.1) as [[]]; naive_solver. Qed.

Lemma fails_ok {S E E'} (f : E → E') o (s : S) u s' : fails f o s = (Ok u, s') → s' = s.
Proof. unfold fails. destruct o; [done|]. by intros [= _ <-]. Qed.

Lemma protector_file_ok w files u files' :
  protector_file w files = (Ok u, files') →
  sr_windows w = false → ∃ key, files' !! LOCAL_KEY = Some key ∧ length key = KEY_LEN.
Proof.
  unfold protector_file. intros H Hw. rewrite Hw in H. apply bind_ok_inv in H as (key & f1 & Hk & [= _ <-]).
  apply key_file_made in Hk as [? ?]. by exists key.
Qed.

Lemma protector_file_found w files :
  kf_read (sr_keyfile w) = None →
  (sr_windows w = false → ∃ key, files !! LOCAL_KEY = Some key ∧ length key = KEY_LEN) →
  protector_file w files = (Ok (), files).
Proof.
  unfold protector_file. intros Hr Hk. destruct (sr_windows w); [done|]. destruct Hk as (key & Hf & Hl); [done|].
  by rewrite (bind_ok _ _ _ _ _ (key_file_found _ _ _ _ Hr Hf Hl)).
Qed.

Lemma app_new_ok cfg w s a s' :
  app_new cfg w s = (Ok a, s') → ∃ v, a = from_parts cfg v s'.1 ∧ opened cfg (sr_windows w) v s'.
Proof.
  unfold app_new. intros H. apply bind_ok_inv in H as (? & ? & ->%fails_ok & H).
  apply bind_ok_inv in H as (? & ? & Hc & H). apply on_files_ok in Hc as (f1 & _ & ->).
  apply bind_ok_inv in H as (? & ? & ->%fails_ok & H).
  apply bind_ok_inv in H as (? & ? & Hk & H). apply on_files_ok in Hk as (f2 & Hk & ->).
  pose proof (protector_file_ok _ _ _ _ Hk) as Hkey.
  apply bind_ok_inv in H as (v & ? & Hv & H). apply on_database_ok in Hv as (db1 & Hv%load_held & ->).
  do 3 apply bind_ok_inv in H as (? & ? & ->%fails_ok & H).
  apply bind_ok_inv in H as (? & ? & Hs & H). apply on_database_ok in Hs as (db2 & [Hs Hm]%seed_ok & ->).
  apply bind_ok_inv in H as (named & ? & Hn & H). apply on_database_ok in Hn as (? & [= Hn <-] & ->).
  apply bind_ok_inv in H as (? & ? & Hi & [= <- <-]). cbn [fst snd] in *. exists v. split; [done|].
  assert (held db2 v) as Hh by (eapply held_meta; [by apply Hm..|done]). unfold opened.
  destruct named as [b|]; [by injection Hi as _ <-; cbn [fst snd]; rewrite Hn|].
  apply on_database_ok in Hi as (? & [= _ <-] & ->). simpl. rewrite lookup_insert_eq. split_and!; [| |done|done].
  - eapply held_meta; [..|exact Hh]; simpl; by rewrite lookup_insert_ne.
  - unfold settled in *. simpl. by rewrite lookup_insert_ne.
Qed.

Lemma opened_new cfg w v s :
  sound (sr_windows w) w → opened cfg (sr_windows w) v s → app_new cfg w s = (Ok (from_parts cfg v s.1), s).
Proof.
  destruct s as [db files]. intros (H1 & H2 & H3 & _ & H4 & H5 & H6 & H7) (Hh & Hs & [b Hi] & Hk). cbn [fst snd] in *.
  unfold app_new. rewrite H1, H3, H5, H6, H7. erewrite bind_ok by done.
  erewrite bind_ok.
  2: { apply on_files_ok. eexists. split; [|done]. unfold keep_copy. destruct (sr_schema w) as [found|]; [|done].
       rewrite decide_False by auto. done. }
  erewrite bind_ok by done. erewrite bind_ok by (apply on_files_ok; eexists; split; [by apply protector_file_found|done]).
  erewrite bind_ok by (apply on_database_ok; eexists; split; [by apply held_load, Hh|done]).
  erewrite bind_ok by (by case_decide). erewrite bind_ok by done. erewrite bind_ok by (by case_decide).
  erewrite bind_ok by (apply on_database_ok; eexists; split; [by apply seed_settled, Hs|done]).
  erewrite bind_ok by (apply on_database_ok; eexists; split; [reflexivity|done]). cbn [fst]. by rewrite Hi.
Qed.

(** What opening may add to the data directory: the copy kept of a database of an older schema, and the
    key file. *)
Record opening_adds (w : StartRun) (files files' : Files) : Prop := {
  oa_kept : files ⊆ files';
  oa_new n b : files' !! n = Some b → files !! n = None →
    n = LOCAL_KEY ∧ sr_windows w = false ∨
    ∃ found, sr_schema w = Some found ∧ 1 ≤ found < SCHEMA_VERSION ∧ n = schema_backup found (sr_now w);
}.

Lemma opening_adds_refl w files : opening_adds w files files.
Proof. split; [done|]. intros n b H1 H2. congruence. Qed.

Lemma opening_adds_insert w (files files' : Files) n b :
  files' !! n = None →
  (n = LOCAL_KEY ∧ sr_windows w = false ∨
   ∃ found, sr_schema w = Some found ∧ 1 ≤ found < SCHEMA_VERSION ∧ n = schema_backup found (sr_now w)) →
  opening_adds w files files' → opening_adds w files (<[n := b]> files').
Proof.
  intros Hn Hw [Hk Ha]. split; [etransitivity; [exact Hk|by apply insert_subseteq]|].
  intros m c [[<- _]|[_ Hm]]%lookup_insert_Some Hno; [done|]. by eapply Ha.
Qed.

Lemma keep_copy_adds w files : preserves (opening_adds w files) (keep_copy w).
Proof.
  intros f Hf. unfold keep_copy. destruct (sr_schema w) as [found|] eqn:Hs; [|done]. case_decide; [|done].
  unfold vacuum_into. destruct (f !! _) eqn:Hl, (sr_copy w) as [[e kept]|]; cbn [snd]; try done.
  2: apply opening_adds_insert; eauto.
  destruct kept; [|done]. apply opening_adds_insert; eauto.
Qed.

Lemma protector_file_adds w files : preserves (opening_adds w files) (protector_file w).
Proof.
  intros f Hf. unfold protector_file. destruct (sr_windows w) eqn:Hw; [done|].
  unfold key_file, mbind, M_bind, get, lift, throw, mret, M_ret. destruct (kf_read _); [done|].
  destruct (f !! LOCAL_KEY) eqn:Hl; [by case_decide|]. destruct (random_key _); [|done]. unfold write_private. rewrite Hl.
  destruct (kf_create _); [done|]. destruct (kf_write _) as [[]|]; cbn [snd]; apply opening_adds_insert; auto.
Qed.

(** However opening goes, no file that was there is changed or lost. *)
Lemma app_new_files cfg w s : opening_adds w s.2 (snd (app_new cfg w s)).2.
Proof.
  assert (∀ E A (f : E → StartError) (m : M Files E A), preserves (opening_adds w s.2) m →
    preserves (fun x => opening_adds w s.2 x.2) (on_files_ f m)) as Hf.
  { intros E A f m Hm x Hx. unfold on_files_. specialize (Hm _ Hx). by destruct (m x.2). }
  assert (∀ E A (f : E → StartError) (m : M Db E A), preserves (fun x => opening_adds w s.2 x.2) (on_database f m)) as Hd.
  { intros E A f m x Hx. unfold on_database. by destruct (m x.1). }
  assert (∀ E (f : E → StartError) o, preserves (fun x : Db * Files => opening_adds w s.2 x.2) (fails f o)) as Ho.
  { intros E f o x Hx. by destruct o. }
  assert (preserves (fun x => opening_adds w s.2 x.2) (app_new cfg w)) as H; [|apply H, opening_adds_refl].
  unfold app_new. repeat (apply preserves_bind; [first [apply Ho|apply Hd|apply Hf]|intros ?]).
  all: try solve [apply keep_copy_adds|apply protector_file_adds].
  apply preserves_bind; [|intros; apply preserves_gets]. case_match; [apply preserves_ret|apply Hd].
Qed.

(** Starting again changes nothing. Once the proxy's state was opened, by the service or by any
    command-line tool, opening it again with the same configuration gives the same state, the same key
    among it, whatever random bytes are drawn, and leaves the database and the files beside it as they
    were: no second key is made, the configuration's servers are not taken twice, and the instance keeps
    its name. *)
Theorem starting_again_changes_nothing (cfg : Config) (w w' : StartRun) (s : Db * Files) (a : App) (s' : Db * Files) :
  app_new cfg w s = (Ok a, s') → sound (sr_windows w) w' → app_new cfg w' s' = (Ok a, s') ∧ store_ a = s'.1.
Proof.
  intros (v & -> & Ho)%app_new_ok Hw. split; [|done]. assert (sr_windows w' = sr_windows w) as E by apply Hw.
  rewrite <-E in Ho, Hw. by apply opened_new.
Qed.

Lemma lift_settles now db b db' : lift_stranded_freeze now db = (Ok b, db') → t_meta db' !! META_FREEZE_PENDING ≠ Some b_one.
Proof.
  unfold lift_stranded_freeze, flag, meta_get. simpl. unfold mbind, M_bind, gets. simpl.
  destruct (bool_decide _) eqn:E; simpl; intros [= <- <-]; simpl; [by rewrite lookup_delete_eq|by apply bool_decide_eq_false in E].
Qed.

(** Serving starts with nothing left behind. When the state is opened for serving, no freeze is
    pending, no copy of a scanned file and no temporary file of an export or import older than an
    hour is left, unless the system would not let it be removed, and every other file of the data
    directory is as it was, or one that opening added. *)
Theorem serving_starts_clean (cfg : Config) (w : StartRun) (age : string → option Z) (stuck : string → bool)
    (db db' : Db) (files files' : Files) (a : App) :
  for_serving cfg w age stuck (db, files) = (Ok a, (db', files')) →
  store_ a = db' ∧ t_meta db' !! META_FREEZE_PENDING ≠ Some b_one ∧
  (∀ path b, files' !! path = Some b → stuck path = false →
     in_staging path = false ∧ (is_temporary path = true → ∀ x, age path = Some x → x < 3600)) ∧
  ∃ files1, opening_adds w files files1 ∧ files' ⊆ files1 ∧
    ∀ path, in_staging path = false → is_temporary path = false → files' !! path = files1 !! path.
Proof.
  unfold for_serving. intros (a0 & [db1 files1] & Hn & H)%bind_ok_inv.
  apply bind_ok_inv in H as (b & [db2 files2] & Hl & [= <- <- <-]). apply on_database_ok in Hl as (db3 & Hl & [= -> ->]). cbn [fst snd] in *.
  split; [done|]. split; [by eapply lift_settles|]. unfold clear_staging, sweep_temp_files. split.
  - intros path c [[Hb Ht]%map_lookup_filter_Some Hs]%map_lookup_filter_Some Hk. simpl in *. rewrite Hk in *.
    rewrite andb_true_r in Hs. split; [done|]. intros Htmp x Hx. rewrite Htmp, Hx in Ht. simpl in Ht.
    apply bool_decide_eq_false in Ht. lia.
  - exists files1. split_and!.
    + pose proof (app_new_files cfg w (db, files)) as Hf. by rewrite Hn in Hf.
    + etrans; apply map_filter_subseteq.
    + intros path Hp Ht. apply option_eq. intros c. rewrite !map_lookup_filter_Some. simpl. rewrite Hp, Ht. naive_solver.
Qed.
End start.
