(* ===== verification/Cli.v ===== *)
(** * The command line (src/src/main.rs)

    Which tool a command line names, and the tools: exporting to a file and importing from one,
    setting secrets, unlocking and resetting the credential store, and local accounts. A tool opens
    the same database the service does. Its state is the opened proxy, the data directory, the disk
    and the lines that will be typed; what it prints is not modelled. The disk remembers every state
    it went through, so that what a crash would leave can be spoken of. *)

From S2P Require Import Prelude Tables Text Utf8 Store Auth Live Vault Directory App Web Instant Xml Saml Pruning Migrate Config Start.
Local Open Scope Z_scope.

Inductive CliError :=
  | Told (text : string)
  | EConfig (e : ConfigError)
  | EStart (e : StartError)
  | EVault (e : VaultError)
  | EStore (e : StoreError)
  | EMigrate (e : MigrateError)
  | EDirectory (e : DirError)
  (** "(stop the WebAccessProxy service first)" *)
  | EStopFirst (e : StoreError)
  | EIo (why : string).

(** ** The disk *)

(** The files at their paths, and the states before, newest first. *)
Record Disk := mkDisk { disk_files : Files; disk_past : list Files }.
Abbreviation D := (M Disk CliError).

Definition touch (f : Files → Files) : D unit :=
  modify (fun d => mkDisk (f (disk_files d)) (disk_files d :: disk_past d)).

(** [write_all] into a file just created, up to the first [n] bytes: every shorter prefix was there. *)
Definition write_prefix (path : string) (b : bytes) (n : nat) : D unit :=
  modify (fun d => mkDisk (<[path := take n b]> (disk_files d))
    (((fun k => <[path := take k b]> (disk_files d)) <$> reverse (seq 0 n)) ++ disk_files d :: disk_past d)).

(** What the file system answered: the errors of creating, writing (with the bytes written before
    it), flushing, reading back and renaming, if any; whether a file cannot be removed. *)
Record WriteRun := mkWriteRun {
  wr_create : option string;
  wr_write : option (nat * string);
  wr_sync : option string;
  wr_read : option string;
  wr_rename : option string;
  wr_stuck : bool;
}.

(** ** Which tool *)

Inductive Tool := TExport | TImport | TSetSecret | TLocalAccount | TUnlock | TResetCredentials.
Inductive Invocation := PrintVersion | RunService (config : string) | Serve (config : string) | RunTool (t : Tool) (args : list string).

Definition tool_named (name : string) : option Tool :=
  if decide (name = "export"%string) then Some TExport
  else if decide (name = "import"%string) then Some TImport
  else if decide (name = "set-secret"%string) then Some TSetSecret
  else if decide (name = "local-account"%string) then Some TLocalAccount
  else if decide (name = "unlock"%string) then Some TUnlock
  else if decide (name = "reset-credentials"%string) then Some TResetCredentials
  else None.

Fixpoint trim_start_matches (fuel : nat) (pat l : chars) : chars :=
  match fuel with
  | O => l
  | S fuel => match strip_prefix pat l with Some rest => trim_start_matches fuel pat rest | None => l end
  end.

Section command_line.
(** [std::fs::canonicalize], where it succeeds, and whether this is Windows. *)
Context (canonicalize : string → option string) (windows : bool).

(** What Windows puts before a canonical path. *)
Definition VERBATIM : chars := [backslash; backslash; "?"%char; backslash].

Definition absolute (given : string) : string :=
  match canonicalize given with
  | Some p => of_chars (trim_start_matches (length (to_chars p)) VERBATIM (to_chars p))
  | None => given
  end.

(** [args] is without the program's name. *)
Definition config_path_from_args (args : list string) : string :=
  absolute (default "config.toml"%string (head (List.filter (fun a => negb (starts_with "--" a)) args))).

Definition command_of (args : list string) : Invocation :=
  if windows && bool_decide ("--service"%string ∈ args) then RunService (config_path_from_args args)
  else if decide (head args = Some "--version"%string) then PrintVersion
  else
    match head args ≫= tool_named with
    | Some t => RunTool t (tail args)
    | None => Serve (config_path_from_args args)
    end.
End command_line.

(** ** The tools *)

Record Host := mkHost {
  h_app : App;
  h_data : Files;
  h_disk : Disk;
  h_typed : list (result string string);
}.
Abbreviation T := (M Host CliError).

Definition on_opened {E A} (f : E → CliError) (m : M App E A) : T A := fun s =>
  let '(r, a) := m (h_app s) in
  (match r with Ok x => Ok x | Err e => Err (f e) end, mkHost a (h_data s) (h_disk s) (h_typed s)).

Definition on_db {A} (m : store A) : T A :=
  on_opened EStore (fun a => let '(r, db) := m (store_ a) in (r, with_store db a)).

Definition on_disk {A} (m : D A) : T A := fun s =>
  let '(r, d) := m (h_disk s) in (r, mkHost (h_app s) (h_data s) d (h_typed s)).

Definition is_eol (c : ascii) : bool := bool_decide (c = "013"%char) || bool_decide (c = "010"%char).

(** [trim_end_matches(['\r', '\n'])]. *)
Definition strip_eol (s : string) : string := of_chars (reverse (drop_while is_eol (reverse (to_chars s)))).

(** [prompt::line] and [prompt::secret]: at the end of the input a line is empty. *)
Definition prompt : T string := fun s =>
  match h_typed s with
  | [] => (Ok ""%string, s)
  | Ok l :: rest => (Ok (strip_eol l), mkHost (h_app s) (h_data s) (h_disk s) rest)
  | Err e :: rest => (Err (EIo e), mkHost (h_app s) (h_data s) (h_disk s) rest)
  end.

(** A secret typed twice. *)
Definition prompt_twice : T string :=
  new ← prompt;
  again ← prompt;
  if decide (again = new) then mret new else throw (Told "the two entries differ").

(** What a tool met outside: how opening went, the clock, the copy an export makes, the file it
    writes, the swap of an import, the network, and random bytes. *)
Record CliRun := mkCliRun {
  cr_start : StartRun;
  cr_now : Z;
  cr_copy : option MigrateError;
  cr_write : WriteRun;
  cr_apply : ApplyRun;
  cr_net : Network;
  cr_random1 : option bytes;
  cr_random2 : option bytes;
  cr_token : bytes;
  cr_rnd : Z;
}.

Section tools.
Context {U : Unicode} {C : Crypto} {K : KeyProtector} {L : MigrateLib} (host_name : string).
Context (canonicalize : string → option string) (load_config : string → result string string → result ConfigError Config).
(** The error of reading a path, if any; the text for one that names no file or no UTF-8 text. *)
Context (unreadable : string → option string) (no_file not_text : string).

Definition read_file (path : string) : T bytes := fun s =>
  (match unreadable path with
   | Some e => Err (EIo e)
   | None => ok_or (EIo no_file) (disk_files (h_disk s) !! path)
   end, s).

Definition read_to_string (path : string) (s : Host) : result string string :=
  match unreadable path with
  | Some e => Err e
  | None => match disk_files (h_disk s) !! path with
            | Some b => ok_or not_text (from_utf8 b)
            | None => Err no_file
            end
  end.

(** [App::new], on the database of the data directory and the files beside it. *)
Definition opening_state (m : M (Db * Files) StartError App) : T unit := fun s =>
  match m (store_ (h_app s), h_data s) with
  | (Ok opened, (_, data)) => (Ok (), mkHost opened data (h_disk s) (h_typed s))
  | (Err e, (db, data)) => (Err (EStart e), mkHost (with_store db (h_app s)) data (h_disk s) (h_typed s))
  end.

(** [cli::app]. *)
Definition cli_app (w : CliRun) (config : option string) : T Config :=
  path ← lift (ok_or (Told "the config path is required") config);
  let path := absolute canonicalize path in
  file ← gets (read_to_string path);
  cfg ← lift (match load_config path file with Ok c => Ok c | Err e => Err (EConfig e) end);
  _ ← opening_state (app_new cfg (cr_start w));
  mret cfg.

(** From the file after [--passphrase-file], and otherwise typed. *)
Definition passphrase (args : list string) : T string :=
  match list_find (fun a => a = "--passphrase-file"%string) args with
  | Some (i, _) =>
      path ← lift (ok_or (Told "--passphrase-file needs a path") (args !! S i));
      text ← gets (read_to_string path);
      text ← lift (match text with Ok t => Ok t | Err e => Err (Told ("reading the passphrase file " +:+ path +:+ ": " +:+ e)) end);
      mret (strip_eol text)
  | None => prompt
  end.

Definition io_failed (o : option string) : D unit := fails EIo o.

(** The part of [write_export] that can fail. *)
Definition write_part (w : WriteRun) (out : string) (b : bytes) : D unit :=
  let part := out +:+ ".part" in
  _ ← io_failed (wr_create w);
  _ ← touch <[part := []]>;
  _ ← write_prefix part b (match wr_write w with Some (n, _) => Nat.min n (length b) | None => length b end);
  _ ← io_failed (snd <$> wr_write w);
  _ ← io_failed (wr_sync w);
  _ ← io_failed (wr_read w);
  back ← gets (fun d => default [] (disk_files d !! part));
  _ ← lift (match read_zip back with Ok _ => Ok () | Err e => Err (EMigrate e) end);
  _ ← io_failed (wr_rename w);
  touch (fun fs => <[out := back]> (delete part fs)).

Definition write_export (w : WriteRun) (out : string) (b : bytes) : D unit := fun d =>
  match write_part w out b d with
  | (Err e, d) => (Err e, if wr_stuck w then d else snd (touch (delete (out +:+ ".part")) d))
  | ok => ok
  end.

Definition log_console (w : CliRun) (action detail : string) : T unit := on_db (audit (cr_now w) "console" action detail).

Definition cli_export (w : CliRun) (args : list string) : T unit :=
  _ ← cli_app w (args !! 0%nat);
  out ← lift (ok_or (Told "usage: export <config.toml> <out.zip> [--passphrase-file <path>]")
                (filter_opt (fun a => negb (starts_with "--" a)) (args !! 1%nat)));
  pass ← passphrase args;
  db ← gets (fun s => store_ (h_app s));
  e ← lift (match export_ host_name pass db (cr_now w) (cr_copy w) (cr_random1 w) (cr_random2 w) with
            | Ok e => Ok e
            | Err e => Err (EMigrate e)
            end);
  _ ← on_disk (write_export (cr_write w) out (export_bytes e));
  log_console w "export" (file_name e).

(** [{counts:?}]. *)
Definition counts_debug (c : Counts) : string :=
  "Counts { users: " +:+ pretty (c_users c) +:+ ", servers: " +:+ pretty (c_servers c) +:+ ", assignments: " +:+
  pretty (c_assignments c) +:+ ", credentials: " +:+ pretty (c_credentials c) +:+ " }".

Definition import_failed (e : MigrateError) : CliError :=
  match e with MStore s => EStopFirst s | other => EMigrate other end.

(** [migrate::apply] on the proxy a tool opened and its data directory. *)
Definition on_migrate {A} (f : MigrateError → CliError) (m : G A) : T A := fun s =>
  let '(r, (a, data)) := m (h_app s, h_data s) in
  (match r with Ok x => Ok x | Err e => Err (f e) end, mkHost a data (h_disk s) (h_typed s)).

Definition cli_import (w : CliRun) (args : list string) : T unit :=
  _ ← cli_app w (args !! 0%nat);
  zip ← lift (ok_or (Told "usage: import <config.toml> <in.zip> [--replace]") (args !! 1%nat));
  let replace := bool_decide ("--replace"%string ∈ args) in
  b ← read_file zip;
  mb ← lift (match read_zip b with Ok mb => Ok mb | Err e => Err (EMigrate e) end);
  current ← on_db counts;
  if holds_data current && negb replace then
    throw (Told ("this proxy holds " +:+ pretty (c_users current) +:+ " users and " +:+ pretty (c_servers current)
      +:+ " servers; add --replace to overwrite them"))
  else
    pass ← passphrase args;
    c ← on_migrate import_failed (apply_ mb.2 pass (cr_apply w));
    log_console w "import" (counts_debug c).

Definition set_lost_recovery (w : CliRun) : T unit :=
  unlocked ← gets (fun s => is_unlocked (vault_ (h_app s)));
  if negb unlocked then
    throw (Told "the credential store is locked on this host, so there is no key to wrap under a new passphrase; reset-credentials starts it over")
  else
    new ← prompt_twice;
    _ ← on_opened EVault (on_vault (replace_recovery new (cr_random1 w) (cr_random2 w)));
    log_console w "recovery.replaced" "without the previous passphrase".

Definition set_known_recovery (w : CliRun) : T unit :=
  changing ← on_db recovery_set;
  current ← (if changing : bool then p ← prompt; mret (Some p) else mret None);
  new ← prompt_twice;
  _ ← on_opened EVault (on_vault (set_recovery current new (cr_random1 w) (cr_random2 w)));
  log_console w "recovery.set" "".

Definition set_service_password (w : CliRun) (cfg : Config) : T unit :=
  match service_account cfg, lookup_directory (requests_read cfg) with
  | Some account, Some d =>
      pass ← prompt;
      let probe := default ""%string (normalize_username account) in
      _ ← on_opened EDirectory (fun a =>
            let '(r, p) := lookup_many d (cr_net w) pass [probe] (cr_now w) (preferred a) in (r, with_preferred p a));
      _ ← on_opened EVault (set_directory_password pass (cr_random1 w));
      log_console w "directory.password" ""
  | _, _ => throw (Told "no service_account is configured in config.toml")
  end.

Definition cli_set_secret (w : CliRun) (args : list string) : T unit :=
  cfg ← cli_app w (args !! 1%nat);
  if decide (args !! 0%nat = Some "recovery"%string) then
    if decide ("--replace"%string ∈ args) then set_lost_recovery w else set_known_recovery w
  else if decide (args !! 0%nat = Some "directory"%string) then set_service_password w cfg
  else throw (Told "usage: set-secret recovery <config.toml> [--replace] | set-secret directory <config.toml>").

(** The key is left for the service to load. *)
Definition cli_unlock (w : CliRun) (args : list string) : T unit :=
  _ ← cli_app w (args !! 0%nat);
  unlocked ← gets (fun s => is_unlocked (vault_ (h_app s)));
  if unlocked : bool then mret ()
  else
    pass ← passphrase args;
    _ ← on_opened EVault (on_vault (adopt pass (cr_random1 w)));
    log_console w "vault.unlock" "".

Definition cli_reset_credentials (w : CliRun) (args : list string) : T unit :=
  _ ← cli_app w (args !! 0%nat);
  _ ← on_db counts;
  typed ← prompt;
  if negb (nocase_eq (str_trim typed) host_name) then throw (Told "the host name did not match; nothing was changed")
  else
    removed ← on_opened EVault (reset_credential_store (cr_random1 w) (cr_random2 w));
    log_console w "vault.reset" (pretty removed +:+ " saved credential(s) deleted").

Definition cli_local_account (w : CliRun) (args : list string) : T unit :=
  _ ← cli_app w (args !! 0%nat);
  name ← lift (ok_or (Told "usage: local-account <config.toml> <name> [--admin]")
                 (filter_opt (fun a => negb (starts_with "--" a)) (args !! 1%nat)));
  username ← lift (ok_or (Told "that is not a valid username") (normalize_username name));
  password ← prompt;
  _ ← lift (match check_strength password with Ok u => Ok u | Err e => Err (Told (vault_error_text e)) end);
  again ← prompt;
  _ ← (if decide (again = password) then mret () else throw (Told "the two entries differ"));
  hash ← lift (match hash_password password (cr_random1 w) with Ok h => Ok h | Err e => Err (EVault e) end);
  let sid := "local:" +:+ of_chars (take 32 (to_chars (random_token (cr_token w)))) in
  id ← on_db (local_account_set (cr_now w) (cr_rnd w) username hash sid);
  _ ← (if decide ("--admin"%string ∈ args) then on_db (user_set_admin id true) else mret ());
  log_console w "local-account.set" username.

Definition run_tool (w : CliRun) (t : Tool) (args : list string) : T unit :=
  match t with
  | TExport => cli_export w args
  | TImport => cli_import w args
  | TSetSecret => cli_set_secret w args
  | TLocalAccount => cli_local_account w args
  | TUnlock => cli_unlock w args
  | TResetCredentials => cli_reset_credentials w args
  end.
End tools.
