(* ===== verification/CliFacts.v ===== *)
(** * What the command-line tools do (src/src/main.rs) *)

From S2P Require Import Prelude Tables Text Utf8 Store StoreInv Auth Live Vault VaultFacts Directory App AppFacts Web Instant Xml Saml Pruning Migrate MigrateFacts Config Start Cli.
Local Open Scope Z_scope.

Section facts.
Context {U : Unicode} {C : Crypto} {K : KeyProtector} {L : MigrateLib}.

(** ** The file an export leaves *)

Lemma part_ne (out : string) : out ≠ out +:+ ".part".
Proof. intros E%(f_equal (fun s => length (to_chars s))). rewrite to_chars_app, length_app in E. simpl in E. lia. Qed.

(** States of the disk in which [out] is as it was or the whole export, and nothing else but the
    part has changed. *)
Definition whole (fs0 : Files) (out : string) (b : bytes) (fs : Files) : Prop :=
  (fs !! out = fs0 !! out ∨ fs !! out = Some b ∧ is_ok (read_zip b) = true) ∧
  ∀ n, n ≠ out → n ≠ out +:+ ".part" → fs !! n = fs0 !! n.

(** ... and [out] is as it was. *)
Definition before (fs0 : Files) (out : string) (fs : Files) : Prop := ∀ n, n ≠ out +:+ ".part" → fs !! n = fs0 !! n.

Lemma before_whole fs0 out b fs : before fs0 out fs → whole fs0 out b fs.
Proof. intros H. split; [left; apply H, part_ne|auto]. Qed.

Lemma before_insert fs0 out fs v : before fs0 out fs → before fs0 out (<[out +:+ ".part" := v]> fs).
Proof. intros H n Hn. rewrite lookup_insert_ne by done. auto. Qed.

Lemma before_delete fs0 out fs : before fs0 out fs → before fs0 out (delete (out +:+ ".part") fs).
Proof. intros H n Hn. rewrite lookup_delete_ne by done. auto. Qed.

(** ... in every state since those of [past0]. *)
Definition past_before (fs0 : Files) (out : string) (past0 past : list Files) : Prop :=
  ∃ new, past = new ++ past0 ∧ Forall (before fs0 out) new.

Lemma past_before_cons fs0 out past0 past fs : before fs0 out fs → past_before fs0 out past0 past → past_before fs0 out past0 (fs :: past).
Proof. intros H (new & -> & Hn). exists (fs :: new). split; [done|by constructor]. Qed.

Lemma write_part_run w out b fs0 past0 r d :
  write_part w out b (mkDisk fs0 past0) = (r, d) →
  past_before fs0 out past0 (disk_past d) ∧
  (r = Ok () ∧ is_ok (read_zip b) = true ∧ disk_files d = <[out := b]> (delete (out +:+ ".part") fs0)
   ∨ (∃ e, r = Err e) ∧ before fs0 out (disk_files d)).
Proof.
  assert (before fs0 out fs0) as H0 by done. unfold write_part. cbv zeta.
  destruct (wr_create w) as [e|]; [intros [= <- <-]; split; [by exists []|eauto]|].
  erewrite bind_ok by done. erewrite bind_ok by done. erewrite bind_ok by done. cbn [disk_files disk_past].
  set (part := out +:+ ".part"). set (n := match wr_write w with Some (n, _) => _ | None => _ end).
  set (fs1 := <[part:=take n b]> _). set (past := (_ <$> _) ++ _).
  assert (before fs0 out fs1) as H1 by (by repeat apply before_insert).
  assert (past_before fs0 out past0 past) as Hp.
  { eexists ((_ <$> _) ++ [_; fs0]). split; [by rewrite <-app_assoc|]. apply Forall_app.
    split; [|constructor; [by apply before_insert|by apply Forall_singleton]].
    apply Forall_fmap, Forall_forall. intros k _. by repeat apply before_insert. }
  destruct (wr_write w) as [[k e]|]; [intros [= <- <-]; eauto|]. erewrite bind_ok by done.
  destruct (wr_sync w); [intros [= <- <-]; eauto|]. erewrite bind_ok by done.
  destruct (wr_read w); [intros [= <- <-]; eauto|]. erewrite bind_ok by done.
  rewrite bind_gets. cbn [disk_files].
  assert (default [] (fs1 !! part) = b) as Eb by (unfold fs1; rewrite lookup_insert_eq; apply firstn_all).
  rewrite Eb. destruct (read_zip b) as [m|e] eqn:Hz; [|intros [= <- <-]; eauto]. erewrite bind_ok by done.
  destruct (wr_rename w); [intros [= <- <-]; eauto|]. erewrite bind_ok by done.
  intros [= <- <-]. cbn [disk_files disk_past]. split; [by apply past_before_cons|]. left. split_and!; [done..|].
  f_equal. unfold fs1. by rewrite insert_insert_eq, delete_insert_eq.
Qed.

Lemma write_export_run w out b fs0 past0 r d :
  write_export w out b (mkDisk fs0 past0) = (r, d) →
  past_before fs0 out past0 (disk_past d) ∧
  match r with
  | Ok _ => is_ok (read_zip b) = true ∧ disk_files d = <[out := b]> (delete (out +:+ ".part") fs0)
  | Err _ => before fs0 out (disk_files d) ∧ (wr_stuck w = false → disk_files d !! (out +:+ ".part") = None)
  end.
Proof.
  unfold write_export. destruct (write_part w out b (mkDisk fs0 past0)) as [r1 d1] eqn:E.
  apply write_part_run in E as [Hp [(-> & Hz & Hd)|((e & ->) & Hd)]]; [by intros [= <- <-]|].
  destruct (wr_stuck w); intros [= <- <-]; cbn [disk_files disk_past]; [done|].
  split; [by apply past_before_cons|]. split; [by apply before_delete|by rewrite lookup_delete_eq].
Qed.

(** C22. An export's file is replaced whole or not at all. Whatever the file system refuses, and at whatever
    moment the machine stops, the file named holds what it held before or the complete new export, which
    reads back as an archive; no other file but the part beside it is touched. A write that succeeds
    leaves the new export and no part; one that fails leaves the file as it was, and no part where it
    can be removed. *)
Theorem export_file_is_whole (w : WriteRun) (out : string) (b : bytes) (fs0 : Files) :
  let '(r, d) := write_export w out b (mkDisk fs0 []) in
  Forall (whole fs0 out b) (disk_files d :: disk_past d) ∧
  match r with
  | Ok _ => is_ok (read_zip b) = true ∧ disk_files d = <[out := b]> (delete (out +:+ ".part") fs0)
  | Err _ => before fs0 out (disk_files d) ∧ (wr_stuck w = false → disk_files d !! (out +:+ ".part") = None)
  end.
Proof.
  destruct (write_export w out b (mkDisk fs0 [])) as [r d] eqn:E.
  apply write_export_run in E as ((new & Hp & Hnew) & Hr). rewrite app_nil_r in Hp. subst new. split; [|done].
  constructor; [|eapply Forall_impl; [exact Hnew|]; apply before_whole].
  destruct r as [u|e]; [|by apply before_whole; destruct Hr]. destruct Hr as [Hz ->].
  split; [right; by rewrite lookup_insert_eq|]. intros n H1 H2. by rewrite lookup_insert_ne, lookup_delete_ne.
Qed.

(** ** Tools that fail *)

(** A host that differs at most in what was typed, what the process itself remembers, what [left] allows
    of the data directory's files, and files of the disk that do not matter. *)
Definition same_host (left : relation Files) (spare : string → Prop) (s s' : Host) : Prop :=
  store_ (h_app s') = store_ (h_app s) ∧ left (h_data s) (h_data s') ∧
  ∀ n, ¬ spare n → disk_files (h_disk s') !! n = disk_files (h_disk s) !! n.

#[local] Instance same_host_preorder left spare : PreOrder left → PreOrder (same_host left spare).
Proof.
  intros Hl. split; [by intros x; split_and!|]. intros x y z (?&?&Hd) (?&?&Hd'). split_and!; [congruence|by etrans|].
  intros n Hn. by rewrite Hd', Hd.
Qed.

(** What a failed tool may leave in the data directory: an import, what it may leave; the others, nothing. *)
Definition left_in_data (w : CliRun) (t : Tool) : relation Files :=
  match t with TImport => untouched (cr_apply w) | _ => eq end.

#[local] Instance left_in_data_preorder w t : PreOrder (left_in_data w t).
Proof.
  destruct t; cbn; try apply _. split; [intros f; apply untouched_refl|]. intros x y z Hx Hy. by eapply untouched_trans.
Qed.

Section clean.
Context (left : relation Files) `{!PreOrder left} (spare : string → Prop).

(** Steps that only read, steps that change nothing when they fail, steps that never fail. *)
Definition reads {A} (m : T A) : Prop := ∀ s, same_host left spare s (snd (m s)).
Definition atomic {A} (m : T A) : Prop := ∀ s e s', m s = (Err e, s') → same_host left spare s s'.
Definition never_fails {A} (m : T A) : Prop := ∀ s, is_ok (fst (m s)) = true.

Lemma reads_atomic {A} (m : T A) : reads m → atomic m.
Proof. intros H s e s' E. specialize (H s). by rewrite E in H. Qed.

Lemma reads_bind {A B} (m : T A) (f : A → T B) : reads m → (∀ x, reads (f x)) → reads (m ≫= f).
Proof.
  intros Hm Hf s. specialize (Hm s). unfold mbind, M_bind. destruct (m s) as [[x|e] s1]; cbn [snd] in *; [|done].
  etrans; [exact Hm|apply Hf].
Qed.

Lemma atomic_bind {A B} (m : T A) (f : A → T B) : reads m → (∀ x, atomic (f x)) → atomic (m ≫= f).
Proof.
  intros Hm Hf s e s'. specialize (Hm s). unfold mbind, M_bind. destruct (m s) as [[x|e1] s1]; cbn [snd] in *.
  - intros E. etrans; [exact Hm|by eapply Hf].
  - by intros [= _ <-].
Qed.

Lemma atomic_then {A B} (m : T A) (f : A → T B) : atomic m → (∀ x, never_fails (f x)) → atomic (m ≫= f).
Proof.
  intros Hm Hf s e s'. unfold mbind, M_bind. destruct (m s) as [[x|e1] s1] eqn:E; [|intros [= _ <-]; by eapply Hm].
  intros Ef. specialize (Hf x s1). by rewrite Ef in Hf.
Qed.

Lemma reads_ret {A} (x : A) : reads (mret x).
Proof. intros s. by cbn. Qed.
Lemma reads_throw {A} e : reads (A:=A) (throw e).
Proof. intros s. by cbn. Qed.
Lemma reads_lift {A} (r : result CliError A) : reads (lift r).
Proof. intros s. by cbn. Qed.
Lemma reads_gets {A} (g : Host → A) : reads (gets g).
Proof. intros s. by cbn. Qed.
Lemma reads_prompt : reads prompt.
Proof. intros s. unfold prompt. by destruct (h_typed s) as [|[]]. Qed.
Lemma reads_db {A} (g : Db → A) : reads (on_db (gets g)).
Proof. intros s. unfold on_db, on_opened. by cbn. Qed.
Lemma reads_file unreadable no_file path : reads (read_file unreadable no_file path).
Proof. by intros s. Qed.

Create HintDb cli discriminated.
#[local] Hint Resolve reads_bind reads_ret reads_throw reads_lift reads_gets reads_prompt reads_db reads_file
  reads_atomic atomic_bind : cli.

Lemma reads_twice : reads prompt_twice.
Proof. unfold prompt_twice. apply reads_bind; [apply reads_prompt|]. intros new. apply reads_bind; [apply reads_prompt|]. intros again. case_decide; auto with cli. Qed.

Lemma reads_passphrase unreadable no_file not_text args : reads (passphrase unreadable no_file not_text args).
Proof. unfold passphrase. destruct (list_find _ args) as [[]|]; eauto 10 with cli. Qed.

Lemma log_console_ok w action detail : never_fails (log_console w action detail).
Proof. by intros s. Qed.

(** A step of the vault that changes the database only when it succeeds. *)
Lemma atomic_opened {E A} (f : E → CliError) (m : M App E A) :
  (∀ a e a', m a = (Err e, a') → store_ a' = store_ a) → atomic (on_opened f m).
Proof.
  intros H s e s'. unfold on_opened. destruct (m (h_app s)) as [[x|e1] a1] eqn:E1; [done|]. intros [= _ <-].
  split; [by eapply H|done].
Qed.

Lemma atomic_vault {A} (f : VaultError → CliError) (m : V A) :
  (∀ db v e s, m (db, v) = (Err e, s) → s.1 = db) → atomic (on_opened f (on_vault m)).
Proof.
  intros H. apply atomic_opened. intros a e a'. unfold on_vault. destruct (m (store_ a, vault_ a)) as [r [db v]] eqn:Em.
  intros [= -> <-]. apply H in Em. by simpl in *.
Qed.

Lemma atomic_set_recovery c new r1 r2 : atomic (on_opened EVault (on_vault (set_recovery c new r1 r2))).
Proof. apply atomic_vault. intros db v e s E. pose proof (set_recovery_run c new r1 r2 db v) as H. rewrite E in H. by apply H. Qed.

Lemma atomic_replace_recovery new r1 r2 : atomic (on_opened EVault (on_vault (replace_recovery new r1 r2))).
Proof. apply atomic_vault. intros db v e s E. pose proof (replace_recovery_run new r1 r2 db v) as H. rewrite E in H. by apply H. Qed.

Lemma atomic_adopt pass r : atomic (on_opened EVault (on_vault (adopt pass r))).
Proof.
  apply atomic_vault. intros db v e s. unfold adopt, verify_recovery, mbind, M_bind, st. simpl.
  destruct (t_meta db !! META_RECOVERY) as [b|]; simpl; [|by intros [= _ <-]].
  destruct (unwrap_recovery b pass) as [k|]; simpl; [|by intros [= _ <-]].
  destruct (protect k r) as [blob|]; simpl; [done|by intros [= _ <-]].
Qed.

Lemma atomic_reset r1 r2 : atomic (on_opened EVault (reset_credential_store r1 r2)).
Proof.
  apply atomic_vault. intros db v e s. unfold vault_reset. intros E.
  destruct (random_key r1) as [k|]; [|by injection E as _ <-]. erewrite bind_ok in E by done.
  destruct (protect k r2) as [blob|]; [|by injection E as _ <-]. erewrite bind_ok in E by done.
  unfold st in E at 1. unfold mbind at 1, M_bind at 1 in E. cbn [fst snd] in E.
  destruct (replace_secrets _ _ db) as [[n|e1] db1] eqn:Er; [done|]. injection E as _ <-.
  unfold replace_secrets in Er. by apply transaction_err in Er.
Qed.

Lemma atomic_directory_password pass r : atomic (on_opened EVault (set_directory_password pass r)).
Proof.
  apply atomic_opened. intros a e a'. unfold set_directory_password. destruct (seal_value _ _ _ _); [done|]. by intros [= _ <-].
Qed.

Lemma reads_lookup d net pass names now :
  reads (on_opened EDirectory (fun a => let '(r, p) := lookup_many d net pass names now (preferred a) in (r, with_preferred p a))).
Proof. intros s. unfold on_opened. by destruct (lookup_many d net pass names now (preferred (h_app s))) as [r q]. Qed.

Lemma atomic_import blob pass w : (∀ f f', untouched w f f' → left f f') → atomic (on_migrate import_failed (apply_ blob pass w)).
Proof.
  intros Hl s e s'. unfold on_migrate.
  destruct (apply_run blob pass w (h_app s) (h_data s)) as [(e1 & f1 & -> & Hu)|(?&?&?&?&?&_&_&_&_&->)]; [|done].
  intros [= _ <-]. split_and!; [done|by apply Hl|done].
Qed.

Lemma atomic_write w out b : (∀ n, n = out +:+ ".part" → spare n) → atomic (on_disk (write_export w out b)).
Proof.
  intros Hsp s e s'. unfold on_disk. destruct (h_disk s) as [fs past] eqn:Hd.
  destruct (write_export w out b (mkDisk fs past)) as [r d] eqn:E. intros [= -> <-].
  apply write_export_run in E as (_ & Hb & _). split_and!; [done..|]. cbn [h_disk]. rewrite Hd. intros n Hn. apply Hb. eauto.
Qed.

(** What setting a local account leaves: the row with that name, and nobody else has it. *)
Lemma local_account_set_run now rnd name hash sid db :
  match local_account_set now rnd name hash sid db with
  | (Ok id, db') => ∃ r, t_users db' = <[id := r]> (t_users db) ∧ u_username r = name ∧ u_local_hash r = Some hash ∧
      username_taken name (Some id) db' = false
  | (Err _, db') => db' = db
  end.
Proof.
  unfold local_account_set. rewrite bind_gets.
  destruct (select_one _ (t_users db)) as [[id r]|] eqn:Hs; cbn [fmap option_fmap option_map fst snd].
  - apply select_one_Some in Hs as [Hr Hn%bool_decide_eq_true]. case_bool_decide as Hh; [|done].
    unfold update_user, mbind, M_bind. rewrite Hr.
    destruct (username_taken (u_username (with_local_hash hash r)) (Some id) db) eqn:Ht; [done|].
    cbn [mret M_ret]. exists (with_local_hash hash r). simpl. split_and!; [done..|].
    rewrite username_taken_false in Ht |- *. simpl. intros j x Hj Hx. destruct (decide (j = id)) as [->|Hne]; [done|].
    rewrite lookup_insert_ne in Hj by done. eapply Ht; [exact Hj|]. simpl. congruence.
  - unfold insert_user. destruct (username_taken name None db) eqn:Ht; [done|].
    destruct (next_rowid (users_seq db)) as [id|]; [|done]. eexists. simpl. split_and!; [done..|].
    rewrite username_taken_false in Ht |- *. simpl. intros j x Hj Hx. destruct (decide (j = id)) as [->|Hne]; [done|].
    rewrite lookup_insert_ne in Hj by done. by specialize (Ht j x Hj Hx).
Qed.

(** Then the row can be made an administrator's. *)
Lemma set_admin_run id db r name :
  t_users db !! id = Some r → u_username r = name → username_taken name (Some id) db = false →
  user_set_admin id true db = (Ok (), set_users (<[id := with_admin true r]>) db).
Proof.
  intros Hr Hn Ht. unfold user_set_admin, update_user, mbind, M_bind. rewrite Hr. simpl. rewrite Hn, Ht. done.
Qed.

Lemma atomic_local_account w name hash sid (admin : Prop) `{!Decision admin} action detail :
  atomic (id ← on_db (local_account_set (cr_now w) (cr_rnd w) name hash sid);
          _ ← (if decide admin then on_db (user_set_admin id true) else mret ());
          log_console w action detail).
Proof.
  intros s e s' E. pose proof (local_account_set_run (cr_now w) (cr_rnd w) name hash sid (store_ (h_app s))) as Hl.
  unfold mbind at 1, M_bind at 1, on_db at 1, on_opened at 1 in E.
  destruct (local_account_set _ _ name hash sid (store_ (h_app s))) as [[id|e1] db'].
  - exfalso. destruct Hl as (r & Hu & Hn & _ & Ht). case_decide; [|done].
    unfold mbind, M_bind, on_db at 1, on_opened at 1 in E. cbn [h_app store_ with_store] in E.
    erewrite set_admin_run in E; [done| |exact Hn|done]. rewrite Hu. apply lookup_insert_eq.
  - subst db'. injection E as _ <-. by cbn.
Qed.
End clean.

#[local] Hint Resolve reads_bind reads_ret reads_throw reads_lift reads_gets reads_prompt reads_db reads_file
  reads_atomic atomic_bind reads_twice reads_passphrase reads_lookup : cli.
#[local] Hint Extern 1 (PreOrder _) => apply _ : cli.

(** ** Every tool *)

Context (host_name : string) (canonicalize : string → option string)
  (load_config : string → result string string → result ConfigError Config)
  (unreadable : string → option string) (no_file not_text : string).
Abbreviation cli_app := (Cli.cli_app canonicalize load_config unreadable no_file not_text).
Abbreviation run_tool := (Cli.run_tool host_name canonicalize load_config unreadable no_file not_text).

(** The host as a tool finds it: as it was, or with the data directory opened by the configuration read,
    which adds no file but the key file and the copy kept of an older schema. *)
Definition host_opened (w : CliRun) (s s1 : Host) : Prop :=
  h_disk s1 = h_disk s ∧ opening_adds (cr_start w) (h_data s) (h_data s1) ∧
  ((store_ (h_app s1), h_data s1) = (store_ (h_app s), h_data s) ∨
   ∃ path cfg, load_config path (read_to_string unreadable no_file not_text path s) = Ok cfg ∧
     (store_ (h_app s1), h_data s1) = snd (app_new cfg (cr_start w) (store_ (h_app s), h_data s))).

Lemma cli_app_run w config s : host_opened w s (snd (cli_app w config s)).
Proof.
  assert (host_opened w s s) as Hid by (split_and!; [done|apply opening_adds_refl|by left]).
  unfold Cli.cli_app. destruct config as [path|]; [|done]. erewrite bind_ok by done. cbv zeta.
  rewrite bind_gets. destruct (load_config _ _) as [cfg|e] eqn:Hc; [|done]. erewrite bind_ok by done.
  unfold mbind, M_bind, opening_state. pose proof (app_new_files cfg (cr_start w) (store_ (h_app s), h_data s)) as Hf.
  destruct (app_new cfg (cr_start w) (store_ (h_app s), h_data s)) as [[a|e] [db data]] eqn:E; split_and!; try done; right.
  - apply app_new_ok in E as E'. destruct E' as (v & -> & _). eexists _, cfg. split; [exact Hc|]. by rewrite E.
  - eexists _, cfg. split; [exact Hc|]. by rewrite E.
Qed.

(** Files a tool may leave behind when it fails. *)
Definition leftover (t : Tool) (args : list string) (n : string) : Prop :=
  t = TExport ∧ ∃ out, args !! 1%nat = Some out ∧ n = out +:+ ".part".

Lemma after_app w config (f : Config → T unit) left `{!PreOrder left} spare s e s' :
  (∀ cfg, atomic left spare (f cfg)) → (cli_app w config ≫= f) s = (Err e, s') →
  ∃ s1, host_opened w s s1 ∧ same_host left spare s1 s'.
Proof.
  intros Hf E. pose proof (cli_app_run w config s) as Hr. unfold mbind, M_bind in E.
  destruct (cli_app w config s) as [[cfg|e1] s1]; cbn [snd] in Hr; exists s1; split; try done.
  - by eapply Hf.
  - by injection E as _ <-.
Qed.

Ltac tool_reads := repeat (apply atomic_bind; [apply _|solve [eauto 10 with cli]|intros ?]).

Lemma atomic_export left `{!PreOrder left} w (args : list string) :
  atomic left (leftover TExport args)
    (out ← lift (ok_or (Told "usage: export <config.toml> <out.zip> [--passphrase-file <path>]")
                   (filter_opt (fun a => negb (starts_with "--" a)) (args !! 1%nat)));
     pass ← passphrase unreadable no_file not_text args;
     db ← gets (fun s => store_ (h_app s));
     e ← lift (match export_ host_name pass db (cr_now w) (cr_copy w) (cr_random1 w) (cr_random2 w) with
               | Ok e => Ok e
               | Err e => Err (EMigrate e)
               end);
     _ ← on_disk (write_export (cr_write w) out (export_bytes e));
     log_console w "export" (file_name e)).
Proof.
  destruct (args !! 1%nat) as [out|] eqn:Ho; [|by apply reads_atomic].
  cbn [filter_opt]. destruct (negb (starts_with "--" out)); [|by apply reads_atomic].
  intros s e s'. erewrite bind_ok by done. revert s e s'. tool_reads.
  apply atomic_then; [|intros; apply log_console_ok]. apply atomic_write; [apply _|]. intros n ->. by split; [|exists out].
Qed.

Lemma atomic_set_secret left `{!PreOrder left} spare w (args : list string) cfg :
  atomic left spare
    (if decide (args !! 0%nat = Some "recovery"%string) then
       if decide ("--replace"%string ∈ args) then set_lost_recovery w else set_known_recovery w
     else if decide (args !! 0%nat = Some "directory"%string) then set_service_password w cfg
     else throw (Told "usage: set-secret recovery <config.toml> [--replace] | set-secret directory <config.toml>")).
Proof.
  repeat case_decide; unfold set_lost_recovery, set_known_recovery, set_service_password; [| | |eauto with cli].
  - tool_reads. case_match; [eauto with cli|]. tool_reads.
    apply atomic_then; [apply atomic_replace_recovery; apply _|intros; apply log_console_ok].
  - apply atomic_bind; [apply _|apply reads_db; apply _|]. intros changing. apply atomic_bind; [apply _|destruct changing; eauto with cli|]. intros current. tool_reads.
    apply atomic_then; [apply atomic_set_recovery; apply _|intros; apply log_console_ok].
  - destruct (service_account cfg); [|eauto with cli]. destruct (lookup_directory (requests_read cfg)); [|eauto with cli]. tool_reads.
    apply atomic_then; [apply atomic_directory_password; apply _|intros; apply log_console_ok].
Qed.


(** ** Local accounts *)

Lemma cli_app_typed w config s cfg s1 : cli_app w config s = (Ok cfg, s1) → h_typed s1 = h_typed s.
Proof.
  unfold Cli.cli_app. destruct config as [path|]; [|done]. erewrite bind_ok by done. cbv zeta.
  rewrite bind_gets. destruct (load_config _ _) as [c|e]; [|done]. erewrite bind_ok by done.
  unfold mbind, M_bind, opening_state. destruct (app_new c (cr_start w) (store_ (h_app s), h_data s)) as [[a|e] [db data]]; [|done].
  by intros [= _ <-].
Qed.

Lemma prompt_ok s x s' :
  prompt s = (Ok x, s') → x ≠ ""%string →
  ∃ l, h_typed s = Ok l :: h_typed s' ∧ strip_eol l = x ∧ h_app s' = h_app s.
Proof.
  unfold prompt. destruct (h_typed s) as [|[l|e] rest]; [by intros [= <- _]| |done]. intros [= <- <-] _. by exists l.
Qed.

(** A local account is made as asked. When the tool says so, the name given is an acceptable user name
    and the row with that name has a local password: the one typed, twice the same and of twelve
    characters or more, verifies against what is stored, and of other texts only those the hash cannot
    tell from it; and the account is an administrator's where that was asked for. *)
Theorem local_account_made (w : CliRun) (args : list string) (s s' : Host) :
  run_tool w TLocalAccount args s = (Ok (), s') →
  ∃ name username password l1 l2 id r hash salt,
    args !! 1%nat = Some name ∧ normalize_username name = Some username ∧
    h_typed s = Ok l1 :: Ok l2 :: h_typed s' ∧ strip_eol l1 = password ∧ strip_eol l2 = password ∧
    (MIN_PASSPHRASE ≤ char_count password)%nat ∧
    t_users (store_ (h_app s')) !! id = Some r ∧ u_username r = username ∧ u_local_hash r = Some hash ∧
    (∀ q, verify_password q hash = true ↔ derive q salt = derive password salt) ∧ verify_password password hash = true ∧
    ("--admin"%string ∈ args → u_is_admin r = true).
Proof.
  cbn [Cli.run_tool]. unfold cli_local_account. intros (cfg & s1 & Ha%cli_app_typed & H)%bind_ok_inv.
  apply bind_ok_inv in H as (name & ? & [= Hn <-] & H). apply bind_ok_inv in H as (username & ? & [= Hu <-] & H).
  apply bind_ok_inv in H as (password & s2 & Hp1 & H). apply bind_ok_inv in H as (? & ? & [= Hst <-] & H).
  apply bind_ok_inv in H as (again & s3 & Hp2 & H). apply bind_ok_inv in H as (? & s4 & Hag & H).
  destruct (decide (again = password)) as [->|]; [|done]. injection Hag as _ <-.
  apply bind_ok_inv in H as (hash & ? & [= Hh <-] & H). cbv zeta in H.
  apply bind_ok_inv in H as (id & s5 & Hl & H). apply bind_ok_inv in H as (? & s6 & Had & Hlog).
  assert (password ≠ ""%string ∧ (MIN_PASSPHRASE ≤ char_count password)%nat) as [Hne Hlen].
  { unfold check_strength in Hst. destruct (decide (char_count password < MIN_PASSPHRASE)%nat) as [Hc|Hc]; [done|].
    split; [|lia]. intros ->. by apply Hc, Nat.ltb_lt. }
  apply prompt_ok in Hp1 as (l1 & Ht1 & He1 & _); [|done]. apply prompt_ok in Hp2 as (l2 & Ht2 & He2 & _); [|done].
  destruct (args !! 1%nat) as [name'|]; [|done]. cbn [filter_opt] in Hn. destruct (negb (starts_with "--" name')); [|done].
  injection Hn as ->. destruct (normalize_username name) as [u'|] eqn:En; [|done]. injection Hu as ->.
  destruct (hash_password password (cr_random1 w)) as [h'|] eqn:Eh; [|done]. injection Hh as ->.
  apply local_password_exact in Eh as (salt & h & Hd & Hv).
  unfold on_db, on_opened in Hl. pose proof (local_account_set_run (cr_now w) (cr_rnd w) username hash
    ("local:" +:+ of_chars (take 32 (to_chars (random_token (cr_token w))))) (store_ (h_app s3))) as Hr.
  destruct (local_account_set _ _ _ _ _ _) as [[id'|] db1]; [|done]. injection Hl as -> <-.
  destruct Hr as (r & Hus & Hname & Hhash & Htk).
  assert (t_users db1 !! id = Some r) as Hrow by (rewrite Hus; apply lookup_insert_eq).
  assert (∃ r', t_users (store_ (h_app s')) !! id = Some r' ∧ u_username r' = username ∧ u_local_hash r' = Some hash ∧
    ("--admin"%string ∈ args → u_is_admin r' = true) ∧ h_typed s' = h_typed s3) as (r' & Hr1 & Hr2 & Hr3 & Hr4 & Hty).
  { injection Hlog as <-. destruct (decide ("--admin"%string ∈ args)).
    - unfold on_db, on_opened in Had. cbn [h_app with_store store_] in Had.
      rewrite (set_admin_run id db1 r username Hrow Hname Htk) in Had. injection Had as _ <-.
      exists (with_admin true r). simpl. rewrite lookup_insert_eq. done.
    - injection Had as _ <-. exists r. simpl. done. }
  exists name, username, password, l1, l2, id, r', hash, salt. rewrite <-Ha, Ht1, Ht2, Hty. split_and!; try done.
  - intros q. by rewrite Hv, Hd.
  - by apply Hv.
Qed.
End facts.
