(* ===== verification/CliSample.v ===== *)
(** * The command line, run

    A tool making a local account on a fresh host, and tools that are refused. *)

From S2P Require Import Prelude Tables Text Utf8 Store StoreInv Auth Live Vault VaultFacts Directory DirectoryFacts App AppFacts Web Instant Scanner ScanService Xml Saml Pruning Migrate MigrateFacts MigrateSample Schema Config Start Cli CliFacts.
Local Open Scope Z_scope.

#[local] Existing Instances sample_crypto sample_protector sample_migrate ascii_unicode.

Definition console_config : Config :=
  mkConfig "127.0.0.1:8443" None (mkTls Insecure None) None None [] true (Some "data"%string) 64 400 [] (scan_default false) [].

Definition console_start : StartRun :=
  mkStartRun 1800000000 None None [] None None false (mkKeyFileRun None None None) (Some (replicate 32 x17)) None None None
    (Some (replicate 32 x2a)) (Some (replicate 12 x01)) Z.of_nat [xef; x01].

Definition console_net : Network :=
  mkNetwork (fun _ => Err "offline"%string) (fun _ _ _ => Err "offline"%string) (fun _ _ => Err "offline"%string)
    (fun _ _ _ _ => Err "offline"%string).

Definition console_run : CliRun :=
  mkCliRun console_start 1800000000 None (mkWriteRun None None None None None false) sample_run console_net
    (Some (replicate 16 x05)) (Some (replicate 12 x06)) [x0a; x0b] 77.

(** A host with nothing but its configuration file, and these lines about to be typed. *)
Definition console_host (typed : list string) : Host :=
  mkHost (from_parts console_config (mkVault None) empty_db) ∅ (mkDisk {[ "c.toml"%string := [] ]} []) (Ok <$> typed).

Abbreviation console_tool := (run_tool "vm1" (fun _ => None) (fun _ _ => Ok console_config) (fun _ => None) "no such file" "not text").

Definition eol : string := String "013"%char (String "010"%char EmptyString).

Lemma local_account_witness :
  ∃ id r, t_users (store_ (h_app (snd (console_tool console_run TLocalAccount ["c.toml"; "Amy"; "--admin"]%string
    (console_host ["correct horse battery" +:+ eol; "correct horse battery"]%string))))) !! id = Some r ∧
    u_username r = "amy"%string ∧ u_is_admin r = true.
Proof.
  destruct (console_tool console_run TLocalAccount ["c.toml"; "Amy"; "--admin"]%string
    (console_host ["correct horse battery" +:+ eol; "correct horse battery"]%string)) as [r s'] eqn:E.
  assert (r = Ok ()) as -> by (apply (f_equal fst) in E; vm_compute in E; by rewrite <-E).
  destruct (local_account_made "vm1" (fun _ => None) (fun _ _ => Ok console_config) (fun _ => None) "no such file" "not text"
    console_run ["c.toml"; "Amy"; "--admin"]%string _ s' E)
    as (name & u & p & l1 & l2 & id & row & h & salt & Hn & Hu & _ & _ & _ & _ & Hr & Hru & _ & _ & _ & Ha).
  exists id, row. split; [exact Hr|]. split.
  - rewrite Hru. injection Hn as <-. vm_compute in Hu. by injection Hu as <-.
  - apply Ha. right. right. left.
Defined.


(** The same database opened twice, with other random bytes the second time. *)
Lemma starting_again_witness :
  let '(r, s) := app_new console_config console_start (empty_db, ∅) in
  app_new console_config (mkStartRun 1900000000 None (Some SCHEMA_VERSION) [] None None false (mkKeyFileRun None None None) None
    None None None None None (fun _ => 0) [x11]) s = (r, s).
Proof.
  destruct (app_new console_config console_start (empty_db, ∅)) as [r s] eqn:E.
  assert (∃ a, r = Ok a) as [a ->] by (apply (f_equal (fun x => is_ok (fst x))) in E; vm_compute in E; destruct r; [eauto|discriminate]).
  eapply (starting_again_changes_nothing console_config console_start _ (empty_db, ∅) a s E).
  split_and!; try done. cbn. intros found [= <-]. lia.
Defined.
