(* ===== verification/Rounds.v ===== *)
(** * The background checks, a round at a time (src/src/server.rs)

    What one tick of each background task does to the running proxy. A round holds the gate shared, so
    no import is between its steps; a revocation pass asks the directory without it, and what other
    requests and imports do meanwhile is an argument. *)

From S2P Require Import Prelude Tables Text Utf8 Store Auth Live Vault Directory App AppFacts Web Instant Migrate ScanService.
Local Open Scope Z_scope.

(** ** Sessions *)

(** One round of [session_checks]: the three readings of the clock are its own. *)
Definition session_round (purged checked at_ : Z) (a : App) : App :=
  let a := with_store (snd (sessions_purge purged (store_ a))) a in
  let a := snd (end_orphaned_connections checked a) in
  snd (sweep_pending at_ a).

(** After a round nothing outlived its time. The sign-ins left are those that had not expired, as they
    were; the connections still running are those that ran and whose sign-in is alive, their own user's
    and not purged; the uploads held are those still fresh; and nothing else of the database changed. *)
Theorem round_leaves_what_lives (purged checked at_ : Z) (a : App) :
  purged ≤ checked →
  let a' := session_round purged checked at_ a in
  (∀ h n, t_sessions (store_ a') !! h = Some n ↔ t_sessions (store_ a) !! h = Some n ∧ purged < n_expires n) ∧
  (∀ i, running i (live a') ↔ ∃ l, inner (live a) !! i = Some l ∧ l_cancel l = true ∧
     sign_in_live (l_user l) (l_token_hash l) checked (store_ a)) ∧
  (∀ k p, imports a' !! k = Some p ↔ imports a !! k = Some p ∧ fresh at_ p) ∧
  store_ a' = set_sessions (filter (fun kv => ¬ n_expires kv.2 ≤ purged)) (store_ a) ∧ tickets a' = tickets a.
Proof.
  intros Hle a'. unfold a', session_round, sweep_pending. cbn [snd].
  set (a1 := with_store _ a). pose proof (orphans_end checked a1) as Ho.
  unfold end_orphaned_connections in *. cbv zeta in *.
  destruct (end_ids _ (live a1)) as [n l']. destruct Ho as (Hr & Hs & Ht & _). cbn [snd] in *. simpl in Hs, Ht. split_and!.
  - intros h nn. simpl. rewrite map_lookup_filter_Some. simpl. naive_solver lia.
  - intros i. cbn [live with_live with_imports]. rewrite Hr. cbn [live with_store a1]. apply exist_proper. intros l.
    apply and_iff_compat_l, and_iff_compat_l, exist_proper. intros m. simpl. rewrite map_lookup_filter_Some. simpl. naive_solver lia.
  - intros k p. simpl. by rewrite map_lookup_filter_Some.
  - done.
  - done.
Qed.

(** ** Revocation *)

Inductive PassError := PVault (e : VaultError) | PStore (e : StoreError) | PDirectory (e : DirError).

Section pass.
Context {U : Unicode} {C : Crypto} (cfg : Cfg) (error_text : PassError → string).

(** The answers, with the errors as they are told. *)
Definition told_lookups (found : list (string * result DirError (option Account))) :
    list (string * result string (option Account)) :=
  (fun nf => (nf.1, match nf.2 with Ok x => Ok x | Err e => Err (dir_error_text e) end)) <$> found.

(** By SID where the row has one. *)
Definition lookup_names (users : list User) : list (string * option string) :=
  (fun u => (username u, filter_opt (starts_with "S-") (sid u))) <$> users.

(** [revocation_pass]: [others] is what happens while the directory is asked. *)
Definition revocation_pass (net : Network) (asked : Z) (others : App → App) (applied : Z) (a : App) :
    result PassError (option Pass) * App :=
  match lookup_directory cfg with
  | None => (Ok None, a)
  | Some d =>
      match directory_password a with
      | Err e => (Err (PVault e), a)
      | Ok None => (Ok None, a)
      | Ok (Some password) =>
          match users_to_check asked a with
          | Err e => (Err (PStore e), a)
          | Ok [] => (Ok (Some pass_default), a)
          | Ok users =>
              let g := generation a in
              let '(found, p) := lookup_each d net password (lookup_names users) asked (preferred a) in
              let a := others (with_preferred p a) in
              match found with
              | Err e => (Err (PDirectory e), a)
              | Ok found => let '(pass, a) := apply_lookups applied g users (told_lookups found) a in (Ok (Some pass), a)
              end
          end
      end
  end.

(** One round of [directory_checks]. *)
Definition directory_round (net : Network) (asked : Z) (others : App → App) (applied : Z) (a : App) : App :=
  let '(outcome, a) := revocation_pass net asked others applied a in
  let outcome := match outcome with Ok p => Ok p | Err e => Err (error_text e) end in
  let '(entry, h) := record_revocation outcome applied (revocation a) in
  let a := with_revocation h a in
  match entry with
  | Some (action, detail) => with_store (snd (audit applied "system" action detail (store_ a))) a
  | None => a
  end.

(** A directory that cannot be asked revokes nobody, and an import during the pass voids its answers:
    a pass that fails, is not configured, or finds another database than the one it asked about leaves
    the proxy as the other requests made it, but for which controller is tried first. *)
Theorem unasked_revokes_nothing (net : Network) (asked : Z) (others : App → App) (applied : Z) (a : App) :
  let '(r, a') := revocation_pass net asked others applied a in
  (∀ pass, r ≠ Ok (Some pass)) ∨ (∀ p, generation (others (with_preferred p a)) ≠ generation a) →
  a' = a ∨ ∃ p, a' = others (with_preferred p a).
Proof.
  unfold revocation_pass. destruct (lookup_directory cfg) as [d|]; [|by left].
  destruct (directory_password a) as [[pw|]|]; [|by left..]. destruct (users_to_check asked a) as [[|u us]|]; [by left| |by left].
  destruct (lookup_each d net pw _ asked (preferred a)) as [[found|e] p]; [|by right; exists p].
  set (a1 := others (with_preferred p a)). unfold apply_lookups. case_decide as Hg; [by right; exists p|].
  destruct (foldl _ _ _) as [pass a']. intros [H|H]; [by destruct (H pass)|]. by destruct (H p).
Qed.
End pass.

(** ** Scanning *)

(** One round of [scan_checks]. *)
Definition scan_check_round (now : Z) (r : checked) (s : ScanService) (db : Db) : ScanService * Db :=
  let was := s_health s in
  let '(h, s) := service_check now r s in
  match transition was h with
  | Some (action, detail) => (s, snd (audit now "system" action detail db))
  | None => (s, db)
  end.
