(* ===== verification/Logfile.v ===== *)
(** * The service's log (src/src/logfile.rs)

    One file per UTC day beside the configuration, the newest [keep] kept. The state is the day whose
    file is open and the files of the directory; failures of the file system are arguments. *)

From S2P Require Import Prelude Text Instant Pruning Migrate Stamp.
Local Open Scope Z_scope.

Definition strip_suffix (suf l : chars) : option chars := reverse <$> strip_prefix (reverse suf) (reverse l).

(** [yyyy-mm-dd], digits in place. *)
Definition is_date (l : chars) : bool :=
  bool_decide (length l = 10%nat)
  && forallb (fun ic => if decide (ic.1 = 4 ∨ ic.1 = 7)%nat then bool_decide (ic.2 = "-"%char) else is_digit ic.2) (imap pair l).

Section log.
Context (stem : string) (keep : nat).

Definition name_for (day : Z) : string :=
  let '(y, m, d, _, _, _) := utc_parts (day * 86400) in
  stem +:+ "-" +:+ of_chars (zero_pad 4 y ++ ["-"%char] ++ zero_pad 2 m ++ ["-"%char] ++ zero_pad 2 d ++ to_chars ".log").

Definition is_log (n : string) : bool :=
  match strip_prefix (to_chars (stem +:+ "-")) (to_chars n) ≫= strip_suffix (to_chars ".log") with
  | Some date => is_date date
  | None => false
  end.

(** Dated files beyond the newest [keep] go. *)
Definition prune_logs (stuck : string → bool) : Files → Files := keep_newest is_log keep stuck.

(** [DailyLog::write_at]; the errors of opening the day's file and of writing to it, if any. *)
Definition write_at (no_open no_write : option string) (stuck : string → bool) (now : Z) (b : bytes) :
    M (option Z * Files) string unit :=
  let day := now / 86400 in
  opened ← gets fst;
  _ ← (if decide (opened = Some day) then mret ()
       else
         match no_open with
         | Some e => throw e
         | None =>
             modify (fun s => (Some day, prune_logs stuck (<[name_for day := default [] (s.2 !! name_for day)]> s.2)))
         end);
  match no_write with
  | Some e => throw e
  | None => modify (fun s => (s.1, alter (fun old => old ++ b) (name_for day) s.2))
  end.

(** ** Names *)

Lemma strip_prefix_app p l : strip_prefix p (p ++ l) = Some l.
Proof. induction p as [|c p IH]; [done|]. simpl. by rewrite decide_True. Qed.

Lemma strip_suffix_app l suf : strip_suffix suf (l ++ suf) = Some l.
Proof. unfold strip_suffix. rewrite reverse_app, strip_prefix_app. simpl. by rewrite reverse_involutive. Qed.

Lemma is_date_fields l1 l2 l3 :
  digits 4 l1 = true → digits 2 l2 = true → digits 2 l3 = true →
  is_date (l1 ++ ["-"%char] ++ l2 ++ ["-"%char] ++ l3) = true.
Proof.
  unfold digits. rewrite !andb_true_iff, !bool_decide_eq_true. intros [H1 D1] [H2 D2] [H3 D3].
  destruct l1 as [|a1 [|a2 [|a3 [|a4 [|]]]]]; try done. destruct l2 as [|b1 [|b2 [|]]]; try done.
  destruct l3 as [|c1 [|c2 [|]]]; try done. simpl in D1, D2, D3.
  repeat (apply andb_true_iff in D1 as [? D1]). repeat (apply andb_true_iff in D2 as [? D2]). repeat (apply andb_true_iff in D3 as [? D3]).
  unfold is_date. simpl. rewrite !andb_true_iff. by split_and!.
Qed.

Lemma name_is_log day : four_digit_day day → is_log (name_for day) = true.
Proof.
  intros Hd. unfold name_for. destruct (civil_from_days day) as [[y m] d] eqn:Hc.
  rewrite (utc_parts_civil (day * 86400) y m d) by (by rewrite Z.div_mul).
  destruct (civil_spec _ _ _ _ Hc) as (Hm & Hdd & _ & Hy). apply Hy in Hd. unfold is_log.
  rewrite !to_chars_app, to_of_chars, app_assoc, <-to_chars_app, strip_prefix_app. cbv beta iota delta [mbind option_bind].
  assert (zero_pad 4 y ++ ["-"%char] ++ zero_pad 2 m ++ ["-"%char] ++ zero_pad 2 d ++ to_chars ".log" =
    (zero_pad 4 y ++ ["-"%char] ++ zero_pad 2 m ++ ["-"%char] ++ zero_pad 2 d) ++ to_chars ".log") as -> by by rewrite <-!app_assoc.
  rewrite strip_suffix_app. apply is_date_fields; apply digits_zero_pad; try lia.
  - exists y. split; [lia|done].
  - exists m. split; [|done]. change (10 ^ Z.of_nat 2) with 100. lia.
  - exists d. split; [|done]. change (10 ^ Z.of_nat 2) with 100. lia.
Qed.

Lemma name_for_text day y m d :
  civil_from_days day = (y, m, d) →
  name_for day = of_chars (to_chars (stem +:+ "-") ++ zero_pad 4 y ++ ["-"%char] ++ zero_pad 2 m ++ ["-"%char]
    ++ zero_pad 2 d ++ to_chars ".log").
Proof.
  intros Hc. unfold name_for. rewrite (utc_parts_civil (day * 86400) y m d) by (by rewrite Z.div_mul).
  apply to_chars_inj. rewrite !to_of_chars, !to_chars_app, to_of_chars. by rewrite <-!app_assoc.
Qed.

(** The names of the days are in the order of the days. *)
Lemma names_by_day d1 d2 :
  four_digit_day d1 → four_digit_day d2 → d1 < d2 →
  String.le (name_for d1) (name_for d2) ∧ name_for d1 ≠ name_for d2.
Proof.
  intros H1 H2 Hlt. pose proof (civil_mono d1 d2 Hlt) as Hm.
  destruct (civil_from_days d1) as [[y1 m1] c1] eqn:E1. destruct (civil_from_days d2) as [[y2 m2] c2] eqn:E2.
  rewrite (name_for_text _ _ _ _ E1), (name_for_text _ _ _ _ E2). apply chars_lt_le, chars_lt_app_l.
  destruct (civil_spec _ _ _ _ E1) as (Hm1 & Hd1 & _ & Hy1). destruct (civil_spec _ _ _ _ E2) as (Hm2 & Hd2 & _ & Hy2).
  apply Hy1 in H1. apply Hy2 in H2. unfold date_value in Hm. simpl in Hm.
  assert (∀ v, 0 ≤ v < 100 → 0 ≤ v < 10 ^ Z.of_nat 2) as H100 by done.
  destruct (zero_pad_spec 4 y1) as [Ly1 Vy1]; [lia..|]. destruct (zero_pad_spec 4 y2) as [Ly2 Vy2]; [lia..|].
  destruct (zero_pad_spec 2 m1) as [Lm1 Vm1]; [lia|apply H100; lia|]. destruct (zero_pad_spec 2 m2) as [Lm2 Vm2]; [lia|apply H100; lia|].
  destruct (zero_pad_spec 2 c1) as [Lc1 Vc1]; [lia|apply H100; lia|]. destruct (zero_pad_spec 2 c2) as [Lc2 Vc2]; [lia|apply H100; lia|].
  destruct (decide (y1 = y2)) as [->|Hy]; [|eapply digits_first; [by rewrite Ly1|exact Vy1|exact Vy2|lia]].
  do 2 apply chars_lt_app_l.
  destruct (decide (m1 = m2)) as [->|Hmm]; [|eapply digits_first; [by rewrite Lm1|exact Vm1|exact Vm2|lia]].
  do 2 apply chars_lt_app_l. eapply digits_first; [by rewrite Lc1|exact Vc1|exact Vc2|lia].
Qed.

(** ** What a write does *)

(** The outcome of a write with a disk that works. *)
Lemma write_at_ok stuck now b opened (files : Files) :
  write_at None None stuck now b (opened, files) =
  (Ok (), (Some (now / 86400),
     alter (fun old => old ++ b) (name_for (now / 86400))
       (if decide (opened = Some (now / 86400)) then files
        else prune_logs stuck (<[name_for (now / 86400) := default [] (files !! name_for (now / 86400))]> files)))).
Proof.
  unfold write_at. rewrite bind_gets. cbv zeta. cbn [fst]. case_decide as H; [by rewrite <-H|]. done.
Qed.

(** A line goes to its day's file and nothing else is lost: with a disk that works, a write succeeds;
    files that are not dated logs are as they were; where no dated file is later than the day's (the
    clock has not gone back), the day's file is what it held with the line after it; a dated file that
    is gone was older than every one kept; and a new day leaves at most [keep] of them, where none
    resists deletion. *)
Theorem log_line_kept (stuck : string → bool) (now : Z) (b : bytes) (opened : option Z) (files : Files) :
  let day := now / 86400 in
  let today := name_for day in
  (0 < keep)%nat → four_digit_day day → (opened = Some day → is_Some (files !! today)) →
  let '(r, (opened', files')) := write_at None None stuck now b (opened, files) in
  r = Ok () ∧ opened' = Some day ∧
  (∀ n, is_log n = false → files' !! n = files !! n) ∧
  ((∀ n, is_Some (files !! n) → is_log n = true → String.le n today) →
   files' !! today = Some (default [] (files !! today) ++ b)) ∧
  (∀ n k, is_Some (files !! n) → files' !! n = None → is_Some (files' !! k) → is_log k = true →
     String.le n k ∨ stuck k = true) ∧
  (opened ≠ Some day → (∀ n, stuck n = false) → (length (oldest_first is_log files') ≤ keep)%nat).
Proof.
  intros day today Hk Hd Hopen. rewrite write_at_ok. fold day today.
  pose proof (name_is_log day Hd) as Hlog. fold today in Hlog.
  set (mid := if decide _ then _ else _).
  assert (∀ n, is_Some (alter (fun old => old ++ b) today mid !! n) ↔ is_Some (mid !! n)) as Hdom.
  { intros n. by rewrite <-!elem_of_dom, dom_alter_L. }
  split; [done|]. split; [done|]. split_and!.
  - intros n Hn. rewrite lookup_alter_ne by congruence. subst mid. case_decide; [done|].
    unfold prune_logs. rewrite keep_newest_others by done. apply lookup_insert_ne. congruence.
  - intros Hmax. rewrite lookup_alter_eq. subst mid. case_decide as Ho.
    + destruct (Hopen Ho) as [v ->]. done.
    + unfold prune_logs. rewrite keep_newest_last; [by rewrite lookup_insert_eq|done|].
      intros n Hn Hl. destruct (decide (n = today)) as [->|Hne]; [reflexivity|].
      rewrite lookup_insert_ne in Hn by done. by apply Hmax.
  - intros n k Hn Hgone Hkept Hl. apply Hdom in Hkept.
    assert (mid !! n = None) as Hmid by (apply eq_None_not_Some; rewrite <-Hdom, Hgone; by intros []).
    subst mid. case_decide; [by rewrite Hmid in Hn; destruct Hn|].
    eapply keep_newest_age; [|exact Hmid|exact Hkept|done].
    destruct (decide (n = today)) as [->|Hne]; [by rewrite lookup_insert_eq|by rewrite lookup_insert_ne].
  - intros Ho Hst. subst mid. rewrite decide_False by done. set (fs := <[_:=_]> files).
    assert (oldest_first is_log (alter (fun old => old ++ b) today (prune_logs stuck fs)) =
      oldest_first is_log (prune_logs stuck fs)) as -> by (unfold oldest_first; by rewrite dom_alter_L).
    unfold prune_logs. rewrite keep_newest_left by done. apply (oldest_first_split is_log keep fs).
Qed.

(** ** What the log holds *)

(** Lines written one after another, with a disk that works. *)
Fixpoint write_all (ws : list (Z * bytes)) : M (option Z * Files) string unit :=
  match ws with
  | [] => mret ()
  | w :: ws => _ ← write_at None None (fun _ => false) w.1 w.2; write_all ws
  end.

Definition day_of (w : Z * bytes) : Z := w.1 / 86400.

(** The days lines were written on, each once, where the clock does not go back. *)
Definition days_of (ws : list (Z * bytes)) : list Z :=
  foldl (fun ds w => if decide (last ds = Some (day_of w)) then ds else ds ++ [day_of w]) [] ws.

Definition newest {A} (l : list A) : list A := drop (length l - keep) l.

(** The lines of a day, in the order they were written. *)
Definition day_text (d : Z) (ws : list (Z * bytes)) : bytes := flat_map (fun w => if decide (day_of w = d) then w.2 else []) ws.

Lemma newest_snoc {A} (l : list A) x : newest (newest l ++ [x]) = newest (l ++ [x]).
Proof.
  unfold newest. rewrite !length_app, length_drop. simpl length.
  destruct (decide (length l ≤ keep)%nat) as [H|H].
  { replace (length l - keep)%nat with 0%nat by lia. by rewrite drop_0, Nat.sub_0_r. }
  replace (length l - (length l - keep) + 1 - keep)%nat with 1%nat by lia.
  replace (length l + 1 - keep)%nat with (length l - keep + 1)%nat by lia. rewrite <-drop_drop. f_equal.
  rewrite drop_app_le by lia. done.
Qed.

Lemma last_newest {A} (l : list A) : (0 < keep)%nat → last (newest l) = last l.
Proof.
  intros Hk. unfold newest. destruct (decide (l = [])) as [->|Hl]; [by rewrite drop_nil|].
  rewrite !last_lookup, length_drop, lookup_drop. f_equal. destruct l; [done|]. simpl length. lia.
Qed.

(** The log after these lines: the newest days' files with their lines, and no other dated file. *)
Record log_holds (ws : list (Z * bytes)) (others : Files) (s : option Z * Files) : Prop := {
  holds_opened : s.1 = last (days_of ws);
  holds_sorted : StronglySorted Z.lt (days_of ws);
  holds_days : Forall four_digit_day (days_of ws);
  holds_logs n : is_log n = true → is_Some (s.2 !! n) ↔ n ∈ name_for <$> newest (days_of ws);
  holds_text d : d ∈ newest (days_of ws) → s.2 !! name_for d = Some (day_text d ws);
  holds_others n : is_log n = false → s.2 !! n = others !! n;
}.

Lemma days_of_snoc ws w :
  days_of (ws ++ [w]) = if decide (last (days_of ws) = Some (day_of w)) then days_of ws else days_of ws ++ [day_of w].
Proof. unfold days_of. by rewrite foldl_app. Qed.

Lemma day_text_snoc d ws w : day_text d (ws ++ [w]) = day_text d ws ++ (if decide (day_of w = d) then w.2 else []).
Proof. unfold day_text. rewrite flat_map_app. simpl. by rewrite app_nil_r. Qed.

Lemma days_of_all ws w : w ∈ ws → day_of w ∈ days_of ws.
Proof.
  induction ws as [|v ws IH] using rev_ind; [by intros ?%not_elem_of_nil|].
  rewrite days_of_snoc, elem_of_app, list_elem_of_singleton. intros [H| ->]; case_decide as Hl.
  - auto.
  - apply elem_of_app. auto.
  - by eapply last_Some_elem_of.
  - apply elem_of_app. right. by left.
Qed.

Lemma days_of_in ws d : d ∈ days_of ws → ∃ w, w ∈ ws ∧ day_of w = d.
Proof.
  induction ws as [|v ws IH] using rev_ind; [by intros ?%not_elem_of_nil|].
  rewrite days_of_snoc. setoid_rewrite elem_of_app. case_decide; [naive_solver|].
  rewrite elem_of_app, list_elem_of_singleton. intros [Hin| ->]; [naive_solver|]. exists v. split; [right; by left|done].
Qed.

Lemma day_text_none d ws : d ∉ days_of ws → day_text d ws = [].
Proof.
  intros Hd. unfold day_text. assert (Forall (fun w => day_of w ≠ d) ws) as H.
  { apply Forall_forall. intros w Hw <-. by apply Hd, days_of_all. }
  clear Hd. induction H as [|w ws Hw _ IH]; [done|]. simpl. by rewrite decide_False.
Qed.

Lemma sorted_later (ds : list Z) d :
  StronglySorted Z.lt ds → (∀ e, e ∈ ds → e ≤ d) → last ds ≠ Some d → StronglySorted Z.lt (ds ++ [d]) ∧ d ∉ ds.
Proof.
  induction ds as [|e ds IH] using rev_ind; intros Hs Hle Hl.
  { split; [repeat constructor|apply not_elem_of_nil]. }
  rewrite last_snoc in Hl. pose proof Hs as Hs'. apply StronglySorted_app in Hs' as (Hlt & _).
  assert (e < d) as He by (assert (e ≤ d) by (apply Hle; set_solver); assert (e ≠ d) by congruence; lia).
  assert (∀ x, x ∈ ds ++ [e] → x < d) as Hall.
  { intros x [Hx|Hx%list_elem_of_singleton]%elem_of_app; [|by subst]. assert (x < e) by (apply Hlt; set_solver). lia. }
  split; [|intros Hd; specialize (Hall d Hd); lia].
  apply StronglySorted_app. split_and!; [|done|repeat constructor]. intros x y Hx ->%list_elem_of_singleton. auto.
Qed.

Lemma sorted_names ds :
  Forall four_digit_day ds → StronglySorted Z.lt ds →
  StronglySorted String.le (name_for <$> ds) ∧ NoDup (name_for <$> ds).
Proof.
  intros Hf Hs. induction Hs as [|d ds Hs IH Hlt]; [split; constructor|]. inversion Hf as [|? ? Hd Hfs]; subst.
  destruct (IH Hfs) as [IHs IHn]. rewrite fmap_cons.
  assert (∀ e, e ∈ ds → String.le (name_for d) (name_for e) ∧ name_for d ≠ name_for e) as Hall.
  { intros e He. rewrite Forall_forall in Hfs, Hlt. apply names_by_day; auto. }
  split; constructor; try done.
  - apply Forall_fmap, Forall_forall. intros e He. by apply Hall.
  - intros (e & E & He)%list_elem_of_fmap. by destruct (Hall e He) as [_ []].
Qed.

Lemma oldest_first_names (files : Files) ds :
  Forall four_digit_day ds → StronglySorted Z.lt ds →
  (∀ n, is_log n = true → is_Some (files !! n) ↔ n ∈ name_for <$> ds) →
  oldest_first is_log files = name_for <$> ds.
Proof.
  intros Hf Hs Hn. destruct (sorted_names ds Hf Hs) as [Hsn Hnd].
  apply (StronglySorted_unique String.le); [apply sorted_oldest_first|done|].
  apply NoDup_Permutation; [apply NoDup_oldest_first|done|]. intros n. rewrite elem_of_oldest_first. split.
  - intros [Hi Hl]. by apply Hn.
  - intros Hin. assert (is_log n = true) as Hl; [|by split; [apply Hn|]].
    apply list_elem_of_fmap in Hin as (d & -> & Hd). apply name_is_log. by eapply Forall_forall in Hf.
Qed.

Lemma name_for_inj d e : four_digit_day d → four_digit_day e → name_for d = name_for e → d = e.
Proof.
  intros Hd He E. destruct (Z.lt_trichotomy d e) as [H|[H|H]]; [|done|].
  - by destruct (names_by_day d e Hd He H).
  - by destruct (names_by_day e d He Hd H).
Qed.

Lemma elem_of_newest {A} (l : list A) x : x ∈ newest l → x ∈ l.
Proof. unfold newest. intros H. rewrite <-(take_drop (length l - keep) l). apply elem_of_app. by right. Qed.

Lemma sorted_newest (ds : list Z) : StronglySorted Z.lt ds → StronglySorted Z.lt (newest ds).
Proof. intros H. rewrite <-(take_drop (length ds - keep) ds) in H. by apply StronglySorted_app_1_r in H. Qed.

(** Another line on the same day. *)
Lemma holds_same_day ws others files w :
  (0 < keep)%nat → log_holds ws others (last (days_of ws), files) → last (days_of ws) = Some (day_of w) →
  log_holds (ws ++ [w]) others (Some (day_of w), alter (fun old => old ++ w.2) (name_for (day_of w)) files).
Proof.
  intros Hk [_ Hs Hf Hl Ht Ho] Hlast. cbn [fst snd] in *.
  assert (day_of w ∈ newest (days_of ws)) as Hin by (eapply last_Some_elem_of; by rewrite last_newest).
  rewrite Forall_forall in Hf. pose proof (Hf _ (elem_of_newest _ _ Hin)) as Hd.
  assert (days_of (ws ++ [w]) = days_of ws) as E by (by rewrite days_of_snoc, decide_True).
  split; rewrite ?E; cbn [fst snd]; try done; [by apply Forall_forall| | |].
  - intros n Hn. rewrite <-(Hl n Hn), <-!elem_of_dom. by rewrite dom_alter_L.
  - intros d Hdin. rewrite day_text_snoc. destruct (decide (day_of w = d)) as [->|Hne].
    + by rewrite lookup_alter_eq, (Ht d Hdin).
    + rewrite lookup_alter_ne, app_nil_r; [by apply Ht|]. intros En. apply Hne. apply name_for_inj; auto using elem_of_newest.
  - intros n Hn. rewrite lookup_alter_ne; [by apply Ho|]. intros <-. by rewrite name_is_log in Hn.
Qed.

(** The first line of a new day. *)
Lemma holds_new_day ws others files w :
  (0 < keep)%nat → log_holds ws others (last (days_of ws), files) → last (days_of ws) ≠ Some (day_of w) →
  (∀ e, e ∈ days_of ws → e ≤ day_of w) → four_digit_day (day_of w) →
  let today := name_for (day_of w) in
  log_holds (ws ++ [w]) others (Some (day_of w), alter (fun old => old ++ w.2) today
    (prune_logs (fun _ => false) (<[today := default [] (files !! today)]> files))).
Proof.
  intros Hk [_ Hs Hf Hl Ht Ho] Hlast Hle Hd today. cbn [fst snd] in *.
  destruct (sorted_later _ _ Hs Hle Hlast) as [Hs' Hnew]. set (d := day_of w) in *.
  assert (∀ e, e ∈ newest (days_of ws) ++ [d] → four_digit_day e) as Hf'.
  { rewrite Forall_forall in Hf. intros e [He|He%list_elem_of_singleton]%elem_of_app; [auto using elem_of_newest|by subst]. }
  assert (files !! today = None) as Hno.
  { apply eq_None_not_Some. intros Hi. apply Hl in Hi; [|by apply name_is_log].
    apply list_elem_of_fmap in Hi as (e & E & He). apply name_for_inj in E; [|done|apply Hf'; set_solver]. subst e.
    by apply Hnew, elem_of_newest. }
  rewrite Hno. cbn [default]. set (mid := <[today:=[]]> files).
  assert (oldest_first is_log mid = name_for <$> newest (days_of ws) ++ [d]) as Hold.
  { apply oldest_first_names; [by apply Forall_forall| |].
    - apply StronglySorted_app in Hs' as (Hlt & _ & _). apply StronglySorted_app.
      split_and!; [|by apply sorted_newest|repeat constructor].
      intros x y Hx. apply Hlt. by apply elem_of_newest.
    - intros n Hn. rewrite fmap_app. change (name_for <$> [d]) with [today].
      rewrite elem_of_app, <-(Hl n Hn), list_elem_of_singleton. subst mid.
      destruct (decide (n = today)) as [->|Hne]; [rewrite lookup_insert_eq; naive_solver|].
      rewrite lookup_insert_ne by done. naive_solver. }
  assert (oldest_first is_log (prune_logs (fun _ => false) mid) ≡ₚ name_for <$> newest (days_of ws ++ [d])) as Hleft.
  { unfold prune_logs. rewrite keep_newest_left by done. rewrite Hold, length_fmap, <-fmap_drop. by rewrite <-newest_snoc. }
  assert (∀ n, is_log n = true → is_Some (prune_logs (fun _ => false) mid !! n) ↔ n ∈ name_for <$> newest (days_of ws ++ [d])) as Hpr.
  { intros n Hn. rewrite <-Hleft, elem_of_oldest_first. tauto. }
  assert (days_of (ws ++ [w]) = days_of ws ++ [d]) as E by (by rewrite days_of_snoc, decide_False).
  split; rewrite ?E; cbn [fst snd].
  - by rewrite last_snoc.
  - done.
  - apply Forall_app. by split; [|apply Forall_singleton].
  - intros n Hn. rewrite <-(Hpr n Hn), <-!elem_of_dom. by rewrite dom_alter_L.
  - intros e He. rewrite <-newest_snoc in He. pose proof (Hf' e (elem_of_newest _ _ He)) as Hde.
    rewrite newest_snoc in He.
    assert (prune_logs (fun _ => false) mid !! name_for e = mid !! name_for e) as Hm.
    { destruct (proj2 (Hpr (name_for e) (name_is_log e Hde))) as [v Hv]; [by apply list_elem_of_fmap_2|].
      rewrite Hv. unfold prune_logs in Hv. rewrite keep_newest_lookup in Hv. by case_decide. }
    rewrite day_text_snoc. fold d. destruct (decide (d = e)) as [<-|Hne].
    + rewrite lookup_alter_eq. fold today in Hm. rewrite Hm. subst mid. by rewrite lookup_insert_eq, day_text_none.
    + assert (today ≠ name_for e) by (intros En; apply Hne; by apply name_for_inj).
      rewrite lookup_alter_ne, Hm, app_nil_r by done. subst mid. rewrite lookup_insert_ne by done. apply Ht.
      rewrite <-newest_snoc in He. apply elem_of_newest in He. set_solver.
  - intros n Hn. assert (today ≠ n) by (intros <-; unfold today in Hn; by rewrite name_is_log in Hn).
    rewrite lookup_alter_ne by done. unfold prune_logs. rewrite keep_newest_others by done.
    subst mid. rewrite lookup_insert_ne by done. by apply Ho.
Qed.

Lemma write_all_holds ws : ∀ before others s,
  (0 < keep)%nat → log_holds before others s →
  StronglySorted Z.le (fst <$> before ++ ws) → Forall (fun w => four_digit_day (day_of w)) ws →
  ∃ s', write_all ws s = (Ok (), s') ∧ log_holds (before ++ ws) others s'.
Proof.
  induction ws as [|w ws IH]; intros before others [opened files] Hk Hh Hs Hf; [eexists; by rewrite app_nil_r|].
  inversion Hf as [|? ? Hd Hf']; subst. cbn [write_all]. pose proof (holds_opened _ _ _ Hh) as Ho. cbn [fst] in Ho. subst opened.
  assert (∀ e, e ∈ days_of before → e ≤ day_of w) as Hle.
  { intros e He. destruct (days_of_in before e He) as (v & Hv & <-). unfold day_of. apply Z.div_le_mono; [lia|].
    rewrite fmap_app in Hs. eapply (StronglySorted_app_1_elem_of Z.le); [exact Hs|by apply list_elem_of_fmap_2|rewrite fmap_cons; left]. }
  rewrite cons_middle, app_assoc in Hs |- *. erewrite bind_ok by apply write_at_ok. apply IH; [done| |done|done].
  change (w.1 / 86400) with (day_of w). case_decide as Hl; [by apply holds_same_day|by apply holds_new_day].
Qed.

(** The log holds the newest days. Lines are written to a directory that has no dated log yet, at
    times that do not go back: every write succeeds; of the days that had lines, the newest [keep] have
    a file, which holds that day's lines in the order they were written and nothing else; the other
    days have none; and every file that is not a dated log is as it was. *)
Theorem log_keeps_the_newest_days (ws : list (Z * bytes)) (files : Files) :
  (0 < keep)%nat → (∀ n, is_log n = true → files !! n = None) →
  StronglySorted Z.le (fst <$> ws) → Forall (fun w => four_digit_day (day_of w)) ws →
  ∃ opened files', write_all ws (None, files) = (Ok (), (opened, files')) ∧
    (∀ d, four_digit_day d →
       files' !! name_for d = if decide (d ∈ newest (days_of ws)) then Some (day_text d ws) else None) ∧
    (∀ n, is_log n = false → files' !! n = files !! n).
Proof.
  intros Hk Hno Hs Hf. assert (log_holds [] files (None, files)) as H0.
  { split; cbn [fst snd days_of foldl].
    - done.
    - apply SSorted_nil.
    - by apply Forall_nil.
    - intros n Hn. rewrite (Hno n Hn). unfold newest. rewrite drop_nil. split; [by intros []|by intros ?%not_elem_of_nil].
    - unfold newest. rewrite drop_nil. by intros d ?%not_elem_of_nil.
    - done. }
  destruct (write_all_holds ws [] files _ Hk H0 Hs Hf) as ([opened files'] & Hw & [_ _ Hfd Hl Ht Ho]).
  cbn [fst snd app] in *. exists opened, files'. split; [done|]. split; [|done]. intros d Hd. case_decide as Hin; [by apply Ht|].
  apply eq_None_not_Some. rewrite (Hl _ (name_is_log d Hd)). intros (e & E & He)%list_elem_of_fmap.
  rewrite Forall_forall in Hfd. apply name_for_inj in E; [|done|auto using elem_of_newest]. by subst.
Qed.
End log.

(** ** A sample *)

(** Three days of lines with two days kept. *)
Definition sample_lines : list (Z * bytes) :=
  [(1700000000, [x41]); (1700000001, [x42]); (1700086400, [x43]); (1700086401, [x44]); (1700172800, [x45])]%Z.

Lemma log_keeps_witness :
  ∃ opened files',
    write_all "web-access-proxy" 2 sample_lines (None, {[ "notes.txt"%string := [x00] ]}) = (Ok (), (opened, files')) ∧
    files' !! "web-access-proxy-2023-11-14.log"%string = None ∧
    files' !! "web-access-proxy-2023-11-15.log"%string = Some [x43; x44] ∧
    files' !! "web-access-proxy-2023-11-16.log"%string = Some [x45] ∧
    files' !! "notes.txt"%string = Some [x00].
Proof.
  destruct (log_keeps_the_newest_days "web-access-proxy" 2 sample_lines {[ "notes.txt"%string := [x00] ]})
    as (opened & files' & Hw & Hd & Ho).
  - lia.
  - intros n Hn. apply lookup_singleton_ne. intros <-. vm_compute in Hn. discriminate Hn.
  - repeat constructor; unfold sample_lines; simpl; lia.
  - repeat constructor; vm_compute; discriminate.
  - exists opened, files'. split; [done|]. split_and!.
    + apply (Hd 19675). vm_compute; split; discriminate.
    + apply (Hd 19676). vm_compute; split; discriminate.
    + apply (Hd 19677). vm_compute; split; discriminate.
    + apply (Ho "notes.txt"%string). vm_compute. done.
Defined.
