(* ===== verification/Https.v ===== *)
(** * The listener's certificate (src/src/https.rs)

    The certificate in use, read again when its files change, the daily warning before it expires,
    and the log of failed handshakes. Reading and parsing the files is an argument: what it gave, and
    the files' stamps. [K] is a chain with its key. *)

From S2P Require Import Prelude Auth.
Local Open Scope Z_scope.

Definition WARN_DAYS : Z := 30.

(** Modification time and length of the two files, where they can be read. *)
Abbreviation Stamp := (option (Z * Z) * option (Z * Z))%type.

Definition expiry_warning (not_after now : Z) : option string :=
  let left := (not_after - now) / 86400 in
  if decide (not_after ≤ now) then Some "the HTTPS certificate has expired; browsers refuse the proxy"%string
  else if decide (left < WARN_DAYS) then Some ("the HTTPS certificate expires in " +:+ pretty left +:+ " day(s); renew it")
  else None.

Section certificate.
Context {K : Type}.

Record Certificate := mkCertificate {
  current : K;
  not_after : Z;
  ct_stamp : Stamp;
  warned_day : Z;
}.

(** What reading the files gives: a chain with its key and the leaf's notAfter, or why not. *)
Abbreviation Loaded := (result string (K * Z)).

Definition open_certificate (stamp : Stamp) (loaded : Loaded) : result string Certificate :=
  kn ← loaded; mret (mkCertificate kn.1 kn.2 stamp i64_min).

Definition reload_if_changed (now : Stamp) (loaded : Loaded) (c : Certificate) : option (result string Z) * Certificate :=
  if decide (ct_stamp c = now) then (None, c)
  else
    let c := mkCertificate (current c) (not_after c) now (warned_day c) in
    match loaded with
    | Ok (k, n) => (Some (Ok n), mkCertificate k n (ct_stamp c) (warned_day c))
    | Err e => (Some (Err e), c)
    end.

(** The warning written, if any. *)
Definition warn_if_ending (now : Z) (c : Certificate) : option string * Certificate :=
  match expiry_warning (not_after c) now with
  | None => (None, c)
  | Some text =>
      let day := now / 86400 in
      if decide (warned_day c ≠ day) then (Some text, mkCertificate (current c) (not_after c) (ct_stamp c) day)
      else (None, c)
  end.

(** One round of [watch]: the files as they are, what reading them would give, and the time. *)
Record look := mkLook { lk_stamp : Stamp; lk_loaded : Loaded; lk_now : Z }.

Definition watch_round (l : look) (c : Certificate) : option string * Certificate :=
  warn_if_ending (lk_now l) (snd (reload_if_changed (lk_stamp l) (lk_loaded l) c)).

Fixpoint watch (ls : list look) (c : Certificate) : list (Z * string) * Certificate :=
  match ls with
  | [] => ([], c)
  | l :: rest =>
      let '(w, c1) := watch_round l c in
      let '(ws, c2) := watch rest c1 in
      ((match w with Some text => [(lk_now l, text)] | None => [] end) ++ ws, c2)
  end.

(** ** What is in use *)

(** The certificates read: the files of each look that are not those of the look before, where they
    could be read. *)
Fixpoint fresh_reads (seen : Stamp) (ls : list look) : list (K * Z) :=
  match ls with
  | [] => []
  | l :: rest =>
      (match lk_loaded l with Ok kn => if decide (lk_stamp l = seen) then [] else [kn] | Err _ => [] end)
      ++ fresh_reads (lk_stamp l) rest
  end.

Lemma watch_round_state l c :
  let c' := snd (watch_round l c) in
  ct_stamp c' = lk_stamp l ∧
  (current c', not_after c') =
    match lk_loaded l with Ok kn => if decide (lk_stamp l = ct_stamp c) then (current c, not_after c) else kn | Err _ => (current c, not_after c) end.
Proof.
  assert (∀ t d, let d' := snd (warn_if_ending t d) in ct_stamp d' = ct_stamp d ∧ current d' = current d ∧ not_after d' = not_after d) as Hw.
  { intros t d. unfold warn_if_ending. destruct (expiry_warning _ _); [|done]. by case_decide. }
  simpl. unfold watch_round. destruct (Hw (lk_now l) (snd (reload_if_changed (lk_stamp l) (lk_loaded l) c))) as (-> & -> & ->).
  unfold reload_if_changed. destruct (decide (ct_stamp c = lk_stamp l)) as [E|E]; simpl.
  - split; [done|]. destruct (lk_loaded l); [by rewrite decide_True|done].
  - destruct (lk_loaded l) as [[k n]|e]; simpl; [|done]. by rewrite decide_False by congruence.
Qed.

Lemma watch_state ls c :
  let c' := snd (watch ls c) in
  (current c', not_after c') = List.last (fresh_reads (ct_stamp c) ls) (current c, not_after c).
Proof.
  revert c. induction ls as [|l ls IH]; intros c; [done|]. cbn [watch fresh_reads].
  destruct (watch_round_state l c) as [Hs Hc]. destruct (watch_round l c) as [w c1]. simpl in Hs, Hc.
  specialize (IH c1). destruct (watch ls c1) as [ws c2]. simpl in IH |- *. rewrite IH, Hs, Hc. clear.
  assert (∀ (l0 : list (K * Z)) x d, List.last (x :: l0) d = List.last l0 x) as Hl by (intros l0; induction l0 as [|y [|z l0]]; done).
  destruct (lk_loaded l) as [kn|e]; [|done]. case_decide; [done|]. cbn [app]. by rewrite Hl.
Qed.

(** ** Warnings *)

Lemma warn_round l c :
  match fst (watch_round l c) with
  | Some text => warned_day (snd (watch_round l c)) = lk_now l / 86400 ∧ warned_day c ≠ lk_now l / 86400 ∧
      expiry_warning (not_after (snd (watch_round l c))) (lk_now l) = Some text
  | None => warned_day (snd (watch_round l c)) = warned_day c ∧
      (expiry_warning (not_after (snd (watch_round l c))) (lk_now l) = None ∨ warned_day c = lk_now l / 86400)
  end.
Proof.
  unfold watch_round. set (d := snd (reload_if_changed (lk_stamp l) (lk_loaded l) c)).
  assert (warned_day d = warned_day c) as Hd.
  { unfold d, reload_if_changed. case_decide; [done|]. by destruct (lk_loaded l) as [[]|]. }
  unfold warn_if_ending. destruct (expiry_warning (not_after d) (lk_now l)) as [text|] eqn:E; [|simpl; auto].
  case_decide as Hn; simpl; [|split; [done|right; destruct (decide (warned_day d = lk_now l / 86400)); [congruence|tauto]]].
  by rewrite <-Hd.
Qed.

(** Times whose days do not go back. *)
Definition days_grow (from : Z) (ls : list look) : Prop := StronglySorted Z.le (from :: ((fun l => lk_now l / 86400) <$> ls)).

Lemma watch_warnings ls c :
  days_grow (warned_day c) ls →
  StronglySorted Z.lt (warned_day c :: ((fun w => w.1 / 86400) <$> fst (watch ls c))).
Proof.
  unfold days_grow. revert c. induction ls as [|l ls IH]; intros c Hd; cbn [watch]; [repeat constructor|].
  pose proof (warn_round l c) as Hw. destruct (watch_round l c) as [w c1]. cbn [fst snd] in Hw.
  specialize (IH c1). destruct (watch ls c1) as [ws c2]. cbn [fst] in *.
  rewrite fmap_cons in Hd. inversion Hd as [|? ? Hd1 Hf]; subst. inversion Hf as [|? ? Hle Hf']; subst.
  destruct w as [text|]; cbn [app].
  - destruct Hw as (Hw1 & Hw2 & _). rewrite fmap_cons. cbn [fst].
    assert (StronglySorted Z.lt (warned_day c1 :: ((fun w => w.1 / 86400) <$> ws))) as IH' by (apply IH; by rewrite Hw1).
    rewrite Hw1 in IH'. constructor; [done|]. inversion IH' as [|? ? _ Hlt]; subst.
    constructor; [lia|]. eapply Forall_impl; [exact Hlt|]. intros; lia.
  - destruct Hw as [Hw1 _]. rewrite Hw1 in IH. apply IH. constructor; [|done]. by inversion Hd1.
Qed.

(** The certificate in use is the last one that could be read: through any number of looks at the
    files, it is the one of the latest change that was readable, and a change that was refused leaves
    the one before in use. However often the files are looked at, a warning is written at most once a
    day. *)
Theorem certificate_watched (stamp : Stamp) (k : K) (n : Z) (ls : list look) (c : Certificate) :
  open_certificate stamp (Ok (k, n)) = Ok c →
  Forall (fun l => i64_min < lk_now l / 86400) ls → StronglySorted Z.le ((fun l => lk_now l / 86400) <$> ls) →
  (current (snd (watch ls c)), not_after (snd (watch ls c))) = List.last (fresh_reads stamp ls) (k, n) ∧
  StronglySorted Z.lt ((fun w => w.1 / 86400) <$> fst (watch ls c)).
Proof.
  intros [= <-] Hmin Hs. split; [apply (watch_state ls (mkCertificate k n stamp i64_min))|].
  assert (days_grow i64_min ls) as Hd.
  { constructor; [done|]. apply Forall_fmap. eapply Forall_impl; [exact Hmin|]. intros; simpl in *; lia. }
  pose proof (watch_warnings ls (mkCertificate k n stamp i64_min) Hd) as Hw. by inversion Hw.
Qed.
End certificate.
Arguments Certificate : clear implicits.
Arguments look : clear implicits.

(** ** Failed handshakes *)

(** The last line's time, and the failures left unlogged since. *)
Record HandshakeLog := mkHandshakeLog { hl_last : option Z; hl_skipped : Z }.

Definition handshake_admit (at_ : Z) (h : HandshakeLog) : option Z * HandshakeLog :=
  match hl_last h with
  | Some last =>
      if decide (since at_ last < 60 * second) then (None, mkHandshakeLog (hl_last h) (hl_skipped h + 1))
      else (Some (hl_skipped h), mkHandshakeLog (Some at_) 0)
  | None => (Some (hl_skipped h), mkHandshakeLog (Some at_) 0)
  end.

(** The lines written for failures at these times, each with the number it says went unlogged. *)
Fixpoint handshake_lines (ats : list Z) (h : HandshakeLog) : list (Z * Z) * HandshakeLog :=
  match ats with
  | [] => ([], h)
  | at_ :: rest =>
      let '(o, h1) := handshake_admit at_ h in
      let '(ls, h2) := handshake_lines rest h1 in
      ((match o with Some skipped => [(at_, skipped)] | None => [] end) ++ ls, h2)
  end.

Definition sum_skipped (ls : list (Z * Z)) : Z := foldr (fun l acc => l.2 + acc) 0 ls.

(** Each of these times is at least a minute after the one before. *)
Fixpoint minute_apart (from : option Z) (ts : list Z) : Prop :=
  match ts with
  | [] => True
  | t :: rest => (∀ f, from = Some f → 60 * second ≤ t - f) ∧ minute_apart (Some t) rest
  end.

(** At most one line a minute, and none lost: the failures are the lines written, those the lines
    say went unlogged, and those not told of yet; and two lines are at least a minute apart. *)
Theorem handshake_log_accounts (ats : list Z) (h : HandshakeLog) :
  let '(ls, h') := handshake_lines ats h in
  hl_skipped h + Z.of_nat (length ats) = Z.of_nat (length ls) + sum_skipped ls + hl_skipped h' ∧
  minute_apart (hl_last h) ls.*1.
Proof.
  revert h. induction ats as [|at_ ats IH]; intros h; cbn [handshake_lines]; [cbn; split; [lia|done]|].
  destruct (handshake_admit at_ h) as [o h1] eqn:Ha. specialize (IH h1). destruct (handshake_lines ats h1) as [ls h2].
  destruct IH as [IHn IHm]. unfold handshake_admit in Ha. destruct (hl_last h) as [last|] eqn:Hl.
  - case_decide as Hd; injection Ha as <- <-; cbn [app hl_skipped hl_last] in *.
    + split; [simpl length; lia|done].
    + rewrite fmap_cons. cbn [length sum_skipped foldr fst snd minute_apart]. fold (sum_skipped ls).
      split; [lia|]. split; [|done]. intros f [= <-]. unfold since in Hd. unfold second in *. lia.
  - injection Ha as <- <-. cbn [app hl_skipped hl_last] in *. rewrite fmap_cons.
    cbn [length sum_skipped foldr fst snd minute_apart]. fold (sum_skipped ls). split; [lia|]. by split.
Qed.
