(* ===== verification/Listener.v ===== *)
(** * The listener (src/src/server.rs, src/src/web.rs)

    How many connections are served at once. A connection takes a place when it is accepted; the place
    is in a slot its requests share ([ConnectionPermit]), goes with an upgrade to the session it sets up
    ([Session::setup_permit]), and is free again when the slot or the session is dropped or the session
    is established. Connections and sessions are named by numbers; sockets, TLS and HTTP are the
    libraries', and when their futures end is a step. *)

From S2P Require Import Prelude Auth Https.
Local Open Scope Z_scope.

(** The places left, whether each connection's slot and each session still holds one, and the log of
    failed handshakes. *)
Record Listener := mkListener {
  places : nat;
  slots : gmap Z bool;
  setups : gmap Z bool;
  failed : HandshakeLog;
}.

Definition listening (max_connections : nat) : Listener := mkListener max_connections ∅ ∅ (mkHandshakeLog None 0).

Definition place (held : bool) : nat := if held then 1%nat else 0%nat.

(** [try_acquire_owned]: none left, and the connection is closed. *)
Definition accept_connection (i : Z) (l : Listener) : bool * Listener :=
  match places l with
  | O => (false, l)
  | S n => (true, mkListener n (<[i := true]> (slots l)) (setups l) (failed l))
  end.

(** The task of a connection ends, and with it its slot. *)
Definition drop_connection (i : Z) (l : Listener) : Listener :=
  match slots l !! i with
  | Some held => mkListener (places l + place held) (delete i (slots l)) (setups l) (failed l)
  | None => l
  end.

(** ... after a handshake that failed: a line is written, or the failure counted. *)
Definition handshake_failed (i at_ : Z) (l : Listener) : option Z * Listener :=
  let '(line, f) := handshake_admit at_ (failed l) in
  let l := drop_connection i l in
  (line, mkListener (places l) (slots l) (setups l) f).

(** [ConnectionPermit::take] for the session [j] an upgrade sets up. *)
Definition take_over (i j : Z) (l : Listener) : Listener :=
  match slots l !! i with
  | Some held => mkListener (places l) (<[i := false]> (slots l)) (<[j := held]> (setups l)) (failed l)
  | None => l
  end.

(** [setup_permit.take()], once a session is established. *)
Definition established (j : Z) (l : Listener) : Listener :=
  match setups l !! j with
  | Some held => mkListener (places l + place held) (slots l) (<[j := false]> (setups l)) (failed l)
  | None => l
  end.

Definition end_setup (j : Z) (l : Listener) : Listener :=
  match setups l !! j with
  | Some held => mkListener (places l + place held) (slots l) (delete j (setups l)) (failed l)
  | None => l
  end.

(** What happens to connections and sessions; each has a name of its own while it is there. *)
Inductive levent :=
  | Accepted (i : Z)
  | TurnedAway (i : Z)
  | Closed (i : Z)
  | HandshakeFailed (i at_ : Z)
  | Upgraded (i j : Z)
  | Established (j : Z)
  | SessionOver (j : Z).

Inductive lstep : levent → Listener → Listener → Prop :=
  | step_accept i l l' : slots l !! i = None → accept_connection i l = (true, l') → lstep (Accepted i) l l'
  | step_turned_away i l l' : slots l !! i = None → accept_connection i l = (false, l') → lstep (TurnedAway i) l l'
  | step_done i l : lstep (Closed i) l (drop_connection i l)
  | step_failed i at_ l : lstep (HandshakeFailed i at_) l (snd (handshake_failed i at_ l))
  | step_upgrade i j l : is_Some (slots l !! i) → setups l !! j = None → lstep (Upgraded i j) l (take_over i j l)
  | step_established j l : lstep (Established j) l (established j l)
  | step_ended j l : lstep (SessionOver j) l (end_setup j l).

(** The listener after the events [tr], in order. *)
Inductive listened (max_connections : nat) : list levent → Listener → Prop :=
  | listened_start : listened max_connections [] (listening max_connections)
  | listened_step tr e l l' :
      listened max_connections tr l → lstep e l l' → listened max_connections (tr ++ [e]) l'.

(** ** Who holds a place, told from what happened *)

(** [P] happened, and no [Q] since. *)
Definition since_then (P : list levent → levent → Prop) (Q : levent → Prop) (tr : list levent) : Prop :=
  ∃ tr1 e tr2, tr = tr1 ++ e :: tr2 ∧ P tr1 e ∧ Forall (fun e => ¬ Q e) tr2.

(** A connection holds its place from when it is accepted until it is closed, fails its handshake or
    is upgraded; a session holds the one of the connection that was upgraded to it, if that had one,
    until it is established or over. *)
Definition ends_connection (i : Z) (e : levent) : Prop :=
  match e with Closed k | HandshakeFailed k _ | Upgraded k _ => k = i | _ => False end.
Definition ends_setup (j : Z) (e : levent) : Prop :=
  match e with Established k | SessionOver k => k = j | _ => False end.
Definition connection_holds (tr : list levent) (i : Z) : Prop :=
  since_then (fun _ e => e = Accepted i) (ends_connection i) tr.
Definition session_holds (tr : list levent) (j : Z) : Prop :=
  since_then (fun tr1 e => ∃ i, e = Upgraded i j ∧ connection_holds tr1 i) (ends_setup j) tr.
Definition holds_place (tr : list levent) (x : Z + Z) : Prop :=
  match x with inl i => connection_holds tr i | inr j => session_holds tr j end.

Lemma since_then_snoc P Q tr e : since_then P Q (tr ++ [e]) ↔ P tr e ∨ since_then P Q tr ∧ ¬ Q e.
Proof.
  split.
  - intros (tr1 & x & tr2 & Heq & HP & HQ). destruct tr2 as [|y tr2 _] using rev_ind.
    + apply app_inj_tail in Heq as [-> ->]. by left.
    + rewrite app_comm_cons, app_assoc in Heq. apply app_inj_tail in Heq as [-> ->].
      apply Forall_app in HQ as [HQ Hy]. inversion_clear Hy. right. split; [|done]. by exists tr1, x, tr2.
  - intros [HP|[(tr1 & x & tr2 & -> & HP & HQ) He]]; [by exists tr, e, []|].
    exists tr1, x, (tr2 ++ [e]). rewrite <-app_assoc. split_and!; [done..|]. apply Forall_app. split; [done|by apply Forall_singleton].
Qed.
Lemma connection_holds_snoc tr e i :
  connection_holds (tr ++ [e]) i ↔ e = Accepted i ∨ connection_holds tr i ∧ ¬ ends_connection i e.
Proof. apply since_then_snoc. Qed.
Lemma session_holds_snoc tr e j :
  session_holds (tr ++ [e]) j ↔
  (∃ i, e = Upgraded i j ∧ connection_holds tr i) ∨ session_holds tr j ∧ ¬ ends_setup j e.
Proof. apply since_then_snoc. Qed.
Lemma holds_nothing x : ¬ holds_place [] x.
Proof. destruct x; intros (tr1 & e & tr2 & Heq & _); by apply (app_cons_not_nil tr1 tr2 e). Qed.

(** The places taken are those of the holders. *)
Record held_exactly (tr : list levent) (l : Listener) : Prop := {
  he_slots i : slots l !! i = Some true ↔ connection_holds tr i;
  he_setups j : setups l !! j = Some true ↔ session_holds tr j;
}.

Lemma drop_connection_held tr e i l :
  (∀ k, ends_connection k e ↔ k = i) → (∀ j, ¬ ends_setup j e) → (∀ k, e ≠ Accepted k) → (∀ k j, e ≠ Upgraded k j) →
  held_exactly tr l → held_exactly (tr ++ [e]) (drop_connection i l).
Proof.
  intros H1 H2 H3 H4 [Hs Hu]. unfold drop_connection. split; intros k.
  - rewrite connection_holds_snoc, <-Hs, H1.
    destruct (slots l !! i) as [b|] eqn:E; simpl; [rewrite lookup_delete; case_decide; subst|]; naive_solver.
  - rewrite session_holds_snoc, <-Hu. assert (setups (drop_connection i l) = setups l) as <-.
    { unfold drop_connection. by destruct (slots l !! i). }
    unfold drop_connection. destruct (slots l !! i); naive_solver.
Qed.

Lemma lstep_held tr e l l' : lstep e l l' → held_exactly tr l → held_exactly (tr ++ [e]) l'.
Proof.
  intros Hst Hx. destruct Hst as [i l l' Hi E|i l l' Hi E|i l|i at_ l|i j l [b Hi] Hj|j l|j l].
  3: { apply drop_connection_held; naive_solver. }
  3: { assert (held_exactly (tr ++ [HandshakeFailed i at_]) (drop_connection i l)) as [Hs Hu] by (apply drop_connection_held; naive_solver).
       unfold handshake_failed. destruct (handshake_admit at_ (failed l)). by split. }
  all: destruct Hx as [Hs Hu].
  - unfold accept_connection in E. destruct (places l); [done|]. injection E as <-. split; intros k; simpl.
    + rewrite connection_holds_snoc, <-Hs, lookup_insert. case_decide; naive_solver.
    + rewrite session_holds_snoc, <-Hu. naive_solver.
  - unfold accept_connection in E. destruct (places l); [|done]. injection E as <-. split; intros k; simpl.
    + rewrite connection_holds_snoc, <-Hs. naive_solver.
    + rewrite session_holds_snoc, <-Hu. naive_solver.
  - unfold take_over. rewrite Hi. split; intros k; simpl.
    + rewrite connection_holds_snoc, <-Hs, lookup_insert. case_decide; naive_solver.
    + rewrite session_holds_snoc, <-Hu, lookup_insert. setoid_rewrite <-Hs. case_decide; naive_solver.
  - unfold established. split; intros k.
    + rewrite connection_holds_snoc, <-Hs. destruct (setups l !! j); naive_solver.
    + rewrite session_holds_snoc, <-Hu. destruct (setups l !! j) as [b|] eqn:E; simpl; [rewrite lookup_insert; case_decide|]; naive_solver.
  - unfold end_setup. split; intros k.
    + rewrite connection_holds_snoc, <-Hs. destruct (setups l !! j); naive_solver.
    + rewrite session_holds_snoc, <-Hu. destruct (setups l !! j) as [b|] eqn:E; simpl; [rewrite lookup_delete; case_decide|]; naive_solver.
Qed.

(** ** The limit *)

(** Those that hold a place. *)
Definition holding (m : gmap Z bool) : nat := size (filter (fun kv => kv.2 = true) m).

Lemma holding_insert_new m i b : m !! i = None → holding (<[i := b]> m) = (place b + holding m)%nat.
Proof.
  intros Hi. unfold holding. destruct b; cbn [place].
  - rewrite map_filter_insert_True by done. rewrite map_size_insert_None; [done|]. rewrite map_lookup_filter, Hi. done.
  - rewrite map_filter_insert_False by done. rewrite delete_id by done. done.
Qed.

Lemma holding_delete m i b : m !! i = Some b → holding m = (place b + holding (delete i m))%nat.
Proof.
  intros Hi. rewrite <-(insert_delete_id m i b Hi) at 1. apply holding_insert_new, lookup_delete_eq.
Qed.

Lemma holding_replace m i b c : m !! i = Some b → (holding (<[i := c]> m) + place b = place c + holding m)%nat.
Proof.
  intros Hi. rewrite <-insert_delete_eq, holding_insert_new by apply lookup_delete_eq. rewrite (holding_delete m i b Hi). lia.
Qed.

(** Places left and places held make the limit. *)
Definition balanced (max_connections : nat) (l : Listener) : Prop :=
  (places l + holding (slots l) + holding (setups l) = max_connections)%nat.

Lemma drop_connection_balanced n i l : balanced n l → balanced n (drop_connection i l).
Proof.
  unfold balanced, drop_connection. destruct (slots l !! i) as [b|] eqn:E; [|done]. simpl.
  rewrite (holding_delete _ _ _ E). lia.
Qed.

Lemma lstep_balanced n e l l' : lstep e l l' → balanced n l → balanced n l'.
Proof.
  destruct 1 as [i l l' Hi E|i l l' Hi E|i l|i at_ l|i j l [b E] Hj|j l|j l]; unfold balanced.
  - unfold accept_connection in E. destruct (places l) as [|k] eqn:Ek; [done|]. injection E as <-. simpl.
    rewrite holding_insert_new by done. simpl. lia.
  - unfold accept_connection in E. destruct (places l) as [|k] eqn:Ek; [|done]. injection E as <-. by rewrite Ek.
  - apply drop_connection_balanced.
  - intros H. apply (drop_connection_balanced n i) in H. unfold handshake_failed. by destruct (handshake_admit at_ (failed l)).
  - unfold take_over. rewrite E. simpl.
    pose proof (holding_replace _ _ _ false E). rewrite (holding_insert_new (setups l)) by done. simpl in *. lia.
  - unfold established. destruct (setups l !! j) as [b|] eqn:E; [|done]. simpl.
    pose proof (holding_replace _ _ _ false E). simpl in *. lia.
  - unfold end_setup. destruct (setups l !! j) as [b|] eqn:E; [|done]. simpl. rewrite (holding_delete _ _ _ E). lia.
Qed.

Lemma listened_ok n tr l : listened n tr l → balanced n l ∧ held_exactly tr l.
Proof.
  induction 1 as [|tr e l l' _ [Hb Hh] Hs]; [|split; [by eapply lstep_balanced|by eapply lstep_held]].
  split; [unfold balanced; simpl; unfold holding; rewrite map_filter_empty, map_size_empty; lia|].
  split; intros k; simpl; rewrite lookup_empty; split; (done || intros Hk; exfalso).
  - by apply (holds_nothing (inl k)).
  - by apply (holds_nothing (inr k)).
Qed.

(** The names that hold a place. *)
Definition held_by (m : gmap Z bool) : list Z := (map_to_list (filter (fun kv => kv.2 = true) m)).*1.
Lemma held_by_spec m : NoDup (held_by m) ∧ length (held_by m) = holding m ∧ ∀ i, i ∈ held_by m ↔ m !! i = Some true.
Proof.
  unfold held_by, holding. split_and!; [apply NoDup_fst_map_to_list|by rewrite length_fmap, length_map_to_list|].
  intros i. rewrite list_elem_of_fmap. split.
  - intros ([k b] & -> & Hk%elem_of_map_to_list). apply map_lookup_filter_Some in Hk as [Hk Hb]. simpl in *. by subst.
  - intros Hi. exists (i, true). split; [done|]. apply elem_of_map_to_list. by apply map_lookup_filter_Some.
Qed.

(** C35. The limit on connections holds, for those it is meant for, and no place is lost. However
    connections come, are turned away, fail their handshake, are upgraded, established and closed, the
    places taken are exactly those of the connections accepted and since neither closed nor upgraded,
    and of the sessions such a connection was upgraded to that are neither established nor over: a
    place taken at the accept follows the upgrade and is kept until the session is established. There
    are never more of them than the limit, the places left are the others, and a new connection is
    taken exactly while there are fewer. *)
Theorem connection_limit_holds (max_connections : nat) (tr : list levent) (l : Listener) (i : Z) :
  listened max_connections tr l →
  ∃ holders : list (Z + Z), NoDup holders ∧ (∀ x, x ∈ holders ↔ holds_place tr x) ∧
    (length holders ≤ max_connections)%nat ∧ (places l = max_connections - length holders)%nat ∧
    (fst (accept_connection i l) = true ↔ (length holders < max_connections)%nat).
Proof.
  intros [Hb [Hs Hu]]%listened_ok. unfold balanced in Hb.
  destruct (held_by_spec (slots l)) as (N1 & L1 & M1), (held_by_spec (setups l)) as (N2 & L2 & M2).
  exists ((inl <$> held_by (slots l)) ++ (inr <$> held_by (setups l))).
  rewrite length_app, !length_fmap, L1, L2. split_and!; [| |lia|lia|].
  - apply NoDup_app. split_and!; [by apply NoDup_fmap; [apply _|]| |by apply NoDup_fmap; [apply _|]].
    intros x (k & -> & _)%list_elem_of_fmap (? & ? & _)%list_elem_of_fmap. done.
  - intros [k|k]; simpl; rewrite elem_of_app, !list_elem_of_fmap.
    + rewrite <-Hs, <-M1. naive_solver.
    + rewrite <-Hu, <-M2. naive_solver.
  - unfold accept_connection. destruct (places l); simpl; split; (done || lia).
Qed.

(** One place: a second connection is turned away while the first is being upgraded, and taken once
    its session is established. *)
Definition upgrading : list levent := [Accepted 1; Upgraded 1 7].

Lemma connection_limit_witness :
  ∃ holders : list (Z + Z), NoDup holders ∧
    (∀ x, x ∈ holders ↔ holds_place upgrading x) ∧ (length holders ≤ 1)%nat ∧
    (places (take_over 1 7 (snd (accept_connection 1 (listening 1)))) = 1 - length holders)%nat ∧
    (fst (accept_connection 2 (take_over 1 7 (snd (accept_connection 1 (listening 1))))) = true ↔ (length holders < 1)%nat).
Proof.
  apply (connection_limit_holds 1 upgrading).
  apply (listened_step 1 [Accepted 1] (Upgraded 1 7) (snd (accept_connection 1 (listening 1)))).
  - apply (listened_step 1 [] (Accepted 1) (listening 1)); [constructor|]. apply step_accept; reflexivity.
  - apply step_upgrade; [vm_compute; eauto|reflexivity].
Defined.

Example place_follows_the_upgrade :
  fst (accept_connection 2 (take_over 1 7 (snd (accept_connection 1 (listening 1))))) = false ∧
  fst (accept_connection 2 (established 7 (take_over 1 7 (snd (accept_connection 1 (listening 1)))))) = true.
Proof. split; reflexivity. Qed.
