(* ===== verification/Serving.v ===== *)
(** * The serving process (src/src/server.rs, src/src/service.rs)

    From the start of a process to its end: the configuration is read, the data directory's lock taken,
    the state opened, the port bound, connections accepted until the process is told to stop, and the
    lock given back once the runtime has shut down. Several processes run on one machine, from a
    console or as a Windows service, and command-line tools beside them, which take no lock; a service
    tells the Service Control Manager where it is. What the system answers a process is an argument of
    it ([ServeRun]). *)

From stdpp Require Import functions.
From S2P Require Import Prelude Text Utf8 Tables Store Vault App Migrate Config Start Https.
Local Open Scope Z_scope.

(** ** What the Service Control Manager is told *)

Inductive ServiceState := StartPending | Running | StopPending | Stopped.
Inductive ServiceExitCode := Win32 (code : Z) | ServiceSpecific (code : Z).
Inductive ServiceControl := Stop | Shutdown | Interrogate | OtherControl (code : Z).
Inductive ControlAnswer := NoError | NotImplemented.
Inductive Accepted := AcceptStop | AcceptShutdown.

Record ServiceStatus := mkServiceStatus {
  current_state : ServiceState;
  controls_accepted : list Accepted;
  exit_code : ServiceExitCode;
  wait_hint : Z;
}.

#[export] Instance service_state_eq : EqDecision ServiceState.
Proof. solve_decision. Defined.

#[export] Instance service_control_eq : EqDecision ServiceControl.
Proof. solve_decision. Defined.

(** In seconds. *)
Definition START_WAIT : Z := 120.
Definition STOP_WAIT : Z := 60.

(** The closure [report]. *)
Definition service_report (state : ServiceState) (accept : list Accepted) (wait : Z) : ServiceStatus :=
  mkServiceStatus state accept (Win32 0) wait.

Definition start_pending : ServiceStatus := service_report StartPending [] START_WAIT.
Definition running_status : ServiceStatus := service_report Running [AcceptStop; AcceptShutdown] 0.
Definition stop_pending : ServiceStatus := service_report StopPending [] STOP_WAIT.

Definition stopped {E A} (outcome : result E A) : ServiceStatus :=
  mkServiceStatus Stopped [] (if is_ok outcome then Win32 0 else ServiceSpecific 1) 0.

(** The closure [handler]: [stop_tx] is whether the sender is still there; the last value is whether
    this call sent. *)
Definition service_handler (control : ServiceControl) (stop_tx : bool) : ControlAnswer * bool * bool :=
  match control with
  | Stop | Shutdown => (NoError, false, stop_tx)
  | Interrogate => (NoError, stop_tx, false)
  | OtherControl _ => (NotImplemented, stop_tx, false)
  end.

(** ** Serving *)

Inductive ServeError :=
  | VConfig (e : ConfigError)
  | VIo (why : string)
  | AlreadyServing (data_dir : string)
  | OtherLock (locked data_dir : string)
  | VCrypto
  | VCertificate (why : string)
  | VStart (e : StartError)
  | VStore (e : StoreError)
  | VListen (listen why : string)
  | VRegister (why : string).

Record ServingLock := mkServingLock { lock_dir : string }.

Section serving.
Context {C : Crypto} {K : KeyProtector} {Chain : Type}.
(** [Config::load], the directory a path names, and equality of paths. *)
Context (load_config : string → result string string → result ConfigError Config).
Context (directory_at : string → Z) (same_path : string → string → bool).

(** What the system answers a process: the text of its configuration file; the errors of making the
    data directory, of opening and locking its lock file, of starting the runtime, of registering with
    the Service Control Manager and of binding the port; the crypto provider; the listener's
    certificate; how the state opens. *)
Record ServeRun := mkServeRun {
  sv_service : bool;
  sv_path : string;
  sv_file : result string string;
  sv_register : option string;
  sv_make_dir : option string;
  sv_lock_file : option string;
  sv_try_lock : option string;
  sv_runtime : option string;
  sv_crypto : bool;
  sv_stamp : option (Z * Z) * option (Z * Z);
  sv_certificate : result string (Chain * Z);
  sv_start : StartRun;
  sv_age : string → option Z;
  sv_stuck : string → bool;
  sv_bind : option string;
}.

(** The lock files that are locked, by directory, with the process that has each. *)
Abbreviation Locks := (gmap Z Z).

Definition LOCK_FILE : string := "serving.lock".

(** [OpenOptions::create(true).truncate(false)]. *)
Definition open_create (name : string) (files : Files) : Files := <[name := default [] (files !! name)]> files.

(** The file is opened, and made where there is none, before it is locked. *)
Definition serving_lock (i : Z) (w : ServeRun) (data_dir : string) : M (Locks * Files) ServeError unit :=
  _ ← fails VIo (sv_make_dir w);
  _ ← fails VIo (sv_lock_file w);
  _ ← modify (fun s => (s.1, open_create LOCK_FILE s.2));
  locks ← gets fst;
  match locks !! directory_at data_dir with
  | Some _ => throw (AlreadyServing data_dir)
  | None =>
      _ ← fails VIo (sv_try_lock w);
      modify (fun s => (<[directory_at data_dir := i]> s.1, s.2))
  end.

(** [ServingLock::acquire]. *)
Definition acquire (i : Z) (w : ServeRun) (cfg : Config) : M (Locks * Files) ServeError ServingLock :=
  _ ← serving_lock i w (data_dir_of cfg);
  mret (mkServingLock (data_dir_of cfg)).

Definition install_crypto_provider (w : ServeRun) : result ServeError unit :=
  if sv_crypto w then Ok () else Err VCrypto.

(** [run] up to [ready]: the data directory's database and files are the state. *)
Definition run_start (w : ServeRun) (cfg : Config) (serving : ServingLock) : M (Db * Files) ServeError unit :=
  _ ← (if same_path (data_dir_of cfg) (lock_dir serving) then mret ()
       else throw (OtherLock (lock_dir serving) (data_dir_of cfg)));
  _ ← (match https cfg with
       | Some _ =>
           match open_certificate (sv_stamp w) (sv_certificate w) with
           | Ok _ => mret ()
           | Err e => throw (VCertificate e)
           end
       | None => mret ()
       end);
  a ← map_err VStart (for_serving cfg (sv_start w) (sv_age w) (sv_stuck w));
  _ ← lift (match fst (counts (store_ a)) with Ok n => Ok n | Err e => Err (VStore e) end);
  fails (VListen (listen cfg)) (sv_bind w).

(** The part of [serve_blocking] between the lock and the accept loop. *)
Definition serve_start (w : ServeRun) (cfg : Config) (serving : ServingLock) : M (Db * Files) ServeError unit :=
  _ ← fails VIo (sv_runtime w);
  _ ← lift (install_crypto_provider w);
  run_start w cfg serving.

(** ** Processes *)

(** Where [serve_blocking] is. Once [Draining], the outcome is known and the runtime shuts down, which
    waits for blocking work. *)
Inductive ServePhase :=
  | Starting
  | Configured (cfg : Config)
  | HasLock (cfg : Config) (serving : ServingLock)
  | Accepting (cfg : Config) (serving : ServingLock)
  | Draining (cfg : Config) (serving : ServingLock) (outcome : result ServeError unit)
  | Finished (outcome : result ServeError unit).

(** [p_stop_tx] is the handler's sender, [p_told] whether the process was told to stop, by it or by
    Ctrl-C; [p_reports] what it told the Service Control Manager. *)
Record ServingProcess := mkServingProcess {
  p_run : ServeRun;
  p_stop_tx : bool;
  p_told : bool;
  p_phase : ServePhase;
  p_reports : list ServiceStatus;
}.

Record Machine := mkMachine {
  m_locks : Locks;
  m_data : Z → Db * Files;
  m_procs : gmap Z ServingProcess;
}.

(** A process begins: [serve_blocking] from a console, or [service::run] up to it. *)
Definition spawn (w : ServeRun) : ServingProcess :=
  match sv_service w, sv_register w with
  | true, Some e => mkServingProcess w true false (Finished (Err (VRegister e))) []
  | true, None => mkServingProcess w true false Starting [start_pending]
  | false, _ => mkServingProcess w true false Starting []
  end.

Definition at_phase (ph : ServePhase) (said : list ServiceStatus) (p : ServingProcess) : ServingProcess :=
  mkServingProcess (p_run p) (p_stop_tx p) (p_told p) ph (p_reports p ++ if sv_service (p_run p) then said else []).

(** The end of [serve_blocking], and of [service::run]. *)
Definition finish (outcome : result ServeError unit) (p : ServingProcess) : ServingProcess := at_phase (Finished outcome) [stopped outcome] p.

Definition with_proc (i : Z) (p : ServingProcess) (m : Machine) : Machine := mkMachine (m_locks m) (m_data m) (<[i := p]> (m_procs m)).

(** One step of [serve_blocking] in the process [i]. *)
Definition advance (i : Z) (m : Machine) : Machine :=
  match m_procs m !! i with
  | None => m
  | Some p =>
      match p_phase p with
      | Starting =>
          match load_config (sv_path (p_run p)) (sv_file (p_run p)) with
          | Ok cfg => with_proc i (at_phase (Configured cfg) [] p) m
          | Err e => with_proc i (finish (Err (VConfig e)) p) m
          end
      | Configured cfg =>
          let d := directory_at (data_dir_of cfg) in
          let '(r, (locks, files)) := acquire i (p_run p) cfg (m_locks m, (m_data m d).2) in
          mkMachine locks (<[d := ((m_data m d).1, files)]> (m_data m))
            (<[i := match r with
                    | Ok l => at_phase (HasLock cfg l) [] p
                    | Err e => finish (Err e) p
                    end]> (m_procs m))
      | HasLock cfg l =>
          let d := directory_at (data_dir_of cfg) in
          let '(r, data) := serve_start (p_run p) cfg l (m_data m d) in
          mkMachine (m_locks m) (<[d := data]> (m_data m))
            (<[i := match r with
                    | Ok _ => at_phase (Accepting cfg l) [running_status] p
                    | Err e => at_phase (Draining cfg l (Err e)) [] p
                    end]> (m_procs m))
      | Accepting cfg l => if p_told p then with_proc i (at_phase (Draining cfg l (Ok ())) [stop_pending] p) m else m
      | Draining _ l outcome =>
          mkMachine (delete (directory_at (lock_dir l)) (m_locks m)) (m_data m) (<[i := finish outcome p]> (m_procs m))
      | Finished _ => m
      end
  end.

(** A control of a service arrives, or Ctrl-C at a console. *)
Definition control (i : Z) (c : ServiceControl) (m : Machine) : Machine :=
  match m_procs m !! i with
  | None => m
  | Some p =>
      let '(_, tx, sent) := service_handler c (p_stop_tx p) in
      with_proc i (mkServingProcess (p_run p) tx (p_told p || sent) (p_phase p) (p_reports p)) m
  end.

Definition phase_lock (ph : ServePhase) : option ServingLock :=
  match ph with HasLock _ l | Accepting _ l | Draining _ l _ => Some l | _ => None end.

(** The configuration whose data directory a process works in: it opens the database there, serves
    requests and runs its checks until the runtime has shut down. *)
Definition phase_config (ph : ServePhase) : option Config :=
  match ph with HasLock cfg _ | Accepting cfg _ | Draining cfg _ _ => Some cfg | _ => None end.

Definition works_in (p : ServingProcess) : option Z := (fun cfg => directory_at (data_dir_of cfg)) <$> phase_config (p_phase p).

(** The directory whose lock a process has. *)
Definition holds_dir (p : ServingProcess) : option Z := (fun l => directory_at (lock_dir l)) <$> phase_lock (p_phase p).

(** A process dies wherever it is; the system gives its lock back. *)
Definition crash (i : Z) (m : Machine) : Machine :=
  mkMachine (filter (fun kv => kv.2 ≠ i) (m_locks m)) (m_data m) (delete i (m_procs m)).

Definition with_data (d : Z) (data : Db * Files) (m : Machine) : Machine := mkMachine (m_locks m) (<[d := data]> (m_data m)) (m_procs m).

(** The work of a process, request handling, background checks, opening itself, changes the data of the
    directory it works in, in any way. *)
Definition work (i : Z) (data : Db * Files) (m : Machine) : Machine :=
  match m_procs m !! i ≫= works_in with
  | Some d => with_data d data m
  | None => m
  end.

(** A step of the process [i], or of a command-line tool ([None]): a tool opens a data directory without
    its lock, also while a process serves it, and changes it at any moment, in any way. *)
Inductive mstep : option Z → Machine → Machine → Prop :=
  | m_spawn i w m : m_procs m !! i = None → mstep (Some i) m (with_proc i (spawn w) m)
  | m_advance i m : mstep (Some i) m (advance i m)
  | m_control i c m : mstep (Some i) m (control i c m)
  | m_work i data m : mstep (Some i) m (work i data m)
  | m_crash i m : mstep (Some i) m (crash i m)
  | m_tool d data m : mstep None m (with_data d data m).

Definition booted (data : Z → Db * Files) : Machine := mkMachine ∅ data ∅.

Definition machine_reachable (m : Machine) : Prop := ∃ data, rtc (fun a b => ∃ who, mstep who a b) (booted data) m.
End serving.
