(* ===== verification/ServingFacts.v ===== *)
(** * One server for a data directory, and what a service reports (src/src/server.rs, src/src/service.rs)

    Invariants of the processes of [Serving], by induction on the steps of the machine: a directory's
    lock is with the one process that serves it, a process's reports follow its phase, and a process
    told to stop gets to its end. Two servers for one directory are run at the end. *)

From stdpp Require Import functions.
From S2P Require Import Prelude Text Utf8 Tables Store StoreInv Vault VaultFacts App Migrate MigrateSample Config Start Https CliSample Serving.
Local Open Scope Z_scope.

Section facts.
Context {C : Crypto} {K : KeyProtector} {Chain : Type}.
Context (load_config : string → result string string → result ConfigError Config).
Context (directory_at : string → Z) (same_path : string → string → bool).

Abbreviation Machine := (@Machine Chain).
Abbreviation ServingProcess := (@ServingProcess Chain).
Abbreviation mstep := (mstep load_config directory_at same_path).
Abbreviation advance := (advance load_config directory_at same_path).
Abbreviation works_in := (@works_in Chain directory_at).
Abbreviation holds_dir := (@holds_dir Chain directory_at).
Abbreviation machine_reachable := (machine_reachable load_config directory_at same_path).

(** ** The lock *)

(** A lock is with the process that has the directory, and no other. *)
Definition owned (m : Machine) : Prop :=
  ∀ d i, m_locks m !! d = Some i ↔ (m_procs m !! i ≫= holds_dir) = Some d.

(** Replacing a process by one that has the same directory. *)
Lemma owned_same m i p p' data :
  m_procs m !! i = Some p → holds_dir p' = holds_dir p → owned m →
  owned (mkMachine (m_locks m) data (<[i := p']> (m_procs m))).
Proof.
  intros Hp Hh Ho d j. rewrite (Ho d j). simpl. destruct (decide (i = j)) as [->|Hn].
  - rewrite lookup_insert_eq, Hp. simpl. by rewrite Hh.
  - by rewrite lookup_insert_ne.
Qed.

Lemma owned_new m i p data :
  m_procs m !! i = None → holds_dir p = None → owned m → owned (mkMachine (m_locks m) data (<[i := p]> (m_procs m))).
Proof.
  intros Hp Hh Ho d j. rewrite (Ho d j). simpl. destruct (decide (i = j)) as [->|Hn].
  - rewrite lookup_insert_eq, Hp. simpl. by rewrite Hh.
  - by rewrite lookup_insert_ne.
Qed.

Lemma owned_taken m i p p' d data :
  m_procs m !! i = Some p → holds_dir p = None → holds_dir p' = Some d → m_locks m !! d = None → owned m →
  owned (mkMachine (<[d := i]> (m_locks m)) data (<[i := p']> (m_procs m))).
Proof.
  intros Hp Hh Hh' Hd Ho e j. simpl. destruct (decide (i = j)) as [->|Hn].
  - rewrite lookup_insert_eq. simpl. rewrite Hh'. destruct (decide (d = e)) as [->|Hde].
    + by rewrite lookup_insert_eq.
    + rewrite lookup_insert_ne, (Ho e j), Hp by done. simpl. rewrite Hh. naive_solver.
  - rewrite (lookup_insert_ne (m_procs m)) by done. rewrite <- (Ho e j). destruct (decide (d = e)) as [->|Hde].
    + rewrite lookup_insert_eq, Hd. naive_solver.
    + by rewrite lookup_insert_ne.
Qed.

Lemma owned_released m i p p' d data :
  m_procs m !! i = Some p → holds_dir p = Some d → holds_dir p' = None → owned m →
  owned (mkMachine (delete d (m_locks m)) data (<[i := p']> (m_procs m))).
Proof.
  intros Hp Hh Hh' Ho e j. simpl. assert (m_locks m !! d = Some i) as Hd by (apply Ho; by rewrite Hp).
  destruct (decide (d = e)) as [->|Hde].
  - rewrite lookup_delete_eq. split; [done|]. intros He. destruct (decide (i = j)) as [->|Hn].
    + rewrite lookup_insert_eq in He. simpl in He. congruence.
    + rewrite lookup_insert_ne in He by done. apply Ho in He. congruence.
  - rewrite lookup_delete_ne, (Ho e j) by done. destruct (decide (i = j)) as [->|Hn].
    + rewrite lookup_insert_eq, Hp. simpl. rewrite Hh, Hh'. naive_solver.
    + by rewrite lookup_insert_ne.
Qed.

Lemma owned_crash m i : owned m → owned (crash i m).
Proof.
  intros Ho d j. unfold crash. simpl. rewrite map_lookup_filter_Some, (Ho d j). simpl.
  destruct (decide (i = j)) as [->|Hn]; [rewrite lookup_delete_eq|rewrite lookup_delete_ne by done]; naive_solver.
Qed.

(** Taking the lock: it was free, and is this process's, or no lock changed; either way the only file
    that can have been made is the lock's. *)
Lemma acquire_ok i (w : @ServeRun Chain) cfg locks files r locks' files' :
  acquire directory_at i w cfg (locks, files) = (r, (locks', files')) →
  (files' = files ∨ files' = open_create LOCK_FILE files) ∧
  match r with
  | Ok l => l = mkServingLock (data_dir_of cfg) ∧ locks !! directory_at (data_dir_of cfg) = None ∧
            locks' = <[directory_at (data_dir_of cfg) := i]> locks
  | Err e => locks' = locks ∧ (∀ l d, e ≠ OtherLock l d) ∧ (∀ why, e ≠ VRegister why)
  end.
Proof.
  unfold acquire, serving_lock, fails. unfold mbind, M_bind, mret, M_ret, gets, modify, throw. cbn [fst snd].
  destruct (sv_make_dir w); [intros ?; simplify_eq/=; auto|]. destruct (sv_lock_file w); [intros ?; simplify_eq/=; auto|].
  cbn [fst snd]. destruct (locks !! _) eqn:Hl; [intros ?; simplify_eq/=; auto|]. destruct (sv_try_lock w); intros ?; simplify_eq/=; auto.
Qed.

Lemma holds_at_phase ph said p : holds_dir (at_phase ph said p) = (fun l => directory_at (lock_dir l)) <$> phase_lock ph.
Proof. done. Qed.

Lemma owned_advance m i : owned m → owned (advance i m).
Proof.
  intros Ho. unfold Serving.advance. destruct (m_procs m !! i) as [p|] eqn:Hp; [|done].
  destruct (p_phase p) as [|cfg|cfg l|cfg l|cfg l r|] eqn:Hph; [..|done].
  - destruct (load_config _ _); eapply owned_same; eauto; unfold Serving.holds_dir; simpl; by rewrite Hph.
  - destruct (acquire _ _ _ _ _) as [r [locks files]] eqn:Ha. apply acquire_ok in Ha as [_ Ha]. destruct r as [l|e].
    + destruct Ha as (-> & Hn & ->). eapply owned_taken; eauto. unfold Serving.holds_dir. by rewrite Hph.
    + destruct Ha as [-> _]. eapply owned_same; eauto. unfold Serving.holds_dir. simpl. by rewrite Hph.
  - destruct (serve_start _ _ _ _ _) as [r data]. eapply owned_same; eauto. unfold Serving.holds_dir. rewrite Hph. by destruct r.
  - destruct (p_told p); [|done]. eapply owned_same; eauto. unfold Serving.holds_dir. by rewrite Hph.
  - eapply owned_released; eauto. unfold Serving.holds_dir. by rewrite Hph.
Qed.

Lemma owned_control m i c : owned m → owned (control i c m).
Proof.
  intros Ho. unfold control. destruct (m_procs m !! i) as [p|] eqn:Hp; [|done].
  destruct (service_handler c (p_stop_tx p)) as [[? tx] sent]. by eapply owned_same.
Qed.

Lemma owned_step who m m' : mstep who m m' → owned m → owned m'.
Proof.
  destruct 1 as [i w m Hi|i m|i c m|i data m|i m|d data m]; intros Ho.
  - apply owned_new; [done| |done]. unfold spawn. by destruct (sv_service w), (sv_register w).
  - by apply owned_advance.
  - by apply owned_control.
  - unfold work. by destruct (_ ≫= _).
  - by apply owned_crash.
  - done.
Qed.

Lemma reachable_ind (P : Machine → Prop) :
  (∀ data, P (booted data)) → (∀ who m m', P m → mstep who m m' → P m') → ∀ m, machine_reachable m → P m.
Proof. intros H0 Hs m (data & H). revert m H. apply rtc_ind_r; [apply H0|]. intros m m' _ (who & Hm) HP. eauto. Qed.

Lemma owned_reachable m : machine_reachable m → owned m.
Proof.
  revert m. apply reachable_ind; [|intros; by eapply owned_step]. intros data d i. unfold booted. simpl.
  rewrite !lookup_empty. naive_solver.
Qed.

(** A step of one process is no step of another's. *)
Lemma step_other who j (m m' : Machine) : mstep who m m' → who ≠ Some j → m_procs m' !! j = m_procs m !! j.
Proof.
  destruct 1 as [i w m Hi|i m|i c m|i data m|i m|d data m]; intros Hn; simpl; [assert (i ≠ j) as Hij by congruence..|done].
  - by apply lookup_insert_ne.
  - unfold Serving.advance. destruct (m_procs m !! i) as [p|]; [|done]. destruct (p_phase p); [..|done].
    + destruct (load_config _ _); by apply lookup_insert_ne.
    + destruct (acquire _ _ _ _ _) as [[] []]; by apply lookup_insert_ne.
    + destruct (serve_start _ _ _ _ _). by apply lookup_insert_ne.
    + destruct (p_told p); [by apply lookup_insert_ne|done].
    + by apply lookup_insert_ne.
  - unfold control. destruct (m_procs m !! i) as [p|]; [|done]. destruct (service_handler _ _) as [[]]. by apply lookup_insert_ne.
  - unfold work. by destruct (_ ≫= _).
  - by apply lookup_delete_ne.
Qed.

(** A process works in the directory whose lock it has. *)
Lemma works_advance (m : Machine) i p p' :
  m_procs m !! i = Some p → works_in p = holds_dir p → m_procs (advance i m) !! i = Some p' → works_in p' = holds_dir p'.
Proof.
  intros Hp Hw. unfold Serving.advance. rewrite Hp. unfold Serving.works_in, Serving.holds_dir in *.
  destruct (p_phase p) as [|cfg|cfg l|cfg l|cfg l r|] eqn:Hph; simpl in *.
  - destruct (load_config _ _); simpl; rewrite lookup_insert_eq; by intros [= <-].
  - destruct (acquire _ _ _ _ _) as [r [locks files]] eqn:Ha. apply acquire_ok in Ha as [_ Ha].
    simpl. rewrite lookup_insert_eq. intros [= <-]. destruct r as [l|e]; [|done]. by destruct Ha as (-> & _).
  - destruct (serve_start _ _ _ _ _) as [r data]. simpl. rewrite lookup_insert_eq. intros [= <-]. by destruct r.
  - destruct (p_told p); simpl; [rewrite lookup_insert_eq; by intros [= <-]|]. rewrite Hp. intros [= <-]. by rewrite Hph.
  - rewrite lookup_insert_eq. by intros [= <-].
  - rewrite Hp. intros [= <-]. by rewrite Hph.
Qed.

Lemma works_where_it_locked m i p : machine_reachable m → m_procs m !! i = Some p → works_in p = holds_dir p.
Proof.
  intros H. revert i p. revert m H. apply (reachable_ind (fun m => ∀ i p, m_procs m !! i = Some p → works_in p = holds_dir p)).
  { intros data i p. unfold booted. simpl. by rewrite lookup_empty. }
  intros who m m' IH Hs j q Hq. destruct (decide (who = Some j)) as [Hw|Hn]; [|rewrite (step_other _ _ _ _ Hs Hn) in Hq; eauto].
  revert Hq. destruct Hs as [i w m Hi|i m|i c m|i data m|i m|d data m]; try injection Hw as ->; simpl.
  - rewrite lookup_insert_eq. intros [= <-]. unfold spawn. by destruct (sv_service w), (sv_register w).
  - intros Hq. destruct (m_procs m !! j) as [p|] eqn:Hp; [eapply works_advance; eauto|].
    unfold Serving.advance in Hq. rewrite Hp in Hq. congruence.
  - unfold control. destruct (m_procs m !! j) as [p|] eqn:Hp; [|congruence]. destruct (service_handler _ _) as [[]]. simpl.
    rewrite lookup_insert_eq. intros [= <-]. apply (IH j p Hp).
  - unfold work. destruct (_ ≫= _); apply IH.
  - by rewrite lookup_delete_eq.
  - apply IH.
Qed.

(** A process changes the data of the directory it works in, or makes the lock file of the one its
    configuration names. *)
Lemma step_data i m m' d :
  mstep (Some i) m m' → m_data m' d ≠ m_data m d →
  (m_procs m !! i ≫= works_in) = Some d ∨
  (∃ p cfg, m_procs m !! i = Some p ∧ p_phase p = Configured cfg ∧ directory_at (data_dir_of cfg) = d ∧
     (m_data m d).2 !! LOCK_FILE = None ∧ m_data m' d = ((m_data m d).1, <[LOCK_FILE := []]> (m_data m d).2)).
Proof.
  inversion 1 as [? w ? Hi|? m0|? c m0|? data m0|? m0|]; subst; simpl; [done|..|done].
  - unfold Serving.advance. destruct (m_procs m !! i) as [p|] eqn:Hp; [|done].
    unfold Serving.works_in. simpl. destruct (p_phase p) as [|cfg|cfg l|cfg l|cfg l r|] eqn:Hph; [..|done].
    + by destruct (load_config _ _).
    + destruct (acquire _ _ _ _ _) as [r [locks files]] eqn:Ha. apply acquire_ok in Ha as [Hf _]. simpl. intros Hne. right.
      destruct (decide (directory_at (data_dir_of cfg) = d)) as [<-|Hn]; [|by rewrite fn_lookup_insert_ne in Hne].
      rewrite fn_lookup_insert in Hne |- *. exists p, cfg. split_and!; [done..| |].
      all: destruct Hf as [->| ->]; [by rewrite <-surjective_pairing in Hne|]; unfold open_create in *.
      all: destruct ((m_data m (directory_at (data_dir_of cfg))).2 !! LOCK_FILE) as [b|] eqn:Hl; [|done].
      all: exfalso; apply Hne; cbn [default]; rewrite insert_id by done; by rewrite <-surjective_pairing.
    + destruct (serve_start _ _ _ _ _) as [r data]. simpl. left. destruct (decide (directory_at (data_dir_of cfg) = d)) as [<-|Hn]; [done|].
      by rewrite fn_lookup_insert_ne in *.
    + by destruct (p_told p).
    + done.
  - unfold control. destruct (m_procs m !! i) as [p|]; [|done]. by destruct (service_handler _ _) as [[]].
  - unfold work. destruct (m_procs m !! i ≫= works_in) as [e|]; [simpl|done]. left.
    destruct (decide (e = d)) as [->|Hn]; [done|]. by rewrite fn_lookup_insert_ne in *.
Qed.


(** Nothing that clears files away clears the lock file. *)
Example lock_file_stays : is_temporary LOCK_FILE = false ∧ in_staging LOCK_FILE = false ∧ is_import_backup LOCK_FILE = false.
Proof. split_and!; vm_compute; reflexivity. Qed.

(** ** Reports *)

(** What a service has told the Service Control Manager by a phase. *)
Definition told_by (ph : @ServePhase) : list ServiceStatus :=
  match ph with
  | Starting | Configured _ | HasLock _ _ => [start_pending]
  | Accepting _ _ => [start_pending; running_status]
  | Draining _ _ (Ok _) => [start_pending; running_status; stop_pending]
  | Draining _ _ (Err _) => [start_pending]
  | Finished (Ok _) => [start_pending; running_status; stop_pending; mkServiceStatus Stopped [] (Win32 0) 0]
  | Finished (Err (VRegister _)) => []
  | Finished (Err _) => [start_pending; mkServiceStatus Stopped [] (ServiceSpecific 1) 0]
  end.

(** The outcome, where it is known. *)
Definition outcome_of (ph : ServePhase) : option (result ServeError unit) :=
  match ph with Draining _ _ r | Finished r => Some r | _ => None end.

Definition drains (ph : ServePhase) : bool := match ph with Draining _ _ _ => true | _ => false end.

Record proc_ok (p : ServingProcess) : Prop := {
  ok_reports : p_reports p = if sv_service (p_run p) then told_by (p_phase p) else [];
  ok_sender : p_told p = negb (p_stop_tx p);
  ok_stopped : outcome_of (p_phase p) = Some (Ok ()) → p_told p = true;
  ok_lock : match p_phase p with HasLock cfg l => lock_dir l = data_dir_of cfg | _ => True end;
  ok_outcome : match outcome_of (p_phase p) with Some (Err (OtherLock _ _)) => False | _ => True end;
  ok_draining : drains (p_phase p) = true → match outcome_of (p_phase p) with Some (Err (VRegister _)) => False | _ => True end;
}.

Section paths.
Hypothesis same_path_refl : ∀ a, same_path a a = true.

(** A start that fails fails for a reason of its own. *)
Lemma serve_start_err (w : @ServeRun Chain) cfg s :
  match fst (serve_start same_path w cfg (mkServingLock (data_dir_of cfg)) s) with
  | Err (OtherLock _ _) | Err (VRegister _) => False
  | _ => True
  end.
Proof.
  unfold serve_start, run_start, install_crypto_provider, fails, map_err, lift, throw. unfold mbind, M_bind, mret, M_ret.
  simpl. rewrite same_path_refl. destruct (sv_runtime w); [done|]. destruct (sv_crypto w); [|done].
  destruct (https cfg); [destruct (open_certificate _ _); [|done]|].
  all: destruct (for_serving _ _ _ _ s) as [[app|e] ?]; [|done]; destruct (fst (counts (store_ app))); try done.
  all: by destruct (sv_bind w).
Qed.

Lemma proc_advance m i p :
  m_procs m !! i = Some p → proc_ok p → ∃ p', m_procs (advance i m) !! i = Some p' ∧ proc_ok p' ∧ p_told p' = p_told p.
Proof.
  intros Hp [Hr Hs Hd Hl Ho Hv]. unfold Serving.advance. rewrite Hp.
  destruct (p_phase p) as [|cfg|cfg l|cfg l|cfg l r|] eqn:Hph; simpl in *.
  - destruct (load_config _ _) eqn:?; simpl; rewrite lookup_insert_eq; eexists; split_and!; try done;
      constructor; simpl; rewrite ?Hr; try done; by destruct (sv_service _).
  - destruct (acquire _ _ _ _ _) as [r [locks files]] eqn:Ha. apply acquire_ok in Ha as [_ Ha]. destruct r as [l|e]; simpl.
    + destruct Ha as (-> & _). rewrite lookup_insert_eq. eexists; split_and!; try done.
      constructor; simpl; rewrite ?Hr; try done. by destruct (sv_service _).
    + destruct Ha as (_ & H1 & H2). rewrite lookup_insert_eq. eexists; split_and!; try done.
      constructor; simpl; rewrite ?Hr; try done; destruct e; try done; try (by destruct (sv_service _)); naive_solver.
  - assert (l = mkServingLock (data_dir_of cfg)) as -> by (destruct l; simpl in *; congruence).
    pose proof (serve_start_err (p_run p) cfg (m_data m (directory_at (data_dir_of cfg)))) as He.
    destruct (serve_start _ _ _ _ _) as [r data]. simpl in *. rewrite lookup_insert_eq.
    destruct r as [u|e]; eexists; split_and!; try done; constructor; simpl; rewrite ?Hr; try done; try (by destruct (sv_service _));
      by destruct e.
  - destruct (p_told p) eqn:Ht; simpl; [rewrite lookup_insert_eq|by eexists; split_and!; [done| |done]; constructor; rewrite ?Hph, ?Ht].
    eexists; split_and!; try done. constructor; simpl; rewrite ?Hr, ?Ht; try done. by destruct (sv_service _).
  - rewrite lookup_insert_eq. eexists; split_and!; try done.
    constructor; simpl; rewrite ?Hr; try done; destruct r as [[]|e]; try done; try (by destruct (sv_service _)).
    specialize (Hv eq_refl). destruct e; try done; by destruct (sv_service _).
  - rewrite Hp. eexists; split_and!; [done| |done]. constructor; by rewrite ?Hph.
Qed.
Lemma proc_spawn w : proc_ok (spawn w).
Proof. unfold spawn. destruct (sv_service w) eqn:Hs, (sv_register w); constructor; simpl; rewrite ?Hs; done. Qed.

Lemma proc_control m i c p :
  m_procs m !! i = Some p → proc_ok p →
  ∃ p', m_procs (control i c m) !! i = Some p' ∧ proc_ok p' ∧ p_phase p' = p_phase p ∧
    p_told p' = p_told p || bool_decide (c = Stop ∨ c = Shutdown).
Proof.
  intros Hp [Hr Hs Hd Hl Ho Hv]. unfold control. rewrite Hp. destruct (service_handler c (p_stop_tx p)) as [[a tx] sent] eqn:Hc.
  simpl. rewrite lookup_insert_eq. eexists. split; [done|]. split_and!; [|done|].
  - constructor; simpl; try done.
    + rewrite Hs. destruct c, (p_stop_tx p); simpl in Hc; by simplify_eq.
    + intros H. by rewrite (Hd H).
  - simpl. rewrite Hs. destruct c, (p_stop_tx p); simpl in Hc; simplify_eq/=; try done; by rewrite bool_decide_eq_false_2 by naive_solver.
Qed.

Lemma step_own i (m m' : Machine) p' :
  mstep (Some i) m m' → m_procs m' !! i = Some p' → (∀ p, m_procs m !! i = Some p → proc_ok p) → proc_ok p'.
Proof.
  inversion 1 as [? w ? Hi|? m0|? c m0|? data m0|? m0|]; subst; simpl.
  - rewrite lookup_insert_eq. intros [= <-] _. apply proc_spawn.
  - intros H' Hok. destruct (m_procs m !! i) as [p|] eqn:Hp.
    + destruct (proc_advance m i p Hp (Hok p eq_refl)) as (p'' & H'' & ? & _). congruence.
    + unfold Serving.advance in H'. rewrite Hp in H'. congruence.
  - intros H' Hok. destruct (m_procs m !! i) as [p|] eqn:Hp.
    + destruct (proc_control m i c p Hp (Hok p eq_refl)) as (p'' & H'' & ? & _). congruence.
    + unfold control in H'. rewrite Hp in H'. congruence.
  - intros H' Hok. apply Hok. revert H'. unfold work. by destruct (m_procs m !! i ≫= _).
  - by rewrite lookup_delete_eq.
Qed.

Lemma reachable_proc m i p : machine_reachable m → m_procs m !! i = Some p → proc_ok p.
Proof.
  intros H. revert i p. revert m H. apply (reachable_ind (fun m => ∀ i p, m_procs m !! i = Some p → proc_ok p)).
  - intros data i p. unfold booted. simpl. by rewrite lookup_empty.
  - intros who m m' IH Hs i p Hp. destruct (decide (who = Some i)) as [->|Hn].
    + eapply step_own; eauto.
    + rewrite (step_other _ _ _ _ Hs Hn) in Hp. eauto.
Qed.

(** What a service reports. At every moment of its life a service has told the Service Control
    Manager exactly what its phase calls for, in order: start pending until its port is bound; running
    only then; stop pending only after it was told to stop; and stopped at its end, with exit code 0
    after serving and the service's own code 1 where it could not serve. A process never finds the lock
    it took to be for another directory than the one it serves. *)
Theorem service_reports_follow_the_phase (m : Machine) (i : Z) (p : ServingProcess) :
  machine_reachable m → m_procs m !! i = Some p →
  p_reports p = (if sv_service (p_run p) then told_by (p_phase p) else []) ∧
  (stop_pending ∈ p_reports p → p_told p = true) ∧
  (∀ l d, outcome_of (p_phase p) ≠ Some (Err (OtherLock l d))).
Proof.
  intros Hm Hp. destruct (reachable_proc m i p Hm Hp) as [Hr Hs Hd Hl Ho Hv]. split_and!; [done| |].
  - rewrite Hr. intros Hin. apply Hd. destruct (sv_service _); [|by apply elem_of_nil in Hin].
    destruct (p_phase p) as [| | | |c l [[]|e]|[[]|e]]; simpl in Hin; try done; [..|destruct e; simpl in Hin];
      unfold start_pending, running_status, stop_pending, service_report in Hin; set_solver.
  - intros l d He. by rewrite He in Ho.
Qed.

(** ** Stopping *)

(** Own steps left. *)
Definition rank (ph : ServePhase) : nat :=
  match ph with Starting => 5 | Configured _ => 4 | HasLock _ _ => 3 | Accepting _ _ => 2 | Draining _ _ _ => 1 | Finished _ => 0 end.

Definition at_rest (p : ServingProcess) : Prop :=
  match p_phase p with Finished _ => True | Accepting _ _ => p_told p = false | _ => False end.

Lemma advance_rank (m : Machine) i p :
  m_procs m !! i = Some p → ∃ p', m_procs (advance i m) !! i = Some p' ∧ p_told p' = p_told p ∧
    (at_rest p ∧ advance i m = m ∨ (rank (p_phase p') < rank (p_phase p))%nat).
Proof.
  intros Hp. unfold Serving.advance, at_rest. rewrite Hp. destruct (p_phase p) as [|cfg|cfg l|cfg l|cfg l r|r]; simpl.
  - destruct (load_config _ _); simpl; rewrite lookup_insert_eq; eexists; split_and!; try done; right; simpl; lia.
  - destruct (acquire _ _ _ _ _) as [[] [? ?]]; simpl; rewrite lookup_insert_eq; eexists; split_and!; try done; right; simpl; lia.
  - destruct (serve_start _ _ _ _ _) as [[] ?]; simpl; rewrite lookup_insert_eq; eexists; split_and!; try done; right; simpl; lia.
  - destruct (p_told p) eqn:Ht; simpl; [rewrite lookup_insert_eq|]; eexists; split_and!; try done; [right; simpl; lia|by left].
  - rewrite lookup_insert_eq. eexists; split_and!; try done. right; simpl; lia.
  - eexists; split_and!; try done. by left.
Qed.

Lemma advance_settles n (m : Machine) i p :
  m_procs m !! i = Some p → (rank (p_phase p) ≤ n)%nat →
  ∃ p', m_procs (Nat.iter n (advance i) m) !! i = Some p' ∧ at_rest p' ∧ p_told p' = p_told p.
Proof.
  revert m p. induction n as [|n IH]; intros m p Hp Hn.
  - exists p. split_and!; [done| |done]. unfold at_rest. destruct (p_phase p); simpl in Hn; try lia; done.
  - destruct (advance_rank m i p Hp) as (p' & Hp' & Ht & [[Hr Hm]|Hlt]).
    + exists p. split_and!; [|done..]. clear IH Hn. assert (Nat.iter (S n) (advance i) m = m) as ->; [|done].
      induction (S n) as [|k IH]; simpl; congruence.
    + destruct (IH (advance i m) p' Hp' ltac:(lia)) as (q & Hq & ? & ?). exists q. rewrite Nat.iter_succ_r. split_and!; [done..|congruence].
Qed.

Lemma iter_reachable n (m : Machine) i : machine_reachable m → machine_reachable (Nat.iter n (advance i) m).
Proof.
  intros (data & H). exists data. induction n as [|n IH]; simpl; [done|]. eapply rtc_r; [exact IH|]. exists (Some i). apply m_advance.
Qed.

(** A process told to stop stops. Wherever a process is when Stop, Shutdown or Ctrl-C reaches it,
    and however often, five of its own steps later it has ended: its lock is given back, and a service
    has reported that it stopped. Before that, the same five steps end in serving, with running
    reported, or in an error. *)
Theorem told_to_stop_it_stops (m : Machine) (i : Z) (p : ServingProcess) (c : ServiceControl) :
  machine_reachable m → m_procs m !! i = Some p → c = Stop ∨ c = Shutdown →
  ∃ p' outcome, m_procs (Nat.iter 5 (advance i) (control i c m)) !! i = Some p' ∧ p_phase p' = Finished outcome ∧
    (∀ d, m_locks (Nat.iter 5 (advance i) (control i c m)) !! d ≠ Some i) ∧
    (sv_service (p_run p') = true → (∀ e, outcome ≠ Err (VRegister e)) → last (p_reports p') = Some (stopped outcome)).
Proof.
  intros Hm Hp Hc. pose proof (reachable_proc m i p Hm Hp) as Hok.
  destruct (proc_control m i c p Hp Hok) as (q & Hq & _ & Hph & Ht). rewrite bool_decide_eq_true_2, orb_true_r in Ht by done.
  assert (machine_reachable (control i c m)) as Hr.
  { destruct Hm as [data Hm]. exists data. eapply rtc_r; [exact Hm|]. exists (Some i). apply m_control. }
  destruct (advance_settles 5 (control i c m) i q Hq ltac:(destruct (p_phase q); simpl; lia)) as (p' & Hp' & Hrest & Ht').
  unfold at_rest in Hrest. destruct (p_phase p') as [| | | | |outcome] eqn:Hf; try done; [congruence|].
  apply (iter_reachable 5 _ i) in Hr. exists p', outcome. split_and!; [done..| |].
  - intros d Hd%owned_reachable; [|done]. rewrite Hp' in Hd. unfold Serving.holds_dir in Hd. simpl in Hd. by rewrite Hf in Hd.
  - intros Hsv He. destruct (reachable_proc _ i p' Hr Hp') as [Hrep _ _ _ _ _]. rewrite Hrep, Hsv, Hf.
    destruct outcome as [[]|[]]; try done. by destruct (He why).
Qed.
End paths.
End facts.

(** ** Two servers, run *)

(** Two processes are started for one data directory: the first, a service, serves; the second, from a
    console, is refused; the service is told to stop. *)

#[local] Existing Instances sample_crypto sample_protector.

Definition serve_run (service : bool) : @ServeRun unit :=
  mkServeRun service "c.toml" (Ok ""%string) None None None None None true (None, None) (Ok ((), 0)) console_start (fun _ => None)
    (fun _ => false) None.

Abbreviation sample_load := (fun (_ : string) (_ : result string string) => Ok console_config).
Abbreviation sample_at := (fun _ : string => 0).
Abbreviation sample_same := (fun a b : string => bool_decide (a = b)).
Abbreviation sample_advance := (advance sample_load sample_at sample_same).

Definition machine0 : @Machine unit := booted (fun _ => (empty_db, ∅)).
Definition machine1 : @Machine unit := Nat.iter 3 (sample_advance 1) (with_proc 1 (spawn (serve_run true)) machine0).
Definition machine2 : @Machine unit := Nat.iter 2 (sample_advance 2) (with_proc 2 (spawn (serve_run false)) machine1).

Abbreviation sample_reachable := (machine_reachable sample_load sample_at sample_same).

Lemma spawn_reachable i w (m : @Machine unit) n :
  m_procs m !! i = None → sample_reachable m → sample_reachable (Nat.iter n (sample_advance i) (with_proc i (spawn w) m)).
Proof. intros Hi (data & H). apply iter_reachable. exists data. eapply rtc_r; [exact H|]. exists (Some i). by apply m_spawn. Qed.

Lemma machine2_reachable : sample_reachable machine2.
Proof. apply spawn_reachable; [vm_compute; reflexivity|]. apply spawn_reachable; [apply lookup_empty|]. eexists. apply rtc_refl. Qed.

(** The service accepts connections, and the other process was refused. *)
Example service_serves : (p_phase <$> m_procs machine2 !! 1) = Some (Accepting console_config (mkServingLock "data")).
Proof. vm_compute. reflexivity. Qed.

Example second_refused : (p_phase <$> m_procs machine2 !! 2) = Some (Finished (Err (AlreadyServing "data"))).
Proof. vm_compute. reflexivity. Qed.


Lemma service_reports_witness :
  (p_reports <$> m_procs machine2 !! 1) = Some [start_pending; running_status].
Proof.
  destruct (m_procs machine2 !! 1) as [p|] eqn:Hp; [|by vm_compute in Hp].
  destruct (service_reports_follow_the_phase sample_load sample_at sample_same ltac:(intros; by apply bool_decide_eq_true)
    machine2 1 p machine2_reachable Hp) as (Hr & _).
  simpl. rewrite Hr. vm_compute in Hp. injection Hp as <-. reflexivity.
Defined.

Lemma told_to_stop_witness :
  ∃ p', m_procs (Nat.iter 5 (sample_advance 1) (control 1 Stop machine2)) !! 1 = Some p' ∧ last (p_reports p') = Some (mkServiceStatus Stopped [] (Win32 0) 0).
Proof.
  destruct (m_procs machine2 !! 1) as [p|] eqn:Hp; [|by vm_compute in Hp].
  destruct (told_to_stop_it_stops sample_load sample_at sample_same ltac:(intros; by apply bool_decide_eq_true)
    machine2 1 p Stop machine2_reachable Hp ltac:(by left)) as (p' & r & Hp' & Hf & _ & Hl).
  assert (m_procs (Nat.iter 5 (sample_advance 1) (control 1 Stop machine2)) !! 1 = Some p') as E by exact Hp'.
  exists p'. split; [done|].
  assert (sv_service (p_run p') = true ∧ r = Ok ()) as [Hs ->].
  { vm_compute in E. injection E as <-. simpl in Hf. injection Hf as <-. done. }
  apply (Hl Hs). by intros.
Defined.
