(* ===== verification/Pages.v ===== *)
(** * Pages and response headers (src/src/web.rs, src/build.rs)

    The files a browser loads: packed when the proxy is built, with a gzip and two ETags each; served
    plain or packed, or answered with 304 where the browser has them; and the headers every response
    carries. The contents of the files and the gzip encoder are parameters; responses are a status,
    headers by name and a body.

    A page that is served is the file that was embedded, whichever way it was sent; a browser is told its
    copy is current exactly when it names the tag of what it would have been sent; and every response
    carries the protecting headers. *)

From S2P Require Import Prelude Text Utf8 Store Web ScanService Cli.
Local Open Scope Z_scope.

(** ** Responses *)

Inductive HttpBody := NoBody | Bytes (b : bytes) | PlainText (t : string) | ErrorJson (message : string).

Record HttpResponse := mkHttpResponse {
  rs_status : Z;
  rs_headers : gmap string string;
  rs_body : HttpBody;
}.

Definition METHOD_NOT_ALLOWED : Z := 405.
Definition NOT_MODIFIED : Z := 304.
Definition OK_STATUS : Z := 200.

(** Header arrays are inserted one after the other, over what the body brings. *)
Definition with_headers (hs : list (string * string)) (r : HttpResponse) : HttpResponse :=
  mkHttpResponse (rs_status r) (foldl (fun m kv => <[kv.1 := kv.2]> m) (rs_headers r) hs) (rs_body r).

(** [ApiError::into_response]. *)
Definition api_error_response (e : ApiError) : HttpResponse :=
  mkHttpResponse (status e) {["content-type"%string := "application/json"%string]} (ErrorJson (message e)).

Definition text_response (st : Z) (t : string) : HttpResponse :=
  mkHttpResponse st {["content-type"%string := "text/plain; charset=utf-8"%string]} (PlainText t).

Definition bytes_response (b : bytes) : HttpResponse :=
  mkHttpResponse OK_STATUS {["content-type"%string := "application/octet-stream"%string]} (Bytes b).

Definition CSP : string :=
  "default-src 'self'; script-src 'self' 'wasm-unsafe-eval'; connect-src 'self'; img-src 'self' data: blob:; frame-ancestors 'none'; base-uri 'none'; form-action 'self'".

Definition HSTS : string := "max-age=31536000".

(** The outermost layer of the router. *)
Definition security_headers (secure_cookies : bool) (res : HttpResponse) : HttpResponse :=
  let h := rs_headers res in
  let h := if secure_cookies then <["strict-transport-security" := HSTS]> h else h in
  let h := <["x-content-type-options" := "nosniff"%string]> h in
  let h := <["referrer-policy" := "no-referrer"%string]> h in
  let h := <["x-frame-options" := "DENY"%string]> h in
  let h := <["content-security-policy" := CSP]> h in
  let h := match h !! "cache-control" with Some _ => h | None => <["cache-control" := "no-store"%string]> h end in
  mkHttpResponse (rs_status res) h (rs_body res).

(** ** Packing *)

(** The build script's FILES. *)
Definition PAGE_FILES : list string :=
  ["index.html"; "admin.html"; "app.css"; "app.js"; "admin.js"; "theme.js"; "saml-done.js"; "ironrdp_web.js";
   "ironrdp_web_bg.wasm"; "notices.html"; "notices-client.html"]%string.

Definition fnv1a (b : bytes) : Z :=
  foldl (fun h x => wrap 64 (Z.lxor h (u8 x) * 0x100000001b3)) 0xcbf29ce484222325 b.

(** [{hash:016x}]. *)
Definition hex64 (z : Z) : chars :=
  (fun i => hex_digit (z / 16 ^ i mod 16)) <$> [15; 14; 13; 12; 11; 10; 9; 8; 7; 6; 5; 4; 3; 2; 1; 0].

Definition quoted (l : chars) : string := of_chars (quote :: l ++ [quote]).

(** A file's ETag, and its gzip's. *)
Definition plain_tag (raw : bytes) : string := quoted (hex64 (fnv1a raw)).
Definition gzip_tag (raw : bytes) : string := quoted (hex64 (fnv1a raw) ++ to_chars "-gz").

Section pages.
(** A file's contents, and its gzip. *)
Context (web : string → bytes) (gzip : bytes → bytes).

(** What the build script writes. *)
Definition PACKED : list (string * bytes * string * string) :=
  (fun file => (file, gzip (web file), plain_tag (web file), gzip_tag (web file))) <$> PAGE_FILES.

(** ** Serving *)

Definition html : string := "text/html; charset=utf-8".
Definition javascript : string := "text/javascript; charset=utf-8".

(** Request path, content type, and the file embedded. *)
Definition ASSETS : list (string * string * string) :=
  [("/", html, "index.html"); ("/index.html", html, "index.html");
   ("/admin", html, "admin.html"); ("/admin.html", html, "admin.html");
   ("/app.css", "text/css; charset=utf-8", "app.css"); ("/app.js", javascript, "app.js");
   ("/admin.js", javascript, "admin.js"); ("/theme.js", javascript, "theme.js");
   ("/saml-done.js", javascript, "saml-done.js"); ("/ironrdp_web.js", javascript, "ironrdp_web.js");
   ("/ironrdp_web_bg.wasm", "application/wasm", "ironrdp_web_bg.wasm");
   ("/notices", html, "notices.html"); ("/notices-client", html, "notices-client.html");
   ("/notices.html", html, "notices.html"); ("/notices-client.html", html, "notices-client.html")]%string.

Definition packed_name (path : string) : option string :=
  if decide (path = "/"%string) then Some "index.html"%string
  else if decide (path = "/admin"%string) then Some "admin.html"%string
  else if decide (path = "/notices"%string) then Some "notices.html"%string
  else if decide (path = "/notices-client"%string) then Some "notices-client.html"%string
  else of_chars <$> strip_prefix ["/"%char] (to_chars path).

Definition packed (path : string) : option (bytes * string * string) :=
  file ← packed_name path;
  match list_find (fun p => p.1.1.1 = file) PACKED with
  | Some (_, (_, gz, etag, gz_etag)) => Some (gz, etag, gz_etag)
  | None => None
  end.

(** [HeaderValue::to_str]: visible ASCII, spaces and tabs. *)
Definition header_text (v : string) : option chars :=
  if forallb (fun c => let n := N_of_ascii c in bool_decide ((32 ≤ n ∧ n < 127)%N ∨ n = 9%N)) (to_chars v) then Some (to_chars v)
  else None.

(** The pieces between commas of all values of a header. *)
Definition header_items (values : list string) : list chars := omap header_text values ≫= split_on ","%char.

(** The digits a text starts with, and the rest. *)
Fixpoint span_digits (l : chars) : chars * chars :=
  match l with
  | c :: r => match digit_of c with Some _ => let '(d, r) := span_digits r in (c :: d, r) | None => ([], l) end
  | [] => ([], [])
  end.

Definition without_sign (l : chars) : bool * chars :=
  match l with
  | c :: r => if decide (c = "-"%char) then (true, r) else if decide (c = "+"%char) then (false, r) else (false, l)
  | [] => (false, l)
  end.

(** The exponent after the digits of a number, where the rest is one. *)
Definition f32_exponent (l : chars) : option Z :=
  match l with
  | [] => Some 0
  | c :: r =>
      if decide (c = "e"%char ∨ c = "E"%char) then
        let '(neg, r) := without_sign r in
        match span_digits r with
        | (d :: ds, []) => (fun n => if neg then - n else n) <$> digits_value 0 (d :: ds)
        | _ => None
        end
      else None
  end.

(** [parse::<f32>] reads a number, and the nearest f32 is zero: its size is at most half the smallest
    one, 2^-149. Infinities and NaN, which are read too, are not zero. *)
Definition reads_as_zero (l : chars) : bool :=
  let '(_, l) := without_sign l in
  let '(int, l) := span_digits l in
  let '(frac, l) := match l with c :: r => if decide (c = "."%char) then span_digits r else ([], l) | [] => ([], l) end in
  if decide (int ++ frac = []) then false
  else
    match digits_value 0 (int ++ frac), f32_exponent l with
    | Some m, Some e =>
        let e := e - len frac in
        bool_decide (m = 0) || bool_decide (e < 0 ∧ m * 2 ^ 150 ≤ 10 ^ (- e))
    | _, _ => false
    end.

(** One coding of Accept-Encoding. *)
Definition coding_takes_gzip (coding : chars) : bool :=
  match trim <$> split_on ";"%char coding with
  | name :: params =>
      nocase_eq (of_chars name) "gzip"
      && negb (existsb (fun p => match strip_prefix (to_chars "q=") p with Some q => reads_as_zero q | None => false end) params)
  | [] => false
  end.

Definition takes_gzip (accept_encoding : list string) : bool := existsb coding_takes_gzip (header_items accept_encoding).

(** [trim_start_matches("W/")]. *)
Definition strip_weak (l : chars) : chars := trim_start_matches (length l) (to_chars "W/") l.

Definition cache_headers : list (string * string) := [("cache-control", "no-cache"); ("vary", "Accept-Encoding")]%string.

Definition static_asset (m : Method) (path : string) (accept_encoding if_none_match : list string) : HttpResponse :=
  if decide (m ≠ GET ∧ m ≠ HEAD) then api_error_response (mkApiError METHOD_NOT_ALLOWED "method not allowed")
  else
    match list_find (fun a => a.1.1 = path) ASSETS with
    | None => text_response NOT_FOUND "not found"
    | Some (_, (path, content_type, file)) =>
        match packed path with
        | None => with_headers cache_headers (with_headers [("content-type"%string, content_type)] (bytes_response (web file)))
        | Some (gz, etag, gz_etag) =>
            let gzip_ := takes_gzip accept_encoding in
            let tag := if gzip_ then gz_etag else etag in
            let current := existsb (fun t => bool_decide (strip_weak (trim t) = to_chars tag)) (header_items if_none_match) in
            if current then
              with_headers cache_headers (with_headers [("etag"%string, tag)] (mkHttpResponse NOT_MODIFIED ∅ NoBody))
            else if gzip_ then
              with_headers cache_headers
                (with_headers [("content-type", content_type); ("content-encoding", "gzip"); ("etag", gz_etag)]%string (bytes_response gz))
            else
              with_headers cache_headers
                (with_headers [("content-type", content_type); ("etag", etag)]%string (bytes_response (web file)))
        end
    end.
End pages.

(** [my_notices]: what the scans decided for this user since [after]. *)
Definition my_notices (u : User) (after : Z) (notices : Notices) : list Notice * Z := notices_since (user_id u) after notices.

(** ** Checked values *)

Example fnv1a_empty : fnv1a [] = 0xcbf29ce484222325.
Proof. reflexivity. Qed.
Example fnv1a_a : fnv1a [x61] = 0xaf63dc4c8601ec8c.
Proof. reflexivity. Qed.
Example hex64_leading : of_chars (hex64 0x0f1e) = "0000000000000f1e"%string.
Proof. reflexivity. Qed.
Example gzip_refused : takes_gzip ["br, gzip;q=0"; "gzip; q=0.000"; "gzip;q=1e-46"; "x-gzip"]%string = false.
Proof. vm_compute. reflexivity. Qed.
Example gzip_taken : takes_gzip ["br;q=0, GZip ;q=0.5"]%string = true ∧ takes_gzip ["gzip;q=x"]%string = true ∧ takes_gzip ["gzip;q=1e-45"]%string = true.
Proof. vm_compute. done. Qed.

(** ** Tags *)

Lemma hex_digit_inj a b : 0 ≤ a < 16 → 0 ≤ b < 16 → hex_digit a = hex_digit b → a = b.
Proof.
  intros Ha Hb. unfold hex_digit. intros H%(f_equal N_of_ascii). revert H.
  rewrite !N_ascii_embedding by (case_decide; lia). repeat case_decide; lia.
Qed.

Lemma digits16_inj n a b :
  0 ≤ a < 16 ^ Z.of_nat n → 0 ≤ b < 16 ^ Z.of_nat n → (∀ i, 0 ≤ i < Z.of_nat n → a / 16 ^ i mod 16 = b / 16 ^ i mod 16) → a = b.
Proof.
  revert a b. induction n as [|n IH]; intros a b Ha Hb H; [simpl in *; lia|].
  rewrite Nat2Z.inj_succ, Z.pow_succ_r in Ha, Hb by lia.
  assert (a / 16 = b / 16) as Hq.
  { apply IH; [split; [apply Z.div_pos|apply Z.div_lt_upper_bound]; lia..|]. intros i Hi. rewrite !Z.div_div by lia.
    replace (16 * 16 ^ i) with (16 ^ (i + 1)) by (rewrite Z.pow_add_r by lia; lia). apply H. lia. }
  specialize (H 0 ltac:(lia)). rewrite !Z.div_1_r in H. rewrite (Z.div_mod a 16), (Z.div_mod b 16) by lia. lia.
Qed.

Lemma hex64_inj a b : 0 ≤ a < 2 ^ 64 → 0 ≤ b < 2 ^ 64 → hex64 a = hex64 b → a = b.
Proof.
  intros Ha Hb H. apply (digits16_inj 16); [exact Ha|exact Hb|]. intros i Hi.
  assert (i ∈ [15; 14; 13; 12; 11; 10; 9; 8; 7; 6; 5; 4; 3; 2; 1; 0]) as Hin by set_solver by lia.
  apply hex_digit_inj; [apply Z.mod_pos_bound; lia..|]. unfold hex64 in H. revert Hin H. generalize [15; 14; 13; 12; 11; 10; 9; 8; 7; 6; 5; 4; 3; 2; 1; 0].
  induction l as [|x l IH]; intros Hin; simpl; intros H; [by apply elem_of_nil in Hin|]. injection H as Hx H.
  apply elem_of_cons in Hin as [->|Hin]; [done|by apply IH].
Qed.

Lemma fnv1a_range b : 0 ≤ fnv1a b < 2 ^ 64.
Proof.
  unfold fnv1a. assert (∀ l h, 0 ≤ h < 2 ^ 64 → 0 ≤ foldl (fun h x => wrap 64 (Z.lxor h (u8 x) * 1099511628211)) h l < 2 ^ 64) as H.
  { induction l as [|x l IH]; intros h Hh; [done|]. apply IH. unfold wrap. apply Z.mod_pos_bound. lia. }
  apply H. lia.
Qed.

(** The characters of a tag, which neither a list of tags nor white space has. *)
Definition tag_char (c : ascii) : bool := bool_decide (c ≠ ","%char) && negb (is_space c) && bool_decide (32 ≤ N_of_ascii c ∧ N_of_ascii c < 127)%N.

Lemma hex_digit_tag n : 0 ≤ n < 16 → tag_char (hex_digit n) = true.
Proof.
  intros Hn. assert (n ∈ [0;1;2;3;4;5;6;7;8;9;10;11;12;13;14;15]) as H by set_solver by lia.
  repeat (apply elem_of_cons in H as [->|H]; [reflexivity|]). by apply elem_of_nil in H.
Qed.

Lemma tag_chars raw (gz : bool) : Forall (fun c => tag_char c = true) (to_chars (if gz then gzip_tag raw else plain_tag raw)).
Proof.
  assert (Forall (fun c => tag_char c = true) (hex64 (fnv1a raw))) as H.
  { unfold hex64. apply Forall_fmap, Forall_forall. intros i _. apply hex_digit_tag, Z.mod_pos_bound. lia. }
  destruct gz; unfold gzip_tag, plain_tag, quoted; rewrite to_of_chars; constructor; try done;
    rewrite ?Forall_app; split_and?; try done; repeat constructor.
Qed.

Lemma tag_inj raw raw' (gz gz' : bool) :
  (if gz then gzip_tag raw else plain_tag raw) = (if gz' then gzip_tag raw' else plain_tag raw') ↔ gz = gz' ∧ fnv1a raw = fnv1a raw'.
Proof.
  split; [|intros [-> H]; unfold gzip_tag, plain_tag; by rewrite H].
  intros H%(f_equal to_chars). unfold gzip_tag, plain_tag, quoted in H.
  assert (∀ z, length (hex64 z) = 16%nat) as Hlen by done.
  assert (gz = gz') as <-.
  { apply (f_equal length) in H. destruct gz, gz'; rewrite ?to_of_chars in H; simpl in H;
      rewrite ?length_app, ?Hlen in H; simpl in H; congruence. }
  split; [done|]. apply hex64_inj; [apply fnv1a_range..|].
  assert (∀ x y : chars, quote :: x ++ [quote] = quote :: y ++ [quote] → x = y) as Hq by (intros x y [= E]; by apply (inj (.++ [quote])) in E).
  destruct gz; rewrite !to_of_chars in H; apply Hq in H; [by apply (inj (.++ to_chars "-gz")) in H|done].
Qed.

(** Whether a browser's list names a tag. *)
Definition names_tag (tag : string) (if_none_match : list string) : bool :=
  existsb (fun t => bool_decide (strip_weak (trim t) = to_chars tag)) (header_items if_none_match).

Lemma names_own_tag tag raw (gz : bool) :
  names_tag tag [if gz then gzip_tag raw else plain_tag raw] = true ↔ tag = if gz then gzip_tag raw else plain_tag raw.
Proof.
  pose proof (tag_chars raw gz) as Ht. set (t := if gz then gzip_tag raw else plain_tag raw) in *.
  unfold names_tag, header_items. simpl.
  assert (header_text t = Some (to_chars t)) as ->.
  { unfold header_text. rewrite (proj2 (forallb_forall _ _)); [done|]. intros c Hc%list_elem_of_In.
    eapply Forall_forall in Ht; [|exact Hc]. apply andb_true_iff in Ht as [_ Ht%bool_decide_eq_true].
    apply bool_decide_eq_true. by left. }
  simpl. rewrite app_nil_r, split_on_none.
  - simpl. rewrite orb_false_r, bool_decide_eq_true, trim_id.
    + assert (strip_weak (to_chars t) = to_chars t) as ->.
      { subst t. destruct gz; unfold gzip_tag, plain_tag, quoted; rewrite to_of_chars; reflexivity. }
      split; [|by intros ->]. intros H. apply (f_equal of_chars) in H. by rewrite !of_to_chars in H.
    + eapply Forall_impl; [exact Ht|]. intros c [[_ Hc%negb_true_iff]%andb_true_iff _]%andb_true_iff. done.
  - intros Hc. eapply Forall_forall in Ht; [|exact Hc]. by vm_compute in Ht.
Qed.

(** ** Pages *)

Section facts.
Context (gzip gunzip : bytes → bytes).

(** Every page is packed, under the file it embeds. *)
Lemma packed_asset web path ct file :
  (path, ct, file) ∈ ASSETS → packed web gzip path = Some (gzip (web file), plain_tag (web file), gzip_tag (web file)).
Proof. unfold ASSETS. intros H. repeat (apply elem_of_cons in H as [[= -> -> ->]|H]; [reflexivity|]). by apply elem_of_nil in H. Qed.

Lemma find_asset path ct file :
  (path, ct, file) ∈ ASSETS → snd <$> list_find (fun a : string * string * string => a.1.1 = path) ASSETS = Some (path, ct, file).
Proof. unfold ASSETS. intros H. repeat (apply elem_of_cons in H as [[= -> -> ->]|H]; [reflexivity|]). by apply elem_of_nil in H. Qed.

(** What the browser has once it has decoded a body. *)
Definition received (r : HttpResponse) : option bytes :=
  match rs_body r with
  | Bytes b => Some (if decide (rs_headers r !! "content-encoding" = Some "gzip"%string) then gunzip b else b)
  | _ => None
  end.

Abbreviation tag_for web file acc := (if takes_gzip acc then gzip_tag (web file) else plain_tag (web file)).

Lemma static_asset_page web m path ct file acc inm :
  m = GET ∨ m = HEAD → (path, ct, file) ∈ ASSETS →
  static_asset web gzip m path acc inm =
    let tag := tag_for web file acc in
    with_headers cache_headers
      (if names_tag tag inm then with_headers [("etag"%string, tag)] (mkHttpResponse NOT_MODIFIED ∅ NoBody)
       else with_headers ([("content-type"%string, ct)] ++ (if takes_gzip acc then [("content-encoding", "gzip")]%string else []) ++
                          [("etag"%string, tag)])
              (bytes_response (if takes_gzip acc then gzip (web file) else web file))).
Proof.
  intros Hm Ha. unfold static_asset. rewrite decide_False by naive_solver.
  pose proof (find_asset path ct file Ha) as Hf. destruct (list_find _ ASSETS) as [[i x]|]; [|done]. injection Hf as ->.
  rewrite (packed_asset web path ct file Ha). unfold names_tag. simpl. by destruct (existsb _ _), (takes_gzip acc).
Qed.

Section lossless.
Hypothesis gunzip_gzip : ∀ b, gunzip (gzip b) = b.

(** A page is the file embedded. For every path of a page, whatever encodings the browser takes and
    whatever tags it names, the answer carries the tag of the encoding chosen and asks to be checked
    again; it is 304 with no body exactly when the browser named that tag, and otherwise 200 with the
    page's type and a body that decodes to exactly the file embedded. Any other path is not found, and
    any method but GET and HEAD refused. *)
Theorem page_is_the_file (web : string → bytes) (m : Method) (path : string) (acc inm : list string) :
  let r := static_asset web gzip m path acc inm in
  (m ≠ GET ∧ m ≠ HEAD → rs_status r = METHOD_NOT_ALLOWED) ∧
  (m = GET ∨ m = HEAD → (∀ ct file, (path, ct, file) ∉ ASSETS) → rs_status r = NOT_FOUND) ∧
  (∀ ct file, m = GET ∨ m = HEAD → (path, ct, file) ∈ ASSETS →
     let tag := tag_for web file acc in
     rs_headers r !! "etag" = Some tag ∧ rs_headers r !! "cache-control" = Some "no-cache"%string ∧
     if names_tag tag inm then rs_status r = NOT_MODIFIED ∧ rs_body r = NoBody
     else rs_status r = OK_STATUS ∧ rs_headers r !! "content-type" = Some ct ∧ received r = Some (web file)).
Proof.
  intros r. split_and!.
  - intros Hm. unfold r, static_asset. by rewrite decide_True.
  - intros Hm Hn. unfold r, static_asset. rewrite decide_False by naive_solver.
    destruct (list_find _ ASSETS) as [[i [[p ct] file]]|] eqn:Hf; [|done].
    apply list_find_Some in Hf as (Hi & Hp & _). simpl in Hp. subst p. destruct (Hn ct file). by eapply list_elem_of_lookup_2.
  - intros ct file Hm Ha. unfold r. rewrite (static_asset_page web m path ct file acc inm Hm Ha). simpl.
    destruct (names_tag _ inm), (takes_gzip acc); split_and!; try reflexivity; unfold received; simpl; by rewrite ?gunzip_gzip.
Qed.
End lossless.

(** A browser's copy across an upgrade. A browser that loaded a page from one build and asks another
    build for it again, naming the tag it was given, is told its copy is current exactly when both
    builds' files have the same hash and it takes the same encoding; so the same build never sends a
    page twice, and a changed file is sent unless the hashes collide. *)
Theorem upgrade_is_picked_up (web web' : string → bytes) (m : Method) (path ct file etag : string) (acc acc' inm : list string) :
  m = GET ∨ m = HEAD → (path, ct, file) ∈ ASSETS →
  rs_headers (static_asset web gzip m path acc inm) !! "etag" = Some etag →
  rs_status (static_asset web' gzip m path acc' [etag]) = NOT_MODIFIED ↔
  takes_gzip acc = takes_gzip acc' ∧ fnv1a (web file) = fnv1a (web' file).
Proof.
  intros Hm Ha He. rewrite (static_asset_page web m path ct file acc inm Hm Ha) in He.
  assert (etag = tag_for web file acc) as ->.
  { simpl in He. destruct (names_tag _ inm), (takes_gzip acc); simpl in He; by injection He. }
  rewrite (static_asset_page web' m path ct file acc' _ Hm Ha). simpl. rewrite <- (tag_inj (web file) (web' file)).
  destruct (names_tag _ _) eqn:Hn.
  - apply names_own_tag in Hn. by rewrite Hn.
  - split; [by destruct (takes_gzip acc')|]. intros H. exfalso. apply not_true_iff_false in Hn. by apply Hn, names_own_tag.
Qed.
End facts.

(** Every response is protected. Whatever a handler answers, errors and pages included, the response
    forbids framing, sniffing, referrers and foreign scripts; nothing is stored by caches unless the
    handler said how; an HTTPS listener asks for HTTPS from then on; and status, body and the
    handler's other headers are as they were. *)
Theorem every_response_is_protected (secure : bool) (r : HttpResponse) :
  let h := rs_headers (security_headers secure r) in
  h !! "x-frame-options" = Some "DENY"%string ∧ h !! "x-content-type-options" = Some "nosniff"%string ∧
  h !! "referrer-policy" = Some "no-referrer"%string ∧ h !! "content-security-policy" = Some CSP ∧
  h !! "cache-control" = Some (default "no-store"%string (rs_headers r !! "cache-control")) ∧
  (secure = true → h !! "strict-transport-security" = Some HSTS) ∧
  rs_status (security_headers secure r) = rs_status r ∧ rs_body (security_headers secure r) = rs_body r ∧
  (∀ k, k ∉ ["x-frame-options"; "x-content-type-options"; "referrer-policy"; "content-security-policy"; "cache-control";
            "strict-transport-security"]%string → h !! k = rs_headers r !! k).
Proof.
  unfold security_headers. simpl.
  assert (∀ (m : gmap string string), (if secure then <["strict-transport-security" := HSTS]> m else m) !! "cache-control" = m !! "cache-control") as Hc.
  { intros m. destruct secure; [by rewrite lookup_insert_ne|done]. }
  do 4 rewrite lookup_insert_ne by done. rewrite Hc. destruct (rs_headers r !! "cache-control") as [c|] eqn:E; split_and!; try done.
  all: try (intros ->); try (intros k Hk).
  all: repeat first [rewrite lookup_insert_eq; reflexivity | rewrite lookup_insert_ne by (first [done|set_solver])].
  all: try (rewrite Hc; done). all: destruct secure; [|done]; rewrite ?lookup_insert_ne by set_solver; done.
Qed.
