(* ===== verification/ExportRequest.v ===== *)
(** * An export, as one request (src/src/admin.rs)

    The export handler from the passphrase to the download: the task that runs on when its request goes
    away, the archive that carries its freeze with it, and the response. Between the parts that hold
    the gate ([Export]) other requests run; what they did is an argument. *)

From S2P Require Import Prelude Tables Text Utf8 Store Auth Live Settings Vault Directory App Web Instant ServerList Admin AdminFacts Migrate MigrateFacts WebFacts Export Pages.
Local Open Scope Z_scope.

(** What happened around an export: what other requests did before it got the gate, while it was
    packed, before it was recorded, before it was handed over and before a freeze was lifted; whether
    the requester was gone when it got the gate, when it was recorded, and before the archive was
    handed over; the times; the error of copying the database; random bytes. *)
Record ExportRun := mkExportRun {
  xr_before_gate : App → App;
  xr_packing : App → App;
  xr_before_record : App → App;
  xr_before_hand_over : App → App;
  xr_before_undo : App → App;
  xr_gone_at_gate : bool;
  xr_gone_at_record : bool;
  xr_gone_at_end : bool;
  xr_now_gate : Z;
  xr_now_package : Z;
  xr_now_record : Z;
  xr_copy : option MigrateError;
  xr_salt : option bytes;
  xr_nonce : option bytes;
}.

Section request.
Context {U : Unicode} {C : Crypto} {K : KeyProtector} {L : MigrateLib} (cfg : Cfg) (host_name : string).

(** The generation of the freeze an export set: what [FreezeUndo] carries. *)
Definition undo_of (s : Snapshot) : option Z := if sn_froze s then Some (sn_generation s) else None.

(** [Drop for FreezeUndo]: a part that fails with the archive in hand drops it, and the task spawned
    then lifts the freeze. *)
Definition undoing {A} (undo : option Z) (before : App → App) (m : W A) : W A := fun a =>
  match m a with
  | (Ok x, a) => (Ok x, a)
  | (Err e, a) => (Err e, match undo with Some g => snd (unfreeze_if_current g (before a)) | None => a end)
  end.

(** [export_task] from the snapshot on, and [hand_over]. A requester that is gone drops the archive. *)
Definition export_packed (passphrase : string) (freeze : bool) (s : Snapshot) (w : ExportRun) : W Export :=
  _ ← modify (xr_packing w);
  e ← in_migrate (package host_name passphrase (sn_db s) (sn_counts s) (xr_now_package w) (xr_salt w) (xr_nonce w));
  _ ← modify (xr_before_record w);
  _ ← export_record s (file_name e) freeze (xr_gone_at_record w) (xr_now_record w);
  _ ← modify (xr_before_hand_over w);
  if xr_gone_at_end w then throw (mkApiError REQUEST_TIMEOUT "the request took too long")
  else
    _ ← hand_over (undo_of s);
    mret e.

(** [export_supervised] and [hand_over]. *)
Definition export_request (token : bytes) (passphrase : string) (freeze : bool) (w : ExportRun) : W Export :=
  _ ← export_check passphrase;
  _ ← modify (xr_before_gate w);
  s ← export_snapshot cfg token passphrase freeze (xr_gone_at_gate w) (xr_now_gate w) (xr_copy w);
  undoing (undo_of s) (xr_before_undo w) (export_packed passphrase freeze s w).

(** [export]: the download. *)
Definition export_handler (token : bytes) (passphrase : string) (freeze : bool) (w : ExportRun) : W HttpResponse :=
  e ← export_request token passphrase freeze w;
  mret (with_headers [("content-type"%string, "application/zip"%string);
                      ("content-disposition"%string, "attachment; filename=" +:+ of_chars [quote] +:+ file_name e +:+ of_chars [quote])]
          (bytes_response (export_bytes e))).

(** ** What the administrator downloads *)

Lemma export_packed_ok pass freeze s w a e a' :
  export_packed pass freeze s w a = (Ok e, a') →
  package host_name pass (sn_db s) (sn_counts s) (xr_now_package w) (xr_salt w) (xr_nonce w) = Ok e ∧
  xr_gone_at_record w = false ∧ xr_gone_at_end w = false.
Proof.
  unfold export_packed. intros H. apply bind_ok_inv in H as ([] & a1 & _ & H).
  apply bind_ok_inv in H as (e' & a2 & Hp & H). unfold in_migrate, lift in Hp.
  destruct (package _ _ _ _ _ _ _) as [e''|]; [|done]. injection Hp as -> <-.
  apply bind_ok_inv in H as ([] & a3 & _ & H). apply bind_ok_inv in H as ([] & a4 & Hr & H).
  apply bind_ok_inv in H as ([] & a5 & _ & H). destruct (xr_gone_at_end w); [done|].
  apply bind_ok_inv in H as ([] & a6 & _ & [= -> <-]). split; [done|]. split; [|done].
  unfold export_record in Hr. apply bind_ok_inv in Hr as ([] & ? & Hs & _). by destruct (xr_gone_at_record w).
Qed.

(** What the gate saw of an export: the proxy as the snapshot left it. *)
Definition snapshot_state (token : bytes) (pass : string) (freeze : bool) (w : ExportRun) (a : App) : result ApiError Snapshot * App :=
  export_snapshot cfg token pass freeze (xr_gone_at_gate w) (xr_now_gate w) (xr_copy w) (xr_before_gate w a).

Lemma export_check_state pass a r a' : export_check pass a = (r, a') → a' = a.
Proof.
  unfold export_check. rewrite bind_gets. unfold in_migrate, lift, mbind, M_bind, mret, M_ret.
  destruct (in_vault _); by intros [= _ <-].
Qed.

Lemma thawed g a : generation (snd (unfreeze_if_current g a)) = g → frozen (store_ (snd (unfreeze_if_current g a))) = false.
Proof.
  unfold unfreeze_if_current. rewrite bind_gets. case_decide as Hg; [|done]. intros _. rewrite frozen_lookup. simpl.
  apply bool_decide_eq_false. by rewrite lookup_delete_ne, lookup_delete_eq.
Qed.

Lemma export_request_err token pass freeze w a e a' s a1 :
  export_check pass a = (Ok (), a) → snapshot_state token pass freeze w a = (Ok s, a1) → sn_froze s = true →
  export_request token pass freeze w a = (Err e, a') → generation a' = sn_generation s → frozen (store_ a') = false.
Proof.
  intros Hc Hs Hf H. unfold snapshot_state in Hs. unfold export_request in H. rewrite (bind_ok _ _ _ _ _ Hc) in H. erewrite (bind_ok (modify _)) in H by done.
  rewrite (bind_ok _ _ _ _ _ Hs) in H. unfold undoing, undo_of in H. rewrite Hf in H.
  destruct (export_packed pass freeze s w a1) as [[]]; [done|]. injection H as <- <-. apply thawed.
Qed.

(** The download is the database as the gate saw it. When an export is answered, its requester was an
    administrator with a live sign-in at the moment the gate was held, was still waiting when it was
    recorded and handed over, and the file downloaded reads as an archive whose contents, opened with
    the passphrase, are the database at that moment; if a freeze was asked for, the proxy was frozen
    then, so nothing acknowledged later is missing. An export that fails, or whose requester leaves,
    at whatever point after it froze the proxy, leaves it thawed, unless an import replaced the
    database. *)
Theorem download_is_the_database (token : bytes) (pass : string) (freeze : bool) (w : ExportRun) (a : App)
    (r : result ApiError HttpResponse) (a' : App) :
  export_handler token pass freeze w a = (r, a') →
  match r with
  | Ok res => ∃ s a1 b e, snapshot_state token pass freeze w a = (Ok s, a1) ∧ rs_body res = Bytes b ∧ rs_status res = OK_STATUS ∧
      (∃ u, revalidate_admin cfg token (xr_now_gate w) (xr_before_gate w a) = (Ok u, xr_before_gate w a)) ∧
      (freeze = true → frozen (store_ a1) = true) ∧
      package host_name pass (db_file (store_ a1)) (sn_counts s) (xr_now_package w) (xr_salt w) (xr_nonce w) = Ok e ∧ b = export_bytes e ∧
      (manifest_fits (manifest e) → ∃ blob file, read_zip b = Ok (manifest e, blob) ∧
         decrypt_with_passphrase pass AAD_EXPORT blob = Ok file ∧ open_file file = Ok (store_ a1))
  | Err _ => ∀ s a1, export_check pass a = (Ok (), a) → snapshot_state token pass freeze w a = (Ok s, a1) → sn_froze s = true →
      generation a' = sn_generation s → frozen (store_ a') = false
  end.
Proof.
  unfold export_handler, snapshot_state. intros H. destruct r as [res|err].
  - apply bind_ok_inv in H as (e & a2 & H & [= <- <-]). unfold export_request in H.
    apply bind_ok_inv in H as ([] & a3 & ->%export_check_state & H). apply bind_ok_inv in H as ([] & a4 & [= <-] & H).
    apply bind_ok_inv in H as (s & a1 & Hs & H). unfold undoing in H.
    destruct (export_packed pass freeze s w a1) as [[e'|] a6] eqn:Hp; [|done]. injection H as -> _.
    apply export_packed_ok in Hp as (Hp & _ & _). pose proof Hs as (_ & Hd & Hf & _)%export_snapshot_run.
    exists s, a1, (export_bytes e), e. rewrite Hd in Hp. split_and!; try done.
    + unfold export_snapshot in Hs. apply bind_ok_inv in Hs as ([] & ? & Hw & Hs). destruct (xr_gone_at_gate w); [done|].
      injection Hw as <-. apply bind_ok_inv in Hs as (u & ? & Hr & _). exists u.
      destruct (revalidate_run cfg token (xr_now_gate w) (xr_before_gate w a)) as [? Hx]. congruence.
    + intros Hm. destruct (read_package _ _ _ _ _ _ _ _ Hp Hm) as (blob & Hz & Hdec & _).
      exists blob, (db_file (store_ a1)). split_and!; [done..|apply open_db_file].
  - intros s a1 Hc Hs Hfr Hg. destruct (export_request token pass freeze w a) as [[e|e] a2] eqn:Hreq.
    + by rewrite (bind_ok _ _ _ _ _ Hreq) in H.
    + rewrite (bind_err _ _ _ _ _ Hreq) in H. injection H as -> ->. by eapply export_request_err.
Qed.
End request.
