(* ===== verification/Routes.v ===== *)
(** * The routing table, and who may change what (src/src/web.rs, src/src/admin.rs)

    Which handler answers which method and path. A route's pattern is matched as axum matches it: piece
    by piece between slashes, a name in braces standing for any one piece that is not empty. Then every
    request of an administrator that changes anything, from the router's guards through the extractor to
    the end of its handler: what it takes for it to do anything at all. *)

From S2P Require Import Prelude Tables Text Utf8 Store StoreInv StoreFacts Policy Auth Live Settings Vault VaultFacts Directory DirectoryFacts App AppFacts Web WebFacts WebServers Instant ServerList ServerListFacts Admin AdminFacts Migrate MigrateFacts Export MigrateSample Pages ExportRequest.
Local Open Scope Z_scope.

Inductive Handler :=
  | HLogin | HMethods | HSsoStart | HAcs | HMetadata | HLogout | HMe | HMyServers | HMyNotices | HConnect
  | HSaveCredential | HForgetCredential | HWsUpgrade
  | HUsers | HAddUser | HUpdateUser | HRemoveUser | HUserServers | HSetUserServers | HCopyFrom | HClearSid
  | HServers | HAddServer | HImportServers | HUpdateServer | HRemoveServer
  | HGroups | HAddGroup | HOrderGroups | HRenameGroup | HRemoveGroup | HAudit
  | HMigrationStatus | HSetRecovery | HUnlock | HReset | HExport | HUnfreeze | HUploadImport | HConfirmImport | HCancelImport
  | HGetSettings | HPutSettings | HSetDirectoryPassword.

#[export] Instance Handler_eq : EqDecision Handler.
Proof. solve_decision. Defined.

Definition PATCH : Method := OtherMethod "PATCH".

(** [admin::router]. *)
Definition admin_router : list (string * list (Method * Handler)) :=
  [("/users", [(GET, HUsers); (POST, HAddUser)]);
   ("/users/{id}", [(PATCH, HUpdateUser); (DELETE, HRemoveUser)]);
   ("/users/{id}/servers", [(GET, HUserServers); (PUT, HSetUserServers)]);
   ("/users/{id}/copy-from/{from}", [(POST, HCopyFrom)]);
   ("/users/{id}/clear-sid", [(POST, HClearSid)]);
   ("/servers", [(GET, HServers); (POST, HAddServer)]);
   ("/servers/import", [(POST, HImportServers)]);
   ("/servers/{id}", [(PATCH, HUpdateServer); (DELETE, HRemoveServer)]);
   ("/groups", [(GET, HGroups); (POST, HAddGroup)]);
   ("/groups/order", [(POST, HOrderGroups)]);
   ("/groups/{id}", [(PATCH, HRenameGroup); (DELETE, HRemoveGroup)]);
   ("/audit", [(GET, HAudit)]);
   ("/migration", [(GET, HMigrationStatus)]);
   ("/migration/recovery", [(POST, HSetRecovery)]);
   ("/migration/unlock", [(POST, HUnlock)]);
   ("/migration/reset", [(POST, HReset)]);
   ("/migration/export", [(POST, HExport)]);
   ("/migration/unfreeze", [(POST, HUnfreeze)]);
   ("/migration/import", [(POST, HUploadImport)]);
   ("/migration/import/{upload}", [(POST, HConfirmImport); (DELETE, HCancelImport)]);
   ("/settings", [(GET, HGetSettings); (PUT, HPutSettings)]);
   ("/settings/directory-password", [(POST, HSetDirectoryPassword)])]%string.

(** [web::router]. *)
Definition router : list (string * list (Method * Handler)) :=
  [("/api/login", [(POST, HLogin)]);
   ("/api/sign-in-methods", [(GET, HMethods)]);
   ("/api/saml/start", [(GET, HSsoStart)]);
   (SSO_POST, [(POST, HAcs)]);
   ("/api/saml/metadata", [(GET, HMetadata)]);
   ("/api/logout", [(POST, HLogout)]);
   ("/api/me", [(GET, HMe)]);
   ("/api/me/servers", [(GET, HMyServers)]);
   ("/api/me/notices", [(GET, HMyNotices)]);
   ("/api/connect", [(POST, HConnect)]);
   ("/api/credentials/{server}", [(PUT, HSaveCredential); (DELETE, HForgetCredential)]);
   ("/ws", [(GET, HWsUpgrade)])]%string
  ++ ((fun r => (("/api/admin" +:+ r.1)%string, r.2)) <$> admin_router).

(** ** Matching *)

Inductive Piece := Exactly (s : chars) | AnyPiece.

Definition piece_of (s : chars) : Piece :=
  match s with c :: _ => if decide (c = "{"%char) then AnyPiece else Exactly s | [] => Exactly s end.

Definition pieces_of (route : string) : list Piece := piece_of <$> split_on "/"%char (to_chars route).

Definition piece_fits (p : Piece) (s : chars) : bool :=
  match p with Exactly t => bool_decide (s = t) | AnyPiece => bool_decide (s ≠ []) end.

Fixpoint pieces_fit (ps : list Piece) (ss : list chars) : bool :=
  match ps, ss with
  | [], [] => true
  | p :: ps, s :: ss => piece_fits p s && pieces_fit ps ss
  | _, _ => false
  end.

Definition route_fits (route path : string) : bool := pieces_fit (pieces_of route) (split_on "/"%char (to_chars path)).

(** A handler that may answer a request. *)
Definition answers (h : Handler) (m : Method) (path : string) : Prop :=
  ∃ route handlers, (route, handlers) ∈ router ∧ route_fits route path = true ∧ (m, h) ∈ handlers.

(** ** The paths a route answers *)

(** A text is written piece by piece. *)
Fixpoint written (ps : list Piece) (args : list chars) : list chars :=
  match ps with
  | [] => []
  | Exactly t :: ps => t :: written ps args
  | AnyPiece :: ps => match args with a :: args => a :: written ps args | [] => [] end
  end.

Fixpoint params (ps : list Piece) : nat :=
  match ps with [] => 0 | AnyPiece :: ps => S (params ps) | Exactly _ :: ps => params ps end.

Lemma fits_written ps ss :
  pieces_fit ps ss = true → ∃ args, ss = written ps args ∧ length args = params ps ∧ Forall (fun a => a ≠ []) args.
Proof.
  revert ss. induction ps as [|p ps IH]; intros [|s ss] H; try done; [by exists []|].
  simpl in H. apply andb_true_iff in H as [Hp (args & -> & Hl & Ha)%IH]. destruct p; simpl in Hp; apply bool_decide_eq_true in Hp.
  - exists args. by subst.
  - exists (s :: args). split_and!; [done| |by constructor]. simpl. by rewrite Hl.
Qed.

Lemma route_path route path :
  route_fits route path = true →
  ∃ args, path = of_chars (join ["/"%char] (written (pieces_of route) args)) ∧ length args = params (pieces_of route) ∧
    Forall (fun a => a ≠ []) args.
Proof.
  intros (args & Hs & Hl & Ha)%fits_written. exists args. split_and!; [|done..].
  apply to_chars_inj. by rewrite to_of_chars, <- Hs, split_on_join.
Qed.

(** The handlers of an administrator's changes, and those of them that change rows a page names under the
    request's own hold. *)
Definition CHANGES : list Handler :=
  [HAddUser; HUpdateUser; HRemoveUser; HSetUserServers; HCopyFrom; HClearSid; HAddServer; HImportServers; HUpdateServer;
   HRemoveServer; HAddGroup; HOrderGroups; HRenameGroup; HRemoveGroup; HSetRecovery; HUnlock; HReset; HExport; HUnfreeze;
   HUploadImport; HConfirmImport; HCancelImport; HPutSettings; HSetDirectoryPassword].

Definition ROW_CHANGES : list Handler :=
  [HUpdateUser; HRemoveUser; HSetUserServers; HCopyFrom; HClearSid; HAddServer; HImportServers; HUpdateServer; HRemoveServer;
   HAddGroup; HOrderGroups; HRenameGroup; HRemoveGroup; HPutSettings].

(** What the guards make of a path a route answers. *)
Definition guarded_as (m : Method) (h : Handler) (path : string) : Prop :=
  (bool_decide (h ∈ CHANGES) = true → safe_method m = false ∧ bool_decide (path = SSO_POST) = false) ∧
  (bool_decide (h ∈ ROW_CHANGES) = true → route_in SELF_GATED_ROUTES m path = false ∧ needs_instance m path = true).

Lemma all_routes_guarded :
  Forall (fun r => ∀ args, length args = params (pieces_of r.1) →
    Forall (fun mh => guarded_as mh.1 mh.2 (of_chars (join ["/"%char] (written (pieces_of r.1) args)))) r.2) router.
Proof.
  unfold router, admin_router. cbn [fmap list_fmap app fst snd].
  repeat (apply Forall_cons; split; [intros args Hl|]); [..|by apply Forall_nil].
  all: vm_compute in Hl; destruct args as [|a [|b [|]]]; try discriminate Hl; clear Hl.
  all: repeat (apply Forall_cons; split; [unfold guarded_as; cbn [fst snd]|]); try (by apply Forall_nil).
  all: split; first [discriminate|intros _; split; reflexivity].
Qed.

Lemma answers_guarded m h path : answers h m path → guarded_as m h path.
Proof.
  intros (route & handlers & Hin & (args & -> & Hl & _)%route_path & Hm).
  eapply Forall_forall in Hin; [|exact all_routes_guarded]. by eapply (Forall_forall _ handlers) in Hm; [|by apply Hin].
Qed.

(** ** An administrator's changes *)

(** A request, with what happened around it: the ones that act under the gate from beginning to end; the
    two that leave it to ask the directory; and those that take it themselves, once others had it. *)
Inductive admin_op :=
  | OHeld (c : admin_call)
  | OAway (w : Away) (c : away_call)
  | OExport (passphrase : string) (freeze : bool) (w : ExportRun)
  | OUpload (before : App → App) (b : bytes) (now at_ : Z) (random : bytes)
  | OConfirm (before : App → App) (upload passphrase : string) (confirm_host : option string) (gone : bool) (now at_ : Z) (w : ApplyRun)
  | OCancel (upload : string) (now : Z).

Definition handler_of (o : admin_op) : Handler :=
  match o with
  | OHeld c =>
      match c with
      | AUpdateUser _ _ => HUpdateUser | ARemoveUser _ => HRemoveUser | ASetUserServers _ _ => HSetUserServers
      | ACopyFrom _ _ => HCopyFrom | AClearSid _ => HClearSid | APutSettings _ => HPutSettings
      | AAddServer _ _ => HAddServer | AUpdateServer _ _ => HUpdateServer | ARemoveServer _ => HRemoveServer
      | AImportServers _ _ => HImportServers | AAddGroup _ => HAddGroup | ARenameGroup _ _ => HRenameGroup
      | AOrderGroups _ => HOrderGroups | ARemoveGroup _ => HRemoveGroup | ASetRecovery _ _ _ _ => HSetRecovery
      | AReset _ _ _ => HReset | AUnlock _ _ => HUnlock | AUnfreeze => HUnfreeze
      end
  | OAway _ (AAddUser _ _) => HAddUser
  | OAway _ (ASetDirectoryPassword _ _) => HSetDirectoryPassword
  | OExport _ _ _ => HExport
  | OUpload _ _ _ _ _ => HUploadImport
  | OConfirm _ _ _ _ _ _ _ _ => HConfirmImport
  | OCancel _ _ => HCancelImport
  end.

Section requests.
Context {U : Unicode} {C : Crypto} {K : KeyProtector} {L : MigrateLib} (sha256 : bytes → bytes) (debug : string → string)
  (to_vec : Settings → bytes) (cfg : Cfg) (host_name : string).
Abbreviation administrator := (AdminFacts.administrator cfg).

Definition run_op (uh : User * bytes) (now : Z) (o : admin_op) : M (App * Files) ApiError unit :=
  match o with
  | OHeld c => on_files (admin_exec debug to_vec host_name uh.1 now c)
  | OAway w c => on_files (away_exec cfg uh.2 w c)
  | OExport passphrase freeze w => on_files (done_ (export_handler cfg host_name uh.2 passphrase freeze w))
  | OUpload before b t at_ random => on_files (_ ← modify before; done_ (upload_import cfg uh.2 b t at_ random))
  | OConfirm before upload passphrase confirm_host gone t at_ w =>
      _ ← on_files (modify before);
      _ ← import_exclusive cfg host_name uh.2 upload passphrase confirm_host gone t at_ w;
      mret ()
  | OCancel upload t => on_files (cancel_import cfg uh.2 upload t)
  end.

(** A request from the router in: the guards, the extractor, the handler. *)
Definition admin_route (req : Request) (cookies : list string) (now : Z) (o : admin_op) : M (App * Files) ApiError unit :=
  _ ← on_files (guarded req (mret ()));
  uh ← on_files (admin_user sha256 cfg cookies now);
  run_op uh now o.

(** Where a request's caller is checked for the last time before it acts: the moment, and the proxy then. *)
Definition checked_at (o : admin_op) (now : Z) (a : App) (t : Z) (b : App) : Prop :=
  match o with
  | OHeld _ => t = now ∧ b = a
  | OAway w _ => t = aw_now w ∧ ∃ p, b = aw_others w (with_preferred p a)
  | OExport _ _ w => t = xr_now_gate w ∧ b = xr_before_gate w a
  | OUpload before _ t' _ _ | OConfirm before _ _ _ _ t' _ _ => t = t' ∧ b = before a
  | OCancel _ t' => t = t' ∧ b = a
  end.

(** What other requests did while this one waited or was away, and nothing of its own but which domain
    controller answered. *)
Definition by_others (o : admin_op) (a a' : App) : Prop :=
  a' = a ∨
  match o with
  | OHeld _ | OCancel _ _ => False
  | OAway w _ => ∃ p, a' = with_preferred p a ∨ a' = aw_others w (with_preferred p a)
  | OExport _ _ w => a' = xr_before_gate w a
  | OUpload before _ _ _ _ | OConfirm before _ _ _ _ _ _ _ => a' = before a
  end.

(** The guards look, and change nothing. *)
Lemma guarded_run req a :
  (∃ e, guarded req (mret () : W unit) a = (Err e, a)) ∨
  guarded req (mret () : W unit) a = (Ok (), a) ∧
  (safe_method (r_method req) = false → bool_decide (r_path req = SSO_POST) = false → same_origin (r_host req) (r_origin req) = true) ∧
  (route_in SELF_GATED_ROUTES (r_method req) (r_path req) = false → needs_instance (r_method req) (r_path req) = true →
     r_instance req = Some (instance (store_ a))).
Proof.
  unfold guarded, origin_guard, gate_requests. destruct (_ || _ || _) eqn:Ho; [|left; by eexists].
  destruct (route_in _ _ _) eqn:Hr; [right; split_and!; try done; intros Hs Hp; by rewrite Hs, Hp, andb_false_r in Ho|].
  destruct (r_body_fits req); [|left; by eexists]. cbn [negb].
  destruct (needs_instance _ _) eqn:Hn; [|right; split_and!; try done; intros Hs Hp; by rewrite Hs, Hp, andb_false_r in Ho].
  rewrite bind_gets.
  destruct (decide (instance (store_ a) = ""%string ∨ r_instance req ≠ Some (instance (store_ a)))) as [Hd|Hd]; [left; by eexists|].
  right. split_and!; [done| |].
  - intros Hs Hp. by rewrite Hs, Hp, andb_false_r in Ho.
  - intros _ _. destruct (decide (r_instance req = Some (instance (store_ a)))); [done|]. by destruct Hd; right.
Qed.

(** What becomes of a request that checks its caller again once it has the gate. *)
Lemma rechecked {A} h now a (f : User → W A) r a' :
  (revalidate_admin cfg h now ≫= f) a = (r, a') →
  ((∃ e, r = Err e) ∧ a' = a) ∨ ∃ u, administrator (store_ a) h now u.
Proof.
  destruct (revalidate_admin_run cfg h now a) as [[e He]|(u & Hu & Hadm)]; [|by eauto].
  rewrite (bind_err _ _ _ _ _ He). intros [= <- <-]. left. eauto.
Qed.

Lemma done_err {A} (m : W A) a e a' : done_ m a = (Err e, a') ↔ m a = (Err e, a').
Proof. unfold done_, mbind, M_bind. destruct (m a) as [[]]; naive_solver. Qed.

Lemma export_rechecked token pass freeze w a r a' :
  done_ (export_handler cfg host_name token pass freeze w) a = (r, a') →
  ((∃ e, r = Err e) ∧ (a' = a ∨ a' = xr_before_gate w a)) ∨ ∃ u, administrator (store_ (xr_before_gate w a)) token (xr_now_gate w) u.
Proof.
  intros E. unfold done_, export_handler, export_request in E.
  destruct (export_check pass a) as [[[]|e] a1] eqn:Hc; apply export_check_state in Hc as Ha; subst a1.
  2: { erewrite bind_err in E by (erewrite bind_err; [done|]; by erewrite bind_err). injection E as <- <-. left. eauto. }
  destruct (export_snapshot cfg token pass freeze (xr_gone_at_gate w) (xr_now_gate w) (xr_copy w) (xr_before_gate w a)) as [x a1] eqn:Hs.
  unfold export_snapshot in Hs. destruct (xr_gone_at_gate w) eqn:Hgone.
  { injection Hs as <- <-. erewrite bind_err in E.
    2: { erewrite bind_err; [done|]. erewrite bind_ok by exact Hc. erewrite bind_ok by done. by erewrite bind_err. }
    injection E as <- <-. left. eauto. }
  erewrite bind_ok in Hs by done. apply rechecked in Hs as Hs'. destruct Hs' as [[[e ->] ->]|Hu]; [|by right].
  assert (export_snapshot cfg token pass freeze false (xr_now_gate w) (xr_copy w) (xr_before_gate w a) = (Err e, xr_before_gate w a)) as He.
  { unfold export_snapshot. erewrite bind_ok by done. exact Hs. }
  rewrite ?Hgone in E. erewrite bind_err in E.
  2: { erewrite bind_err; [done|]. erewrite bind_ok by exact Hc. erewrite bind_ok by done. by erewrite bind_err by exact He. }
  injection E as <- <-. left. eauto.
Qed.

Lemma on_files_inv {A} (m : W A) a files r a' files' : on_files m (a, files) = (r, (a', files')) → m a = (r, a') ∧ files' = files.
Proof. unfold on_files. cbn [fst snd]. destruct (m a). naive_solver. Qed.

Lemma import_rechecked h upload pass host gone t at_ w a files r a' files' :
  import_exclusive cfg host_name h upload pass host gone t at_ w (a, files) = (r, (a', files')) →
  ((∃ e, r = Err e) ∧ a' = a ∧ files' = files) ∨ ∃ u, administrator (store_ a) h t u.
Proof.
  unfold import_exclusive. destruct gone; [intros [= <- <- <-]; left; eauto|]. erewrite bind_ok by done.
  destruct (revalidate_admin_run cfg h t a) as [[e He]|(u & Hu & Hadm)]; [|by eauto].
  erewrite bind_err; [|unfold on_files; cbn [fst snd]; by rewrite He]. intros [= <- <- <-]. left. eauto.
Qed.

(** A handler acts only where its caller was found to be an administrator. *)
Lemma run_op_checks u h now o a files r a' files' :
  administrator (store_ a) h now u → run_op (u, h) now o (a, files) = (r, (a', files')) →
  ((∃ e, r = Err e) ∧ by_others o a a' ∧ files' = files) ∨ ∃ t b u', checked_at o now a t b ∧ administrator (store_ b) h t u'.
Proof.
  intros Hu E. destruct o as [c|w c|pass freeze w|before b t at_ random|before upload pass host gone t at_ w|upload t]; cbn [run_op fst snd] in E.
  - right. by exists now, a, u.
  - apply on_files_inv in E as [E ->]. apply away_exec_outcome in E. destruct E as [e|e p u1|e p u1|p u1 u2 r a'].
    1-3: left; split_and!; [by eauto| |done]; unfold by_others; eauto 10.
    right. eexists _, _, u2. split; [split; [done|by eexists]|done].
  - apply on_files_inv in E as [E ->]. apply export_rechecked in E as [(He & Ho)|[u' Hu']].
    + left. split_and!; [done|by destruct Ho; [left|right]|done].
    + right. by exists (xr_now_gate w), (xr_before_gate w a), u'.
  - apply on_files_inv in E as [E ->]. erewrite bind_ok in E by done.
    destruct (upload_import cfg h b t at_ random (before a)) as [x b'] eqn:Eu. apply rechecked in Eu as Ec.
    destruct Ec as [[[e ->] ->]|[u' Hu']]; [left|right; by exists t, (before a), u'].
    apply done_err in Eu. rewrite Eu in E. injection E as <- <-. split_and!; [by eauto|by right|done].
  - erewrite bind_ok in E by done. unfold mbind, M_bind in E.
    destruct (import_exclusive _ _ _ _ _ _ _ _ _ _ _) as [x [b' fb]] eqn:Ei. apply import_rechecked in Ei.
    destruct Ei as [([e ->] & -> & ->)|[u' Hu']]; [left|right; by exists t, (before a), u'].
    injection E as <- <- <-. split_and!; [by eauto|by right|done].
  - apply on_files_inv in E as [E ->]. apply rechecked in E as [[He ->]|[u' Hu']]; [left|right; by exists t, a, u'].
    split_and!; [done|by left|done].
Qed.

Lemma op_changes o : bool_decide (handler_of o ∈ CHANGES) = true.
Proof. destruct o as [[]|? []|?|?|?|?]; reflexivity. Qed.

(** C19. Only an administrator changes anything here. Take any request that a route of an administrator's
    changes answers (users, assignments, servers, groups, settings, the credential store, the
    directory's password, exports and imports), at whatever path that route has. Either it is refused,
    and nothing happened meanwhile but what other requests did, or: it came from this site; it named a
    session that had not expired, of a user who was an administrator in the database or in the
    configuration, both when it arrived and, for the requests that wait for the gate or leave it, again
    in the database they then acted on; and, where it changes rows under the request's own hold of the
    gate, it was sent by a page loaded from the database in place. The credential store's and the
    migration's requests are not asked for that, nor are the two that ask the directory. *)
Theorem only_administrators_change (req : Request) (cookies : list string) (now : Z) (o : admin_op) (a : App) (files : Files)
    (r : result ApiError unit) (a' : App) (files' : Files) :
  answers (handler_of o) (r_method req) (r_path req) →
  admin_route req cookies now o (a, files) = (r, (a', files')) →
  ((∃ e, r = Err e) ∧ by_others o a a' ∧ files' = files) ∨
  same_origin (r_host req) (r_origin req) = true ∧
  (∃ token u t b u', find_map (fun h => cookie_value h COOKIE) cookies = Some token ∧
     administrator (store_ a) (token_hash sha256 token) now u ∧
     checked_at o now a t b ∧ administrator (store_ b) (token_hash sha256 token) t u') ∧
  (handler_of o ∈ ROW_CHANGES → r_instance req = Some (instance (store_ a))).
Proof.
  intros [H1 H2]%answers_guarded E. destruct (H1 (op_changes o)) as [Hs Hp]. unfold admin_route in E.
  assert (∀ e, (Err e : result ApiError unit, (a, files)) = (r, (a', files')) →
    (∃ e, r = Err e) ∧ by_others o a a' ∧ files' = files) as Hrefused.
  { intros e [= <- <- <-]. split_and!; [by eauto|by left|done]. }
  destruct (guarded_run req a) as [[e He]|(Hg & Ho & Hi)].
  { left. eapply Hrefused. rewrite <-E. symmetry. apply bind_err. unfold on_files. cbn [fst snd]. by rewrite He. }
  erewrite bind_ok in E by (unfold on_files; cbn [fst snd]; by rewrite Hg).
  destruct (admin_user_run sha256 cfg cookies now a) as [[e He]|(token & u & Ht & Hu & Hadm)].
  { left. eapply Hrefused. rewrite <-E. symmetry. apply bind_err. unfold on_files. cbn [fst snd]. by rewrite He. }
  erewrite bind_ok in E by (unfold on_files; cbn [fst snd]; by rewrite Hu).
  destruct (run_op_checks _ _ _ _ _ _ _ _ _ Hadm E) as [?|(t & b & u' & ? & ?)]; [by left|right].
  split_and!; [by auto|by exists token, u, t, b, u'|]. intros Hr. apply Hi; apply H2; by apply bool_decide_eq_true.
Qed.
End requests.

#[local] Existing Instances sample_crypto sample_protector sample_migrate ascii_unicode.

(** Amy, an administrator, takes her own server away, from a page of this database. *)
Lemma administrators_witness :
  ∃ a', admin_route sample_sha id sample_to_vec sample_cfg "proxy"
      (page PUT "/api/admin/users/1/servers" (Some "abcd"%string)) amy_cookies 5 (OHeld (ASetUserServers 1 [])) (admin_app, ∅) = (Ok (), (a', ∅)) ∧
    t_assignments (store_ a') = ∅ ∧
    ∃ token u, find_map (fun h => cookie_value h COOKIE) amy_cookies = Some token ∧
      administrator sample_cfg admin_db (token_hash sample_sha token) 5 u.
Proof.
  destruct (admin_route sample_sha id sample_to_vec sample_cfg "proxy"
      (page PUT "/api/admin/users/1/servers" (Some "abcd"%string)) amy_cookies 5 (OHeld (ASetUserServers 1 [])) (admin_app, ∅)) as [r [a' f']] eqn:E.
  assert (r = Ok () ∧ f' = ∅) as [-> ->].
  { split; [apply (f_equal fst) in E|apply (f_equal (fun x => x.2.2)) in E]; vm_compute in E; by rewrite <-E. }
  exists a'. split; [reflexivity|]. split; [apply (f_equal (fun x => x.2.1)) in E; vm_compute in E; by rewrite <-E|].
  assert (answers HSetUserServers PUT "/api/admin/users/1/servers") as Ha.
  { exists "/api/admin/users/{id}/servers"%string, [(GET, HUserServers); (PUT, HSetUserServers)].
    split_and!; [|reflexivity|right; left]. apply elem_of_app. right. do 2 right. left. }
  destruct (only_administrators_change sample_sha id sample_to_vec sample_cfg "proxy"
    (page PUT "/api/admin/users/1/servers" (Some "abcd"%string)) amy_cookies 5 (OHeld (ASetUserServers 1 [])) admin_app ∅ _ _ _ Ha E)
    as [[[e He] _]|(_ & (token & u & t & b & u' & Ht & Hu & _) & _)]; [discriminate He|].
  exists token, u. split; [exact Ht|exact Hu].
Defined.
