(* ===== verification/RawRelay.v ===== *)
(** * The relay without scanning (src/src/proxy.rs)

    With file scanning off a session copies bytes both ways until either side stops. The two loops of
    [relay_raw] run in turn, one round at a time, in any order; what the sockets and the WebSocket give
    and refuse is a step's argument. *)

From S2P Require Import Prelude Text Utf8 Store App Proxy.
Local Open Scope Z_scope.

(** What the client's stream gives. *)
Inductive RawMsg := RawBinary (b : bytes) | RawClose | RawOther | RawBroken (e : string).

(** Messages and bytes that arrived and were not read yet, whether the client's stream ended after
    them, how the server's ended, what was written to each side, and the outcome once either loop
    ended. *)
Record RawRelay := mkRawRelay {
  rw_ws : list RawMsg;
  rw_ws_ended : bool;
  rw_srv : bytes;
  rw_srv_end : option (result IoError unit);
  rw_to_server : bytes;
  rw_to_client : list bytes;
  rw_done : option (result SessionError unit);
}.

Definition raw_new : RawRelay := mkRawRelay [] false [] None [] [] None.

Definition RAW_BUFFER : nat := 16 * 1024.

Definition raw_end (r : result SessionError unit) (s : RawRelay) : RawRelay :=
  mkRawRelay (rw_ws s) (rw_ws_ended s) (rw_srv s) (rw_srv_end s) (rw_to_server s) (rw_to_client s) (Some r).

Definition wrote_server (rest : list RawMsg) (b : bytes) (s : RawRelay) : RawRelay :=
  mkRawRelay rest (rw_ws_ended s) (rw_srv s) (rw_srv_end s) (rw_to_server s ++ b) (rw_to_client s) (rw_done s).

Definition wrote_client (b : bytes) (rest : bytes) (s : RawRelay) : RawRelay :=
  mkRawRelay (rw_ws s) (rw_ws_ended s) rest (rw_srv_end s) (rw_to_server s) (rw_to_client s ++ [b]) (rw_done s).

(** One round of [to_server]; a write that fails wrote some of the message, and a flush that fails all
    of it. With nothing to read it waits. *)
Definition to_server_round (failed : option (nat * IoError)) (s : RawRelay) : RawRelay :=
  match rw_ws s with
  | [] => if rw_ws_ended s then raw_end (Ok ()) s else s
  | RawBinary b :: rest =>
      match failed with
      | Some (n, e) => raw_end (Err (SIo e)) (wrote_server rest (take n b) s)
      | None => wrote_server rest b s
      end
  | RawClose :: rest => raw_end (Ok ()) (wrote_server rest [] s)
  | RawOther :: rest => wrote_server rest [] s
  | RawBroken e :: rest => raw_end (Err (SWebSocket e)) (wrote_server rest [] s)
  end.

(** One round of [to_client]: a read gives at least a byte of what arrived and at most a buffer. *)
Definition to_client_round (n : nat) (failed : option string) (s : RawRelay) : RawRelay :=
  match rw_srv s with
  | [] =>
      match rw_srv_end s with
      | Some (Ok _) => raw_end (Ok ()) s
      | Some (Err e) => raw_end (Err (SIo e)) s
      | None => s
      end
  | _ =>
      let n := Nat.max 1 (Nat.min n RAW_BUFFER) in
      match failed with
      | Some e => raw_end (Err (SWebSocket e)) s
      | None => wrote_client (take n (rw_srv s)) (drop n (rw_srv s)) s
      end
  end.

(** A run, with all the client sent and all the server sent. *)
Inductive raw_run : list RawMsg → bytes → RawRelay → Prop :=
  | raw_start : raw_run [] [] raw_new
  | raw_client msgs b s m : raw_run msgs b s → rw_done s = None → rw_ws_ended s = false →
      raw_run (msgs ++ [m]) b (mkRawRelay (rw_ws s ++ [m]) false (rw_srv s) (rw_srv_end s) (rw_to_server s) (rw_to_client s) None)
  | raw_client_ends msgs b s : raw_run msgs b s → rw_done s = None →
      raw_run msgs b (mkRawRelay (rw_ws s) true (rw_srv s) (rw_srv_end s) (rw_to_server s) (rw_to_client s) None)
  | raw_server msgs b s c : raw_run msgs b s → rw_done s = None → rw_srv_end s = None →
      raw_run msgs (b ++ c) (mkRawRelay (rw_ws s) (rw_ws_ended s) (rw_srv s ++ c) None (rw_to_server s) (rw_to_client s) None)
  | raw_server_ends msgs b s e : raw_run msgs b s → rw_done s = None →
      raw_run msgs b (mkRawRelay (rw_ws s) (rw_ws_ended s) (rw_srv s) (Some e) (rw_to_server s) (rw_to_client s) None)
  | raw_to_server msgs b s failed : raw_run msgs b s → rw_done s = None → raw_run msgs b (to_server_round failed s)
  | raw_to_client msgs b s n failed : raw_run msgs b s → rw_done s = None → raw_run msgs b (to_client_round n failed s).

(** ** Bytes pass as they are *)

(** The bytes of the binary messages before the client stopped. *)
Fixpoint payload (msgs : list RawMsg) : bytes :=
  match msgs with
  | RawBinary b :: rest => b ++ payload rest
  | RawOther :: rest => payload rest
  | _ => []
  end.

(** None of the messages ends the stream. *)
Definition goes_on (m : RawMsg) : bool := match m with RawBinary _ | RawOther => true | _ => false end.

Lemma payload_app l k : Forall (fun m => goes_on m = true) l → payload (l ++ k) = payload l ++ payload k.
Proof. induction 1 as [|[] l Hm Hl IH]; simpl in *; try done. by rewrite IH, app_assoc. Qed.

(** While a session lasts: what was read goes on, and both sides have what was read. *)
Record raw_ok (msgs : list RawMsg) (b : bytes) (s : RawRelay) : Prop := {
  raw_read : ∃ read, msgs = read ++ rw_ws s ∧ Forall (fun m => goes_on m = true) read ∧ rw_to_server s = payload read;
  raw_sent : b = concat (rw_to_client s) ++ rw_srv s;
  raw_pieces : Forall (fun p => (1 ≤ length p ≤ RAW_BUFFER)%nat) (rw_to_client s);
}.

(** Once it ended. *)
Definition raw_ended (msgs : list RawMsg) (b : bytes) (s : RawRelay) (r : result SessionError unit) : Prop :=
  rw_to_server s `prefix_of` payload msgs ∧ concat (rw_to_client s) `prefix_of` b ∧
  Forall (fun p => (1 ≤ length p ≤ RAW_BUFFER)%nat) (rw_to_client s) ∧
  (r = Ok () → rw_to_server s = payload msgs ∨ concat (rw_to_client s) = b).

Definition raw_inv (msgs : list RawMsg) (b : bytes) (s : RawRelay) : Prop :=
  match rw_done s with None => raw_ok msgs b s | Some r => raw_ended msgs b s r end.

Lemma raw_ok_ended msgs b s r :
  raw_ok msgs b s → (r = Ok () → rw_to_server s = payload msgs ∨ concat (rw_to_client s) = b) → raw_inv msgs b (raw_end r s).
Proof.
  intros [(read & -> & Hg & Hw) Hb Hp] Hr. unfold raw_inv, raw_ended. simpl. split_and!; [|..|done].
  - rewrite payload_app by done. rewrite Hw. by apply prefix_app_r.
  - rewrite Hb. by apply prefix_app_r.
  - done.
Qed.

Lemma to_server_inv msgs b s failed : raw_ok msgs b s → rw_done s = None → raw_inv msgs b (to_server_round failed s).
Proof.
  intros Hok Hd. pose proof Hok as [(read & Hm & Hg & Hw) Hb Hp]. unfold to_server_round.
  destruct (rw_ws s) as [|m rest] eqn:Hs.
  - destruct (rw_ws_ended s); [|unfold raw_inv; by rewrite Hd]. apply raw_ok_ended; [done|]. intros _. left.
    by rewrite Hm, app_nil_r.
  - destruct m as [c| | |e].
    + destruct failed as [[n e]|].
      * unfold raw_inv, raw_ended. simpl. rewrite Hm, payload_app, Hw by done. simpl. split_and!; [|..|done].
        -- apply prefix_app. rewrite <- (take_drop n c) at 2. rewrite <- app_assoc. by apply prefix_app_r.
        -- rewrite Hb. by apply prefix_app_r.
        -- done.
      * unfold raw_inv. simpl. rewrite Hd. constructor; simpl; [|done..]. exists (read ++ [RawBinary c]).
        split_and!; [by rewrite Hm, <- app_assoc|apply Forall_app; by split; [|repeat constructor]|].
        rewrite payload_app, Hw by done. simpl. by rewrite app_nil_r.
    + unfold raw_inv, raw_ended. simpl. rewrite Hm, payload_app, Hw, Hb, !app_nil_r by done.
      split_and!; [done|by apply prefix_app_r|done|by left].
    + unfold raw_inv. simpl. rewrite Hd. constructor; simpl; [|done..]. exists (read ++ [RawOther]).
      split_and!; [by rewrite Hm, <- app_assoc|apply Forall_app; by split; [|repeat constructor]|].
      by rewrite payload_app, Hw by done.
    + unfold raw_inv, raw_ended. simpl. rewrite Hm, payload_app, Hw, Hb, !app_nil_r by done.
      split_and!; [done|by apply prefix_app_r|done|done].
Qed.

Lemma to_client_inv msgs b s n failed : raw_ok msgs b s → rw_done s = None → raw_inv msgs b (to_client_round n failed s).
Proof.
  intros Hok Hd. pose proof Hok as [Hr Hb Hp]. unfold to_client_round. destruct (rw_srv s) as [|x rest] eqn:Hs.
  - destruct (rw_srv_end s) as [[[]|e]|]; [apply raw_ok_ended; [done|]..|unfold raw_inv; by rewrite Hd]; [|done].
    intros _. right. by rewrite Hb, app_nil_r.
  - destruct failed as [e|]; [by apply raw_ok_ended|]. unfold raw_inv. simpl. rewrite Hd.
    constructor; cbn [rw_to_client rw_srv rw_ws rw_to_server wrote_client]; [done| |].
    + rewrite concat_app. cbn [concat]. rewrite app_nil_r, <- app_assoc, take_drop. done.
    + apply Forall_app. split; [done|]. constructor; [|done]. rewrite length_take. unfold RAW_BUFFER. simpl length. lia.
Qed.

(** Bytes pass as they are. However messages and bytes arrive and the two loops take turns: while the
    session lasts, the server has been written exactly the client's binary messages read so far, in
    order, and the client exactly the server's bytes read so far, in order and in messages of at most
    16 KiB, none empty, and nothing else is held back; when it ends, each side has a part from the
    start of what the other sent; and when it ends without an error, one of the two sides was
    delivered whole. *)
Theorem raw_relay_passes_bytes (msgs : list RawMsg) (b : bytes) (s : RawRelay) :
  raw_run msgs b s →
  rw_to_server s `prefix_of` payload msgs ∧ concat (rw_to_client s) `prefix_of` b ∧
  Forall (fun p => (1 ≤ length p ≤ RAW_BUFFER)%nat) (rw_to_client s) ∧
  (rw_done s = None → payload msgs = rw_to_server s ++ payload (rw_ws s) ∧ b = concat (rw_to_client s) ++ rw_srv s) ∧
  (rw_done s = Some (Ok ()) → rw_to_server s = payload msgs ∨ concat (rw_to_client s) = b).
Proof.
  intros H. assert (raw_inv msgs b s) as Hi.
  { induction H as [|msgs b s m _ IH Hd He|msgs b s _ IH Hd|msgs b s c _ IH Hd He|msgs b s e _ IH Hd|msgs b s failed _ IH Hd|msgs b s n failed _ IH Hd];
      try (unfold raw_inv in IH; rewrite Hd in IH).
    - constructor; simpl; [exists []|..]; done.
    - destruct IH as [(read & -> & Hg & Hw) Hb Hp]. constructor; simpl; [|done..]. exists read. by rewrite app_assoc.
    - destruct IH as [(read & -> & Hg & Hw) Hb Hp]. constructor; simpl; [|done..]. by exists read.
    - destruct IH as [(read & -> & Hg & Hw) Hb Hp]. constructor; simpl; [by exists read| |done]. by rewrite Hb, app_assoc.
    - destruct IH as [(read & -> & Hg & Hw) Hb Hp]. constructor; simpl; [|done..]. by exists read.
    - by apply to_server_inv.
    - by apply to_client_inv. }
  unfold raw_inv in Hi. destruct (rw_done s) as [r|].
  - destruct Hi as (H1 & H2 & H3 & H4). split_and!; [done..|]. intros [= ->]. by apply H4.
  - destruct Hi as [(read & -> & Hg & Hw) Hb Hp]. rewrite payload_app, Hw by done. split_and!; [| |done| |done].
    + by apply prefix_app_r.
    + rewrite Hb. by apply prefix_app_r.
    + done.
Qed.
