(* ===== verification/Swap.v ===== *)
(** * Replacing the database file (src/src/store.rs)

    The step of an import that installs the new database: the connection is closed, the file renamed
    over, and whichever file is then in place opened again, up to eleven times, or the process stops.
    The import itself ([Migrate.apply_]) knows of it only whether it was refused; here is what it does
    to the file and the connection, and that the import may rely on it. Then what a database replaced
    this way cuts off: everything that was admitted to the one before, or was about to be. *)

From S2P Require Import Prelude Text Utf8 Tables Store StoreInv Auth Live Settings Vault VaultFacts Directory DirectoryFacts App AppFacts Web WebFacts WebServers Instant ServerList Admin AdminFacts Migrate MigrateFacts MigrateSample Xml Saml SamlSample Sso.
Local Open Scope Z_scope.

(** The store's connection: to its database, or to the empty one that stands in while the file is
    replaced. *)
Inductive Connection := Serves (db : Db) | Stands_in.

(** The file the store is at, with what its write-ahead log holds; whether the log is there once the
    store's own connection is closed; and the file to install. *)
Record StoreFile := mkStoreFile {
  sf_conn : Connection;
  sf_main : bytes;
  sf_log_left : bool;
  sf_new : option bytes;
}.

(** What the system did: the error of opening the empty database and of the rename, if any, and what
    stood in the way of each attempt to open the file again. *)
Record SwapRun := mkSwapRun {
  sw_memory : option StoreError;
  sw_rename : option string;
  sw_blocked : list (option StoreError);
}.

Inductive SwapEnd := Returned (r : result StoreError unit) | Exited.

Section swap.
Context `{L : MigrateLib}.

Definition open_connection (blocked : option StoreError) (file : bytes) : result StoreError Db :=
  match blocked with Some e => Err e | None => open_file file end.

Definition REOPEN_RETRIES : nat := 10.

(** The loop: [tries] retries are left. *)
Fixpoint reopen (tries : nat) (blocked : list (option StoreError)) (file : bytes) : option Db :=
  match open_connection (mjoin (head blocked)) file with
  | Ok db => Some db
  | Err _ => match tries with O => None | S tries => reopen tries (tail blocked) file end
  end.

(** The rename, unless another connection's log would be replayed onto the new file. *)
Definition install_file (w : SwapRun) (s : StoreFile) : result string unit * StoreFile :=
  if sf_log_left s then (Err "another process has the database open"%string, s)
  else
    match sw_rename w, sf_new s with
    | Some e, _ => (Err e, s)
    | None, Some new => (Ok (), mkStoreFile (sf_conn s) new false None)
    | None, None => (Err "no such file"%string, s)
    end.

Definition replace_with (w : SwapRun) (s : StoreFile) : SwapEnd * StoreFile :=
  match sw_memory w with
  | Some e => (Returned (Err e), s)
  | None =>
      let s := mkStoreFile Stands_in (sf_main s) (sf_log_left s) (sf_new s) in
      let '(installed, s) := install_file w s in
      match reopen REOPEN_RETRIES (sw_blocked w) (sf_main s) with
      | None => (Exited, s)
      | Some db =>
          (Returned (match installed with Ok _ => Ok () | Err e => Err (Store.Invalid (SWAP_REFUSED e)) end),
           mkStoreFile (Serves db) (sf_main s) (sf_log_left s) (sf_new s))
      end
  end.

(** ** What the import relies on *)

(** An attempt nothing stands in the way of opens the file. *)
Lemma reopen_some tries blocked file db :
  open_file file = Ok db → (∃ i, (i ≤ tries)%nat ∧ mjoin (blocked !! i) = None) → reopen tries blocked file = Some db.
Proof.
  intros Hf (i & Hi & Hb). revert tries blocked Hi Hb. induction i as [|i IH]; intros tries blocked Hi Hb.
  - destruct tries; simpl; by destruct blocked as [|[] blocked]; simpl in *; rewrite ?Hf.
  - destruct tries as [|tries]; [lia|]. simpl. destruct blocked as [|[e|] blocked]; simpl; [by rewrite Hf| |by rewrite Hf].
    apply IH; [lia|done].
Qed.

Lemma reopen_none tries blocked file db :
  open_file file = Ok db → reopen tries blocked file = None → ∀ i, (i ≤ tries)%nat → is_Some (mjoin (blocked !! i)).
Proof.
  intros Hf Hn i Hi. destruct (mjoin (blocked !! i)) eqn:E; [by eexists|].
  rewrite (reopen_some tries blocked file db) in Hn; [done..|by exists i].
Qed.

Lemma reopen_same tries blocked file db db' : open_file file = Ok db → reopen tries blocked file = Some db' → db' = db.
Proof.
  intros Hf. revert blocked. induction tries as [|tries IH]; intros blocked; simpl; destruct (mjoin (head blocked)); simpl; rewrite ?Hf;
    naive_solver.
Qed.

#[local] Arguments reopen : simpl never.

(** What an import is told of the swap. *)
Definition swap_refusal (w : SwapRun) (s : StoreFile) : option string :=
  if sf_log_left s then Some "another process has the database open"%string else sw_rename w.

(** The swap is all or nothing. With the old database served from its file and a checked new file
    beside it, replacing ends in one of three ways: the new database is served from the new file; the
    old one is served from the old file as before, the new file still there, and the caller is told
    why; or the process stops, with one of the two whole files in place, and only after eleven attempts
    to open it all failed. What stands in for the database meanwhile is never served afterwards, and
    the file is never replaced while another process has it open. *)
Theorem swap_is_all_or_nothing (w : SwapRun) (s : StoreFile) (db db' : Db) (new : bytes) :
  sf_conn s = Serves db → open_file (sf_main s) = Ok db → sf_new s = Some new → open_file new = Ok db' → sw_memory w = None →
  let '(o, s') := replace_with w s in
  match o with
  | Returned r =>
      match swap_refusal w s with
      | None => r = Ok () ∧ s' = mkStoreFile (Serves db') new false None
      | Some e => r = Err (Store.Invalid (SWAP_REFUSED e)) ∧ s' = s
      end
  | Exited =>
      sf_main s' = (if swap_refusal w s then sf_main s else new) ∧
      ∀ i, (i ≤ REOPEN_RETRIES)%nat → is_Some (mjoin (sw_blocked w !! i))
  end.
Proof.
  destruct s as [conn main logged nw]. simpl. intros -> Hm -> Hn Hw. unfold replace_with, install_file, swap_refusal. rewrite Hw. simpl.
  destruct logged; [|destruct (sw_rename w) as [e|]]; simpl.
  all: destruct (reopen REOPEN_RETRIES _ _) as [d|] eqn:Hr; simpl.
  all: try (split; [done|]; eapply reopen_none; [|exact Hr]; eauto).
  all: eapply reopen_same in Hr; [|by eauto]; by subst.
Qed.
End swap.

(** ** What a replaced database cuts off *)

(** The same but for lines of the activity log. *)
Definition but_for_log (b a : App) : Prop := ∃ f, b = with_store (set_audit f (store_ a)) a.

Lemma but_for_log_refl a : but_for_log a a.
Proof. exists (fun x => x). by destruct a as [[]]. Qed.

Section cut_off.
Context {U : Unicode} {C : Crypto} {K : KeyProtector} {L : MigrateLib} {SL : SamlLib} (host_name : string).
Context (sha256 : bytes → bytes) (from_slice : bytes → option Settings) (cfg : Cfg) (saml : option ServiceProvider).

Lemma login_finish_replaced g checked name now rnd r1 r2 a :
  generation a ≠ g → ∃ e, login_finish sha256 from_slice cfg g checked name now rnd r1 r2 a = (Err e, a).
Proof. intros Hg. unfold login_finish. rewrite bind_gets, decide_True by done. by eexists. Qed.

Lemma login_read_generation name a gl a' : login_read name a = (Ok gl, a') → gl.1 = generation a.
Proof.
  unfold login_read. intros (found & a1 & H1 & H)%bind_ok_inv. apply sto_ok in H1 as (db & _ & ->).
  apply bind_ok_inv in H as (l & a2 & Hl & H). injection H as <- <-. destruct (filter_opt local found) as [u|]; [|by injection Hl as _ <-].
  apply bind_ok_inv in Hl as (h & a3 & Hh & [= _ <-]). by apply sto_ok in Hh as (db' & _ & ->).
Qed.

(** A sign-in with a password, back from checking it. *)
Lemma login_replaced typed password l b a' :
  generation a' ≠ generation b → (∀ x, lr_after l x = a') →
  ∃ e b', login sha256 from_slice cfg typed password l b = (Err e, b').
Proof.
  intros Hg Hl. destruct (login sha256 from_slice cfg typed password l b) as [[x|e] b'] eqn:E; [|eauto]. exfalso.
  unfold login in E. apply bind_ok_inv in E as (name & b1 & [= Hn <-] & E). case_decide; [done|].
  apply bind_ok_inv in E as (gl & b2 & Hr%login_read_generation & E). apply bind_ok_inv in E as ([] & b3 & _ & E).
  apply bind_ok_inv in E as (checked & b4 & _ & E). apply bind_ok_inv in E as ([] & b5 & [= <-] & E). rewrite Hl in E.
  destruct (login_finish_replaced gl.1 checked name (lr_now l) (lr_rnd l) (lr_sid l) (lr_token l) a') as [e He]; [congruence|].
  by rewrite He in E.
Qed.

(** A single sign-on, back from asking the directory. *)
Lemma sso_replaced cookies response r b (spent : Spent) a' :
  generation a' ≠ generation b → (∀ x, sr_meanwhile r x = a') →
  ∃ e b' spent', sso_sign_in sha256 from_slice cfg saml cookies response r (b, spent) = (Err e, (b', spent')) ∧
    (but_for_log b' b ∨ but_for_log b' a').
Proof.
  intros Hg Hr. assert (∀ {A} who status why now a, ∃ e, ∃ a1, sso_refuse (A:=A) who status why now a = (Err e, a1) ∧ but_for_log a1 a) as Href.
  { intros A who status_ why now a. do 2 eexists. split; [reflexivity|]. by eexists. }
  unfold sso_sign_in. destruct saml as [sp|]; [|do 3 eexists; split; [reflexivity|left; apply but_for_log_refl]].
  cbv zeta. destruct (accept _ _ _ _ _) as [[v|e] spent'].
  2: { destruct (Href string WHO UNAUTHORIZED (saml_message e) (sr_now r) b) as (e1 & a1 & -> & Hb). eauto 10. }
  unfold sso_account. cbv zeta. destruct (lookup_directory cfg) as [d|]; [|eauto 10 using but_for_log_refl].
  destruct (directory_password b) as [[pass|]|]; [|eauto 10 using but_for_log_refl..].
  destruct (lookup_by_sid _ _ _ _ _ _) as [[[account|]|e] p]; rewrite Hr.
  - destruct (usable account).
    + unfold sso_finish. rewrite bind_gets, decide_True by done. eauto 10 using but_for_log_refl.
    + match goal with |- context [sso_refuse ?w ?s ?y ?n ?a] => destruct (Href string w s y n a) as (e1 & a1 & -> & Hb) end. eauto 10.
  - match goal with |- context [sso_refuse ?w ?s ?y ?n ?a] => destruct (Href string w s y n a) as (e1 & a1 & -> & Hb) end. eauto 10.
  - eauto 10 using but_for_log_refl.
Qed.

(** C15. A successful import cuts off everything that was admitted before it. No ticket is left and no
    connection runs; a connection that was still opening is refused when it asks to be admitted; a
    sign-in under way, with a password or by single sign-on, is refused and makes no session: of the new
    database it changes nothing, but for a single sign-on's line in the activity log; an administrator's
    request that was away asking the directory, to add a user or to set the service account's password,
    is refused, leaving the new database as it is; a revocation pass's answers are dropped; and the
    database has a new instance, so pages loaded before name another. *)
Theorem import_cuts_off (upload pass : string) (host : option string) (at_ : Z) (w : ApplyRun) (a a' : App) (files files' : Files)
    (cs : Counts) :
  confirm_ host_name upload pass host at_ w (a, files) = (Ok cs, (a', files')) →
  tickets a' = ∅ ∧ (∀ i, ¬ running i (live a')) ∧
  (∀ s tid auth now t, generation_of (s_live_id s) (live a) = Some (generation a) →
     admit_session s tid auth now t a' = (Err Superseded, a')) ∧
  (∀ checked name now rnd r1 r2, ∃ e,
     login_finish sha256 from_slice cfg (generation a) checked name now rnd r1 r2 a' = (Err e, a')) ∧
  (∀ typed password l b, generation b = generation a → (∀ x, lr_after l x = a') →
     ∃ e b', login sha256 from_slice cfg typed password l b = (Err e, b')) ∧
  (∀ cookies response r b spent, generation b = generation a → (∀ x, sr_meanwhile r x = a') →
     ∃ e b' spent', sso_sign_in sha256 from_slice cfg saml cookies response r (b, spent) = (Err e, (b', spent')) ∧
       (but_for_log b' b ∨ but_for_log b' a')) ∧
  (∀ token away c b, generation b = generation a → (∀ p, aw_others away (with_preferred p b) = a') →
     ∃ e b', away_exec cfg token away c b = (Err e, b') ∧ (b' = b ∨ b' = a' ∨ ∃ p, b' = with_preferred p b)) ∧
  (∀ now users found, apply_lookups now (generation a) users found a' = (pass_default, a')) ∧
  instance (store_ a') = instance_text (ar_instance w).
Proof.
  intros (key & db & -> & Hi)%import_installs. set (a' := with_imports _ _).
  assert (generation a' ≠ generation a) as Hg by apply generation_moves.
  split_and!; [done|by intros i; eapply installed_nothing_runs|..].
  - intros s tid auth now t Hs. unfold admit_session. rewrite decide_True; [done|].
    change (live a') with (live (installed key db a)). rewrite generation_of_installed, Hs. congruence.
  - intros. by apply login_finish_replaced.
  - intros typed password l b Hb Hl. apply (login_replaced _ _ _ _ a'); [congruence|done].
  - intros cookies response r b spent Hb Hr. apply sso_replaced; [congruence|done].
  - intros token away c b Hb Ho. destruct (away_refused cfg token away c b) as (e & b' & E & H).
    { intros p u' _ Hx _ _. rewrite Ho in Hx. congruence. }
    exists e, b'. split; [done|]. destruct H as [->|(p & _ & [->| ->])]; [by auto|by eauto|right; left; apply Ho].
  - intros. unfold apply_lookups. by rewrite decide_True.
  - done.
Qed.
End cut_off.

#[local] Existing Instances sample_crypto sample_protector sample_migrate ascii_unicode.

Example import_cuts_off_witness :
  ∃ cs a' files', confirm_ "proxy" "up" sample_pass (Some "proxy"%string) 5 sample_run (staged_app, ∅) = (Ok cs, (a', files')) ∧
    tickets a' = ∅ ∧ ¬ running 0 (live a') ∧ instance (store_ a') = "ef01"%string.
Proof.
  destruct sample_confirm as (cs & a' & files' & E). exists cs, a', files'. split; [exact E|].
  destruct (import_cuts_off (SL := sample_lib) "proxy" sample_sha sample_from_slice sample_cfg None _ _ _ _ _ _ _ _ _ _ E) as (H1 & H2 & _ & _ & _ & _ & _ & _ & H3).
  split; [exact H1|]. split; [exact (H2 0)|]. exact H3.
Defined.
