(* ===== verification/HostSetup.v ===== *)
(** * What a host gives the proxy (src/src/proxy.rs, src/src/directory.rs, src/src/https.rs, src/src/saml.rs, src/src/vault.rs, src/src/scan/scanner.rs, src/src/app.rs, src/src/admin.rs)

    The files read when the state is opened: the certificates servers and domain controllers are checked
    against, the listener's own certificate and key, and the identity provider's metadata; PEM, X.509
    and the store of roots are libraries, of which the code asks what the class [PkiLib] has. What
    protects the master key, off Windows the key file of [Start], the anti-malware products Windows has registered,
    this machine's name, and the status page. What the registry, the environment and the file system
    answered are arguments. *)

From S2P Require Import Prelude Tables Text Utf8 Store Auth Vault VaultFacts Directory DirectoryFacts Scanner ScanService Live App Web Instant ServerList Migrate Xml Saml Config ConfigFacts Start Https.
Local Open Scope Z_scope.

(** A certificate is its DER bytes. *)
Class PkiLib (CertifiedKey : Type) := {
  (** [CertificateDer::pem_slice_iter] *)
  pem_certs : bytes → list (result string bytes);
  (** [RootCertStore::add]: why a certificate cannot be a root *)
  add_root : bytes → result string unit;
  (** [load_native_certs] *)
  native_certs : list bytes;
  (** [parse_x509_certificate]: notAfter *)
  x509_not_after : bytes → result string Z;
  (** [PrivateKeyDer::from_pem_slice]: [Err None] is [NoItemsFound] *)
  pem_key : bytes → result (option string) bytes;
  (** [CertifiedKey::from_der] *)
  certified : list bytes → bytes → result string CertifiedKey;
}.

Section trust.
Context {CertifiedKey : Type} {L : PkiLib CertifiedKey}.
(** [std::fs::read] *)
Context (read : string → result string bytes).

(** The loop over a bundle: every certificate must parse and be usable. *)
Fixpoint bundle_roots {E} (err : string → E) (path : string) (certs : list (result string bytes)) (roots : list bytes) : result E (list bytes) :=
  match certs with
  | [] => Ok roots
  | cert :: rest =>
      match cert with
      | Err e => Err (err (path +:+ ": " +:+ e))
      | Ok cert =>
          match add_root cert with
          | Err e => Err (err (path +:+ ": " +:+ e))
          | Ok _ => bundle_roots err path rest (roots ++ [cert])
          end
      end
  end.

(** ** Servers *)

(** The roots a server's certificate must lead to; [None] is any certificate at all. *)
Record TlsSetup := mkTlsSetup { ts_roots : option (list bytes); ts_mode : VerifyMode }.

(** [tls_setup]; its error is [SessionError::Tls]'s text. *)
Definition tls_setup (cfg : Tls) : result string TlsSetup :=
  match verify cfg with
  | Ca =>
      path ← ok_or "ca_bundle required"%string (ca_bundle cfg);
      pem ← match read path with Ok b => Ok b | Err e => Err ("tls.ca_bundle: reading " +:+ path +:+ ": " +:+ e) end;
      roots ← bundle_roots id path (pem_certs pem) [];
      if decide (roots = []) then Err ("tls.ca_bundle: " +:+ path +:+ " holds no certificate")
      else Ok (mkTlsSetup (Some roots) Ca)
  | Insecure => Ok (mkTlsSetup None Insecure)
  end.

(** ** Domain controllers *)

(** Of this host's certificates those that can be used; the others are passed over. *)
Definition usable_roots (certs : list bytes) : list bytes := List.filter (fun c => is_ok (add_root c)) certs.

(** [Directory::new]: the roots; the rest of it is read from the configuration. *)
Definition directory_new (cfg : DirectorySection) : result DirError (list bytes) :=
  roots ← match ds_ca_bundle cfg with
          | Some path =>
              match read path with
              | Err e => Err (Directory.Config ("reading " +:+ path +:+ ": " +:+ e))
              | Ok pem => bundle_roots Directory.Config path (pem_certs pem) []
              end
          | None => Ok (usable_roots native_certs)
          end;
  if decide (roots = []) then Err (Directory.Config "no CA certificates to validate the domain controllers against") else Ok roots.

(** ** The listener *)

(** [collect] into a [Result]. *)
Fixpoint collect {E A} (l : list (result E A)) : result E (list A) :=
  match l with
  | [] => Ok []
  | Ok a :: rest => match collect rest with Ok l => Ok (a :: l) | Err e => Err e end
  | Err e :: _ => Err e
  end.

Definition load_certificate (files : Config.Https) : result string (CertifiedKey * Z) :=
  let named (path e : string) := path +:+ ": " +:+ e in
  cert_pem ← match read (cert files) with Ok b => Ok b | Err e => Err ("reading " +:+ named (cert files) e) end;
  key_pem ← match read (key files) with Ok b => Ok b | Err e => Err ("reading " +:+ named (key files) e) end;
  certs ← match collect (pem_certs cert_pem) with Ok l => Ok l | Err e => Err (named (cert files) e) end;
  match certs with
  | [] => Err (cert files +:+ " holds no certificate")
  | leaf :: _ =>
      not_after ← match x509_not_after leaf with Ok t => Ok t | Err e => Err (named (cert files) e) end;
      k ← match pem_key key_pem with
          | Ok k => Ok k
          | Err None => Err (key files +:+ " holds no private key")
          | Err (Some e) => Err (named (key files) e)
          end;
      k ← match certified certs k with Ok k => Ok k | Err e => Err (named (cert files +:+ " and " +:+ key files) e) end;
      mret (k, not_after)
  end.

(** [stamp_of]; [metadata] is a file's modification time and length. *)
Definition stamp_of (metadata : string → option (Z * Z)) (files : Config.Https) : option (Z * Z) * option (Z * Z) :=
  (metadata (cert files), metadata (key files)).

(** ** The identity provider *)

(** [ServiceProvider::load]; [read_text] is [read_to_string]. *)
Definition sp_load `{SamlLib} (read_text : string → result string string) (cfg : SamlSection) (key : bytes) : result SamlError ServiceProvider :=
  xml ← match read_text (idp_metadata cfg) with Ok t => Ok t | Err e => Err (Metadata (idp_metadata cfg +:+ ": " +:+ e)) end;
  idp ← parse_metadata xml;
  mret (sp_new (ss_config cfg) idp key).

(** ** Exactly what the files say *)

(** The certificates of a bundle, all of them usable as roots. *)
Definition bundle_holds (path : string) (roots : list bytes) : Prop :=
  ∃ pem, read path = Ok pem ∧ pem_certs pem = Ok <$> roots ∧ Forall (fun c => add_root c = Ok ()) roots.

Lemma ok_list_inj {E A} (l k : list A) : Ok (E := E) <$> l = Ok <$> k → l = k.
Proof. revert k. induction l as [|a l IH]; intros [|b k]; simpl; try done. intros [= -> H]. by rewrite (IH k). Qed.

Lemma bundle_roots_ok {E} (err : string → E) path certs acc roots :
  bundle_roots err path certs acc = Ok roots ↔
  ∃ l, certs = Ok <$> l ∧ Forall (fun c => add_root c = Ok ()) l ∧ roots = acc ++ l.
Proof.
  revert acc. induction certs as [|cert certs IH]; intros acc; simpl.
  - split; [intros [= ->]; exists []; by rewrite app_nil_r|]. intros ([] & ? & _ & ->); [by rewrite app_nil_r|done].
  - destruct cert as [c|e]; [|split; [done|]; by intros ([] & [=] & _)]. destruct (add_root c) as [[]|e] eqn:Hc.
    + rewrite IH. split.
      * intros (l & -> & Hl & ->). exists (c :: l). split_and!; [done|by constructor|by rewrite <- app_assoc].
      * intros ([|c' l] & [=] & Hl & ->). subst. apply Forall_cons in Hl as [_ Hl]. exists l. by rewrite <- app_assoc.
    + split; [done|]. intros ([|c' l] & [=] & Hl & _). subst. apply Forall_cons in Hl as [Hl _]. congruence.
Qed.

(** What servers are checked against. A setup is made exactly when certificates are not to be checked,
    in which case any is taken, or the configured bundle can be read and holds at least one
    certificate, all of them usable; the roots are then those of the bundle, each of them and no
    other. *)
Theorem servers_trusted_exactly (cfg : Tls) (t : TlsSetup) :
  tls_setup cfg = Ok t ↔
  match verify cfg with
  | Ca => ∃ path roots, ca_bundle cfg = Some path ∧ bundle_holds path roots ∧ roots ≠ [] ∧ t = mkTlsSetup (Some roots) Ca
  | Insecure => t = mkTlsSetup None Insecure
  end.
Proof.
  unfold tls_setup. destruct (verify cfg); [|naive_solver]. unfold ok_or, bundle_holds. destruct (ca_bundle cfg) as [path|]; [|split; [done|]; by intros (? & ? & ? & _)].
  unfold mbind, result_bind. destruct (read path) as [pem|e] eqn:Hr; [|split; [done|]; intros (? & ? & [= <-] & (? & ? & _) & _); congruence].
  destruct (bundle_roots id path (pem_certs pem) []) as [roots|e] eqn:Hb.
  - apply bundle_roots_ok in Hb as (l & Hp & Hl & ->). simpl. case_decide as Hn.
    + split; [done|]. intros (p & r & [= <-] & (pem' & Hr2 & Hp' & _) & Hr' & _). assert (pem' = pem) as -> by congruence. rewrite Hp in Hp'.
      apply ok_list_inj in Hp'. congruence.
    + split; [intros [= <-]; exists path, l; split_and!; [done|by exists pem|done..]|].
      intros (p & r & [= <-] & (pem' & Hr2 & Hp' & _) & Hr' & ->). assert (pem' = pem) as -> by congruence. rewrite Hp in Hp'. apply ok_list_inj in Hp'. by subst.
  - split; [done|]. intros (p & r & [= <-] & (pem' & Hr2 & Hp' & Hf) & _). assert (pem' = pem) as -> by congruence.
    assert (bundle_roots id path (pem_certs pem) [] = Ok r) by (apply bundle_roots_ok; by exists r). congruence.
Qed.

(** What domain controllers are checked against. A directory client is made exactly when there is at
    least one root: those of the configured bundle, each usable, or without one the usable roots of
    this host. No directory is ever asked without a root to check it against. *)
Theorem controllers_trusted_exactly (cfg : DirectorySection) (roots : list bytes) :
  directory_new cfg = Ok roots ↔
  roots ≠ [] ∧ match ds_ca_bundle cfg with Some path => bundle_holds path roots | None => roots = usable_roots native_certs end.
Proof.
  unfold directory_new, bundle_holds. destruct (ds_ca_bundle cfg) as [path|]; unfold mbind, result_bind.
  - destruct (read path) as [pem|e]; [|split; [done|]; by intros (_ & ? & ? & _)].
    destruct (bundle_roots Directory.Config path (pem_certs pem) []) as [l|e] eqn:Hb.
    + apply bundle_roots_ok in Hb as (l' & Hp & Hl & ->). simpl. case_decide as Hn; subst.
      * split; [done|]. intros (Hr & ? & [= <-] & Hp' & _). rewrite Hp in Hp'. by apply ok_list_inj in Hp'; subst.
      * split; [intros [= <-]; split; [done|by exists pem]|]. intros (Hr & ? & [= <-] & Hp' & _). rewrite Hp in Hp'.
        by apply ok_list_inj in Hp'; subst.
    + split; [done|]. intros (Hr & ? & [= <-] & Hp' & Hf).
      assert (bundle_roots Directory.Config path (pem_certs pem) [] = Ok roots) by (apply bundle_roots_ok; by exists roots). congruence.
  - case_decide as Hn; split; [done|intros [? ->]; done|intros [= <-]; done|by intros [_ ->]].
Qed.

End trust.

(** ** A library to run it on *)

(** A file is its certificates, a byte each; a zero byte is no certificate, and 255 cannot be a root. *)
Definition sample_pki : PkiLib (list bytes * bytes) := {|
  pem_certs b := (fun x => if decide (x = x00) then Err "bad PEM"%string else Ok [x]) <$> b;
  add_root c := if decide (c = [xff]) then Err "not a root"%string else Ok ();
  native_certs := [[x01]; [xff]; [x02]];
  x509_not_after c := Ok (len c);
  pem_key b := if decide (b = []) then Err None else Ok b;
  certified chain k := Ok (chain, k);
|}.

Definition sample_read (path : string) : result string bytes :=
  if decide (path = "ca.pem"%string) then Ok [x05; x06]
  else if decide (path = "empty.pem"%string) then Ok []
  else if decide (path = "mixed.pem"%string) then Ok [x05; xff]
  else Err "no such file"%string.

Example bundle_trusted :
  tls_setup (L := sample_pki) sample_read (mkTls Ca (Some "ca.pem"%string)) = Ok (mkTlsSetup (Some [[x05]; [x06]]) Ca).
Proof. reflexivity. Qed.
Example empty_bundle_refused :
  tls_setup (L := sample_pki) sample_read (mkTls Ca (Some "empty.pem"%string)) = Err "tls.ca_bundle: empty.pem holds no certificate"%string.
Proof. reflexivity. Qed.
Example unusable_root_refused :
  tls_setup (L := sample_pki) sample_read (mkTls Ca (Some "mixed.pem"%string)) = Err "mixed.pem: not a root"%string.
Proof. reflexivity. Qed.
Example unusable_native_root_passed_over : usable_roots (L := sample_pki) (native_certs (PkiLib := sample_pki)) = [[x01]; [x02]].
Proof. reflexivity. Qed.

(** ** The key file *)

(** [local_protector]: DPAPI, a parameter, on Windows, and elsewhere the key file. *)
Definition local_protector `{Crypto} (windows : bool) (dpapi : KeyProtector) (w : KeyFileRun) (random : option bytes) :
    M Files VaultError KeyProtector :=
  if windows then mret dpapi
  else key ← key_file w random; mret (keyfile key).

(** ** Registered products *)

(** A scalar value's UTF-8. *)
Definition utf8_encode (c : Z) : chars :=
  let ch (z : Z) := ascii_of_N (Z.to_N z) in
  if decide (c < 0x80) then [ch c]
  else if decide (c < 0x800) then [ch (0xc0 + c / 64); ch (0x80 + c mod 64)]
  else if decide (c < 0x10000) then [ch (0xe0 + c / 4096); ch (0x80 + c / 64 mod 64); ch (0x80 + c mod 64)]
  else [ch (0xf0 + c / 262144); ch (0x80 + c / 4096 mod 64); ch (0x80 + c / 64 mod 64); ch (0x80 + c mod 64)].

Definition high_surrogate (u : Z) : bool := bool_decide (0xd800 ≤ u < 0xdc00).
Definition low_surrogate (u : Z) : bool := bool_decide (0xdc00 ≤ u < 0xe000).

(** [String::from_utf16_lossy]: a surrogate without its pair becomes U+FFFD. *)
Fixpoint utf16_lossy (units : list Z) : chars :=
  match units with
  | [] => []
  | u :: rest =>
      if high_surrogate u then
        match rest with
        | l :: rest' =>
            if low_surrogate l then utf8_encode (0x10000 + (u - 0xd800) * 1024 + (l - 0xdc00)) ++ utf16_lossy rest'
            else utf8_encode 0xfffd ++ utf16_lossy rest
        | [] => utf8_encode 0xfffd
        end
      else if low_surrogate u then utf8_encode 0xfffd ++ utf16_lossy rest
      else utf8_encode u ++ utf16_lossy rest
  end.

Definition from_utf16_lossy (units : list Z) : string := of_chars (utf16_lossy units).

(** [class_name]: [value] is what the registry put in the buffer and the size in bytes it gave. *)
Definition class_name (value : option (list Z * Z)) : option string :=
  match value with
  | None => None
  | Some (buf, size) =>
      let s := from_utf16_lossy (take (Z.to_nat (Z.max (size / 2 - 1) 0)) buf) in
      if decide (s = ""%string) then None else Some s
  end.

(** [providers]: the names of the key's subkeys, up to the first that could not be read, and the
    default values of their classes. *)
Fixpoint providers (subkeys : list (option (list Z))) (value : string → option (list Z * Z)) : list string :=
  match subkeys with
  | Some name :: rest =>
      let clsid := from_utf16_lossy name in
      default clsid (class_name (value clsid)) :: providers rest value
  | _ => []
  end.

(** [Amsi::describe], and that of the scanner that stands in for it off Windows. *)
Definition amsi_describe (ps : list string) : string :=
  match ps with
  | [] => "AMSI, with no anti-malware product registered"
  | _ => "AMSI: " +:+ of_chars (join (to_chars ", ") (to_chars <$> ps))
  end.

Definition missing_describe : string := "AMSI (not available here)".

(** ** This machine's name *)

(** [app::host_name]: the two variables, where they are set, and the text of /etc/hostname. *)
Definition host_name_of `{Unicode} (computername hostname file : option string) : string :=
  let named := match computername with
               | Some s => Some s
               | None => match hostname with Some s => Some s | None => str_trim <$> file end
               end in
  to_lowercase (default "web-access"%string (filter_opt (fun s => negb (bool_decide (s = ""%string))) named)).

(** ** The status page *)

Record DirectoryStatus := mkDirectoryStatus {
  dst_service_account : option string;
  dst_password_set : bool;
  dst_password_readable : bool;
  dst_checks : RevocationHealth;
}.

Record ScanStatus := mkScanStatus { sst_health : Health; sst_admitting : bool; sst_refusing : option string }.

Record MigrationStatus := mkMigrationStatus {
  mst_host : string;
  mst_version : string;
  mst_build : option string;
  mst_recovery_set : bool;
  mst_unlocked : bool;
  mst_frozen : bool;
  mst_counts : Counts;
  mst_live_sessions : nat;
  mst_directory : DirectoryStatus;
  mst_local_accounts : bool;
  mst_scan : option ScanStatus;
}.

(** [migration_status], for an administrator; [version] and [build] are the build's. *)
Definition migration_status (cfg : Config) (host version : string) (build : option string) (scan : option ScanService) (now : Z) :
    W MigrationStatus :=
  counts_ ← sto counts;
  recovery ← sto recovery_set;
  a ← get;
  mret (mkMigrationStatus host version build recovery (is_unlocked (vault_ a)) (frozen (store_ a)) counts_
          (live_count (live a))
          (mkDirectoryStatus (service_account cfg) (directory_password_set (store_ a))
             (directory_password_set (store_ a) && is_unlocked (vault_ a)) (revocation a))
          (local_accounts cfg)
          ((fun s => mkScanStatus (s_health s) (is_ok (service_healthy now s))
              (match service_healthy now s with Ok _ => None | Err e => Some e end)) <$> scan)).

(** ** The key file stays *)

(** The master key's protector stays the same. Once opening the state off Windows has given a
    protector, every later opening gives the same one, whatever random bytes it draws, so that what
    the first protected the later ones open; the file is never written again, and a file of another
    length, left by a write cut short, is reported and not written over. *)
Theorem protector_stays `{C : Crypto} (dpapi dpapi' : KeyProtector) (w w' : KeyFileRun) (random random' : option bytes)
    (files files' : Files) (p : KeyProtector) :
  local_protector false dpapi w random files = (Ok p, files') →
  kf_read w' = None →
  (local_protector false dpapi' w' random' files' = (Ok p, files') ∧
   ∀ data r blob, @protect p data r = Ok blob → @unprotect p blob = Ok data) ∧
  (∀ b, length b ≠ KEY_LEN → ∃ e, local_protector false dpapi' w' random' (<[LOCAL_KEY := b]> files') = (Err e, <[LOCAL_KEY := b]> files')).
Proof.
  intros H Hr. unfold local_protector in *. apply bind_ok_inv in H as (key & f & Hk & [= <- <-]).
  destruct (key_file_made _ _ _ _ _ Hk) as [Hl Hf]. split.
  - split; [|intros; by eapply unprotect_protect]. erewrite bind_ok by (by apply key_file_found). done.
  - intros b Hb. eexists. unfold mbind, M_bind, key_file, get. unfold mbind, M_bind. rewrite Hr, lookup_insert_eq, decide_False by done. done.
Qed.
